(* ===== verification/_CoqProject ===== *)
-Q . S2P
Prelude.v
Workflow.v
Heap.v
Graph.v
GraphBuild.v
GraphOrder.v
Errors.v
Run.v
Ids.v
Snapshot.v
SnapshotValid.v
RunStep.v
RunInv.v
RunProps.v
RunDurable.v
RunTermination.v
RunExamples.v
Broker.v
BrokerProps.v
BrokerWait.v
BrokerExamples.v
Security.v
Sql.v
Tx.v
FileStore.v
FileStoreOps.v
FileStoreInv.v
FileStoreJournal.v
FileStoreProps.v
FileStoreExamples.v
Postgres.v
SqlFacts.v
PostgresRuns.v
PostgresLoad.v
PostgresProps.v
PostgresWorkflows.v
PostgresSecurity.v
PostgresRefines.v
PostgresConcurrent.v
PostgresSerial.v
PostgresExamples.v
RateLimit.v
Engine.v
EngineInv.v
EngineProps.v
EngineRuns.v
EngineWorkers.v
EngineShutdown.v
EngineStore.v
EngineExamples.v
Projects.v
ProjectsProps.v
Duration.v
Handlers.v
Options.v
Heartbeats.v
Events.v
EventsProps.v
EventsLog.v
Metrics.v
MetricsProps.v
Manager.v
EventsExamples.v
Dto.v
Http.v
Server.v
ServerProps.v
Config.v
PostgresMigrations.v
Mux.v
Frontend.v
FrontendProps.v
Tracing.v
Sse.v
Process.v
Nats.v
NatsProps.v
ServerExamples.v
FrontendExamples.v
NatsExamples.v
