(* ===== verification/Prelude.v ===== *)
(** * ForgeFlow: a verification development

    ForgeFlow is a workflow engine written in Go. A client submits a workflow
    definition, a graph of tasks with retry policies. The engine creates a run of
    it, publishes the tasks whose dependencies have succeeded to a task broker,
    leases each delivered task to one worker, records every step in a durable
    store before it acts on it, and recovers expired leases, retries and crashes.
    An HTTP API manages projects, members, workflows and runs.

    ** The parts and their models

    The paths are under [src/internal].

    - [workflow/] (definitions and their dependency graph): [Workflow] has the
      records, retry delays and validation errors; [Heap] is [container/heap];
      [Graph] has [topologicalOrder], [ReadyTasks] and the other queries and
      [GraphBuild] the order in which [buildDependencyGraph] finds errors;
      [GraphOrder] has the theorems.
    - [execution/errors.go]: [Errors] has one [go_error] constructor per error
      type, [Error] and [Unwrap] as functions, and [context.Context] as it is read.
    - [execution/run.go], [execution/reliability.go] (the run aggregate): [Run] has
      a [WorkflowRun] record and one function per method, from the run and a clock
      reading to the new run; [Ids] has the derived identities. [RunStep] makes
      the methods one step relation, [RunInv] proves its invariant,
      [RunProps] the guarantees, [RunTermination] that every history comes to
      rest, [RunExamples] the concrete runs.
    - [execution/store.go] (snapshots): [Snapshot] has [Validate] and
      [restoreWorkflowRun], [SnapshotValid] what [Validate] accepts, [RunDurable]
      the connection with the aggregate.
    - [broker/broker.go], [broker/memory.go]: [Broker] has the in-memory broker as
      a state and its methods; [BrokerProps] its guarantees; [BrokerWait] the loop
      in which [Receive] blocks, with its notification channel, as a step
      relation; [BrokerExamples] concrete histories.
    - [broker/nats.go]: [Nats] has the broker over a JetStream client, [NatsProps]
      its guarantees, [NatsExamples] a small server with concrete messages.
    - [security/]: [Security] has roles, records, validation, the authenticator with
      the options of its token parser, and [authorizeProject]; [RateLimit] the
      fixed-window limiter.
    - [persistence/file_store.go] (the journal store): [FileStore] has memory, the
      journal file as bytes, the append path with the answers of the operating
      system as a script, and replay; [FileStoreOps] one function per method.
      [FileStoreInv] proves that a committed record replays to the new memory,
      [FileStoreJournal] the guarantees about the file, [FileStoreProps] those
      about memory, [FileStoreExamples] a concrete journal.
    - [persistence/postgres_store.go], [persistence/postgres_security.go] and the
      schema in [persistence/migrations]: [Sql] has the tables with their
      constraints and every statement as a function on them, [Tx] transactions as
      programs of statements that can fail anywhere, [Postgres] and
      [PostgresSecurity] one definition per method. [SqlFacts], [PostgresRuns],
      [PostgresLoad], [PostgresProps] and [PostgresWorkflows] prove what a transaction
      leaves in the tables and what is read back, [PostgresRefines] that the store
      behaves as the journal store does. [PostgresConcurrent] interleaves the
      statements of transactions under row locks and [PostgresSerial] proves that they
      serialize; [PostgresExamples] has concrete databases. [PostgresMigrations] has
      [postgres_migrations.go] as a machine that sends one statement after the other,
      and the startup of several processes on one database.
    - [execution/engine.go], [execution/engine_broker.go] (the scheduler):
      [Engine] has the whole of [executeBrokerRun] with [Execute] and [Recover] in
      a state monad with early return. A pass of its loop reads an [iteration]
      from outside: contexts, the calls of other goroutines on the broker, and the
      event that [select] takes. [EngineInv] has the invariant, [EngineProps] and
      [EngineRuns] its preservation and the guarantees. [EngineWorkers] adds the
      worker goroutines and the channels, with handlers that return and that panic;
      [EngineShutdown] follows the workers after the scheduler has returned.
      [EngineStore] makes the journal store and the PostgreSQL store the engine's
      store, and [EngineExamples] runs it.
    - [execution/options.go], [execution/handler.go]: [Options] has the engine
      configuration, its options and [NewEngine]; [Handlers] the registry and the
      demo handlers; [Duration] is [time.ParseDuration] and [Duration.String].
    - [execution/clock.go] and [emitHeartbeats] of [execution/engine.go]: [Heartbeats]
      has the timers and the heartbeat goroutine of a worker in time, together with
      the scheduler that records its heartbeats.
    - [api/projects.go], [api/authorization.go]: [Projects] has the handlers and
      the mapping of errors to responses, [ProjectsProps] their guarantees.
    - [api/events.go] (run events): [Events] has the derivation of events from two
      snapshots, the event broker with its channels, the store that observes every
      save, and a round of an event stream. [EventsProps] has the guarantees of
      the broker and of a stream, [EventsLog] the refinement of the durable
      history and the observed store as a store of the engine.
    - [api/manager.go] (executions in progress): [Manager] has the methods and the
      steps of the goroutines between them. [EventsExamples] has concrete logs,
      streams and executions.
    - [api/dto.go], [api/server.go]: [Dto] has requests and responses, [Http] the
      checks on methods, media types, bodies and headers, [Server] the handlers
      over the journal store, the observed store and the manager, with
      authentication and rate limiting in front. [ServerProps] has their
      guarantees, [ServerExamples] concrete requests. [Mux] has the routes and the
      matching of [http.ServeMux]; [Frontend] has [ServeHTTP] from
      the request line to the response, with [api/observability.go], the request
      identity and the log record of [observability/context.go] and
      [instrumentation.go]; [FrontendProps] its guarantees. [Sse] has the text of an
      event stream over several connections. [FrontendExamples] has concrete
      requests, a stream that is cut, and a process.
    - [observability/metrics.go]: [Metrics] has the registry and its text format,
      [MetricsProps] the connection of its gauges with the runs.
    - [observability/instrumentation.go], [observability/context.go] and the spans of
      the API, the observed store, the scheduler and the workers: [Tracing] has the
      bundle, the values that contexts carry, and where each span is started.
    - [app/app.go]: [Config] has the configuration from the environment, with the
      settings of [broker/nats.go] and [observability/tracing.go] it validates, the
      wiring of a server and the redaction of errors, with their guarantees.
      [Process] has [Run], from the checks to the shutdown, with the tracer provider
      of [observability/tracing.go] and the exit status of [cmd/forgeflow].

    A run passes through all of them: [handleWorkflowRuns] creates it through the
    observed store, the manager starts a goroutine for it, the engine's [Recover]
    executes it and saves every step, the event broker turns each save into
    events, and a stream sends them to a client.

    This file has what the others share: fallible computations, machine integers,
    strings as bytes with their runes, sorting, and maps.

    ** What the theorems show

    - Definitions: validation accepts exactly the well-formed acyclic ones; the
      topological order is the least one, and is refused only for a definition that is
      malformed or cyclic; [ReadyTasks] is exact; backoff has a closed form.
    - Run aggregate: for every history of method calls, states are well formed, an
      attempt completes at most once, an expired worker is fenced off, deadlines are
      exact, the status changes are bounded, running states are accepted by the store,
      and reconstruction inverts snapshots. The heartbeats of a worker keep its task
      when three times the lag of its goroutine, of the channel and of the scheduler
      fits between the heartbeat interval and the lease duration.
    - Broker: every message is in one state per subscription, deliveries settle
      once, publication is idempotent. Over NATS a message whose data and headers the
      server carries comes back as it was published, but for control headers, a delivery settles once, subscriptions do not share a consumer, and
      a closed broker stays closed.
    - Journal: for records of valid UTF-8, reopening restores memory and a crash in an
      append is atomic; versions are optimistic, references and the audit trail are kept.
    - PostgreSQL: every database that admissible operations and failures lead to
      matches a journal store after accepted operations, and reads agree; the
      concurrent transactions of all methods that write serialize in the order of
      their commits, so that several processes together match a journal store too, and
      each version of a run has one winner; the embedded migrations are applied once and
      in the order of their versions.
    - Scheduler: for every schedule, clock and store that satisfies [StoreLaws], as
      both stores do, a nil result means a finished run, dependencies succeed first,
      the store holds the run between passes, no run stalls, and [Recover] takes over in
      a process with another clock, configuration and registry. However the scheduler
      returns, its workers return within a bounded number of steps, change neither the
      run nor the store, and give back every delivery they hold then or still receive.
    - Tracing: the span of a worker is below the first publication of its message,
      however the message is redelivered, and that is below the request that started
      the run; the records of a save have the trace and the span they belong to.
    - Events: the log refines the durable history of the run, streams are exact,
      the broker's latest snapshot is the stored one, and no channel is closed twice;
      a client that reconnects with the identifier of the last event it has received is
      sent the log without gap or repetition.
    - Metrics: the gauge of running tasks is the number of running tasks of the runs
      that the process has created or has found without a running task.
    - Process: a configuration that is accepted can be started; what [Run] acquires
      it releases once and in reverse order; it returns nil exactly after a clean run,
      and the error a process ends with carries none of the secrets that can be told
      from the text that replaces them.
    - Executions: a run is executed at most once at a time, and shutdown is final.
    - HTTP: no request reaches an API handler without a principal, however its path
      is escaped; each is counted once under the status its client received.
    - API: only admins change a project, non-members cannot reach it, its workflows and
      runs, a project keeps an admin as long as requests are served one at a time;
      created workflows are valid, accepted runs are executed, accepted
      cancellations reach the run, and a refused caller is admitted after the time
      it was told to wait.
    - Defects: an interleaving that leases two tasks to one worker and aborts the
      run, one in which a late heartbeat of a worker whose handler panicked aborts it,
      two ways in which a failed append spoils the journal, lost wake-ups and
      a stranded receiver in the broker, the race on the last admin, names with
      which a user or a project gets stuck, error codes that tell what other
      projects have, a run that is refused and yet stored, a cancellation that is
      lost, and events that a client with an old event number is not sent. These are
      theorems about concrete or general histories, listed as findings.

    ** Representation

    Times are nanoseconds in [Z], with zero for the zero time; [int] and [uint64]
    arithmetic wraps where it can overflow. Go maps are [gmap]s; a loop over one
    either sorts its keys or does not depend on the order ([RunStep]). Three kinds
    of loop take fuel: the topological loop gets one step per task, and each step
    pops another task; the sift loops of the heap get its length, and each step
    moves at least one place; the loop of [ParseDuration] gets the length of its
    input, and each step reads a part of it ([parse_loop_fuel]). The theorems are
    about the results with that fuel. A channel is a number, a goroutine of the
    manager is a number that also stands for its cancel function.

    ** Assumptions and limits

    The class [Unicode] stands for the tables of printable runes and [UnicodeCase]
    and [UnicodeLower] for those of case, [DispatchCodec], [JournalCodec] and
    [MetadataCodec] for JSON and SHA-256. The token parser is an argument of
    [Authenticate], and [parse_valid] states what the options of the parser promise.
    Tracer providers and propagators of OpenTelemetry are fields of the bundle; the
    classes [Continues] and [Carries] state what they promise. What the JSON decoder
    makes of a body, what the encoder makes of a response, and random bytes are
    arguments of the handlers. [JournalCodecLaws] states what the journal needs of its
    encoding, and [StoreLaws] what the engine needs of a store; both have instances.

    The class [Postgres] has what the database server decides: which texts a column
    takes, how it rounds times, and its collation; [PostgresLaws] are the laws of
    these, and have an instance. The database turns a time in the microsecond after
    the zero time into the zero time; [time_kept] excludes it, for the operations
    [admissible] allows, and for all times where [Recover] is used with the PostgreSQL
    store ([PostgresKeeps]). A statement and a commit can fail
    at any point, and the answer of a commit can be lost. READ COMMITTED is modelled
    by the rows a statement sees when it runs and the locks it takes; that the driver
    cuts times to microseconds is the class [PostgresTruncates].
    The class [JetStream] has the calls of the NATS client; [carries] states what the
    message that it hands out has of the published one. The ownership
    that [saveOwnedWorkflowTx] reads back is compared by [==], to which the location
    that the driver gives a time matters; it is an argument.

    A crash is modelled between two passes of the scheduler and at every byte of an
    append. The engine runs over the in-memory broker, and the NATS broker is verified
    on its own. The handlers of the API run over the journal store; [PostgresRefines]
    relates the PostgreSQL store to it. An HTTP request is served as one step, except
    where an interleaving is the subject.

    Not modelled: the database server, the NATS server and client, JSON, tokens,
    trace exporters and the HTTP protocol below [ServeHTTP], which are code outside
    the repository; the system clock, whose readings are arguments; the delivery of
    signals; the down migrations, which the program never executes. The calls by
    which the scheduler moves the gauges of active workers and of the queue are left
    out: nothing reads these gauges back. *)
From stdpp Require Export base gmap sets list strings sorting pretty.
From Stdlib Require Export ZArith.

Declare Scope go_scope.
Delimit Scope go_scope with go.
Open Scope go_scope.

(** ** Fallible computations

    A Go function that returns [(value, error)] is a function into [res E A]:
    [Ok v] is the [nil]-error return, [Err e] the early return with [e]. *)

Inductive res (E A : Type) : Type :=
| Ok (value : A)
| Err (error : E).
Arguments Ok {E A} value.
Arguments Err {E A} error.

Definition rbind {E A B : Type} (m : res E A) (k : A -> res E B) : res E B :=
  match m with
  | Ok v => k v
  | Err e => Err e
  end.

Definition rmap_err {E F A : Type} (f : E -> F) (m : res E A) : res F A :=
  match m with
  | Ok v => Ok v
  | Err e => Err (f e)
  end.

(** A guard [if cond { return err }] followed by the rest of the body. *)
Definition guard_err {E A : Type} (failing : bool) (e : E) (rest : res E A) : res E A :=
  if failing then Err e else rest.

Notation "'try' x <- m ;; k" := (rbind m (fun x => k))
  (at level 200, x pattern, m at level 99, k at level 200, right associativity) : go_scope.
Notation "'fail_if' c 'with' e ;; k" := (guard_err c e k)
  (at level 200, c at level 99, e at level 99, k at level 200, right associativity) : go_scope.

Definition is_ok {E A : Type} (m : res E A) : bool :=
  match m with Ok _ => true | Err _ => false end.

(** ** Machine integers and time

    [int] and [time.Duration] are 64-bit signed integers, [uint64] is unsigned.
    A [time.Time] is the instant it denotes, in nanoseconds since the zero time
    (year 1), so that [IsZero] is equality with zero; locations and monotonic
    readings are left out, because the times that the program compares by [==] come
    from [UTC], which drops both. A time that was read from a database is the
    exception, and [saveOwnedWorkflowTx] takes its location as an argument. *)

#[export] Unset Default Proof Using.
Open Scope Z_scope.

Definition max_int64 : Z := 9223372036854775807.
Definition min_int64 : Z := -9223372036854775808.
Definition wrap_int64 (z : Z) : Z := (z + 9223372036854775808) mod 18446744073709551616 - 9223372036854775808.
Definition wrap_uint64 (z : Z) : Z := z mod 18446744073709551616.
Definition in_int64 (z : Z) : Prop := min_int64 <= z <= max_int64.
Definition in_uint64 (z : Z) : Prop := 0 <= z < 18446744073709551616.

Lemma wrap_int64_id (z : Z) : in_int64 z -> wrap_int64 z = z.
Proof.
  unfold in_int64, wrap_int64, min_int64, max_int64. intros H.
  rewrite Z.mod_small; lia.
Qed.

Lemma wrap_uint64_id (z : Z) : in_uint64 z -> wrap_uint64 z = z.
Proof. unfold in_uint64, wrap_uint64. intros H. rewrite Z.mod_small; lia. Qed.

Definition zero_time : Z := 0.
Definition time_is_zero (t : Z) : bool := t =? zero_time.
Definition time_before (a b : Z) : bool := a <? b.
Definition time_add (t d : Z) : Z := t + d.
(** [Time.Sub] saturates at the bounds of [time.Duration]. *)
Definition time_sub (a b : Z) : Z := Z.max min_int64 (Z.min max_int64 (a - b)).

(** ** Strings

    A Go string is a sequence of bytes ([string], one [ascii] per byte).
    Ranging over it decodes UTF-8; an invalid byte yields U+FFFD with width 1. *)

Definition byte_val (c : Ascii.ascii) : Z := Z.of_N (Ascii.N_of_ascii c).
Fixpoint bytes_of (s : string) : list Z :=
  match s with
  | EmptyString => []
  | String c t => byte_val c :: bytes_of t
  end.

Definition in_range (lo hi z : Z) : bool := (lo <=? z) && (z <=? hi).
Definition rune_error : Z := 65533.

Definition low6 (b : Z) : Z := Z.land b 63.
Definition is_cont (b : Z) : bool := in_range 128 191 b.

(** [utf8.DecodeRuneInString] on a non-empty string. *)
Definition decode_rune (b0 : Z) (rest : list Z) : Z * nat :=
  let invalid := (rune_error, 1%nat) in
  let second_lo := if b0 =? 224 then 160 else if b0 =? 240 then 144 else 128 in
  let second_hi := if b0 =? 237 then 159 else if b0 =? 244 then 143 else 191 in
  if b0 <? 128 then (b0, 1%nat)
  else if in_range 194 223 b0 then
    match rest with
    | b1 :: _ =>
        if is_cont b1 then (Z.lor (Z.shiftl (Z.land b0 31) 6) (low6 b1), 2%nat) else invalid
    | _ => invalid
    end
  else if in_range 224 239 b0 then
    match rest with
    | b1 :: b2 :: _ =>
        if in_range second_lo second_hi b1 && is_cont b2
        then (Z.lor (Z.shiftl (Z.land b0 15) 12) (Z.lor (Z.shiftl (low6 b1) 6) (low6 b2)), 3%nat)
        else invalid
    | _ => invalid
    end
  else if in_range 240 244 b0 then
    match rest with
    | b1 :: b2 :: b3 :: _ =>
        if in_range second_lo second_hi b1 && is_cont b2 && is_cont b3
        then (Z.lor (Z.shiftl (Z.land b0 7) 18)
                (Z.lor (Z.shiftl (low6 b1) 12) (Z.lor (Z.shiftl (low6 b2) 6) (low6 b3))), 4%nat)
        else invalid
    | _ => invalid
    end
  else invalid.

(** The runes of a byte sequence with their widths; [skip] counts the bytes of
    the current rune that are still to be passed over. *)
Fixpoint runes_from (skip : nat) (bs : list Z) : list (Z * nat) :=
  match bs with
  | [] => []
  | b :: rest =>
      match skip with
      | S k => runes_from k rest
      | O => let '(r, w) := decode_rune b rest in (r, w) :: runes_from (w - 1) rest
      end
  end.
Definition runes (s : string) : list (Z * nat) := runes_from 0 (bytes_of s).

(** [unicode.IsSpace] and [unicode.IsControl]. *)
Definition is_space (r : Z) : bool :=
  in_range 9 13 r || (r =? 32) || (r =? 133) || (r =? 160) || (r =? 5760)
  || in_range 8192 8202 r || (r =? 8232) || (r =? 8233) || (r =? 8239) || (r =? 8287) || (r =? 12288).
Definition is_control (r : Z) : bool := in_range 0 31 r || in_range 127 159 r.

(** The four identical [validIdentifier] helpers of the packages [workflow],
    [execution], [broker] and [api]. *)
Definition validIdentifier (identifier : string) : bool :=
  match identifier with
  | EmptyString => false
  | _ => forallb (fun '(r, _) => negb (is_space r || is_control r)) (runes identifier)
  end.

Fixpoint leading_space_width (rs : list (Z * nat)) : nat :=
  match rs with
  | [] => 0
  | (r, w) :: rest => if is_space r then (w + leading_space_width rest)%nat else 0
  end.

(** [strings.TrimSpace]. *)
Definition trim_space (s : string) : string :=
  let rs := runes s in
  let lead := leading_space_width rs in
  let trail := leading_space_width (rev rs) in
  String.substring lead (String.length s - lead - trail) s.

Definition string_is_empty (s : string) : bool :=
  match s with EmptyString => true | _ => false end.

Lemma substring_all (s : string) (n : nat) : (String.length s <= n)%nat -> String.substring 0 n s = s.
Proof. revert n. induction s as [|c s IH]; intros [|n] Hn; cbn in *; try done; try lia. by rewrite IH by lia. Qed.

(** ** Ordering and sorting

    Go compares strings byte by byte. The program only sorts by string keys
    that are unique within the slice, so any sorting algorithm yields the same
    slice; [sort_by] is stdpp's merge sort. *)

Definition key_le {A : Type} (key : A -> string) (x y : A) : Prop := String.le (key x) (key y).
#[export] Instance key_le_dec {A : Type} (key : A -> string) : RelDecision (key_le key).
Proof. intros x y. unfold key_le. apply _. Defined.
#[export] Instance key_le_trans {A : Type} (key : A -> string) : Transitive (key_le key).
Proof. intros x y z. unfold key_le. apply transitivity. Qed.
#[export] Instance key_le_total {A : Type} (key : A -> string) : Total (key_le key).
Proof. intros x y. unfold key_le. apply total, _. Qed.

Definition sort_by {A : Type} (key : A -> string) (l : list A) : list A :=
  merge_sort (key_le key) l.
Definition sort_strings (l : list string) : list string := sort_by id l.

Lemma sort_by_perm {A : Type} (key : A -> string) (l : list A) : sort_by key l ≡ₚ l.
Proof. apply merge_sort_Permutation. Qed.

Lemma sort_by_sorted {A : Type} (key : A -> string) (l : list A) :
  StronglySorted (key_le key) (sort_by key l).
Proof. apply StronglySorted_merge_sort; apply _. Qed.

(** ** Loops with early return *)

Fixpoint foldM {E A S : Type} (f : S -> A -> res E S) (s : S) (l : list A) : res E S :=
  match l with
  | [] => Ok s
  | x :: rest => try s' <- f s x ;; foldM f s' rest
  end.

Lemma rbind_ok {E A B : Type} (m : res E A) (k : A -> res E B) (b : B) :
  rbind m k = Ok b <-> exists a, m = Ok a /\ k a = Ok b.
Proof. destruct m; cbn; naive_solver. Qed.

Lemma guard_err_ok {E A : Type} (c : bool) (e : E) (k : res E A) (a : A) :
  guard_err c e k = Ok a <-> c = false /\ k = Ok a.
Proof. unfold guard_err. destruct c; naive_solver. Qed.

Lemma rmap_err_ok {E F A : Type} (f : E -> F) (m : res E A) (a : A) :
  rmap_err f m = Ok a <-> m = Ok a.
Proof. destruct m; naive_solver. Qed.

Lemma foldM_app {E A S : Type} (f : S -> A -> res E S) (s : S) (l k : list A) :
  foldM f s (l ++ k) = try s' <- foldM f s l ;; foldM f s' k.
Proof.
  revert s. induction l as [|x l IH]; intros s; cbn; [done|].
  destruct (f s x); cbn; [apply IH|done].
Qed.

(** A loop with early return succeeds exactly when every iteration does; the
    invariant [P] is indexed by the elements already visited and the guard [Q]
    by the elements visited before the current one. [R] is what is known of
    every element. *)
Lemma foldM_invariant {E A S : Type} (f : S -> A -> res E S) (R : A -> Prop)
    (P : list A -> S -> Prop) (Q : list A -> A -> Prop) :
  (forall pre s x, R x -> P pre s ->
     match f s x with
     | Ok s' => Q pre x /\ P (pre ++ [x]) s'
     | Err _ => ~ Q pre x
     end) ->
  forall l pre s, Forall R l -> P pre s ->
    match foldM f s l with
    | Ok s' => (forall l1 x l2, l = l1 ++ x :: l2 -> Q (pre ++ l1) x) /\ P (pre ++ l) s'
    | Err _ => exists l1 x l2, l = l1 ++ x :: l2 /\ ~ Q (pre ++ l1) x
    end.
Proof.
  intros Hstep. induction l as [|x l IH]; intros pre s HR HP; cbn.
  { rewrite app_nil_r. split; [|done]. intros l1 x l2 H. by destruct l1. }
  apply Forall_cons in HR as [Hx HR].
  specialize (Hstep pre s x Hx HP). destruct (f s x) as [s'|e]; cbn.
  - destruct Hstep as [HQ HP']. specialize (IH (pre ++ [x]) s' HR HP').
    destruct (foldM f s' l) as [s''|e].
    + destruct IH as [IH1 IH2]. rewrite <- app_assoc in IH2. split; [|done].
      intros [|y l1] z l2 Heq; simplify_eq/=; [by rewrite app_nil_r|].
      replace (pre ++ y :: l1) with ((pre ++ [y]) ++ l1) by by rewrite <- app_assoc.
      by eapply IH1.
    + destruct IH as (l1 & z & l2 & -> & Hn). exists (x :: l1), z, l2. split; [done|].
      by rewrite <- app_assoc in Hn.
  - exists [], x, l. split; [done|]. by rewrite app_nil_r.
Qed.

Lemma Forall_trivial {A : Type} (l : list A) : Forall (fun _ => True) l.
Proof. by apply Forall_true. Qed.

(** ** Lists *)

Lemma split_elem {A : Type} (l : list A) (x : A) : x ∈ l -> exists l1 l2, l = l1 ++ x :: l2.
Proof. intros H. apply list_elem_of_split in H. naive_solver. Qed.

Lemma not_forall_split {A : Type} (Q : A -> Prop) (l : list A) :
  (exists l1 x l2, l = l1 ++ x :: l2 /\ ~ Q x) -> ~ Forall Q l.
Proof.
  intros (l1 & x & l2 & -> & Hn) HF. rewrite Forall_app, Forall_cons in HF. naive_solver.
Qed.

(** Two sorted permutations of a slice with unique keys are equal, whatever
    algorithm sorted them. *)
Lemma sort_by_unique {A : Type} (key : A -> string) (l k : list A) :
  NoDup (key <$> l) -> k ≡ₚ l -> StronglySorted (key_le key) k -> k = sort_by key l.
Proof.
  intros Hnd Hp Hs. apply (StronglySorted_unique_strong (key_le key)).
  - intros x y Hx Hy Hxy Hyx.
    assert (key x = key y) as Hk by by apply (anti_symm String.le).
    rewrite Hp in Hx. rewrite sort_by_perm in Hy. clear -Hnd Hx Hy Hk.
    induction l as [|z l IH]; [by apply elem_of_nil in Hx|].
    cbn in Hnd. apply NoDup_cons in Hnd as [Hz Hnd].
    apply elem_of_cons in Hx, Hy. rewrite list_elem_of_fmap in Hz. naive_solver.
  - done.
  - apply sort_by_sorted.
  - by rewrite Hp, sort_by_perm.
Qed.
