(* ===== verification/Workflow.v ===== *)
(** * Workflow definitions and retry policy

    Models [src/internal/workflow/definition.go] and the error values of
    [src/internal/workflow/errors.go]: the definition records, the attempt
    limit and the exponential retry delay with its overflow clamp. *)
From S2P Require Import Prelude.

Record RetryPolicy := mkRetryPolicy {
  MaxAttempts : Z;
  InitialBackoff : Z;
  MaxBackoff : Z
}.

(** [td_Dependencies] is a Go slice: [None] is the nil slice, [Some l] a non-nil
    one. The two differ for [reflect.DeepEqual] only; every loop reads
    [deps]. *)
Record TaskDefinition := mkTaskDefinition {
  td_ID : string;
  td_Name : string;
  td_Dependencies : option (list string);
  td_Handler : string;
  td_Input : string;
  td_Retry : RetryPolicy
}.

Definition deps (task : TaskDefinition) : list string := default [] (td_Dependencies task).

Record WorkflowDefinition := mkWorkflowDefinition {
  wd_ID : string;
  wd_Tasks : list TaskDefinition
}.

#[export] Instance RetryPolicy_eq_dec : EqDecision RetryPolicy.
Proof. solve_decision. Defined.
#[export] Instance TaskDefinition_eq_dec : EqDecision TaskDefinition.
Proof. solve_decision. Defined.
#[export] Instance WorkflowDefinition_eq_dec : EqDecision WorkflowDefinition.
Proof. solve_decision. Defined.

(** ** [ValidationError] *)

Inductive ValidationCode :=
| ValidationInvalidWorkflowID
| ValidationEmptyWorkflow
| ValidationInvalidTaskID
| ValidationInvalidTaskName
| ValidationDuplicateTaskID
| ValidationInvalidDependencyID
| ValidationMissingDependency
| ValidationSelfDependency
| ValidationDuplicateDependency
| ValidationCycle
| ValidationUnknownCompletedTask
| ValidationInvalidRetryPolicy.

#[export] Instance ValidationCode_eq_dec : EqDecision ValidationCode.
Proof. solve_decision. Defined.

Record ValidationError := mkValidationError {
  ve_Code : ValidationCode;
  ve_WorkflowID : string;
  ve_TaskID : string;
  ve_DependencyID : string;
  ve_Reason : string
}.

#[export] Instance ValidationError_eq_dec : EqDecision ValidationError.
Proof. solve_decision. Defined.

(** ** Attempt limit and retry delay *)

Definition EffectiveMaxAttempts (policy : RetryPolicy) : Z :=
  if MaxAttempts policy =? 0 then 1 else MaxAttempts policy.

(** The loop of [RetryDelay]: [n] remaining iterations with the current
    [delay]. Its early return is the [inl] exit. *)
Fixpoint retry_delay_loop (policy : RetryPolicy) (n : nat) (delay : Z) : Z + Z :=
  match n with
  | O => inr delay
  | S k =>
      if (MaxBackoff policy >? 0) && (delay >=? MaxBackoff policy) then inl (MaxBackoff policy)
      else if delay >? Z.quot max_int64 2 then retry_delay_loop policy k max_int64
      else retry_delay_loop policy k (wrap_int64 (delay * 2))
  end.

Definition RetryDelay (policy : RetryPolicy) (completedAttempt : Z) : Z :=
  if (completedAttempt <? 1) || (InitialBackoff policy <=? 0) then 0
  else
    match retry_delay_loop policy (Z.to_nat (completedAttempt - 1)) (InitialBackoff policy) with
    | inl early => early
    | inr delay =>
        if (MaxBackoff policy >? 0) && (delay >? MaxBackoff policy)
        then MaxBackoff policy else delay
    end.

(** ** The delay in closed form *)

(** The uncapped delay saturates at the largest [time.Duration]. *)
Definition delay_spec (policy : RetryPolicy) (n : Z) : Z :=
  let doubled := Z.min max_int64 (InitialBackoff policy * 2 ^ (n - 1)) in
  if MaxBackoff policy >? 0 then Z.min (MaxBackoff policy) doubled else doubled.

Definition policy_in_range (policy : RetryPolicy) : Prop :=
  in_int64 (MaxAttempts policy) /\ in_int64 (InitialBackoff policy) /\ in_int64 (MaxBackoff policy).

Definition cap_delay (policy : RetryPolicy) (d : Z) : Z :=
  if MaxBackoff policy >? 0 then Z.min (MaxBackoff policy) d else d.

Definition finish_delay (policy : RetryPolicy) (r : Z + Z) : Z :=
  match r with
  | inl early => early
  | inr delay => cap_delay policy delay
  end.

Lemma pow2_succ (k : nat) : 2 ^ Z.of_nat (S k) = 2 * 2 ^ Z.of_nat k.
Proof. rewrite Nat2Z.inj_succ, Z.pow_succ_r; lia. Qed.

Lemma pow2_pos (k : nat) : 1 <= 2 ^ Z.of_nat k.
Proof. pose proof (Z.pow_pos_nonneg 2 (Z.of_nat k)). lia. Qed.

Lemma retry_delay_loop_spec (policy : RetryPolicy) (n : nat) (d : Z) :
  in_int64 (MaxBackoff policy) -> 0 < d <= max_int64 ->
  finish_delay policy (retry_delay_loop policy n d)
  = cap_delay policy (Z.min max_int64 (d * 2 ^ Z.of_nat n)).
Proof.
  intros Hcap. revert d. induction n as [|k IH]; intros d Hd.
  - cbn. f_equal. lia.
  - cbn [retry_delay_loop]. rewrite pow2_succ. pose proof (pow2_pos k) as Hpow.
    unfold in_int64, max_int64 in *.
    assert (Hq : Z.quot 9223372036854775807 2 = 4611686018427387903) by reflexivity.
    destruct ((MaxBackoff policy >? 0) && (d >=? MaxBackoff policy)) eqn:Hearly.
    + cbn. unfold cap_delay. apply andb_true_iff in Hearly as [Hp Hge]. rewrite Hp. nia.
    + rewrite Hq. destruct (d >? 4611686018427387903) eqn:Hbig.
      * rewrite IH by lia. f_equal. nia.
      * rewrite wrap_int64_id by (unfold in_int64, min_int64, max_int64; lia).
        rewrite IH by lia. f_equal. f_equal. nia.
Qed.

Lemma RetryDelay_finish (policy : RetryPolicy) (n : Z) :
  1 <= n -> 0 < InitialBackoff policy ->
  RetryDelay policy n
  = finish_delay policy (retry_delay_loop policy (Z.to_nat (n - 1)) (InitialBackoff policy)).
Proof.
  intros Hn Hi. unfold RetryDelay.
  replace ((n <? 1) || (InitialBackoff policy <=? 0)) with false by lia.
  destruct (retry_delay_loop _ _ _) as [e|d]; [done|]. unfold finish_delay, cap_delay.
  destruct (MaxBackoff policy >? 0) eqn:Hp; [|done]. cbn.
  destruct (d >? MaxBackoff policy) eqn:Hd; lia.
Qed.

Lemma RetryDelay_eq_spec (policy : RetryPolicy) (n : Z) :
  policy_in_range policy -> 1 <= n -> 0 < InitialBackoff policy ->
  RetryDelay policy n = delay_spec policy n.
Proof.
  intros (_ & Hi & Hm) Hn Hpos. rewrite RetryDelay_finish by done.
  rewrite retry_delay_loop_spec by (unfold in_int64 in *; lia || done).
  rewrite Z2Nat.id by lia. reflexivity.
Qed.

(** C38: exponential backoff, for every machine-sized policy and every attempt number.
    For [n >= 1] and a positive initial backoff, the doubling loop of [RetryDelay]
    computes [InitialBackoff * 2^(n-1)], saturated at the largest duration and capped at
    [MaxBackoff] when that is set to a positive value: no intermediate product overflows
    and the early return changes nothing. Otherwise the delay is zero. *)
Theorem RetryDelay_closed_form (policy : RetryPolicy) (n : Z) :
  policy_in_range policy ->
  RetryDelay policy n =
    if (1 <=? n) && (0 <? InitialBackoff policy) then
      let doubled := Z.min max_int64 (InitialBackoff policy * 2 ^ (n - 1)) in
      if MaxBackoff policy >? 0 then Z.min (MaxBackoff policy) doubled else doubled
    else 0.
Proof.
  intros Hr. destruct ((1 <=? n) && _) eqn:E; [by apply RetryDelay_eq_spec; [|lia..]|].
  unfold RetryDelay. by replace ((n <? 1) || (InitialBackoff policy <=? 0)) with true by lia.
Qed.

Lemma RetryDelay_closed_form_witness :
  RetryDelay (mkRetryPolicy 9 3 100) 4 = 24 /\ RetryDelay (mkRetryPolicy 9 3 0) 63 = max_int64.
Proof.
  split; (etrans; [apply RetryDelay_closed_form|reflexivity]);
    unfold policy_in_range, in_int64, min_int64, max_int64; cbn; lia.
Defined.

Lemma delay_spec_nonneg (policy : RetryPolicy) (n : Z) :
  0 < InitialBackoff policy -> 1 <= n -> 0 < delay_spec policy n <= max_int64.
Proof.
  intros Hi Hn. unfold delay_spec, max_int64.
  assert (0 < 2 ^ (n - 1)) by (apply Z.pow_pos_nonneg; lia).
  destruct (MaxBackoff policy >? 0) eqn:Hm; nia.
Qed.

(** The delay never decreases from one attempt to the next, is never
    negative, and never exceeds a configured maximum. *)
Theorem RetryDelay_monotone_bounded (policy : RetryPolicy) (m n : Z) :
  policy_in_range policy -> m <= n ->
  0 <= RetryDelay policy m <= RetryDelay policy n /\ RetryDelay policy n <= max_int64 /\
  (0 < MaxBackoff policy -> RetryDelay policy n <= MaxBackoff policy).
Proof.
  intros Hr Hmn.
  assert (Hzero : forall k, (k <? 1) || (InitialBackoff policy <=? 0) = true -> RetryDelay policy k = 0).
  { intros k Hk. unfold RetryDelay. by rewrite Hk. }
  destruct (decide (0 < InitialBackoff policy)) as [Hi|Hi];
    [|rewrite !Hzero by lia; unfold max_int64; lia].
  destruct (decide (1 <= n)) as [Hn|Hn]; [|rewrite !Hzero by lia; unfold max_int64; lia].
  rewrite (RetryDelay_eq_spec policy n) by done.
  pose proof (delay_spec_nonneg policy n Hi Hn) as Hbn.
  split; [|split; [lia|intros; unfold delay_spec; destruct (MaxBackoff policy >? 0) eqn:?; lia]].
  destruct (decide (1 <= m)) as [Hm|Hm]; [|rewrite Hzero; lia].
  rewrite (RetryDelay_eq_spec policy m) by done.
  pose proof (delay_spec_nonneg policy m Hi Hm) as Hbm. split; [lia|].
  assert (2 ^ (m - 1) <= 2 ^ (n - 1)) by (apply Z.pow_le_mono_r; lia).
  unfold delay_spec. destruct (MaxBackoff policy >? 0); nia.
Qed.

Lemma RetryDelay_monotone_bounded_witness :
  0 <= RetryDelay (mkRetryPolicy 9 3 20) 2 <= RetryDelay (mkRetryPolicy 9 3 20) 70 /\
  RetryDelay (mkRetryPolicy 9 3 20) 70 = 20.
Proof.
  split; [|reflexivity].
  apply (RetryDelay_monotone_bounded (mkRetryPolicy 9 3 20) 2 70); [|lia].
  unfold policy_in_range, in_int64, min_int64, max_int64. cbn. lia.
Defined.
