(* ===== verification/Heap.v ===== *)
(** * The ready queue: [container/heap] over [taskIDHeap]

    Models the [heap.Interface] methods of [taskIDHeap]
    ([src/internal/workflow/graph.go]) and the library routines that the
    topological sort calls on it: [heap.Init], [heap.Push] and [heap.Pop] with
    their sift loops. The theorems show that the array is a priority queue:
    [heap_pop] removes a least task ID, and no operation loses or duplicates an
    element. Sift loops take fuel; the length of the array is enough because a
    sift moves strictly towards a leaf or the root. *)
From S2P Require Import Prelude.
#[local] Open Scope nat_scope.

(** ** The [heap.Interface] methods *)

Definition heap_less (h : list string) (left right : nat) : bool :=
  String.ltb (h !!! left) (h !!! right).

Definition heap_swap (h : list string) (left right : nat) : list string :=
  <[left := h !!! right]> (<[right := h !!! left]> h).

Definition heap_append (h : list string) (value : string) : list string := h ++ [value].

(** [Pop] of the interface: the last element and the shortened slice. *)
Definition heap_last (h : list string) : string * list string :=
  let lastIndex := length h - 1 in (h !!! lastIndex, take lastIndex h).

(** ** The library routines *)

Fixpoint sift_down (fuel : nat) (h : list string) (i n : nat) : list string :=
  match fuel with
  | O => h
  | S k =>
      let j1 := 2 * i + 1 in
      if n <=? j1 then h
      else
        let j2 := j1 + 1 in
        let j := if (j2 <? n) && heap_less h j2 j1 then j2 else j1 in
        if heap_less h j i then sift_down k (heap_swap h i j) j n else h
  end.

Fixpoint sift_up (fuel : nat) (h : list string) (j : nat) : list string :=
  match fuel with
  | O => h
  | S k =>
      let i := (j - 1) / 2 in
      if (i =? j) || negb (heap_less h j i) then h
      else sift_up k (heap_swap h i j) i
  end.

Fixpoint heap_init_from (i : nat) (h : list string) : list string :=
  match i with
  | O => h
  | S k => heap_init_from k (sift_down (length h) h k (length h))
  end.
Definition heap_init (h : list string) : list string := heap_init_from (length h / 2) h.

Definition heap_push (h : list string) (value : string) : list string :=
  let h' := heap_append h value in sift_up (length h') h' (length h' - 1).

Definition heap_pop (h : list string) : string * list string :=
  let n := length h - 1 in
  heap_last (sift_down (length h) (heap_swap h 0 n) 0 n).

(** ** Orders *)

Lemma ltb_true_le (a b : string) : String.ltb a b = true -> String.le a b /\ a <> b.
Proof.
  unfold String.ltb, String.le, String.leb. intros H. split.
  - destruct (String.compare a b); naive_solver.
  - intros ->. destruct (String.compare b b) eqn:E; try done.
    pose proof (String.compare_antisym b b) as A. by rewrite E in A.
Qed.

Lemma ltb_false_le (a b : string) : String.ltb a b = false -> String.le b a.
Proof.
  unfold String.ltb, String.le, String.leb. rewrite (String.compare_antisym b a).
  destruct (String.compare a b); naive_solver.
Qed.

Lemma le_neq_ltb (a b : string) : String.le a b -> a <> b -> String.ltb a b = true.
Proof.
  intros Hle Hne. destruct (String.ltb a b) eqn:E; [done|].
  apply ltb_false_le in E. exfalso. apply Hne. by apply (anti_symm String.le).
Qed.

(** ** Swapping *)

Lemma heap_swap_length (h : list string) (i j : nat) : length (heap_swap h i j) = length h.
Proof. unfold heap_swap. by rewrite !length_insert. Qed.

Lemma heap_swap_lookup (h : list string) (i j k : nat) :
  i < length h -> j < length h ->
  heap_swap h i j !!! k =
  if decide (k = i) then h !!! j else if decide (k = j) then h !!! i else h !!! k.
Proof.
  intros Hi Hj. unfold heap_swap. destruct (decide (k = i)) as [->|Hki].
  - apply list_lookup_total_insert_eq. by rewrite length_insert.
  - rewrite list_lookup_total_insert_ne by done. destruct (decide (k = j)) as [->|Hkj].
    + by apply list_lookup_total_insert_eq.
    + by apply list_lookup_total_insert_ne.
Qed.

Lemma head_insert_perm (h : list string) (j : nat) (a : string) :
  j < length h -> (h !!! j) :: <[j := a]> h ≡ₚ a :: h.
Proof.
  revert j. induction h as [|b h IH]; intros [|j] Hj; cbn in *; try lia.
  - constructor.
  - etrans; [apply Permutation_swap|]. etrans; [|apply Permutation_swap].
    apply Permutation_skip, IH. lia.
Qed.

Lemma heap_swap_perm (h : list string) (i j : nat) :
  i < length h -> j < length h -> heap_swap h i j ≡ₚ h.
Proof.
  unfold heap_swap. revert i j. induction h as [|a h IH]; intros [|i] [|j] Hi Hj;
    cbn in *; try lia; try done.
  - apply head_insert_perm. lia.
  - apply head_insert_perm. lia.
  - apply Permutation_skip, IH; lia.
Qed.

(** ** The heap invariant *)

Definition parent (k : nat) : nat := (k - 1) / 2.
#[local] Arguments parent : simpl never.

(** The order holds below every parent at or after [m]. *)
Definition heap_from (m : nat) (h : list string) (n : nat) : Prop :=
  forall k, 0 < k < n -> m <= parent k -> String.le (h !!! parent k) (h !!! k).

Definition heap_ok (h : list string) : Prop := heap_from 0 h (length h).

Lemma parent_lt (k : nat) : 0 < k -> parent k < k.
Proof. unfold parent. intros H. apply Nat.Div0.div_lt_upper_bound; lia. Qed.

Lemma parent_children (k i : nat) : 0 < k -> parent k = i -> k = 2 * i + 1 \/ k = 2 * i + 2.
Proof.
  unfold parent. intros Hk <-. pose proof (Nat.div_mod_eq (k - 1) 2).
  pose proof (Nat.mod_upper_bound (k - 1) 2). lia.
Qed.

Lemma parent_left (i : nat) : parent (2 * i + 1) = i.
Proof. unfold parent. replace (2 * i + 1 - 1) with (i * 2) by lia. by apply Nat.div_mul. Qed.

Lemma parent_right (i : nat) : parent (2 * i + 2) = i.
Proof.
  unfold parent. replace (2 * i + 2 - 1) with (1 + i * 2) by lia.
  rewrite Nat.div_add by lia. done.
Qed.

(** The loop invariant of [sift_down] at position [i]. *)
Definition down_inv (m i : nat) (h : list string) (n : nat) : Prop :=
  (forall k, 0 < k < n -> m <= parent k -> parent k <> i -> String.le (h !!! parent k) (h !!! k)) /\
  (forall k, 0 < k < n -> parent k = i -> 0 < i -> m <= parent i ->
             String.le (h !!! parent i) (h !!! k)).

(** The child selected by one round of [sift_down] is a least child. *)
Definition down_child (h : list string) (i n : nat) : nat :=
  if (2 * i + 1 + 1 <? n) && heap_less h (2 * i + 1 + 1) (2 * i + 1) then 2 * i + 1 + 1 else 2 * i + 1.

Lemma down_child_spec (h : list string) (i n : nat) :
  2 * i + 1 < n ->
  let j := down_child h i n in
  i < j < n /\ parent j = i /\
  forall k, 0 < k < n -> parent k = i -> String.le (h !!! j) (h !!! k).
Proof.
  intros Hn j. subst j. unfold down_child.
  pose proof (parent_left i) as Hl. pose proof (parent_right i) as Hr.
  replace (2 * i + 1 + 1) with (2 * i + 2) by lia.
  destruct ((2 * i + 2 <? n) && heap_less h (2 * i + 2) (2 * i + 1)) eqn:E.
  - apply andb_true_iff in E as [E1 E2]. apply Nat.ltb_lt in E1.
    apply ltb_true_le in E2 as [E2 _]. split; [lia|]. split; [done|].
    intros k Hk Hp. destruct (parent_children k i) as [-> | ->]; [lia|done|done|done].
  - split; [lia|]. split; [done|]. intros k Hk Hp.
    destruct (parent_children k i) as [-> | ->]; [lia|done|done|].
    apply andb_false_iff in E as [E|E]; [apply Nat.ltb_ge in E; lia|by apply ltb_false_le].
Qed.

Lemma down_inv_swap (m i n : nat) (h : list string) :
  n <= length h -> m <= i -> 2 * i + 1 < n ->
  heap_less h (down_child h i n) i = true ->
  down_inv m i h n -> down_inv m (down_child h i n) (heap_swap h i (down_child h i n)) n.
Proof.
  intros Hlen Hmi Hn Hless [Ha Hb].
  destruct (down_child_spec h i n Hn) as (Hj & Hpj & Hmin).
  set (j := down_child h i n) in *. apply ltb_true_le in Hless as [Hless _].
  assert (Hlk : forall k, heap_swap h i j !!! k =
    if decide (k = i) then h !!! j else if decide (k = j) then h !!! i else h !!! k)
    by (intros; apply heap_swap_lookup; lia).
  split.
  - intros k Hk Hm Hne. rewrite !Hlk. rewrite (decide_False (P := parent k = j)) by done.
    destruct (decide (parent k = i)) as [Hpi|Hpi].
    + assert (k <> i) by (pose proof (parent_lt k); lia).
      rewrite decide_False by done. destruct (decide (k = j)); [done|by apply Hmin].
    + destruct (decide (k = i)) as [->|Hki].
      * apply Hb; try done; lia.
      * rewrite decide_False by (intros ->; done). by apply Ha.
  - intros k Hk Hpk H0 Hm. rewrite !Hlk, Hpj. rewrite decide_True by done.
    assert (j < k) by (pose proof (parent_lt k); lia).
    rewrite !decide_False by lia. rewrite <- Hpk. apply Ha; lia.
Qed.

Lemma sift_down_spec (fuel m i n : nat) (h : list string) :
  n <= length h -> m <= i -> n <= fuel + i -> down_inv m i h n ->
  let h' := sift_down fuel h i n in
  h' ≡ₚ h /\ heap_from m h' n /\ (forall k, n <= k -> h' !!! k = h !!! k).
Proof.
  revert i h. induction fuel as [|f IH]; intros i h Hlen Hmi Hfuel Hinv; cbn [sift_down].
  { split; [done|]. split; [|done]. intros k Hk Hm. apply Hinv; try done.
    pose proof (parent_lt k). lia. }
  change (if (2 * i + 1 + 1 <? n) && heap_less h (2 * i + 1 + 1) (2 * i + 1)
          then 2 * i + 1 + 1 else 2 * i + 1) with (down_child h i n).
  destruct (n <=? 2 * i + 1) eqn:En.
  { apply Nat.leb_le in En. split; [done|]. split; [|done]. intros k Hk Hm.
    apply Hinv; try done. intros Hp. apply parent_children in Hp; lia. }
  apply Nat.leb_gt in En. destruct (down_child_spec h i n En) as (Hj & Hpj & Hmin).
  destruct (heap_less h (down_child h i n) i) eqn:Hless.
  - pose proof (down_inv_swap m i n h Hlen Hmi En Hless Hinv) as Hinv'.
    destruct (IH (down_child h i n) (heap_swap h i (down_child h i n))) as (Hp & Hh & Hk);
      rewrite ?heap_swap_length; try lia; try done.
    split; [|split]; [|done|].
    + rewrite Hp. apply heap_swap_perm; lia.
    + intros k Hkn. rewrite Hk by done. rewrite heap_swap_lookup by lia.
      rewrite !decide_False by lia. done.
  - apply ltb_false_le in Hless. split; [done|]. split; [|done]. intros k Hk Hm.
    destruct (decide (parent k = i)) as [Hp|Hp]; [|by apply Hinv].
    rewrite Hp. etrans; [done|by apply Hmin].
Qed.

(** The loop invariant of [sift_up] at position [j]. *)
Definition up_inv (j : nat) (h : list string) : Prop :=
  (forall k, 0 < k < length h -> k <> j -> String.le (h !!! parent k) (h !!! k)) /\
  (forall k, 0 < k < length h -> parent k = j -> 0 < j -> String.le (h !!! parent j) (h !!! k)).

Lemma up_inv_swap (j : nat) (h : list string) :
  0 < j < length h -> heap_less h j (parent j) = true ->
  up_inv j h -> up_inv (parent j) (heap_swap h (parent j) j).
Proof.
  intros Hj Hless [Ha Hb]. pose proof (parent_lt j ltac:(lia)) as Hpj.
  apply ltb_true_le in Hless as [Hless _]. set (i := parent j) in *.
  assert (Hlk : forall k, heap_swap h i j !!! k =
    if decide (k = i) then h !!! j else if decide (k = j) then h !!! i else h !!! k)
    by (intros; apply heap_swap_lookup; lia).
  split; intros k; rewrite heap_swap_length; intros Hk.
  - intros Hne. rewrite !Hlk. rewrite (decide_False (P := k = i)) by done.
    destruct (decide (parent k = i)) as [Hpi|Hpi].
    + destruct (decide (k = j)); [done|]. etrans; [done|].
      rewrite <- Hpi. by apply Ha.
    + assert (k <> j) by (intros ->; done).
      rewrite (decide_False (P := k = j)) by done.
      destruct (decide (parent k = j)); [by apply Hb; try lia | by apply Ha].
  - intros Hp H0. pose proof (parent_lt i H0). rewrite !Hlk.
    rewrite (decide_False (P := parent i = i)), (decide_False (P := parent i = j)) by lia.
    assert (k <> i) by (pose proof (parent_lt k); lia).
    rewrite (decide_False (P := k = i)) by done.
    assert (String.le (h !!! parent i) (h !!! i)) as Hpi by (apply Ha; lia).
    destruct (decide (k = j)); [done|]. etrans; [done|]. rewrite <- Hp. by apply Ha.
Qed.

Lemma sift_up_spec (fuel j : nat) (h : list string) :
  j < length h -> j < fuel -> up_inv j h ->
  sift_up fuel h j ≡ₚ h /\ heap_ok (sift_up fuel h j).
Proof.
  revert j h. induction fuel as [|f IH]; intros j h Hlen Hfuel Hinv; [lia|].
  cbn [sift_up]. change ((j - 1) / 2) with (parent j).
  destruct ((parent j =? j) || negb (heap_less h j (parent j))) eqn:E.
  - split; [done|]. intros k Hk _. destruct (decide (k = j)) as [->|Hne]; [|by apply Hinv].
    apply orb_true_iff in E as [E|E].
    + apply Nat.eqb_eq in E. pose proof (parent_lt j). lia.
    + apply negb_true_iff in E. by apply ltb_false_le in E.
  - apply orb_false_iff in E as [E1 E2]. apply Nat.eqb_neq in E1. apply negb_false_iff in E2.
    assert (0 < j) by (destruct j; [done|lia]). pose proof (parent_lt j ltac:(done)).
    destruct (IH (parent j) (heap_swap h (parent j) j)) as [Hp Hok];
      rewrite ?heap_swap_length; try lia; [by apply up_inv_swap; try lia|].
    split; [|done]. rewrite Hp. apply heap_swap_perm; lia.
Qed.

Lemma heap_root_least (h : list string) (k : nat) :
  heap_ok h -> k < length h -> String.le (h !!! 0) (h !!! k).
Proof.
  intros Hok. induction k as [k IH] using lt_wf_ind. intros Hk.
  destruct (decide (k = 0)) as [->|H0]; [done|].
  pose proof (parent_lt k ltac:(lia)). etrans; [apply (IH (parent k)); lia|].
  apply Hok; lia.
Qed.

Lemma heap_init_from_spec (i : nat) (h : list string) :
  heap_from i h (length h) -> heap_init_from i h ≡ₚ h /\ heap_ok (heap_init_from i h).
Proof.
  revert h. induction i as [|i IH]; intros h Hh; cbn; [done|].
  destruct (sift_down_spec (length h) i i (length h) h) as (Hp & Hf & _); try lia.
  { split.
    - intros k Hk Hm Hne. apply Hh; [done|lia].
    - intros k Hk Hpk H0 Hm. pose proof (parent_lt i H0). lia. }
  assert (length (sift_down (length h) h i (length h)) = length h) as Hl
    by (apply Permutation_length, Hp).
  destruct (IH (sift_down (length h) h i (length h))) as [Hp' Hok]; [by rewrite Hl|].
  split; [|done]. by rewrite Hp', Hp.
Qed.

(** ** The priority queue *)

Lemma heap_init_spec (h : list string) : heap_init h ≡ₚ h /\ heap_ok (heap_init h).
Proof.
  apply heap_init_from_spec. intros k Hk Hm.
  assert (k <= 2 * parent k + 2).
  { destruct (parent_children k (parent k)); lia. }
  pose proof (Nat.div_mod_eq (length h) 2). pose proof (Nat.mod_upper_bound (length h) 2).
  destruct (parent_children k (parent k)); lia.
Qed.

Lemma heap_push_spec (h : list string) (x : string) :
  heap_ok h -> heap_push h x ≡ₚ x :: h /\ heap_ok (heap_push h x).
Proof.
  intros Hok. unfold heap_push, heap_append.
  destruct (sift_up_spec (length (h ++ [x])) (length (h ++ [x]) - 1) (h ++ [x])) as [Hp Hr];
    rewrite ?length_app; cbn; try lia.
  - split; intros k; rewrite length_app; cbn; intros Hk Hne.
    + pose proof (parent_lt k ltac:(lia)).
      rewrite !lookup_total_app_l by lia. apply Hok; lia.
    + intros _. pose proof (parent_lt k ltac:(lia)). lia.
  - split; [|by rewrite length_app in Hr].
    rewrite length_app in Hp. cbn in Hp. rewrite Hp. by rewrite Permutation_app_comm.
Qed.

Lemma heap_pop_spec (h : list string) :
  heap_ok h -> h <> [] ->
  (heap_pop h).1 :: (heap_pop h).2 ≡ₚ h /\ heap_ok (heap_pop h).2 /\
  (forall x, x ∈ h -> String.le (heap_pop h).1 x).
Proof.
  intros Hok Hne. assert (0 < length h) as Hlen by (destruct h; cbn; [done|lia]).
  set (n := length h - 1). set (h1 := heap_swap h 0 n).
  assert (length h1 = length h) as Hl1 by apply heap_swap_length.
  assert (Hlk : forall k, h1 !!! k =
    if decide (k = 0) then h !!! n else if decide (k = n) then h !!! 0 else h !!! k)
    by (intros; apply heap_swap_lookup; lia).
  destruct (sift_down_spec (length h) 0 0 n h1) as (Hp & Hf & Hk); try lia.
  { split; [|lia]. intros k Hkn _ Hp0. pose proof (parent_lt k ltac:(lia)). rewrite !Hlk.
    rewrite !decide_False by lia. apply Hok; lia. }
  unfold heap_pop, heap_last. fold n. fold h1. set (h2 := sift_down (length h) h1 0 n) in *.
  assert (length h2 = length h) as Hl2 by (rewrite <- Hl1; apply Permutation_length, Hp).
  rewrite Hl2. fold n. cbn [fst snd].
  assert (h2 !!! n = h !!! 0) as Hroot.
  { rewrite Hk by lia. rewrite Hlk. destruct (decide (n = 0)) as [->|]; [done|].
    by rewrite decide_True. }
  assert (h2 = take n h2 ++ [h2 !!! n]) as Hsplit.
  { rewrite <- (take_drop n h2) at 1. f_equal. rewrite (drop_S h2 (h2 !!! n)).
    - rewrite drop_ge by lia. done.
    - apply list_lookup_lookup_total_lt. lia. }
  split; [|split].
  - rewrite Permutation_cons_append, <- Hsplit, Hp. apply heap_swap_perm; lia.
  - intros k. rewrite length_take. intros Hkn _. pose proof (parent_lt k ltac:(lia)).
    rewrite !lookup_total_take_lt by lia. apply Hf; lia.
  - intros x [k Hx]%list_elem_of_lookup. rewrite Hroot.
    apply lookup_lt_Some in Hx as Hlt. apply list_lookup_total_correct in Hx as <-.
    by apply heap_root_least.
Qed.
