(* ===== verification/Graph.v ===== *)
(** * Dependency graphs: validation, ordering and readiness

    Models [src/internal/workflow/graph.go]: [buildDependencyGraph] with every
    rejection in source order, Kahn's algorithm on the binary heap of
    [Heap.v], and the queries [Validate], [IsAcyclic], [TopologicalOrder],
    [RootTasks] and [ReadyTasks]. *)
From S2P Require Import Prelude Workflow Heap.

(** ** Definitions *)

Record dependencyGraph := mkGraph {
  g_tasks : gmap string TaskDefinition;
  g_taskIDs : list string;
  g_indegree : gmap string Z;
  g_dependents : gmap string (list string)
}.

Definition sortTaskIDs (taskIDs : list string) : list string := sort_strings taskIDs.

Definition invalidRetryPolicyReason (policy : RetryPolicy) : string :=
  if MaxAttempts policy <? 0 then "maximum attempts must not be negative"
  else if InitialBackoff policy <? 0 then "initial backoff must not be negative"
  else if MaxBackoff policy <? 0 then "maximum backoff must not be negative"
  else if (MaxBackoff policy >? 0) && (MaxBackoff policy <? InitialBackoff policy)
  then "maximum backoff must not be less than initial backoff"
  else "".

(** The body of the first loop of [buildDependencyGraph]. *)
Definition addTask (workflowID : string) (graph : dependencyGraph) (task : TaskDefinition)
  : res ValidationError dependencyGraph :=
  fail_if negb (validIdentifier (td_ID task))
    with mkValidationError ValidationInvalidTaskID workflowID (td_ID task) "" "" ;;
  fail_if string_is_empty (trim_space (td_Name task))
    with mkValidationError ValidationInvalidTaskName workflowID (td_ID task) "" "" ;;
  let reason := invalidRetryPolicyReason (td_Retry task) in
  fail_if negb (string_is_empty reason)
    with mkValidationError ValidationInvalidRetryPolicy workflowID (td_ID task) "" reason ;;
  fail_if bool_decide (is_Some (g_tasks graph !! td_ID task))
    with mkValidationError ValidationDuplicateTaskID workflowID (td_ID task) "" "" ;;
  Ok (mkGraph (<[td_ID task := task]> (g_tasks graph))
              (g_taskIDs graph ++ [td_ID task])
              (<[td_ID task := 0]> (g_indegree graph))
              (g_dependents graph)).

(** The body of the inner loop over one task's dependencies, with the
    [seenDependencies] set of that task. *)
Definition addDependency (workflowID : string) (task : TaskDefinition)
    (state : dependencyGraph * gset string) (dependencyID : string)
  : res ValidationError (dependencyGraph * gset string) :=
  let '(graph, seen) := state in
  fail_if negb (validIdentifier dependencyID)
    with mkValidationError ValidationInvalidDependencyID workflowID (td_ID task) dependencyID "" ;;
  fail_if bool_decide (dependencyID = td_ID task)
    with mkValidationError ValidationSelfDependency workflowID (td_ID task) dependencyID "" ;;
  fail_if bool_decide (dependencyID ∈ seen)
    with mkValidationError ValidationDuplicateDependency workflowID (td_ID task) dependencyID "" ;;
  let seen' := {[ dependencyID ]} ∪ seen in
  fail_if bool_decide (g_tasks graph !! dependencyID = None)
    with mkValidationError ValidationMissingDependency workflowID (td_ID task) dependencyID "" ;;
  Ok (mkGraph (g_tasks graph) (g_taskIDs graph)
        (<[td_ID task := default 0 (g_indegree graph !! td_ID task) + 1]> (g_indegree graph))
        (<[dependencyID := default [] (g_dependents graph !! dependencyID) ++ [td_ID task]]>
           (g_dependents graph)), seen').

Definition zeroTask : TaskDefinition := mkTaskDefinition "" "" None "" "" (mkRetryPolicy 0 0 0).

(** The body of the second loop: [graph.tasks[taskID]] with Go's zero value for
    a missing key. *)
Definition addTaskDependencies (workflowID : string) (graph : dependencyGraph) (taskID : string)
  : res ValidationError dependencyGraph :=
  let task := default zeroTask (g_tasks graph !! taskID) in
  try state <- foldM (addDependency workflowID task) (graph, ∅) (deps task) ;;
  Ok (fst state).

Definition buildDependencyGraph (definition : WorkflowDefinition)
  : res ValidationError dependencyGraph :=
  fail_if negb (validIdentifier (wd_ID definition))
    with mkValidationError ValidationInvalidWorkflowID (wd_ID definition) "" "" "" ;;
  fail_if Nat.eqb (length (wd_Tasks definition)) 0
    with mkValidationError ValidationEmptyWorkflow (wd_ID definition) "" "" "" ;;
  try graph <- foldM (addTask (wd_ID definition)) (mkGraph ∅ [] ∅ ∅) (wd_Tasks definition) ;;
  let graph := mkGraph (g_tasks graph) (sortTaskIDs (g_taskIDs graph))
                       (g_indegree graph) (g_dependents graph) in
  try graph <- foldM (addTaskDependencies (wd_ID definition)) graph (g_taskIDs graph) ;;
  Ok (mkGraph (g_tasks graph) (g_taskIDs graph) (g_indegree graph)
              (sortTaskIDs <$> g_dependents graph)).

(** *** Kahn's algorithm *)

Definition topo_start_step (indegree : gmap string Z)
    (state : gmap string Z * list string) (taskID : string) : gmap string Z * list string :=
  let '(remaining, ready) := state in
  let n := default 0 (indegree !! taskID) in
  (<[taskID := n]> remaining, if n =? 0 then ready ++ [taskID] else ready).

Definition release_step (state : gmap string Z * list string) (dependentID : string)
  : gmap string Z * list string :=
  let '(remaining, ready) := state in
  let n := default 0 (remaining !! dependentID) - 1 in
  (<[dependentID := n]> remaining, if n =? 0 then heap_push ready dependentID else ready).

Fixpoint topo_loop (fuel : nat) (dependents : gmap string (list string))
    (remaining : gmap string Z) (ready order : list string) : list string :=
  match fuel with
  | O => order
  | S k =>
      if Nat.eqb (length ready) 0 then order
      else
        let '(taskID, ready) := heap_pop ready in
        let '(remaining, ready) :=
          foldl release_step (remaining, ready) (default [] (dependents !! taskID)) in
        topo_loop k dependents remaining ready (order ++ [taskID])
  end.

(** One pop per task and a last test of the empty queue: the number of task
    IDs plus one bounds the iterations. *)
Definition topologicalOrder (graph : dependencyGraph) : list string * bool :=
  let '(remaining, ready) := foldl (topo_start_step (g_indegree graph)) (∅, []) (g_taskIDs graph) in
  let order := topo_loop (S (length (g_taskIDs graph))) (g_dependents graph) remaining
                         (heap_init ready) [] in
  (order, Nat.eqb (length order) (length (g_taskIDs graph))).

(** *** Queries *)

Definition cycleError (definition : WorkflowDefinition) : ValidationError :=
  mkValidationError ValidationCycle (wd_ID definition) "" "" "".

Definition TopologicalOrder (definition : WorkflowDefinition) : res ValidationError (list string) :=
  try graph <- buildDependencyGraph definition ;;
  let '(order, acyclic) := topologicalOrder graph in
  if acyclic then Ok order else Err (cycleError definition).

Definition Validate (definition : WorkflowDefinition) : res ValidationError unit :=
  try _ <- TopologicalOrder definition ;; Ok tt.

Definition IsAcyclic (definition : WorkflowDefinition) : res ValidationError bool :=
  try graph <- buildDependencyGraph definition ;;
  let '(_, acyclic) := topologicalOrder graph in Ok acyclic.

Definition graph_task (graph : dependencyGraph) (taskID : string) : TaskDefinition :=
  default zeroTask (g_tasks graph !! taskID).

Definition RootTasks (definition : WorkflowDefinition) : res ValidationError (list TaskDefinition) :=
  try graph <- buildDependencyGraph definition ;;
  let '(_, acyclic) := topologicalOrder graph in
  fail_if negb acyclic with cycleError definition ;;
  Ok (graph_task graph <$>
        filter (fun taskID => default 0 (g_indegree graph !! taskID) = 0) (g_taskIDs graph)).

Definition dependenciesSatisfied (completed : gset string) (task : TaskDefinition) : bool :=
  forallb (fun dependencyID => bool_decide (dependencyID ∈ completed)) (deps task).

Definition readyIn (graph : dependencyGraph) (completed : gset string) (taskID : string) : Prop :=
  taskID ∉ completed /\ dependenciesSatisfied completed (graph_task graph taskID) = true.
#[export] Instance readyIn_dec graph completed taskID : Decision (readyIn graph completed taskID).
Proof. unfold readyIn. apply _. Defined.

Definition ReadyTasks (definition : WorkflowDefinition) (completed : gset string)
  : res ValidationError (list TaskDefinition) :=
  try graph <- buildDependencyGraph definition ;;
  let '(_, acyclic) := topologicalOrder graph in
  fail_if negb acyclic with cycleError definition ;;
  let unknownCompleted :=
    sortTaskIDs (filter (fun taskID => g_tasks graph !! taskID = None) (elements completed)) in
  match unknownCompleted with
  | first :: _ =>
      Err (mkValidationError ValidationUnknownCompletedTask (wd_ID definition) first "" "")
  | [] => Ok (graph_task graph <$> filter (readyIn graph completed) (g_taskIDs graph))
  end.
