(* ===== verification/GraphBuild.v ===== *)
(** * What [buildDependencyGraph] accepts and what it builds

    The abstract notion of a structurally valid definition and the theorem that
    [buildDependencyGraph] succeeds exactly on those, with a graph that records
    every task and every dependency edge once. *)
From S2P Require Import Prelude Workflow Heap Graph.

(** ** Structural validity *)

Definition task_ok (task : TaskDefinition) : Prop :=
  validIdentifier (td_ID task) = true /\ trim_space (td_Name task) <> "" /\
  invalidRetryPolicyReason (td_Retry task) = "".

Definition taskIDs_of (definition : WorkflowDefinition) : list string := td_ID <$> wd_Tasks definition.

Definition deps_ok (ids : list string) (task : TaskDefinition) : Prop :=
  Forall (fun d => validIdentifier d = true /\ d <> td_ID task /\ d ∈ ids) (deps task) /\
  NoDup (deps task).

Record structurally_valid (definition : WorkflowDefinition) : Prop := {
  sv_id : validIdentifier (wd_ID definition) = true;
  sv_nonempty : wd_Tasks definition <> [];
  sv_tasks : Forall task_ok (wd_Tasks definition);
  sv_unique : NoDup (taskIDs_of definition);
  sv_deps : Forall (deps_ok (taskIDs_of definition)) (wd_Tasks definition)
}.

(** The graph of a definition: the shared interface of the ordering proofs. *)
Record graph_of (definition : WorkflowDefinition) (graph : dependencyGraph) : Prop := {
  go_ids : g_taskIDs graph = sortTaskIDs (taskIDs_of definition);
  go_tasks : forall x t, g_tasks graph !! x = Some t <-> t ∈ wd_Tasks definition /\ td_ID t = x;
  go_indegree : forall t, t ∈ wd_Tasks definition ->
    g_indegree graph !! td_ID t = Some (Z.of_nat (length (deps t)));
  go_dependents : forall x y, y ∈ default [] (g_dependents graph !! x) <->
    exists t, t ∈ wd_Tasks definition /\ td_ID t = y /\ x ∈ deps t;
  go_dependents_nodup : forall x, NoDup (default [] (g_dependents graph !! x))
}.

(** ** The first loop *)

Definition tasks_inv (ts : list TaskDefinition) (graph : dependencyGraph) : Prop :=
  (forall x t, g_tasks graph !! x = Some t <-> t ∈ ts /\ td_ID t = x) /\
  g_taskIDs graph = td_ID <$> ts /\
  (forall x, x ∈ td_ID <$> ts -> g_indegree graph !! x = Some 0) /\
  g_dependents graph = ∅.

Lemma string_is_empty_true (s : string) : string_is_empty s = true <-> s = "".
Proof. destruct s; naive_solver. Qed.

Lemma string_is_empty_false (s : string) : string_is_empty s = false <-> s <> "".
Proof. destruct s; naive_solver. Qed.

Definition task_step_ok (pre : list TaskDefinition) (task : TaskDefinition) : Prop :=
  task_ok task /\ td_ID task ∉ td_ID <$> pre.

Lemma tasks_inv_fresh (ts : list TaskDefinition) (graph : dependencyGraph) (x : string) :
  tasks_inv ts graph -> g_tasks graph !! x = None <-> x ∉ td_ID <$> ts.
Proof.
  intros (Ht & _). rewrite eq_None_not_Some, list_elem_of_fmap. split; intros H Hn; apply H.
  - destruct Hn as (t & -> & Hin). exists t. by apply Ht.
  - destruct Hn as [t Hin]. exists t. apply Ht in Hin. naive_solver.
Qed.

Lemma addTask_step (workflowID : string) (pre : list TaskDefinition) (graph : dependencyGraph)
    (task : TaskDefinition) :
  tasks_inv pre graph ->
  match addTask workflowID graph task with
  | Ok graph' => task_step_ok pre task /\ tasks_inv (pre ++ [task]) graph'
  | Err _ => ~ task_step_ok pre task
  end.
Proof.
  intros Hinv. pose proof (tasks_inv_fresh pre graph (td_ID task) Hinv) as Hfresh.
  unfold addTask, guard_err, task_step_ok, task_ok.
  destruct (validIdentifier (td_ID task)) eqn:Hid; cbn; [|naive_solver].
  destruct (string_is_empty (trim_space (td_Name task))) eqn:Hname; cbn.
  { apply string_is_empty_true in Hname. naive_solver. }
  apply string_is_empty_false in Hname.
  destruct (string_is_empty (invalidRetryPolicyReason (td_Retry task))) eqn:Hr; cbn.
  2: { apply string_is_empty_false in Hr. naive_solver. }
  apply string_is_empty_true in Hr.
  case_bool_decide as Hdup.
  { intros [_ Hn]. apply Hfresh in Hn. rewrite Hn in Hdup. by destruct Hdup. }
  rewrite <- eq_None_not_Some in Hdup. split; [by rewrite Hfresh in Hdup|].
  destruct Hinv as (Ht & Hids & Hdeg & Hdep). split_and!; cbn.
  - intros x t. rewrite lookup_insert, elem_of_app, list_elem_of_singleton.
    case_decide as Heq; [subst x|rewrite Ht; naive_solver].
    split; [naive_solver|]. intros [[Hin| ->] Heq]; [|done]. exfalso. rewrite Hfresh in Hdup.
    apply Hdup, list_elem_of_fmap. naive_solver.
  - by rewrite Hids, fmap_app.
  - intros x. rewrite fmap_app, elem_of_app, lookup_insert. cbn. rewrite list_elem_of_singleton.
    case_decide; [done|]. intros [Hx|Hx]; [by apply Hdeg|congruence].
  - done.
Qed.

Lemma task_steps_iff (l : list TaskDefinition) :
  (forall l1 x l2, l = l1 ++ x :: l2 -> task_step_ok l1 x) <->
  Forall task_ok l /\ NoDup (td_ID <$> l).
Proof.
  split.
  - intros H. induction l as [|x l IH] using rev_ind; [by split; constructor|].
    destruct (H l x [] eq_refl) as [Hx Hn].
    destruct IH as [IH1 IH2].
    { intros l1 y l2 ->. apply (H l1 y (l2 ++ [x])). by rewrite <- app_assoc. }
    split; [by apply Forall_app_2; [|apply Forall_singleton]|].
    rewrite fmap_app. apply NoDup_app. cbn. split; [done|]. split; [|apply NoDup_singleton].
    intros y Hy ->%list_elem_of_singleton. done.
  - intros [Hf Hnd] l1 x l2 ->. rewrite fmap_app in Hnd. apply NoDup_app in Hnd as (_ & Hd & _).
    apply Forall_app in Hf as [_ Hf]. inv Hf. split; [done|].
    intros Hin. apply (Hd _ Hin). cbn. left.
Qed.

(** ** The second loop *)

(** The edges [(task, dependency)] recorded so far. *)
Definition edges_inv (g0 : dependencyGraph) (edges : list (string * string))
    (graph : dependencyGraph) : Prop :=
  g_tasks graph = g_tasks g0 /\ g_taskIDs graph = g_taskIDs g0 /\
  (forall x n, g_indegree g0 !! x = Some n ->
     g_indegree graph !! x = Some (n + Z.of_nat (length (filter (fun e => e.1 = x) edges)))) /\
  (forall y, default [] (g_dependents graph !! y) = (filter (fun e => e.2 = y) edges).*1).

Definition dep_step_ok (g0 : dependencyGraph) (task : TaskDefinition) (pre : list string)
    (d : string) : Prop :=
  validIdentifier d = true /\ d <> td_ID task /\ d ∉ pre /\ is_Some (g_tasks g0 !! d).

Lemma addDependency_step (workflowID : string) (g0 : dependencyGraph) (task : TaskDefinition)
    (edges : list (string * string)) (pre : list string) (state : dependencyGraph * gset string)
    (d : string) :
  is_Some (g_indegree g0 !! td_ID task) ->
  edges_inv g0 (edges ++ (pair (td_ID task) <$> pre)) state.1 /\ (forall x, x ∈ state.2 <-> x ∈ pre) ->
  match addDependency workflowID task state d with
  | Ok state' => dep_step_ok g0 task pre d /\
      edges_inv g0 (edges ++ (pair (td_ID task) <$> (pre ++ [d]))) state'.1 /\
      (forall x, x ∈ state'.2 <-> x ∈ pre ++ [d])
  | Err _ => ~ dep_step_ok g0 task pre d
  end.
Proof.
  intros Hsome [(Ht & Hids & Hdeg & Hdep) Hseen]. destruct state as [graph seen]. cbn [fst snd] in *.
  unfold addDependency, guard_err, dep_step_ok.
  destruct (validIdentifier d) eqn:Hid; cbn [negb]; [|naive_solver].
  case_bool_decide as Hself; [naive_solver|].
  case_bool_decide as Hdup; [rewrite Hseen in Hdup; naive_solver|]. rewrite Hseen in Hdup.
  rewrite Ht. case_bool_decide as Hmiss; [rewrite Hmiss; intros (_ & _ & _ & [? ?]); done|].
  split. { rewrite <- not_eq_None_Some. done. }
  cbn [fst snd]. split; [|intros x; rewrite elem_of_union, elem_of_singleton, elem_of_app, list_elem_of_singleton, Hseen; naive_solver].
  rewrite fmap_app, app_assoc. set (E := edges ++ (pair (td_ID task) <$> pre)) in *.
  split_and!; cbn; [done|done| |].
  - intros x n Hx. pose proof (Hdeg x n Hx) as Hx'. rewrite filter_app, length_app.
    rewrite filter_cons, filter_nil. cbn. rewrite lookup_insert. case_decide as Heq.
    + subst x. rewrite Hx'. cbn. f_equal. lia.
    + rewrite Hx'. cbn. f_equal. lia.
  - intros y. rewrite filter_app, fmap_app, filter_cons, filter_nil. cbn.
    rewrite lookup_insert. case_decide as Heq; cbn.
    + subst y. rewrite Hdep. done.
    + rewrite Hdep, app_nil_r. done.
Qed.

Definition task_edges (g0 : dependencyGraph) (x : string) : list (string * string) :=
  pair x <$> deps (graph_task g0 x).

Definition all_edges (g0 : dependencyGraph) (xs : list string) : list (string * string) :=
  xs ≫= task_edges g0.

Definition graph_deps_ok (g0 : dependencyGraph) (x : string) : Prop :=
  forall l1 d l2, deps (graph_task g0 x) = l1 ++ d :: l2 -> dep_step_ok g0 (graph_task g0 x) l1 d.

Lemma addTaskDependencies_step (workflowID : string) (g0 : dependencyGraph) (pre : list string)
    (graph : dependencyGraph) (x : string) :
  td_ID (graph_task g0 x) = x -> is_Some (g_indegree g0 !! x) ->
  edges_inv g0 (all_edges g0 pre) graph ->
  match addTaskDependencies workflowID graph x with
  | Ok graph' => graph_deps_ok g0 x /\ edges_inv g0 (all_edges g0 (pre ++ [x])) graph'
  | Err _ => ~ graph_deps_ok g0 x
  end.
Proof.
  intros Hid Hsome Hinv. unfold addTaskDependencies. destruct (Hinv) as (Ht & _). rewrite Ht.
  change (default zeroTask (g_tasks g0 !! x)) with (graph_task g0 x).
  pose proof (foldM_invariant (addDependency workflowID (graph_task g0 x)) (fun _ => True)
    (fun l st => edges_inv g0 (all_edges g0 pre ++ (pair (td_ID (graph_task g0 x)) <$> l)) st.1 /\
                 (forall z, z ∈ st.2 <-> z ∈ l))
    (dep_step_ok g0 (graph_task g0 x))) as Hfold.
  ospecialize (Hfold _ (deps (graph_task g0 x)) [] (graph, ∅) (Forall_trivial _) _).
  { intros l st d _ HP. apply addDependency_step; [by rewrite Hid|exact HP]. }
  { cbn [fst snd fmap list_fmap]. rewrite app_nil_r. split; [done|]. intros z.
    rewrite elem_of_nil. set_solver. }
  destruct (foldM _ _ _) as [[g s]|e]; cbn in *.
  - destruct Hfold as (Hsteps & Hedges & _). split; [done|].
    rewrite Hid in Hedges. unfold all_edges. rewrite bind_app. cbn. rewrite app_nil_r. done.
  - destruct Hfold as (l1 & d & l2 & Heq & Hn). intros Hok. by eapply Hn, Hok.
Qed.

Lemma all_edges_elem (g0 : dependencyGraph) (xs : list string) (y d : string) :
  (y, d) ∈ all_edges g0 xs <-> y ∈ xs /\ d ∈ deps (graph_task g0 y).
Proof.
  unfold all_edges, task_edges. rewrite list_elem_of_bind. split.
  - intros (x & Hx%list_elem_of_fmap & Hin). naive_solver.
  - intros [Hy Hd]. exists y. split; [|done]. apply list_elem_of_fmap. naive_solver.
Qed.

Lemma all_edges_count (g0 : dependencyGraph) (xs : list string) (x : string) :
  NoDup xs ->
  length (filter (fun e => e.1 = x) (all_edges g0 xs)) =
  if decide (x ∈ xs) then length (deps (graph_task g0 x)) else 0%nat.
Proof.
  assert (Hone : forall z (l : list string), length (filter (fun e => e.1 = x) (pair z <$> l)) =
            if decide (z = x) then length l else 0%nat).
  { intros z l. induction l as [|d l IH]; [by case_decide|].
    rewrite fmap_cons, filter_cons. cbn [fst]. case_decide; cbn [length]; congruence. }
  induction xs as [|z xs IH]; intros Hnd; [done|].
  apply NoDup_cons in Hnd as [Hz Hnd]. specialize (IH Hnd).
  unfold all_edges in *. rewrite bind_cons, filter_app, length_app, IH. unfold task_edges.
  rewrite Hone. destruct (decide (z = x)) as [->|Hne].
  - rewrite (decide_False (P := x ∈ xs)) by done. rewrite decide_True by left. lia.
  - destruct (decide (x ∈ xs)); [rewrite decide_True by by right|
      rewrite decide_False by (rewrite elem_of_cons; naive_solver)]; lia.
Qed.

Lemma all_edges_sources_nodup (g0 : dependencyGraph) (xs : list string) (d : string) :
  NoDup xs -> Forall (fun x => NoDup (deps (graph_task g0 x))) xs ->
  NoDup (filter (fun e => e.2 = d) (all_edges g0 xs)).*1.
Proof.
  intros Hnd Hds. induction xs as [|x xs IH]; [constructor|].
  apply NoDup_cons in Hnd as [Hx Hnd]. apply Forall_cons in Hds as [Hdx Hds].
  specialize (IH Hnd Hds). unfold all_edges in *. rewrite bind_cons, filter_app, fmap_app.
  apply NoDup_app. split_and!; [| |done].
  - unfold task_edges. clear -Hdx. induction (deps (graph_task g0 x)) as [|z l IH]; [constructor|].
    apply NoDup_cons in Hdx as [Hz Hdx]. specialize (IH Hdx). rewrite fmap_cons, filter_cons.
    cbn [snd]. case_decide as Heq; [|done]. rewrite fmap_cons. apply NoDup_cons. split; [|done]. subst z.
    rewrite list_elem_of_fmap. intros ([a b] & Ha & Hin). cbn in Ha. subst a.
    apply list_elem_of_filter in Hin as [Hb Hin]. cbn in Hb. subst b.
    apply list_elem_of_fmap in Hin as (w & [= ->] & Hw). done.
  - intros y Hy Hy'. apply Hx.
    apply list_elem_of_fmap in Hy as ([a b] & -> & Hin%list_elem_of_filter).
    apply list_elem_of_fmap in Hy' as ([a' b'] & Heq & Hin'%list_elem_of_filter). cbn in *. subst a'.
    destruct Hin as [_ Hin%list_elem_of_fmap], Hin' as [_ Hin'].
    assert (a ∈ xs) by (apply (all_edges_elem g0 xs a b'), Hin'). naive_solver.
Qed.

(** ** The whole construction *)

Definition sorted_graph (g : dependencyGraph) : dependencyGraph :=
  mkGraph (g_tasks g) (sortTaskIDs (g_taskIDs g)) (g_indegree g) (g_dependents g).

Lemma sortTaskIDs_elem (l : list string) (x : string) : x ∈ sortTaskIDs l <-> x ∈ l.
Proof. unfold sortTaskIDs, sort_strings. by rewrite sort_by_perm. Qed.

Lemma sortTaskIDs_nodup (l : list string) : NoDup (sortTaskIDs l) <-> NoDup l.
Proof. unfold sortTaskIDs, sort_strings. by rewrite sort_by_perm. Qed.

Lemma graph_task_of (ts : list TaskDefinition) (g : dependencyGraph) (t : TaskDefinition) :
  tasks_inv ts g -> t ∈ ts -> graph_task (sorted_graph g) (td_ID t) = t.
Proof.
  intros (Ht & _) Hin. unfold graph_task. cbn.
  rewrite (proj2 (Ht (td_ID t) t) (conj Hin eq_refl)). done.
Qed.

Lemma graph_deps_ok_iff (ts : list TaskDefinition) (g : dependencyGraph) (t : TaskDefinition) :
  tasks_inv ts g -> t ∈ ts ->
  graph_deps_ok (sorted_graph g) (td_ID t) <-> deps_ok (td_ID <$> ts) t.
Proof.
  intros Hinv Hin. unfold graph_deps_ok. rewrite (graph_task_of ts g t Hinv Hin).
  assert (Hdom : forall d, is_Some (g_tasks g !! d) <-> d ∈ td_ID <$> ts).
  { intros d. rewrite <- not_eq_None_Some, (tasks_inv_fresh ts g d Hinv).
    split; [apply dec_stable|naive_solver]. }
  split.
  - intros H. split.
    + apply Forall_forall. intros d (l1 & l2 & Heq)%split_elem.
      destruct (H _ _ _ Heq) as (? & ? & _ & ?%Hdom). done.
    + induction (deps t) as [|d l IH] using rev_ind; [constructor|].
      destruct (H l d [] eq_refl) as (_ & _ & Hn & _). apply NoDup_app. split_and!.
      * apply IH. intros l1 z l2 ->. destruct (H l1 z (l2 ++ [d])) as (? & ? & ? & ?); [|done].
        by rewrite <- app_assoc.
      * intros z Hz ->%list_elem_of_singleton. done.
      * apply NoDup_singleton.
  - intros [Hf Hnd] l1 d l2 Heq. rewrite Heq in Hf, Hnd.
    apply Forall_app in Hf as [_ [(? & ? & ?) _]%Forall_cons].
    apply NoDup_app in Hnd as (_ & Hd & _). split_and!; try done; [|by apply Hdom].
    intros Hc. apply (Hd d Hc). left.
Qed.

Lemma graph_of_edges (definition : WorkflowDefinition) (g1 g2 : dependencyGraph) :
  tasks_inv (wd_Tasks definition) g1 -> NoDup (taskIDs_of definition) ->
  Forall (deps_ok (taskIDs_of definition)) (wd_Tasks definition) ->
  edges_inv (sorted_graph g1) (all_edges (sorted_graph g1) (sortTaskIDs (taskIDs_of definition))) g2 ->
  graph_of definition
    (mkGraph (g_tasks g2) (g_taskIDs g2) (g_indegree g2) (sortTaskIDs <$> g_dependents g2)).
Proof.
  intros Hinv Hnd Hdeps (Ht & Hids & Hdeg & Hdep).
  destruct (Hinv) as (Htasks & Hl & Hzero & _).
  set (xs := sortTaskIDs (taskIDs_of definition)) in *.
  assert (Hxs : NoDup xs) by by apply sortTaskIDs_nodup.
  assert (Hin : forall t, t ∈ wd_Tasks definition -> td_ID t ∈ xs).
  { intros t Hin. apply sortTaskIDs_elem, list_elem_of_fmap_2. done. }
  assert (Hsrc : forall y d, (y, d) ∈ all_edges (sorted_graph g1) xs <->
            exists t, t ∈ wd_Tasks definition /\ td_ID t = y /\ d ∈ deps t).
  { intros y d. rewrite all_edges_elem. unfold xs. rewrite sortTaskIDs_elem.
    unfold taskIDs_of. rewrite list_elem_of_fmap. split.
    - intros [(t & -> & Htin) Hd]. rewrite (graph_task_of _ g1 t Hinv Htin) in Hd. naive_solver.
    - intros (t & Htin & <- & Hd). rewrite (graph_task_of _ g1 t Hinv Htin). naive_solver. }
  assert (Hds : Forall (fun x => NoDup (deps (graph_task (sorted_graph g1) x))) xs).
  { apply Forall_forall. intros x Hx. apply (proj1 (sortTaskIDs_elem _ _)) in Hx.
    apply list_elem_of_fmap in Hx as (t & -> & Htin).
    rewrite (graph_task_of _ g1 t Hinv Htin).
    by apply (proj1 (Forall_forall _ _) Hdeps). }
  assert (Hsort : forall x, default [] ((sortTaskIDs <$> g_dependents g2) !! x) ≡ₚ
            (filter (fun e => e.2 = x) (all_edges (sorted_graph g1) xs)).*1).
  { intros x. rewrite <- Hdep, lookup_fmap. destruct (g_dependents g2 !! x); cbn; [|done].
    apply sort_by_perm. }
  constructor; cbn.
  - rewrite Hids. cbn. by rewrite Hl.
  - intros x t. by rewrite Ht.
  - intros t Htin. rewrite (Hdeg (td_ID t) 0).
    + rewrite all_edges_count by done. rewrite decide_True by by apply Hin.
      by rewrite (graph_task_of _ g1 t Hinv Htin).
    + cbn. apply Hzero. by apply list_elem_of_fmap_2.
  - intros x y. rewrite Hsort, list_elem_of_fmap. rewrite <- Hsrc. split.
    + intros ([a b] & -> & [Hb He]%list_elem_of_filter). cbn in *. by subst b.
    + intros He. exists (y, x). split; [done|]. by apply list_elem_of_filter.
  - intros x. rewrite Hsort. by apply all_edges_sources_nodup.
Qed.

Lemma buildDependencyGraph_spec (definition : WorkflowDefinition) :
  match buildDependencyGraph definition with
  | Ok graph => structurally_valid definition /\ graph_of definition graph
  | Err _ => ~ structurally_valid definition
  end.
Proof.
  unfold buildDependencyGraph, guard_err.
  destruct (validIdentifier (wd_ID definition)) eqn:Hid; cbn [negb]; [|intros []; congruence].
  destruct (Nat.eqb (length (wd_Tasks definition)) 0) eqn:Hlen.
  { apply Nat.eqb_eq, length_zero_iff_nil in Hlen. intros []; congruence. }
  assert (Hne : wd_Tasks definition <> []) by (intros Hn; by rewrite Hn in Hlen).
  pose proof (foldM_invariant (addTask (wd_ID definition)) (fun _ => True) tasks_inv task_step_ok
    (fun pre s x _ => addTask_step (wd_ID definition) pre s x)
    (wd_Tasks definition) [] (mkGraph ∅ [] ∅ ∅) (Forall_trivial _)) as H1.
  ospecialize (H1 _). { repeat split; try done; set_solver. }
  destruct (foldM (addTask _) _ _) as [g1|e]; cbn [rbind app] in *.
  2: { intros [_ _ Hok Hnd _]. destruct H1 as (l1 & x & l2 & Heq & Hn).
       by apply Hn, (proj2 (task_steps_iff _) (conj Hok Hnd) _ _ _ Heq). }
  destruct H1 as [[Hok Hnd]%task_steps_iff Hinv].
  change (mkGraph (g_tasks g1) (sortTaskIDs (g_taskIDs g1)) (g_indegree g1) (g_dependents g1))
    with (sorted_graph g1).
  assert (Hl : g_taskIDs (sorted_graph g1) = sortTaskIDs (taskIDs_of definition)).
  { cbn. by rewrite (proj1 (proj2 Hinv)). }
  rewrite Hl.
  pose proof (foldM_invariant (addTaskDependencies (wd_ID definition))
    (fun x => x ∈ sortTaskIDs (taskIDs_of definition))
    (fun l => edges_inv (sorted_graph g1) (all_edges (sorted_graph g1) l))
    (fun _ => graph_deps_ok (sorted_graph g1))) as H2.
  ospecialize (H2 _ (sortTaskIDs (taskIDs_of definition)) [] (sorted_graph g1) _ _).
  { intros pre g x Hx HP. apply (proj1 (sortTaskIDs_elem _ _)) in Hx.
    apply list_elem_of_fmap in Hx as (t & -> & Htin).
    apply addTaskDependencies_step; [by rewrite (graph_task_of _ g1 t Hinv Htin)| |done].
    cbn. rewrite (proj1 (proj2 (proj2 Hinv)) (td_ID t)); [done|]. by apply list_elem_of_fmap_2. }
  { by apply Forall_forall. }
  { split_and!; cbn; [done|done| |].
    - intros x n Hx. rewrite Hx. f_equal. lia.
    - intros y. by rewrite (proj2 (proj2 (proj2 Hinv))), lookup_empty. }
  destruct (foldM (addTaskDependencies _) _ _) as [g2|e]; cbn [rbind app] in *.
  - destruct H2 as [H2 Hedges].
    assert (Hdeps : Forall (deps_ok (taskIDs_of definition)) (wd_Tasks definition)).
    { apply Forall_forall. intros t Htin. apply (graph_deps_ok_iff _ g1); [done..|].
      destruct (split_elem (sortTaskIDs (taskIDs_of definition)) (td_ID t)) as (l1 & l2 & Heq).
      - by apply sortTaskIDs_elem, list_elem_of_fmap_2.
      - by eapply H2. }
    split; [by constructor|]. by apply (graph_of_edges definition g1 g2).
  - destruct H2 as (l1 & x & l2 & Heq & Hn). intros [_ _ _ _ Hdeps]. apply Hn.
    assert (Hx : x ∈ taskIDs_of definition) by (apply sortTaskIDs_elem; rewrite Heq; set_solver).
    apply list_elem_of_fmap in Hx as (t & -> & Htin).
    apply (graph_deps_ok_iff (wd_Tasks definition)); [done..|].
    by apply (proj1 (Forall_forall _ _) Hdeps).
Qed.
