(* ===== verification/GraphOrder.v ===== *)
(** * Correctness of the topological sort

    Kahn's algorithm over the graph that [buildDependencyGraph] returns: it
    terminates within its fuel, detects exactly the cyclic graphs, and returns
    the lexicographically smallest order in which dependencies come first. The
    readiness query never comes back empty while tasks remain. *)
From S2P Require Import Prelude Workflow Heap Graph GraphBuild.

(** ** Specification *)

(** [y] must run before [x]. *)
Definition depends (definition : WorkflowDefinition) (x y : string) : Prop :=
  exists t, t ∈ wd_Tasks definition /\ td_ID t = x /\ y ∈ deps t.

Definition acyclic (definition : WorkflowDefinition) : Prop := Irreflexive (tc (depends definition)).

(** Every task once, each after all of its dependencies. *)
Definition valid_order (definition : WorkflowDefinition) (order : list string) : Prop :=
  order ≡ₚ taskIDs_of definition /\
  forall l1 x l2, order = l1 ++ x :: l2 -> forall y, depends definition x y -> y ∈ l1.

(** Lexicographic order on slices of task IDs. *)
Fixpoint lex_le (l k : list string) : Prop :=
  match l, k with
  | [], _ => True
  | _ :: _, [] => False
  | x :: l', y :: k' => (String.le x y /\ x <> y) \/ (x = y /\ lex_le l' k')
  end.

(** ** The loop, over an abstract graph *)

Section Kahn.
Context (ids : list string) (D : string -> list string).

Definition missing (order : list string) (x : string) : nat :=
  length (filter (fun y => y ∉ order) (D x)).

Definition enabled (order : list string) (x : string) : Prop :=
  x ∈ ids /\ x ∉ order /\ forall y, y ∈ D x -> y ∈ order.

Lemma missing_zero (order : list string) (x : string) :
  missing order x = 0%nat <-> forall y, y ∈ D x -> y ∈ order.
Proof.
  unfold missing. rewrite length_zero_iff_nil. split.
  - intros Hf y Hy. destruct (decide (y ∈ order)); [done|].
    assert (y ∈ filter (fun y => y ∉ order) (D x)) as Hin by by apply list_elem_of_filter.
    rewrite Hf in Hin. by apply elem_of_nil in Hin.
  - intros H. destruct (filter _ _) as [|y l] eqn:E; [done|].
    assert (y ∈ filter (fun y => y ∉ order) (D x)) as [? ?]%list_elem_of_filter
      by (rewrite E; left). naive_solver.
Qed.


Lemma missing_app (order l : list string) (t : string) :
  NoDup l -> t ∉ order ->
  length (filter (fun y => y ∉ order ++ [t]) l) =
  (length (filter (fun y => y ∉ order) l) - (if decide (t ∈ l) then 1 else 0))%nat /\
  (t ∈ l -> 1 <= length (filter (fun y => y ∉ order) l))%nat.
Proof.
  intros Hnd Ht. induction l as [|z l IH]; [set_solver|].
  apply NoDup_cons in Hnd as [Hz Hnd]. destruct (IH Hnd) as [IH1 IH2].
  rewrite !filter_cons. destruct (decide (z = t)) as [->|Hne].
  - rewrite decide_False by set_solver. rewrite (decide_True (P := t ∉ order)) by done.
    rewrite decide_False in IH1 by done. rewrite decide_True by left. cbn [length].
    split; [lia|intros; lia].
  - assert (Hiff : z ∉ order ++ [t] <-> z ∉ order) by set_solver.
    destruct (decide (z ∉ order)) as [Hzo|Hzo].
    + rewrite decide_True by by apply Hiff. cbn [length].
      split; [|intros; lia]. rewrite IH1.
      destruct (decide (t ∈ l)) as [Hin|Hin].
      * rewrite decide_True by by right. specialize (IH2 Hin). lia.
      * rewrite decide_False by (rewrite elem_of_cons; naive_solver). lia.
    + rewrite decide_False by by rewrite Hiff. rewrite IH1. split.
      * destruct (decide (t ∈ l)); [rewrite decide_True by by right|
          rewrite decide_False by (rewrite elem_of_cons; naive_solver)]; lia.
      * intros [|]%elem_of_cons; [congruence|auto].
Qed.

(** Every task was enabled when it was taken, and the least one enabled. *)
Definition greedy (order : list string) : Prop :=
  forall l1 x l2, order = l1 ++ x :: l2 ->
    enabled l1 x /\ forall z, enabled l1 z -> String.le x z.

Lemma greedy_snoc (order : list string) (t : string) :
  greedy order -> enabled order t -> (forall z, enabled order z -> String.le t z) ->
  greedy (order ++ [t]).
Proof.
  intros Hg Ht Hleast l1 x l2 Heq. destruct l2 as [|y l2' _] using rev_ind.
  - apply app_inj_tail in Heq as [-> ->]. done.
  - rewrite app_comm_cons, app_assoc in Heq. apply app_inj_tail in Heq as [-> ->].
    by apply (Hg l1 x l2').
Qed.

Lemma greedy_elem (order : list string) (x : string) :
  greedy order -> x ∈ order -> x ∈ ids /\ forall y, y ∈ D x -> y ∈ order.
Proof.
  intros Hg (l1 & l2 & ->)%list_elem_of_split.
  destruct (Hg l1 x l2 eq_refl) as [(? & _ & H) _]. split; [done|].
  intros y Hy. apply elem_of_app. left. auto.
Qed.

Lemma greedy_nodup (order : list string) : greedy order -> NoDup order.
Proof.
  induction order as [|t order IH] using rev_ind; [constructor|]. intros Hg.
  destruct (Hg order t [] eq_refl) as [(_ & Ht & _) _].
  apply NoDup_app. split_and!; [|set_solver|by apply NoDup_singleton].
  apply IH. intros l1 x l2 ->. apply (Hg l1 x (l2 ++ [t])). by rewrite <- app_assoc.
Qed.

Lemma greedy_length (order : list string) : greedy order -> (length order <= length ids)%nat.
Proof.
  intros Hg. apply submseteq_length, NoDup_submseteq; [by apply greedy_nodup|].
  intros x Hx. by apply (greedy_elem order).
Qed.

Context (dependents : gmap string (list string)).
Hypothesis D_nodup : forall x, x ∈ ids -> NoDup (D x).
Hypothesis dependents_spec : forall x y,
  y ∈ default [] (dependents !! x) <-> y ∈ ids /\ x ∈ D y.
Hypothesis dependents_nodup : forall x, NoDup (default [] (dependents !! x)).

(** [rem] counts the missing dependencies and [ready] holds the enabled tasks
    once the tasks of [O x] have been taken into account for each [x]. *)
Definition queue_inv (O : string -> list string) (popped : list string)
    (rem : gmap string Z) (ready : list string) : Prop :=
  (forall x, x ∈ ids -> rem !! x = Some (Z.of_nat (missing (O x) x))) /\
  heap_ok ready /\ NoDup ready /\
  (forall x, x ∈ ready <-> x ∈ ids /\ x ∉ popped /\ forall y, y ∈ D x -> y ∈ O x).

Definition split_view (order : list string) (t : string) (seen : list string) (x : string)
  : list string := if decide (x ∈ seen) then order ++ [t] else order.

Lemma release_step_inv (order : list string) (t d : string) (seen : list string)
    (rem : gmap string Z) (ready : list string) :
  t ∉ order -> d ∈ ids -> t ∈ D d -> d ∉ seen -> d ∉ order ++ [t] ->
  queue_inv (split_view order t seen) (order ++ [t]) rem ready ->
  let '(rem', ready') := release_step (rem, ready) d in
  queue_inv (split_view order t (seen ++ [d])) (order ++ [t]) rem' ready'.
Proof.
  intros Ht Hd Htd Hseen Hdo (Hrem & Hok & Hnd & Hready). unfold release_step.
  assert (Hview : forall x, x <> d ->
    split_view order t (seen ++ [d]) x = split_view order t seen x).
  { intros x Hx. unfold split_view.
    destruct (decide (x ∈ seen)); [rewrite decide_True by set_solver|rewrite decide_False by set_solver]; done. }
  assert (Hviewd : split_view order t (seen ++ [d]) d = order ++ [t]).
  { unfold split_view. by rewrite decide_True by set_solver. }
  assert (Hviewd' : split_view order t seen d = order).
  { unfold split_view. by rewrite decide_False. }
  pose proof (Hrem d Hd) as Hrd. rewrite Hviewd' in Hrd.
  destruct (missing_app order (D d) t (D_nodup d Hd) Ht) as [Hm Hpos].
  rewrite decide_True in Hm by done. specialize (Hpos Htd).
  fold (missing (order ++ [t]) d) in Hm. fold (missing order d) in Hm, Hpos.
  replace (default 0 (rem !! d) - 1) with (Z.of_nat (missing (order ++ [t]) d))
    by (rewrite Hrd; cbn; lia).
  assert (Hnotin : d ∉ ready).
  { rewrite Hready, Hviewd'. intros (_ & _ & Hall). by apply Ht, Hall. }
  assert (Hrem' : forall x, x ∈ ids ->
    <[d := Z.of_nat (missing (order ++ [t]) d)]> rem !! x
    = Some (Z.of_nat (missing (split_view order t (seen ++ [d]) x) x))).
  { intros x Hx. rewrite lookup_insert. case_decide as E; [subst x; by rewrite Hviewd|].
    rewrite Hview by done. by apply Hrem. }
  destruct (Z.of_nat (missing (order ++ [t]) d) =? 0) eqn:E.
  - destruct (heap_push_spec ready d Hok) as [Hp Hok']. split_and!; [done|done| |].
    + rewrite Hp. by apply NoDup_cons.
    + intros x. rewrite Hp, elem_of_cons. destruct (decide (x = d)) as [->|Hne].
      * rewrite Hviewd. split; [intros _|naive_solver]. split_and!; [done|done|].
        apply missing_zero. lia.
      * rewrite Hview by done. rewrite Hready. naive_solver.
  - split_and!; [done|done|done|]. intros x. destruct (decide (x = d)) as [->|Hne].
    + rewrite Hviewd. split; [done|]. intros (_ & _ & Hall). apply missing_zero in Hall. lia.
    + rewrite Hview by done. apply Hready.
Qed.

Lemma release_inv (order : list string) (t : string) (l seen : list string)
    (rem : gmap string Z) (ready : list string) :
  t ∉ order -> NoDup (seen ++ l) ->
  Forall (fun d => d ∈ ids /\ t ∈ D d /\ d ∉ order ++ [t]) l ->
  queue_inv (split_view order t seen) (order ++ [t]) rem ready ->
  let '(rem', ready') := foldl release_step (rem, ready) l in
  queue_inv (split_view order t (seen ++ l)) (order ++ [t]) rem' ready'.
Proof.
  intros Ht. revert seen rem ready. induction l as [|d l IH]; intros seen rem ready Hnd Hl Hq.
  { cbn. by rewrite app_nil_r. }
  apply Forall_cons in Hl as [(Hd & Htd & Hdo) Hl]. cbn [foldl].
  assert (Hseen : d ∉ seen).
  { intros Hc. apply NoDup_app in Hnd as (_ & Hdis & _). apply (Hdis d Hc). left. }
  pose proof (release_step_inv order t d seen rem ready Ht Hd Htd Hseen Hdo Hq) as Hstep.
  destruct (release_step (rem, ready) d) as [rem' ready'].
  specialize (IH (seen ++ [d]) rem' ready'). rewrite <- app_assoc in IH. by apply IH.
Qed.

Lemma queue_inv_released (order : list string) (t : string) (rem : gmap string Z)
    (ready : list string) :
  t ∉ order ->
  queue_inv (split_view order t (default [] (dependents !! t))) (order ++ [t]) rem ready ->
  queue_inv (fun _ => order ++ [t]) (order ++ [t]) rem ready.
Proof.
  intros Ht (Hrem & Hok & Hnd & Hready). split_and!; [|done|done|].
  - intros x Hx. rewrite Hrem by done. do 2 f_equal. unfold split_view.
    case_decide as Hin; [done|]. rewrite dependents_spec in Hin.
    destruct (missing_app order (D x) t (D_nodup x Hx) Ht) as [Hm _].
    rewrite decide_False in Hm by naive_solver. unfold missing. lia.
  - intros x. rewrite Hready. unfold split_view. case_decide as Hin; [done|].
    rewrite dependents_spec in Hin. split.
    + intros (? & ? & ?). split_and!; [done|done|]. intros; apply elem_of_app; auto.
    + intros (Hx & ? & Hall). split_and!; [done|done|]. intros y Hy.
      specialize (Hall y Hy). apply elem_of_app in Hall as [|Hy'%list_elem_of_singleton]; [done|].
      subst y. naive_solver.
Qed.

Lemma topo_loop_spec (fuel : nat) (order : list string) (rem : gmap string Z)
    (ready : list string) :
  greedy order -> queue_inv (fun _ => order) order rem ready ->
  (length ids < length order + fuel)%nat ->
  let order' := topo_loop fuel dependents rem ready order in
  greedy order' /\ forall z, ~ enabled order' z.
Proof.
  revert order rem ready. induction fuel as [|fuel IH]; intros order rem ready Hg Hq Hfuel.
  { pose proof (greedy_length order Hg). lia. }
  cbn [topo_loop]. destruct Hq as (Hrem & Hok & Hnd & Hready).
  destruct (Nat.eqb (length ready) 0) eqn:E.
  { apply Nat.eqb_eq, nil_length_inv in E as ->. split; [done|]. intros z Hz.
    apply Hready, elem_of_nil in Hz. done. }
  assert (Hne : ready <> []) by (intros ->; done).
  destruct (heap_pop_spec ready Hok Hne) as (Hp & Hok' & Hleast).
  destruct (heap_pop ready) as [t ready'] eqn:Epop. cbn [fst snd] in *.
  assert (Hten : enabled order t) by (apply Hready; rewrite <- Hp; left).
  assert (Hmin : forall z, enabled order z -> String.le t z) by (intros z Hz; by apply Hleast, Hready).
  assert (Hnd' : NoDup (t :: ready')) by by rewrite Hp.
  apply NoDup_cons in Hnd' as [Htr Hnd'].
  pose proof (release_inv order t (default [] (dependents !! t)) [] rem ready') as Hrel.
  destruct (foldl _ _ _) as [rem'' ready''].
  apply (IH (order ++ [t]) rem'' ready'').
  - by apply greedy_snoc.
  - destruct Hten as (_ & Hto & Htd). apply queue_inv_released; [done|]. apply Hrel; [done| | |].
    + cbn. by apply dependents_nodup.
    + apply Forall_forall. intros d [Hd Htin]%dependents_spec. split_and!; [done|done|].
      intros [Hdo|Hdt%list_elem_of_singleton]%elem_of_app.
      * apply Hto. by apply (greedy_elem order d).
      * subst d. by apply Hto, Htd.
    + split_and!; [done|done|done|]. intros x. unfold split_view.
      rewrite decide_False by apply not_elem_of_nil.
      specialize (Hready x). rewrite <- Hp, elem_of_cons in Hready.
      rewrite elem_of_app, list_elem_of_singleton.
      destruct (decide (x = t)) as [->|]; naive_solver.
  - rewrite length_app. cbn. lia.
Qed.
End Kahn.

(** ** Acyclic definitions *)

Section Acyclic.
Context (definition : WorkflowDefinition).
Hypothesis valid : structurally_valid definition.

Lemma depends_ids (x y : string) :
  depends definition x y -> x ∈ taskIDs_of definition /\ y ∈ taskIDs_of definition.
Proof.
  intros (t & Hin & <- & Hy). split; [by apply list_elem_of_fmap_2|].
  pose proof (sv_deps _ valid) as Hd. rewrite Forall_forall in Hd.
  destruct (Hd t Hin) as [Hf _]. rewrite Forall_forall in Hf. by apply (Hf y Hy).
Qed.

Lemma task_unique (t u : TaskDefinition) :
  t ∈ wd_Tasks definition -> u ∈ wd_Tasks definition -> td_ID t = td_ID u -> t = u.
Proof.
  pose proof (sv_unique _ valid) as Hnd. unfold taskIDs_of in Hnd. revert Hnd.
  generalize (wd_Tasks definition). intros l. induction l as [|v l IH]; [set_solver|].
  rewrite fmap_cons, NoDup_cons. intros [Hv Hnd].
  assert (Hnot : forall w, w ∈ l -> td_ID v <> td_ID w).
  { intros w Hw Heq. apply Hv. rewrite Heq. by apply list_elem_of_fmap_2. }
  intros [->|Ht]%elem_of_cons [->|Hu]%elem_of_cons; [done|naive_solver..].
Qed.

(** While an acyclic definition has tasks outside [completed], one of them has
    all of its dependencies inside. *)
Lemma acyclic_progress (completed : gset string) (x : string) :
  acyclic definition -> x ∈ taskIDs_of definition -> x ∉ completed ->
  exists z, z ∈ taskIDs_of definition /\ z ∉ completed /\
    forall y, depends definition z y -> y ∈ completed.
Proof.
  intros Hac Hx Hnot. assert (Hsn : sn (depends definition) x).
  { apply tc_finite_sn; [done|]. exists (taskIDs_of definition). intros y Hy.
    clear Hx Hnot. induction Hy as [? ? H|]; [by apply depends_ids in H as [_ ?]|done]. }
  revert Hx Hnot. induction Hsn as [x _ IH]. intros Hx Hnot.
  apply list_elem_of_fmap in Hx as (t & -> & Ht).
  destruct (decide (Forall (fun y => y ∈ completed) (deps t))) as [Hall|Hex].
  - exists (td_ID t). split_and!; [by apply list_elem_of_fmap_2|done|].
    intros y (u & Hu & Heq & Hy). rewrite (task_unique u t Hu Ht Heq) in Hy.
    rewrite Forall_forall in Hall. auto.
  - apply not_Forall_Exists in Hex; [|apply _]. apply Exists_exists in Hex as (y & Hy & Hn).
    assert (Hd : depends definition (td_ID t) y) by by exists t.
    apply (IH y); [done|by apply (depends_ids (td_ID t))|done].
Qed.

Lemma valid_order_acyclic (order : list string) :
  valid_order definition order -> acyclic definition.
Proof.
  intros [Hp Htop].
  assert (Hnd : NoDup order) by (rewrite Hp; apply sv_unique, valid).
  assert (Htc : forall x y, tc (depends definition) x y ->
    forall l1 l2, order = l1 ++ x :: l2 -> y ∈ l1).
  { intros x y H. induction H as [x y H|x y z H _ IH]; intros l1 l2 Heq.
    - by apply (Htop l1 x l2).
    - assert (Hy : y ∈ l1) by by apply (Htop l1 x l2).
      apply list_elem_of_split in Hy as (k1 & k2 & ->).
      apply elem_of_app. left. apply (IH k1 (k2 ++ x :: l2)). by rewrite Heq, <- app_assoc. }
  intros x Hxx. assert (Hx : x ∈ order).
  { rewrite Hp. inv Hxx as [? ? H|? ? ? H]; by apply depends_ids in H as [? ?]. }
  apply list_elem_of_split in Hx as (l1 & l2 & Heq).
  pose proof (Htc x x Hxx l1 l2 Heq) as Hin. subst order.
  apply NoDup_app in Hnd as (_ & Hd & _). apply (Hd x Hin). left.
Qed.
End Acyclic.

(** ** [topologicalOrder] on the graph of a definition *)

Lemma topo_start_spec (indegree : gmap string Z) (ids : list string) :
  let '(rem, ready) := foldl (topo_start_step indegree) (∅, []) ids in
  (forall x, x ∈ ids -> rem !! x = Some (default 0 (indegree !! x))) /\
  ready = filter (fun x => default 0 (indegree !! x) = 0) ids.
Proof.
  induction ids as [|x ids IH] using rev_ind; [set_solver|].
  rewrite foldl_snoc. destruct (foldl _ _ ids) as [rem ready]. destruct IH as [Hrem ->].
  cbn [topo_start_step]. split.
  - intros y [Hy|Hy%list_elem_of_singleton]%elem_of_app; rewrite lookup_insert; case_decide; naive_solver.
  - rewrite filter_app, filter_cons, filter_nil.
    destruct (Z.eqb_spec (default 0 (indegree !! x)) 0); case_decide; by rewrite ?app_nil_r.
Qed.

Section Sorted_graph.
Context (definition : WorkflowDefinition) (graph : dependencyGraph).
Hypothesis valid : structurally_valid definition.
Hypothesis built : graph_of definition graph.

Let D (x : string) : list string := deps (graph_task graph x).

Lemma graph_task_eq (t : TaskDefinition) :
  t ∈ wd_Tasks definition -> graph_task graph (td_ID t) = t.
Proof. intros Ht. unfold graph_task. by rewrite (proj2 (go_tasks _ _ built (td_ID t) t)). Qed.

Lemma graph_ids_elem (x : string) :
  x ∈ g_taskIDs graph <-> exists t, t ∈ wd_Tasks definition /\ td_ID t = x.
Proof.
  rewrite (go_ids _ _ built), sortTaskIDs_elem. unfold taskIDs_of.
  rewrite list_elem_of_fmap. naive_solver.
Qed.

Lemma graph_ids_taskIDs (x : string) : x ∈ g_taskIDs graph <-> x ∈ taskIDs_of definition.
Proof. by rewrite (go_ids _ _ built), sortTaskIDs_elem. Qed.

Lemma graph_deps (x y : string) : x ∈ g_taskIDs graph -> y ∈ D x <-> depends definition x y.
Proof.
  intros (t & Ht & <-)%graph_ids_elem. unfold D. rewrite (graph_task_eq t Ht). split.
  - intros Hy. by exists t.
  - intros (u & Hu & Heq & Hy). by rewrite (task_unique _ valid u t Hu Ht Heq) in Hy.
Qed.

Lemma graph_deps_nodup (x : string) : x ∈ g_taskIDs graph -> NoDup (D x).
Proof.
  intros (t & Ht & <-)%graph_ids_elem. unfold D. rewrite (graph_task_eq t Ht).
  pose proof (sv_deps _ valid) as Hd. rewrite Forall_forall in Hd. by apply (Hd t Ht).
Qed.

Lemma topologicalOrder_greedy :
  let '(order, acyclic) := topologicalOrder graph in
  (greedy (g_taskIDs graph) D order /\ forall z, ~ enabled (g_taskIDs graph) D order z) /\
  acyclic = Nat.eqb (length order) (length (g_taskIDs graph)).
Proof.
  unfold topologicalOrder. pose proof (topo_start_spec (g_indegree graph) (g_taskIDs graph)) as Hs.
  destruct (foldl _ _ _) as [rem ready]. destruct Hs as [Hrem ->].
  assert (Hdeg : forall x, x ∈ g_taskIDs graph ->
    default 0 (g_indegree graph !! x) = Z.of_nat (missing D [] x)).
  { intros x Hx. pose proof Hx as (t & Ht & <-)%graph_ids_elem. rewrite (go_indegree _ _ built t Ht).
    unfold missing, D. rewrite (graph_task_eq t Ht). cbn. f_equal. clear.
    induction (deps t) as [|d l IH]; [done|]. rewrite filter_cons, decide_True by set_solver.
    cbn. by f_equal. }
  split; [|done].
  assert (Hnd : NoDup (g_taskIDs graph)).
  { rewrite (go_ids _ _ built). apply sortTaskIDs_nodup, sv_unique, valid. }
  apply topo_loop_spec; [apply graph_deps_nodup| | | | |cbn; lia].
  - intros x y. split.
    + intros (t & Ht & Heq & Hx)%(go_dependents _ _ built).
      assert (Hy : y ∈ g_taskIDs graph) by (apply graph_ids_elem; eauto).
      split; [done|]. apply graph_deps; [done|]. by exists t.
    + intros [Hy Hx%graph_deps]; [|done]. by apply (go_dependents _ _ built).
  - apply (go_dependents_nodup _ _ built).
  - intros l1 x l2 Heq. by destruct l1.
  - destruct (heap_init_spec (filter (fun x => default 0 (g_indegree graph !! x) = 0)
                                     (g_taskIDs graph))) as [Hp Hok].
    split_and!; [|done| |].
    + intros x Hx. by rewrite Hrem, Hdeg.
    + rewrite Hp. by apply NoDup_filter.
    + intros x. rewrite Hp, list_elem_of_filter. split.
      * intros [H0 Hx]. split_and!; [done|apply not_elem_of_nil|].
        apply (missing_zero D []). rewrite Hdeg in H0 by done. lia.
      * intros (Hx & _ & Hall). split; [|done]. rewrite Hdeg by done.
        by rewrite (proj2 (missing_zero D [] x) Hall).
Qed.
End Sorted_graph.

(** The outcome of the sort: a valid order that no other valid order precedes,
    or the report of a cycle. *)
Lemma greedy_lex_le (definition : WorkflowDefinition) (graph : dependencyGraph)
    (valid : structurally_valid definition) (built : graph_of definition graph)
    (o l1 k : list string) :
  greedy (g_taskIDs graph) (fun x => deps (graph_task graph x)) (l1 ++ o) ->
  valid_order definition (l1 ++ k) -> length o = length k -> lex_le o k.
Proof.
  revert l1 k. induction o as [|x o IH]; intros l1 k Hg Hk Hlen; [done|].
  destruct k as [|y k]; [done|]. cbn [lex_le].
  destruct (Hg l1 x o eq_refl) as [_ Hmin]. destruct Hk as [Hp Htop].
  assert (Hle : String.le x y).
  { apply Hmin. assert (Hin : y ∈ g_taskIDs graph).
    { apply (graph_ids_taskIDs definition graph built). rewrite <- Hp. set_solver. }
    split_and!; [done| |].
    - assert (Hnd : NoDup (l1 ++ y :: k)) by (rewrite Hp; apply sv_unique, valid).
      apply NoDup_app in Hnd as (_ & Hd & _). intros Hc. apply (Hd y Hc). left.
    - intros z Hz. apply (Htop l1 y k eq_refl).
      by apply (graph_deps definition graph valid built). }
  destruct (decide (x = y)) as [->|Hne]; [right|by left]. split; [done|].
  apply (IH (l1 ++ [y])); rewrite <- ?app_assoc; [done|by split|by injection Hlen].
Qed.

Lemma topologicalOrder_spec (definition : WorkflowDefinition) (graph : dependencyGraph) :
  structurally_valid definition -> graph_of definition graph ->
  match topologicalOrder graph with
  | (order, true) => valid_order definition order /\
      forall k, valid_order definition k -> lex_le order k
  | (_, false) => ~ acyclic definition
  end.
Proof.
  intros Hv Hb. pose proof (topologicalOrder_greedy definition graph Hv Hb) as H.
  destruct (topologicalOrder graph) as [order flag]. destruct H as [[Hg Hend] ->].
  assert (Hids : g_taskIDs graph ≡ₚ taskIDs_of definition).
  { rewrite (go_ids _ _ Hb). apply sort_by_perm. }
  destruct (Nat.eqb_spec (length order) (length (g_taskIDs graph))) as [Hlen|Hlen].
  - assert (Hp : order ≡ₚ taskIDs_of definition).
    { rewrite <- Hids. apply submseteq_length_Permutation; [|lia].
      apply NoDup_submseteq; [by eapply greedy_nodup|]. intros x Hx.
      by eapply (greedy_elem _ _ order). }
    split; [split; [done|]|].
    + intros l1 x l2 Heq y Hy. destruct (Hg l1 x l2 Heq) as [(Hx & _ & Hall) _].
      by apply Hall, (graph_deps definition graph Hv Hb).
    + intros k Hk. apply (greedy_lex_le definition graph Hv Hb order [] k); [done|done|].
      destruct Hk as [Hk _]. by rewrite Hp, Hk.
  - intros Hac. assert (Hex : exists x, x ∈ g_taskIDs graph /\ x ∉ order).
    { destruct (decide (Forall (fun x => x ∈ order) (g_taskIDs graph))) as [Hf|Hf].
      - exfalso. apply Hlen. assert (Hnd : NoDup (g_taskIDs graph)).
        { rewrite Hids. apply sv_unique, Hv. }
        apply Nat.le_antisymm; [by eapply greedy_length|].
        apply submseteq_length, NoDup_submseteq; [done|]. by rewrite Forall_forall in Hf.
      - apply not_Forall_Exists in Hf; [|apply _]. by apply Exists_exists in Hf. }
    destruct Hex as (x & Hx & Hnx).
    destruct (acyclic_progress definition Hv (list_to_set order) x Hac) as (z & Hz & Hnz & Hall).
    { by rewrite <- Hids. } { by rewrite elem_of_list_to_set. }
    rewrite elem_of_list_to_set in Hnz. rewrite <- Hids in Hz.
    apply (Hend z). split_and!; [done|done|].
    intros y Hy%(graph_deps definition graph Hv Hb); [|done].
    by apply (elem_of_list_to_set (C := gset string)), Hall.
Qed.

Lemma topologicalOrder_flag (definition : WorkflowDefinition) (graph : dependencyGraph) :
  structurally_valid definition -> graph_of definition graph ->
  snd (topologicalOrder graph) = true <-> acyclic definition.
Proof.
  intros Hv Hb. pose proof (topologicalOrder_spec definition graph Hv Hb) as H.
  destruct (topologicalOrder graph) as [order []]; cbn; [|naive_solver].
  split; [|done]. intros _. apply (valid_order_acyclic definition Hv order), H.
Qed.

(** ** The theorems *)

Lemma Validate_ok_iff (definition : WorkflowDefinition) :
  Validate definition = Ok tt <-> structurally_valid definition /\ acyclic definition.
Proof.
  unfold Validate, TopologicalOrder. pose proof (buildDependencyGraph_spec definition) as Hb.
  destruct (buildDependencyGraph definition) as [graph|e]; cbn [rbind]; [|naive_solver].
  destruct Hb as [Hv Hb]. pose proof (topologicalOrder_flag definition graph Hv Hb) as Hf.
  destruct (topologicalOrder graph) as [order []]; cbn in *; naive_solver.
Qed.

(** C32: [Validate] accepts a definition if and only if it is structurally valid
    (identifiers, names, retry policies, unique IDs, known distinct
    dependencies) and its dependency relation has no cycle. *)
Theorem Validate_iff (definition : WorkflowDefinition) :
  Validate definition = Ok tt <-> structurally_valid definition /\ acyclic definition.
Proof. apply Validate_ok_iff. Qed.

(** C3: [TopologicalOrder] answers a definition with an order only when it is
    structurally valid; the order has every task exactly once, each after all of its
    dependencies, and is lexicographically smallest among all such orders. It fails on
    exactly the other definitions: those that are not structurally valid, whether or
    not their tasks could be ordered, and those that are and have no order at all,
    which are told apart by the cycle error. *)
Theorem TopologicalOrder_least (definition : WorkflowDefinition) :
  match TopologicalOrder definition with
  | Ok order => structurally_valid definition /\ valid_order definition order /\
      forall other, valid_order definition other -> lex_le order other
  | Err e => ~ structurally_valid definition \/
      structurally_valid definition /\ e = cycleError definition /\
      forall other, ~ valid_order definition other
  end.
Proof.
  unfold TopologicalOrder. pose proof (buildDependencyGraph_spec definition) as Hb.
  destruct (buildDependencyGraph definition) as [graph|e]; cbn [rbind]; [|by left].
  destruct Hb as [Hv Hb]. pose proof (topologicalOrder_spec definition graph Hv Hb) as Hf.
  destruct (topologicalOrder graph) as [order []]; [done|]. right. split_and!; [done..|].
  intros other Ho. by apply Hf, (valid_order_acyclic definition Hv other).
Qed.

(** [IsAcyclic] decides whether the dependency relation of a structurally
    valid definition is acyclic, and reports an error for the other definitions. *)
Theorem IsAcyclic_decides (definition : WorkflowDefinition) :
  match IsAcyclic definition with
  | Ok answer => structurally_valid definition /\ (answer = true <-> acyclic definition)
  | Err _ => ~ structurally_valid definition
  end.
Proof.
  unfold IsAcyclic. pose proof (buildDependencyGraph_spec definition) as Hb.
  destruct (buildDependencyGraph definition) as [graph|e]; cbn [rbind]; [|done].
  destruct Hb as [Hv Hb]. pose proof (topologicalOrder_flag definition graph Hv Hb) as Hf.
  by destruct (topologicalOrder graph) as [order flag].
Qed.

(** *** Readiness *)

(** What [ReadyTasks] promises to the scheduler. *)
Definition ready_task (definition : WorkflowDefinition) (completed : gset string)
    (t : TaskDefinition) : Prop :=
  t ∈ wd_Tasks definition /\ td_ID t ∉ completed /\ forall y, y ∈ deps t -> y ∈ completed.

Lemma dependenciesSatisfied_true (completed : gset string) (t : TaskDefinition) :
  dependenciesSatisfied completed t = true <-> forall y, y ∈ deps t -> y ∈ completed.
Proof.
  unfold dependenciesSatisfied. rewrite forallb_forall. split; intros H y Hy.
  - specialize (H y). rewrite <- list_elem_of_In in H. by apply H, bool_decide_eq_true in Hy.
  - rewrite <- list_elem_of_In in Hy. by apply bool_decide_eq_true, H.
Qed.

Lemma ready_list_elem (definition : WorkflowDefinition) (graph : dependencyGraph)
    (completed : gset string) (t : TaskDefinition) :
  graph_of definition graph ->
  t ∈ graph_task graph <$> filter (readyIn graph completed) (g_taskIDs graph) <->
  ready_task definition completed t.
Proof.
  intros Hb. rewrite list_elem_of_fmap. unfold ready_task. split.
  - intros (x & -> & Hx). apply list_elem_of_filter in Hx as [[Hn Hs] Hx].
    apply (graph_ids_elem definition graph Hb) in Hx as (t & Ht & <-).
    rewrite (graph_task_eq definition graph Hb t Ht) in *.
    by rewrite dependenciesSatisfied_true in Hs.
  - intros (Ht & Hn & Hd). exists (td_ID t).
    rewrite (graph_task_eq definition graph Hb t Ht). split; [done|].
    apply list_elem_of_filter. split; [split; [done|]|].
    + rewrite (graph_task_eq definition graph Hb t Ht). by apply dependenciesSatisfied_true.
    + apply (graph_ids_elem definition graph Hb). eauto.
Qed.

Lemma graph_task_ids (definition : WorkflowDefinition) (graph : dependencyGraph)
    (l : list string) :
  graph_of definition graph -> (forall x, x ∈ l -> x ∈ g_taskIDs graph) ->
  td_ID <$> (graph_task graph <$> l) = l.
Proof.
  intros Hb Hl. induction l as [|x l IH]; [done|]. cbn. f_equal; [|apply IH; set_solver].
  destruct (proj1 (graph_ids_elem definition graph Hb x)) as (t & Ht & <-); [set_solver|].
  by rewrite (graph_task_eq definition graph Hb t Ht).
Qed.

Lemma Sorted_filter_le (P : string -> Prop) `{forall x, Decision (P x)} (l : list string) :
  StronglySorted String.le l -> StronglySorted String.le (filter P l).
Proof.
  induction 1 as [|x l Hl IH Hx]; [constructor|]. rewrite filter_cons. case_decide; [|done].
  constructor; [done|]. rewrite Forall_forall in Hx |- *.
  intros y [_ Hy]%list_elem_of_filter. auto.
Qed.

Lemma unknown_completed_elem (definition : WorkflowDefinition) (graph : dependencyGraph)
    (completed : gset string) (x : string) :
  graph_of definition graph ->
  x ∈ sortTaskIDs (filter (fun taskID => g_tasks graph !! taskID = None) (elements completed)) <->
  x ∈ completed /\ x ∉ taskIDs_of definition.
Proof.
  intros Hb. rewrite sortTaskIDs_elem, list_elem_of_filter, elem_of_elements.
  unfold taskIDs_of. rewrite list_elem_of_fmap. split.
  - intros [Hn Hx]. split; [done|]. intros (t & -> & Ht).
    by rewrite (proj2 (go_tasks _ _ Hb (td_ID t) t)) in Hn.
  - intros [Hx Hn]. split; [|done]. apply eq_None_not_Some. intros [t Ht].
    apply (go_tasks _ _ Hb) in Ht as [? ?]. naive_solver.
Qed.

Lemma ready_list_nonempty (definition : WorkflowDefinition) (graph : dependencyGraph)
    (completed : gset string) (x : string) :
  structurally_valid definition -> graph_of definition graph -> acyclic definition ->
  x ∈ taskIDs_of definition -> x ∉ completed ->
  graph_task graph <$> filter (readyIn graph completed) (g_taskIDs graph) <> [].
Proof.
  intros Hv Hb Hac Hx Hn Hnil.
  destruct (acyclic_progress definition Hv completed x Hac Hx Hn) as (z & Hz & Hnz & Hall).
  apply list_elem_of_fmap in Hz as (t & -> & Ht).
  assert (Hr : t ∈ graph_task graph <$> filter (readyIn graph completed) (g_taskIDs graph)).
  { apply (ready_list_elem definition graph completed t Hb). split_and!; [done|done|].
    intros y Hy. apply Hall. by exists t. }
  rewrite Hnil in Hr. by apply elem_of_nil in Hr.
Qed.

(** What [ReadyTasks] promises. *)
Definition ready_contract (definition : WorkflowDefinition) (completed : gset string)
    (result : res ValidationError (list TaskDefinition)) : Prop :=
  match result with
  | Ok ready =>
      (forall x, x ∈ completed -> x ∈ taskIDs_of definition) /\
      (forall t, t ∈ ready <-> ready_task definition completed t) /\
      StronglySorted String.le (td_ID <$> ready) /\ NoDup (td_ID <$> ready) /\
      ((exists x, x ∈ taskIDs_of definition /\ x ∉ completed) -> ready <> [])
  | Err e =>
      Validate definition = Err e \/
      (ve_Code e = ValidationUnknownCompletedTask /\
       ve_TaskID e ∈ completed /\ ve_TaskID e ∉ taskIDs_of definition /\
       forall x, x ∈ completed -> x ∉ taskIDs_of definition -> String.le (ve_TaskID e) x)
  end.

Lemma ReadyTasks_meets (definition : WorkflowDefinition) (completed : gset string) :
  ready_contract definition completed (ReadyTasks definition completed).
Proof.
  unfold ready_contract, ReadyTasks, Validate, TopologicalOrder.
  pose proof (buildDependencyGraph_spec definition) as Hb.
  destruct (buildDependencyGraph definition) as [graph|e]; cbn [rbind]; [|by left].
  destruct Hb as [Hv Hb]. pose proof (topologicalOrder_flag definition graph Hv Hb) as Hf.
  destruct (topologicalOrder graph) as [order []]; cbn [negb snd guard_err rbind] in *; [|by left].
  pose proof (unknown_completed_elem definition graph completed) as Hu.
  destruct (sortTaskIDs _) as [|first rest] eqn:Es.
  - assert (Hsub : forall x, x ∈ filter (readyIn graph completed) (g_taskIDs graph) ->
      x ∈ g_taskIDs graph) by (by intros x [_ ?]%list_elem_of_filter).
    rewrite (graph_task_ids definition graph _ Hb Hsub). split_and!.
    + intros x Hx. destruct (decide (x ∈ taskIDs_of definition)); [done|].
      exfalso. apply (not_elem_of_nil x). by apply Hu.
    + intros t. by apply ready_list_elem.
    + apply Sorted_filter_le. rewrite (go_ids _ _ Hb). apply sort_by_sorted.
    + apply NoDup_filter. rewrite (go_ids _ _ Hb). apply sortTaskIDs_nodup, sv_unique, Hv.
    + intros (x & Hx & Hn). eapply ready_list_nonempty; naive_solver.
  - right. cbn. assert (Hfirst : first ∈ first :: rest) by left.
    apply Hu in Hfirst as [? ?]; [|done]. split_and!; [done|done|done|].
    intros x Hx Hn. assert (Hin : x ∈ first :: rest) by by apply Hu.
    pose proof (sort_by_sorted id (filter (fun taskID => g_tasks graph !! taskID = None)
      (elements completed))) as Hs. unfold sortTaskIDs, sort_strings in Es. rewrite Es in Hs.
    apply StronglySorted_inv in Hs as [_ Hs]. rewrite Forall_forall in Hs.
    apply elem_of_cons in Hin as [->|Hin]; [reflexivity|by apply Hs].
Qed.

(** C31: [ReadyTasks] returns exactly the incomplete tasks whose dependencies are
    all completed, in order of their IDs, and at least one of them while a task
    of the workflow remains; an unknown completed ID is reported, the least one
    first, and an invalid definition with the error of [Validate]. *)
Theorem ReadyTasks_spec (definition : WorkflowDefinition) (completed : gset string) :
  ready_contract definition completed (ReadyTasks definition completed).
Proof. apply ReadyTasks_meets. Qed.

(** [RootTasks] is [ReadyTasks] with nothing completed: on a valid definition
    the first tasks to run are the ones without dependencies. *)
Theorem RootTasks_ready (definition : WorkflowDefinition) :
  RootTasks definition = ReadyTasks definition ∅.
Proof.
  unfold RootTasks, ReadyTasks. pose proof (buildDependencyGraph_spec definition) as Hb.
  destruct (buildDependencyGraph definition) as [graph|e]; cbn [rbind]; [|done].
  destruct Hb as [Hv Hb]. destruct (topologicalOrder graph) as [order []]; [|done].
  cbn [negb guard_err rbind]. rewrite elements_empty. do 2 f_equal.
  assert (Hsub : forall x, x ∈ g_taskIDs graph -> x ∈ g_taskIDs graph) by done.
  revert Hsub. generalize (g_taskIDs graph) at 1 3 4. intros l Hsub.
  induction l as [|x l IH]; [done|]. rewrite !filter_cons.
  destruct (proj1 (graph_ids_elem definition graph Hb x)) as (t & Ht & <-); [set_solver|].
  rewrite IH by set_solver. rewrite (go_indegree _ _ Hb t Ht). cbn [default].
  assert (Hiff : readyIn graph ∅ (td_ID t) <-> Z.of_nat (length (deps t)) = 0).
  { unfold readyIn. rewrite (graph_task_eq definition graph Hb t Ht).
    unfold dependenciesSatisfied. destruct (deps t); cbn; split; [done|set_solver| |lia].
    rewrite bool_decide_false by set_solver. naive_solver. }
  destruct (decide (readyIn _ _ _)) as [Hr|Hr]; [rewrite decide_True|rewrite decide_False];
    [done|by apply Hiff|done|by rewrite <- Hiff].
Qed.
