(* ===== verification/Errors.v ===== *)
(** * Error values

    Models [src/internal/execution/errors.go], [src/internal/security/errors.go],
    the [Error] method of [src/internal/workflow/errors.go] and the lifecycle statuses of
    [src/internal/execution/run.go] that error messages mention. A Go [error]
    is a value of [go_error]; [error_string] is its [Error] method, [unwrap]
    its [Unwrap], and [chain_contains] the search of an error chain. *)
From S2P Require Import Prelude Workflow.

(** ** Quoting

    [fmt]'s [%q] verb is [strconv.Quote]. Whether a rune at or above U+0080 is
    printable comes from the Unicode tables of the Go release, which are an
    argument of the development. *)

Class Unicode := is_print_wide : Z -> bool.

Definition is_print `{Unicode} (r : Z) : bool :=
  if r <? 128 then in_range 32 126 r else is_print_wide r.

Definition hex_digit (d : Z) : string :=
  String (Ascii.ascii_of_N (Z.to_N (if d <? 10 then 48 + d else 87 + d))) EmptyString.

(** The [n] low hexadecimal digits of [v]. *)
Fixpoint hex_digits (n : nat) (v : Z) : string :=
  match n with
  | O => ""
  | S k => hex_digits k (Z.shiftr v 4) +:+ hex_digit (Z.land v 15)
  end.

Definition byte_string (b : Z) : string := String (Ascii.ascii_of_N (Z.to_N b)) EmptyString.
Definition backslash : string := byte_string 92.
Definition dquote : string := byte_string 34.

Definition escape_rune (r : Z) : string :=
  backslash +:+
  (if (r =? 34) || (r =? 92) then byte_string r
   else if r =? 7 then "a" else if r =? 8 then "b" else if r =? 12 then "f"
   else if r =? 10 then "n" else if r =? 13 then "r" else if r =? 9 then "t"
   else if r =? 11 then "v"
   else if (r <? 32) || (r =? 127) then "x" +:+ hex_digits 2 r
   else if r <? 65536 then "u" +:+ hex_digits 4 r
   else "U" +:+ hex_digits 8 r).

Section Format.
Context `{Unicode}.

(** [skip] bytes of the current rune remain; they are copied when the rune is
    printable and dropped when an escape replaces it. *)
Fixpoint quote_body (skip : nat) (copy : bool) (s : string) : string :=
  match s with
  | EmptyString => EmptyString
  | String c rest =>
      match skip with
      | S k => if copy then String c (quote_body k copy rest) else quote_body k copy rest
      | O =>
          let '(r, w) := decode_rune (byte_val c) (bytes_of rest) in
          if Nat.eqb w 1 && (r =? rune_error)
          then backslash +:+ "x" +:+ hex_digits 2 (byte_val c) +:+ quote_body 0 true rest
          else if negb ((r =? 34) || (r =? 92)) && is_print r
          then String c (quote_body (w - 1) true rest)
          else escape_rune r +:+ quote_body (w - 1) false rest
      end
  end.

Definition quote (s : string) : string := dquote +:+ quote_body 0 true s +:+ dquote.
End Format.

(** [fmt]'s [%d]. *)
Definition fmt_d (n : Z) : string := pretty n.

(** ** Lifecycle statuses

    The source declares both statuses as named strings. The last constructor of
    each type stands for a string that is none of the declared constants, which
    only decoding can produce. *)

Inductive WorkflowRunStatus :=
| WorkflowRunPending
| WorkflowRunRunning
| WorkflowRunSucceeded
| WorkflowRunFailed
| WorkflowRunCanceled
| WorkflowRunOther (raw : string).

Inductive TaskRunStatus :=
| TaskRunPending
| TaskRunReady
| TaskRunRunning
| TaskRunRetryWaiting
| TaskRunSucceeded
| TaskRunFailed
| TaskRunCanceled
| TaskRunOther (raw : string).

#[export] Instance WorkflowRunStatus_eq_dec : EqDecision WorkflowRunStatus.
Proof. solve_decision. Defined.
#[export] Instance TaskRunStatus_eq_dec : EqDecision TaskRunStatus.
Proof. solve_decision. Defined.

Definition workflow_status_string (status : WorkflowRunStatus) : string :=
  match status with
  | WorkflowRunPending => "pending"
  | WorkflowRunRunning => "running"
  | WorkflowRunSucceeded => "succeeded"
  | WorkflowRunFailed => "failed"
  | WorkflowRunCanceled => "canceled"
  | WorkflowRunOther raw => raw
  end.

Definition task_status_string (status : TaskRunStatus) : string :=
  match status with
  | TaskRunPending => "pending"
  | TaskRunReady => "ready"
  | TaskRunRunning => "running"
  | TaskRunRetryWaiting => "retry_wait"
  | TaskRunSucceeded => "succeeded"
  | TaskRunFailed => "failed"
  | TaskRunCanceled => "canceled"
  | TaskRunOther raw => raw
  end.

(** ** Errors *)

(** [ErrText] is an error made by [errors.New] or [fmt.Errorf] without [%w];
    [ErrWrap] carries the whole formatted text and the error behind [%w]. The
    package-level error variables, which the code compares by identity, have a
    constructor each. [PgError] is the database driver's error for a SQLSTATE,
    with its text. A [None] cause is a nil interface. *)
Inductive go_error :=
| ErrText (text : string)
| ErrWrap (text : string) (cause : go_error)
| ErrJoin (errs : list go_error)
| ErrContextCanceled
| ErrContextDeadlineExceeded
| ErrBrokerClosed
| ErrDeliverySettled
| ErrWorkerDisappeared
| ErrValidation (e : ValidationError)
| RetryableTaskError (cause : option go_error)
| InvalidEngineConfigError (WorkerCount : Z) (Reason : string)
| HandlerRegistrationError (HandlerName Reason : string)
| UnknownHandlerError (TaskID HandlerName : string)
| TaskExecutionError (RunID TaskID : string) (Cause : option go_error)
| LeaseExpiredError (RunID TaskID AttemptID : string)
| RunCanceledError (RunID : string) (Cause : option go_error)
| InvalidRunIDError (RunID : string)
| SnapshotValidationError (RunID Reason : string)
| WorkflowConflictError (WorkflowID : string)
| WorkflowNotFoundError (WorkflowID : string)
| RunAlreadyExistsError (RunID : string)
| RunVersionConflictError (RunID : string) (ExpectedVersion ActualVersion : Z)
| RunNotFoundError (RunID : string)
| PersistenceError (Operation RunID : string) (Cause : option go_error)
| BrokerOperationError (Operation RunID MessageID : string) (Cause : option go_error)
| UnknownTaskRunError (RunID TaskID : string)
| TaskTransitionError (RunID TaskID : string) (From To : TaskRunStatus)
| WorkflowTransitionError (RunID : string) (From To : WorkflowRunStatus)
| BrokerValidationError (Field Value Reason : string)
| MessageConflictError (MessageID : string)
| ErrUnauthenticated
| ProjectAlreadyExistsError (ProjectID : string)
| ProjectNotFoundError (ProjectID : string)
| UserDisabledError (UserID : string)
| WorkflowOwnershipConflictError (WorkflowID : string)
| AuditEventAlreadyExistsError (EventID : string)
| requestValidationError (field message : string)
| errRunAlreadyActive
| errManagerClosed
| PgError (Code Text : string).

(** [Retryable] never marks a nil error. *)
Definition Retryable (cause : option go_error) : option go_error :=
  match cause with
  | None => None
  | Some e => Some (RetryableTaskError (Some e))
  end.

(** [Unwrap() error] and [Unwrap() []error] of the error types. *)
Definition unwrap (e : go_error) : list go_error :=
  match e with
  | ErrWrap _ cause => [cause]
  | ErrJoin errs => errs
  | RetryableTaskError (Some cause)
  | TaskExecutionError _ _ (Some cause)
  | RunCanceledError _ (Some cause)
  | PersistenceError _ _ (Some cause)
  | BrokerOperationError _ _ _ (Some cause) => [cause]
  | _ => []
  end.

(** The depth-first search of [errors.Is] and [errors.As] through an error tree. *)
Fixpoint chain_contains (test : go_error -> bool) (e : go_error) : bool :=
  test e ||
  match e with
  | ErrWrap _ cause => chain_contains test cause
  | ErrJoin errs => existsb (chain_contains test) errs
  | RetryableTaskError (Some cause)
  | TaskExecutionError _ _ (Some cause)
  | RunCanceledError _ (Some cause)
  | PersistenceError _ _ (Some cause)
  | BrokerOperationError _ _ _ (Some cause) => chain_contains test cause
  | _ => false
  end.

Definition IsRetryable (err : go_error) : bool :=
  chain_contains (fun e => match e with RetryableTaskError _ => true | _ => false end) err.

(** [errors.Join]: nil errors are dropped, and a join of none is nil. *)
Definition errors_join (errs : list (option go_error)) : option go_error :=
  match omap id errs with
  | [] => None
  | es => Some (ErrJoin es)
  end.

(** A [context.Context] as the code reads it: nil, live, or done with its error. *)
Inductive context :=
| CtxNil
| CtxLive
| CtxDone (err : go_error).

(** ** Messages *)

Section Messages.
Context `{Unicode}.

Definition identifier_rule : string :=
  "identifiers must be non-empty and contain no whitespace or control characters".

Definition validation_error_string (e : ValidationError) : string :=
  let wf := quote (ve_WorkflowID e) in
  let task := quote (ve_TaskID e) in
  let dep := quote (ve_DependencyID e) in
  match ve_Code e with
  | ValidationInvalidWorkflowID => "workflow ID " +:+ wf +:+ " is invalid: " +:+ identifier_rule
  | ValidationEmptyWorkflow => "workflow " +:+ wf +:+ " must contain at least one task"
  | ValidationInvalidTaskID =>
      "workflow " +:+ wf +:+ " has invalid task ID " +:+ task +:+ ": " +:+ identifier_rule
  | ValidationInvalidTaskName =>
      "task " +:+ task +:+ " in workflow " +:+ wf +:+ " must have a non-empty name"
  | ValidationDuplicateTaskID => "workflow " +:+ wf +:+ " contains duplicate task ID " +:+ task
  | ValidationInvalidDependencyID =>
      "task " +:+ task +:+ " in workflow " +:+ wf +:+ " has invalid dependency ID " +:+ dep
  | ValidationMissingDependency =>
      "task " +:+ task +:+ " in workflow " +:+ wf +:+ " depends on undefined task " +:+ dep
  | ValidationSelfDependency =>
      "task " +:+ task +:+ " in workflow " +:+ wf +:+ " depends on itself"
  | ValidationDuplicateDependency =>
      "task " +:+ task +:+ " in workflow " +:+ wf +:+ " repeats dependency " +:+ dep
  | ValidationCycle => "workflow " +:+ wf +:+ " contains a dependency cycle"
  | ValidationUnknownCompletedTask =>
      "completed task " +:+ task +:+ " is not defined in workflow " +:+ wf
  | ValidationInvalidRetryPolicy =>
      "task " +:+ task +:+ " in workflow " +:+ wf +:+ " has an invalid retry policy: " +:+ ve_Reason e
  end.

(** The [Error] methods. *)
Fixpoint error_string (e : go_error) : string :=
  let cause_string (cause : option go_error) :=
    match cause with Some c => error_string c | None => "<nil>" end in
  match e with
  | ErrText text | ErrWrap text _ => text
  | ErrJoin errs => String.concat (byte_string 10) (map error_string errs)
  | ErrContextCanceled => "context canceled"
  | ErrContextDeadlineExceeded => "context deadline exceeded"
  | ErrBrokerClosed => "task broker is closed"
  | ErrDeliverySettled => "task delivery is no longer active"
  | ErrWorkerDisappeared => "worker disappeared"
  | ErrValidation v => validation_error_string v
  | RetryableTaskError None => "retryable task failure"
  | RetryableTaskError (Some cause) => error_string cause
  | InvalidEngineConfigError n reason =>
      "invalid execution engine configuration with " +:+ fmt_d n +:+ " workers: " +:+ reason
  | HandlerRegistrationError name reason =>
      "cannot register task handler " +:+ quote name +:+ ": " +:+ reason
  | UnknownHandlerError task name =>
      "task " +:+ quote task +:+ " references unregistered handler " +:+ quote name
  | TaskExecutionError run task cause =>
      "task " +:+ quote task +:+ " in workflow run " +:+ quote run +:+ " failed: " +:+ cause_string cause
  | LeaseExpiredError run task attempt =>
      "lease expired for attempt " +:+ quote attempt +:+ " of task " +:+ quote task
      +:+ " in workflow run " +:+ quote run
  | RunCanceledError run cause =>
      "workflow run " +:+ quote run +:+ " canceled: " +:+ cause_string cause
  | InvalidRunIDError run => "run ID " +:+ quote run +:+ " is invalid: " +:+ identifier_rule
  | SnapshotValidationError run reason =>
      "invalid snapshot for workflow run " +:+ quote run +:+ ": " +:+ reason
  | WorkflowConflictError wf =>
      "workflow definition " +:+ quote wf +:+ " already exists with different content"
  | WorkflowNotFoundError wf => "workflow definition " +:+ quote wf +:+ " was not found"
  | RunAlreadyExistsError run => "workflow run " +:+ quote run +:+ " already exists"
  | RunVersionConflictError run expected actual =>
      "workflow run " +:+ quote run +:+ " version conflict: expected " +:+ fmt_d expected
      +:+ ", actual " +:+ fmt_d actual
  | RunNotFoundError run => "workflow run " +:+ quote run +:+ " was not found"
  | PersistenceError op run cause =>
      if string_is_empty run
      then "persistence operation " +:+ quote op +:+ " failed: " +:+ cause_string cause
      else "persistence operation " +:+ quote op +:+ " failed for workflow run " +:+ quote run
           +:+ ": " +:+ cause_string cause
  | BrokerOperationError op run message cause =>
      if string_is_empty message
      then "broker operation " +:+ quote op +:+ " failed for workflow run " +:+ quote run
           +:+ ": " +:+ cause_string cause
      else "broker operation " +:+ quote op +:+ " failed for message " +:+ quote message
           +:+ " in workflow run " +:+ quote run +:+ ": " +:+ cause_string cause
  | UnknownTaskRunError run task =>
      "task " +:+ quote task +:+ " is not part of workflow run " +:+ quote run
  | TaskTransitionError run task from to =>
      "task " +:+ quote task +:+ " in run " +:+ quote run +:+ " cannot transition from "
      +:+ quote (task_status_string from) +:+ " to " +:+ quote (task_status_string to)
  | WorkflowTransitionError run from to =>
      "workflow run " +:+ quote run +:+ " cannot transition from "
      +:+ quote (workflow_status_string from) +:+ " to " +:+ quote (workflow_status_string to)
  | BrokerValidationError field value reason =>
      if string_is_empty reason then "invalid broker " +:+ field +:+ " " +:+ quote value
      else "invalid broker " +:+ field +:+ ": " +:+ reason
  | MessageConflictError message =>
      "broker message " +:+ quote message +:+ " already exists with different content"
  | ErrUnauthenticated => "request is unauthenticated"
  | ProjectAlreadyExistsError project => "project " +:+ quote project +:+ " already exists"
  | ProjectNotFoundError project => "project " +:+ quote project +:+ " was not found"
  | UserDisabledError user => "user " +:+ quote user +:+ " is disabled"
  | WorkflowOwnershipConflictError wf => "workflow " +:+ quote wf +:+ " already has different ownership"
  | AuditEventAlreadyExistsError event => "audit event " +:+ quote event +:+ " already exists"
  | requestValidationError _ message => message
  | errRunAlreadyActive => "workflow run is already active"
  | errManagerClosed => "workflow run manager is closed"
  | PgError _ text => text
  end.

(** [fmt.Errorf("<prefix>: %w", cause)]. *)
Definition wrapf (prefix : string) (cause : go_error) : go_error :=
  ErrWrap (prefix +:+ ": " +:+ error_string cause) cause.
End Messages.
