(* ===== verification/Run.v ===== *)
(** * The workflow-run aggregate

    Models [src/internal/execution/run.go] and
    [src/internal/execution/reliability.go]: the task and workflow state
    machines, attempts with leases, heartbeats, retries and lease recovery.

    The aggregate's mutex serialises its methods, so each one is a function on
    the state. The reading of the injected clock is the argument [now]. A loop
    that ranges over the task map updates each entry from its own old value;
    [range_map] is its result and [range_in_order_eq] shows that the iteration
    order, which Go leaves open, does not matter. *)
From S2P Require Import Prelude Workflow Heap Graph GraphBuild Errors.

(** ** Ranging over a map *)

Definition range_map {A : Type} (f : string -> A -> option A) (m : gmap string A) : gmap string A :=
  map_imap (fun k a => Some (default a (f k a))) m.

(** The loop itself, visiting the keys in [order]. *)
Definition range_in_order {A : Type} (f : string -> A -> option A) (order : list string)
    (m : gmap string A) : gmap string A :=
  foldl (fun acc k =>
    match acc !! k with
    | Some a => match f k a with Some a' => <[k := a']> acc | None => acc end
    | None => acc
    end) m order.

(** The values of a map, in the iteration order of the model. *)
Definition map_values {A : Type} (m : gmap string A) : list A := snd <$> map_to_list m.

(** ** Data *)

Record TaskLease := mkTaskLease {
  lease_WorkerID : string;
  lease_TaskRunID : string;
  lease_AttemptID : string;
  lease_ExpiresAt : Z
}.

Record WorkerHeartbeat := mkWorkerHeartbeat {
  hb_WorkerID : string;
  hb_LastHeartbeatAt : Z
}.

Record TaskRun := mkTaskRun {
  tr_TaskID : string;
  tr_TaskRunID : string;
  tr_Status : TaskRunStatus;
  tr_Output : string;
  tr_Error : string;
  tr_AttemptCount : Z;
  tr_CurrentAttemptID : string;
  tr_NextAttemptAt : Z;
  tr_Lease : option TaskLease;
  tr_UpdatedAt : Z;
  tr_StartedAt : Z;
  tr_FinishedAt : Z
}.

(** The aggregate without its mutex and its clock. *)
Record WorkflowRun := mkWorkflowRun {
  run_id : string;
  run_definition : WorkflowDefinition;
  run_version : Z;
  run_status : WorkflowRunStatus;
  run_tasks : gmap string TaskRun;
  run_workers : gmap string WorkerHeartbeat;
  run_createdAt : Z;
  run_updatedAt : Z
}.

Record WorkflowRunSnapshot := mkSnapshot {
  snap_ID : string;
  snap_WorkflowID : string;
  snap_Version : Z;
  snap_Status : WorkflowRunStatus;
  snap_CreatedAt : Z;
  snap_UpdatedAt : Z;
  snap_Tasks : list TaskRun;
  snap_Workers : list WorkerHeartbeat
}.

Inductive CompletionOutcome :=
| CompletionIgnored
| CompletionSucceeded
| CompletionRetryScheduled
| CompletionFailed.

Record LeaseRecovery := mkLeaseRecovery {
  lr_TaskID : string;
  lr_AttemptID : string;
  lr_WorkerID : string;
  lr_Outcome : CompletionOutcome
}.

#[export] Instance TaskLease_eq_dec : EqDecision TaskLease.
Proof. solve_decision. Defined.
#[export] Instance WorkerHeartbeat_eq_dec : EqDecision WorkerHeartbeat.
Proof. solve_decision. Defined.
#[export] Instance TaskRun_eq_dec : EqDecision TaskRun.
Proof. solve_decision. Defined.
#[export] Instance WorkflowRunSnapshot_eq_dec : EqDecision WorkflowRunSnapshot.
Proof. solve_decision. Defined.
#[export] Instance CompletionOutcome_eq_dec : EqDecision CompletionOutcome.
Proof. solve_decision. Defined.

(** ** Identities *)

Definition TaskRunIDFor (runID taskID : string) : string :=
  fmt_d (Z.of_nat (String.length runID)) +:+ ":" +:+ runID +:+ ":" +:+ taskID.

Definition AttemptIDFor (taskRunID : string) (attempt : Z) : string :=
  taskRunID +:+ ":attempt:" +:+ fmt_d attempt.

(** ** State machines *)

Definition legalTaskTransition (from to : TaskRunStatus) : bool :=
  match from, to with
  | TaskRunPending, (TaskRunReady | TaskRunCanceled) => true
  | TaskRunReady, (TaskRunRunning | TaskRunCanceled) => true
  | TaskRunRunning, (TaskRunSucceeded | TaskRunFailed | TaskRunCanceled) => true
  | TaskRunRetryWaiting, (TaskRunReady | TaskRunCanceled) => true
  | _, _ => false
  end.

Definition legalWorkflowTransition (from to : WorkflowRunStatus) : bool :=
  match from, to with
  | WorkflowRunPending, (WorkflowRunRunning | WorkflowRunCanceled) => true
  | WorkflowRunRunning, (WorkflowRunSucceeded | WorkflowRunFailed | WorkflowRunCanceled) => true
  | _, _ => false
  end.

Definition task_terminal (status : TaskRunStatus) : bool :=
  match status with
  | TaskRunSucceeded | TaskRunFailed | TaskRunCanceled => true
  | _ => false
  end.

(** ** Construction and reading *)

(** [append([]TaskID(nil), deps...)] turns an empty slice into the nil slice. *)
Definition clone_dependencies (dependencies : option (list string)) : option (list string) :=
  match dependencies with
  | Some [] => None
  | d => d
  end.

Definition cloneTask (task : TaskDefinition) : TaskDefinition :=
  mkTaskDefinition (td_ID task) (td_Name task) (clone_dependencies (td_Dependencies task))
    (td_Handler task) (td_Input task) (td_Retry task).

Definition cloneDefinition (definition : WorkflowDefinition) : WorkflowDefinition :=
  mkWorkflowDefinition (wd_ID definition) (cloneTask <$> wd_Tasks definition).

Definition newTaskRun (runID taskID : string) (createdAt : Z) : TaskRun :=
  {| tr_TaskID := taskID; tr_TaskRunID := TaskRunIDFor runID taskID; tr_Status := TaskRunPending;
     tr_Output := ""; tr_Error := ""; tr_AttemptCount := 0; tr_CurrentAttemptID := "";
     tr_NextAttemptAt := zero_time; tr_Lease := None; tr_UpdatedAt := createdAt;
     tr_StartedAt := zero_time; tr_FinishedAt := zero_time |}.

(** The loop that fills the task map. *)
Definition newTaskRuns (runID : string) (createdAt : Z) (tasks : list TaskDefinition)
  : gmap string TaskRun :=
  foldl (fun m task => <[td_ID task := newTaskRun runID (td_ID task) createdAt]> m) ∅ tasks.

Definition newWorkflowRun (runID : string) (definition : WorkflowDefinition) (now : Z)
  : res go_error WorkflowRun :=
  fail_if negb (validIdentifier runID) with InvalidRunIDError runID ;;
  try _ <- rmap_err ErrValidation (Validate definition) ;;
  let definition := cloneDefinition definition in
  let createdAt := now in
  let tasks := newTaskRuns runID createdAt (wd_Tasks definition) in
  Ok {| run_id := runID; run_definition := definition; run_version := 0;
        run_status := WorkflowRunPending; run_tasks := tasks; run_workers := ∅;
        run_createdAt := createdAt; run_updatedAt := createdAt |}.

Definition sortedTasks (run : WorkflowRun) : list TaskRun :=
  sort_by tr_TaskID (map_values (run_tasks run)).

Definition sortedWorkers (run : WorkflowRun) : list WorkerHeartbeat :=
  sort_by hb_WorkerID (map_values (run_workers run)).

Definition Snapshot (run : WorkflowRun) : WorkflowRunSnapshot :=
  {| snap_ID := run_id run; snap_WorkflowID := wd_ID (run_definition run);
     snap_Version := run_version run; snap_Status := run_status run;
     snap_CreatedAt := run_createdAt run; snap_UpdatedAt := run_updatedAt run;
     snap_Tasks := sortedTasks run; snap_Workers := sortedWorkers run |}.

Definition taskStatus (run : WorkflowRun) (taskID : string) : res go_error TaskRunStatus :=
  match run_tasks run !! taskID with
  | None => Err (UnknownTaskRunError (run_id run) taskID)
  | Some task => Ok (tr_Status task)
  end.

(** The clock may go backwards; recorded timestamps do not. *)
Definition nextTimestamp (run : WorkflowRun) (now : Z) : Z :=
  if time_before now (run_updatedAt run) then run_updatedAt run else now.

Definition retryPolicy (run : WorkflowRun) (taskID : string) : RetryPolicy :=
  match List.find (fun task => String.eqb (td_ID task) taskID) (wd_Tasks (run_definition run)) with
  | Some task => td_Retry task
  | None => mkRetryPolicy 0 0 0
  end.

Definition with_tasks (run : WorkflowRun) (tasks : gmap string TaskRun) (updatedAt : Z) : WorkflowRun :=
  mkWorkflowRun (run_id run) (run_definition run) (run_version run) (run_status run)
    tasks (run_workers run) (run_createdAt run) updatedAt.

Definition with_workers (run : WorkflowRun) (workers : gmap string WorkerHeartbeat) : WorkflowRun :=
  mkWorkflowRun (run_id run) (run_definition run) (run_version run) (run_status run)
    (run_tasks run) workers (run_createdAt run) (run_updatedAt run).

Definition setPersistedVersion (run : WorkflowRun) (version : Z) : WorkflowRun :=
  mkWorkflowRun (run_id run) (run_definition run) version (run_status run)
    (run_tasks run) (run_workers run) (run_createdAt run) (run_updatedAt run).

(** ** Operations *)

Section Operations.
Context `{Unicode}.

Definition error_text (err : option go_error) : string :=
  match err with Some e => error_string e | None => "" end.

(** The fields [transitionTask] writes. *)
Definition transitioned (run : WorkflowRun) (taskID : string) (target : TaskRunStatus)
    (output : string) (taskErr : option go_error) (timestamp : Z) (task : TaskRun) : TaskRun :=
  let starts := bool_decide (target = TaskRunRunning) in
  let ends := task_terminal target in
  let count := if starts then wrap_int64 (tr_AttemptCount task + 1) else tr_AttemptCount task in
  let taskRunID := if starts then TaskRunIDFor (run_id run) taskID else tr_TaskRunID task in
  {| tr_TaskID := tr_TaskID task;
     tr_TaskRunID := taskRunID;
     tr_Status := target;
     tr_Output := if bool_decide (target = TaskRunSucceeded) then output else "";
     tr_Error := if bool_decide (target = TaskRunFailed \/ target = TaskRunCanceled)
                 then error_text taskErr else "";
     tr_AttemptCount := count;
     tr_CurrentAttemptID := if starts then AttemptIDFor taskRunID count else tr_CurrentAttemptID task;
     tr_NextAttemptAt := if starts || ends then zero_time else tr_NextAttemptAt task;
     tr_Lease := if ends then None else tr_Lease task;
     tr_UpdatedAt := timestamp;
     tr_StartedAt := if starts then timestamp else tr_StartedAt task;
     tr_FinishedAt := if ends then timestamp else if starts then zero_time else tr_FinishedAt task |}.

Definition transitionTask (run : WorkflowRun) (now : Z) (taskID : string) (target : TaskRunStatus)
    (output : string) (taskErr : option go_error) : res go_error WorkflowRun :=
  match run_tasks run !! taskID with
  | None => Err (UnknownTaskRunError (run_id run) taskID)
  | Some task =>
      fail_if negb (legalTaskTransition (tr_Status task) target)
        with TaskTransitionError (run_id run) taskID (tr_Status task) target ;;
      let timestamp := nextTimestamp run now in
      let task := transitioned run taskID target output taskErr timestamp task in
      Ok (with_tasks run (<[taskID := task]> (run_tasks run)) timestamp)
  end.

Definition transitionWorkflow (run : WorkflowRun) (now : Z) (target : WorkflowRunStatus)
  : res go_error WorkflowRun :=
  fail_if negb (legalWorkflowTransition (run_status run) target)
    with WorkflowTransitionError (run_id run) (run_status run) target ;;
  Ok (mkWorkflowRun (run_id run) (run_definition run) (run_version run) target
        (run_tasks run) (run_workers run) (run_createdAt run) (nextTimestamp run now)).

Definition unfinished (status : TaskRunStatus) : bool :=
  match status with
  | TaskRunPending | TaskRunReady | TaskRunRunning | TaskRunRetryWaiting => true
  | _ => false
  end.

Definition cancel_task (cause : option go_error) (timestamp : Z) (taskID : string) (task : TaskRun)
  : option TaskRun :=
  if unfinished (tr_Status task) then
    Some {| tr_TaskID := tr_TaskID task; tr_TaskRunID := tr_TaskRunID task;
            tr_Status := TaskRunCanceled; tr_Output := ""; tr_Error := error_text cause;
            tr_AttemptCount := tr_AttemptCount task;
            tr_CurrentAttemptID := tr_CurrentAttemptID task;
            tr_NextAttemptAt := zero_time; tr_Lease := None; tr_UpdatedAt := timestamp;
            tr_StartedAt := tr_StartedAt task; tr_FinishedAt := timestamp |}
  else None.

(** Did the loop of a ranging operation change an entry? *)
Definition any_entry {A B : Type} (f : string -> A -> option B) (m : gmap string A) : bool :=
  existsb (fun '(k, a) => match f k a with Some _ => true | None => false end) (map_to_list m).

Definition cancelUnfinished (run : WorkflowRun) (now : Z) (cause : option go_error) : WorkflowRun :=
  let timestamp := nextTimestamp run now in
  let step := cancel_task cause timestamp in
  with_tasks run (range_map step (run_tasks run))
    (if any_entry step (run_tasks run) then timestamp else run_updatedAt run).

Definition check_worker (workerID : string) (leaseDuration : Z) : res go_error unit :=
  fail_if negb (validIdentifier workerID)
    with ErrText ("worker ID " +:+ quote workerID +:+ " is invalid") ;;
  fail_if leaseDuration <=? 0 with ErrText "lease duration must be positive" ;;
  Ok tt.

Definition heartbeat_task (workerID : string) (leaseDuration timestamp : Z)
    (taskID : string) (task : TaskRun) : option TaskRun :=
  match tr_Status task, tr_Lease task with
  | TaskRunRunning, Some lease =>
      if negb (String.eqb (lease_WorkerID lease) workerID) then None
      else if negb (time_before timestamp (lease_ExpiresAt lease)) then None
      else Some {| tr_TaskID := tr_TaskID task; tr_TaskRunID := tr_TaskRunID task;
                   tr_Status := tr_Status task; tr_Output := tr_Output task;
                   tr_Error := tr_Error task; tr_AttemptCount := tr_AttemptCount task;
                   tr_CurrentAttemptID := tr_CurrentAttemptID task;
                   tr_NextAttemptAt := tr_NextAttemptAt task;
                   tr_Lease := Some (mkTaskLease (lease_WorkerID lease) (lease_TaskRunID lease)
                     (lease_AttemptID lease) (time_add timestamp leaseDuration));
                   tr_UpdatedAt := timestamp; tr_StartedAt := tr_StartedAt task;
                   tr_FinishedAt := tr_FinishedAt task |}
  | _, _ => None
  end.

Definition recordWorkerHeartbeat (run : WorkflowRun) (now : Z) (workerID : string)
    (leaseDuration : Z) : res go_error WorkflowRun :=
  try _ <- check_worker workerID leaseDuration ;;
  let timestamp := nextTimestamp run now in
  let workers := <[workerID := mkWorkerHeartbeat workerID timestamp]> (run_workers run) in
  let tasks := range_map (heartbeat_task workerID leaseDuration timestamp) (run_tasks run) in
  Ok (with_tasks (with_workers run workers) tasks timestamp).

Definition started (run : WorkflowRun) (taskID workerID : string) (leaseDuration timestamp : Z)
    (task : TaskRun) : TaskRun :=
  let taskRunID := TaskRunIDFor (run_id run) taskID in
  let count := wrap_int64 (tr_AttemptCount task + 1) in
  let attemptID := AttemptIDFor taskRunID count in
  {| tr_TaskID := tr_TaskID task; tr_TaskRunID := taskRunID; tr_Status := TaskRunRunning;
     tr_Output := ""; tr_Error := ""; tr_AttemptCount := count;
     tr_CurrentAttemptID := attemptID; tr_NextAttemptAt := zero_time;
     tr_Lease := Some (mkTaskLease workerID taskRunID attemptID (time_add timestamp leaseDuration));
     tr_UpdatedAt := timestamp; tr_StartedAt := timestamp; tr_FinishedAt := zero_time |}.

Definition startTaskAttempt (run : WorkflowRun) (now : Z) (taskID workerID : string)
    (leaseDuration : Z) : res go_error (WorkflowRun * string) :=
  try _ <- check_worker workerID leaseDuration ;;
  match run_tasks run !! taskID with
  | None => Err (UnknownTaskRunError (run_id run) taskID)
  | Some task =>
      fail_if negb (bool_decide (tr_Status task = TaskRunReady))
        with TaskTransitionError (run_id run) taskID (tr_Status task) TaskRunRunning ;;
      let timestamp := nextTimestamp run now in
      let task := started run taskID workerID leaseDuration timestamp task in
      let workers := <[workerID := mkWorkerHeartbeat workerID timestamp]> (run_workers run) in
      Ok (with_tasks (with_workers run workers) (<[taskID := task]> (run_tasks run)) timestamp,
          tr_CurrentAttemptID task)
  end.

(** The failure branch shared by completion and lease recovery: the task with
    its lease dropped, then either a further attempt or the terminal failure.
    [retryable] is the error's own eligibility. *)
Definition attempt_failed (policy : RetryPolicy) (retryable : bool) (message : string)
    (timestamp : Z) (task : TaskRun) : TaskRun * CompletionOutcome :=
  let '(status, next, outcome) :=
    if retryable && (tr_AttemptCount task <? EffectiveMaxAttempts policy) then
      let delay := RetryDelay policy (tr_AttemptCount task) in
      if delay =? 0 then (TaskRunReady, zero_time, CompletionRetryScheduled)
      else (TaskRunRetryWaiting, time_add timestamp delay, CompletionRetryScheduled)
    else (TaskRunFailed, zero_time, CompletionFailed) in
  ({| tr_TaskID := tr_TaskID task; tr_TaskRunID := tr_TaskRunID task; tr_Status := status;
      tr_Output := ""; tr_Error := message; tr_AttemptCount := tr_AttemptCount task;
      tr_CurrentAttemptID := tr_CurrentAttemptID task; tr_NextAttemptAt := next;
      tr_Lease := None; tr_UpdatedAt := timestamp; tr_StartedAt := tr_StartedAt task;
      tr_FinishedAt := timestamp |}, outcome).

Definition attempt_succeeded (output : string) (timestamp : Z) (task : TaskRun) : TaskRun :=
  {| tr_TaskID := tr_TaskID task; tr_TaskRunID := tr_TaskRunID task; tr_Status := TaskRunSucceeded;
     tr_Output := output; tr_Error := ""; tr_AttemptCount := tr_AttemptCount task;
     tr_CurrentAttemptID := tr_CurrentAttemptID task; tr_NextAttemptAt := zero_time;
     tr_Lease := None; tr_UpdatedAt := timestamp; tr_StartedAt := tr_StartedAt task;
     tr_FinishedAt := timestamp |}.

(** Does the completion come from the holder of the current lease? *)
Definition holds_lease (task : TaskRun) (taskRunID workerID attemptID : string) : bool :=
  match tr_Status task, tr_Lease task with
  | TaskRunRunning, Some lease =>
      String.eqb (tr_TaskRunID task) taskRunID && String.eqb (tr_CurrentAttemptID task) attemptID &&
      String.eqb (lease_AttemptID lease) attemptID && String.eqb (lease_WorkerID lease) workerID
  | _, _ => false
  end.

Definition completeTaskAttempt (run : WorkflowRun) (now : Z)
    (taskID taskRunID workerID attemptID output : string) (taskErr : option go_error)
  : res go_error (WorkflowRun * CompletionOutcome) :=
  match run_tasks run !! taskID with
  | None => Err (UnknownTaskRunError (run_id run) taskID)
  | Some task =>
      if negb (holds_lease task taskRunID workerID attemptID) then Ok (run, CompletionIgnored)
      else
        let timestamp := nextTimestamp run now in
        let '(task, outcome) :=
          match taskErr with
          | None => (attempt_succeeded output timestamp task, CompletionSucceeded)
          | Some err =>
              attempt_failed (retryPolicy run taskID) (IsRetryable err) (error_string err)
                timestamp task
          end in
        Ok (with_tasks run (<[taskID := task]> (run_tasks run)) timestamp, outcome)
  end.

Definition lease_lapsed (timestamp : Z) (task : TaskRun) : bool :=
  match tr_Status task with
  | TaskRunRunning =>
      match tr_Lease task with
      | Some lease => negb (time_before timestamp (lease_ExpiresAt lease))
      | None => true
      end
  | _ => false
  end.

(** A snapshot of an older release may lack the identities of the attempt. *)
Definition with_attempt_identity (run : WorkflowRun) (taskID : string) (task : TaskRun) : TaskRun :=
  if string_is_empty (tr_CurrentAttemptID task) && (0 <? tr_AttemptCount task) then
    let taskRunID := TaskRunIDFor (run_id run) taskID in
    {| tr_TaskID := tr_TaskID task; tr_TaskRunID := taskRunID; tr_Status := tr_Status task;
       tr_Output := tr_Output task; tr_Error := tr_Error task;
       tr_AttemptCount := tr_AttemptCount task;
       tr_CurrentAttemptID := AttemptIDFor taskRunID (tr_AttemptCount task);
       tr_NextAttemptAt := tr_NextAttemptAt task; tr_Lease := tr_Lease task;
       tr_UpdatedAt := tr_UpdatedAt task; tr_StartedAt := tr_StartedAt task;
       tr_FinishedAt := tr_FinishedAt task |}
  else task.

Definition recover_task (run : WorkflowRun) (timestamp : Z) (taskID : string) (task : TaskRun)
  : option (TaskRun * LeaseRecovery) :=
  if lease_lapsed timestamp task then
    let workerID := match tr_Lease task with Some lease => lease_WorkerID lease | None => "" end in
    let task := with_attempt_identity run taskID task in
    let attemptID := tr_CurrentAttemptID task in
    let leaseError := LeaseExpiredError (run_id run) taskID attemptID in
    let '(task, outcome) :=
      attempt_failed (retryPolicy run taskID) true (error_string leaseError) timestamp task in
    Some (task, mkLeaseRecovery taskID attemptID workerID outcome)
  else None.

Definition recoverExpiredLeases (run : WorkflowRun) (now : Z) : WorkflowRun * list LeaseRecovery :=
  let timestamp := nextTimestamp run now in
  let step := recover_task run timestamp in
  let recoveries := sort_by lr_TaskID (omap (fun '(k, task) => snd <$> step k task) (map_to_list (run_tasks run))) in
  (with_tasks run (range_map (fun k task => fst <$> step k task) (run_tasks run))
     (match recoveries with [] => run_updatedAt run | _ => timestamp end),
   recoveries).

Definition promote_task (timestamp : Z) (taskID : string) (task : TaskRun) : option TaskRun :=
  match tr_Status task with
  | TaskRunRetryWaiting =>
      if time_before timestamp (tr_NextAttemptAt task) then None
      else Some {| tr_TaskID := tr_TaskID task; tr_TaskRunID := tr_TaskRunID task;
                   tr_Status := TaskRunReady; tr_Output := tr_Output task;
                   tr_Error := tr_Error task; tr_AttemptCount := tr_AttemptCount task;
                   tr_CurrentAttemptID := tr_CurrentAttemptID task; tr_NextAttemptAt := zero_time;
                   tr_Lease := tr_Lease task; tr_UpdatedAt := timestamp;
                   tr_StartedAt := tr_StartedAt task; tr_FinishedAt := tr_FinishedAt task |}
  | _ => None
  end.

Definition promoteDueRetries (run : WorkflowRun) (now : Z) : WorkflowRun * list string :=
  let timestamp := nextTimestamp run now in
  let step := promote_task timestamp in
  let promoted := sort_strings (omap (fun '(k, task) => (fun _ => k) <$> step k task) (map_to_list (run_tasks run))) in
  (with_tasks run (range_map step (run_tasks run))
     (match promoted with [] => run_updatedAt run | _ => timestamp end),
   promoted).

(** The loop over the task map, with its early return; the second component is
    [!deadline.IsZero()]. *)
Fixpoint deadline_loop (updatedAt deadline : Z) (tasks : list TaskRun) : Z * bool :=
  match tasks with
  | [] => (deadline, negb (time_is_zero deadline))
  | task :: rest =>
      let consider candidate :=
        if time_is_zero deadline || time_before candidate deadline
        then deadline_loop updatedAt candidate rest
        else deadline_loop updatedAt deadline rest in
      match tr_Status task, tr_Lease task with
      | TaskRunRunning, None => (updatedAt, true)
      | TaskRunRunning, Some lease => consider (lease_ExpiresAt lease)
      | TaskRunRetryWaiting, _ => consider (tr_NextAttemptAt task)
      | _, _ => deadline_loop updatedAt deadline rest
      end
  end.

Definition nextReliabilityDeadline (run : WorkflowRun) : Z * bool :=
  deadline_loop (run_updatedAt run) zero_time (map_values (run_tasks run)).

(** The duration of the timer that [reliabilityTimer] sets at a clock reading. *)
Definition reliabilityTimer (run : WorkflowRun) (now : Z) : option Z :=
  let '(deadline, exists_) := nextReliabilityDeadline run in
  if negb exists_ then None
  else
    let duration := time_sub deadline now in
    Some (if duration <? 0 then 0 else duration).
End Operations.
