(* ===== verification/Ids.v ===== *)
(** * Derived identities

    [TaskRunIDFor] and [AttemptIDFor] of [src/internal/execution/reliability.go]
    never confuse two attempts, and they produce valid identifiers from valid
    identifiers: decoding UTF-8 restarts at every ASCII byte, so a separator
    keeps the runes of its two sides apart. *)
From S2P Require Import Prelude Workflow Errors Run.

(** ** Strings by character *)

Fixpoint all_chars (P : Ascii.ascii -> bool) (s : string) : bool :=
  match s with
  | EmptyString => true
  | String c rest => P c && all_chars P rest
  end.

(** Byte 58. *)
Definition colon : Ascii.ascii := Ascii.Ascii false true false true true true false false.
Definition not_colon (c : Ascii.ascii) : bool := negb (Ascii.eqb c colon).
(** The characters of [%d]. *)
Definition decimal_char (c : Ascii.ascii) : bool := in_range 45 57 (byte_val c).

Lemma app_String (c : Ascii.ascii) (s t : string) : String c s +:+ t = String c (s +:+ t).
Proof. done. Qed.
Lemma app_Empty (t : string) : "" +:+ t = t.
Proof. done. Qed.
Lemma app_Empty_r (t : string) : t +:+ "" = t.
Proof. induction t as [|c t IH]; [done|]. by rewrite app_String, IH. Qed.
Lemma app_assoc_string (s t u : string) : (s +:+ t) +:+ u = s +:+ (t +:+ u).
Proof. induction s as [|c s IH]; [done|]. by rewrite !app_String, IH. Qed.
Lemma length_app_string (s t : string) :
  String.length (s +:+ t) = (String.length s + String.length t)%nat.
Proof. induction s as [|c s IH]; [done|]. rewrite app_String. cbn. by rewrite IH. Qed.

Lemma all_chars_app (P : Ascii.ascii -> bool) (s t : string) :
  all_chars P (s +:+ t) = all_chars P s && all_chars P t.
Proof.
  induction s as [|c s IH]; [done|]. rewrite app_String. cbn. by rewrite IH, andb_assoc.
Qed.

Lemma all_chars_impl (P Q : Ascii.ascii -> bool) (s : string) :
  (forall c, P c = true -> Q c = true) -> all_chars P s = true -> all_chars Q s = true.
Proof. intros HPQ. induction s; cbn; [done|]. rewrite !andb_true_iff. naive_solver. Qed.

Lemma pretty_N_go_decimal (x : N) (s : string) :
  all_chars decimal_char s = true -> all_chars decimal_char (pretty_N_go x s) = true.
Proof.
  revert s. induction (N.lt_wf_0 x) as [x _ IH]. intros s Hs.
  destruct (decide (0 < x)%N) as [Hx|Hx].
  - rewrite pretty_N_go_step by done. apply IH; [apply N.div_lt; lia|].
    cbn [all_chars]. rewrite Hs, andb_true_r. clear.
    pose proof (N.mod_lt x 10). generalize dependent (x mod 10)%N. intros n Hn.
    destruct (N.lt_decidable n 10) as [Hlt|]; [|lia].
    assert (Hc : In n [0;1;2;3;4;5;6;7;8;9]%N) by (cbn; lia).
    repeat destruct Hc as [<-|Hc]; [done..|destruct Hc].
  - assert (x = 0%N) as -> by lia. by rewrite pretty_N_go_0.
Qed.

Lemma fmt_d_decimal (n : Z) : all_chars decimal_char (fmt_d n) = true.
Proof.
  assert (HN : forall x : N, all_chars decimal_char (pretty x) = true).
  { intros x. unfold pretty, pretty_N. case_decide; [done|]. by apply pretty_N_go_decimal. }
  unfold fmt_d. destruct n as [|p|p]; [done|apply HN|].
  change (pretty (Z.neg p)) with ("-" +:+ pretty p). rewrite all_chars_app. apply HN.
Qed.

Lemma fmt_d_not_colon (n : Z) : all_chars not_colon (fmt_d n) = true.
Proof.
  eapply all_chars_impl, fmt_d_decimal. intros c. unfold not_colon, decimal_char.
  destruct (Ascii.eqb_spec c colon) as [->|]; done.
Qed.

Lemma fmt_d_inj (n m : Z) : fmt_d n = fmt_d m -> n = m.
Proof. apply (inj pretty). Qed.

(** ** Injectivity *)

(** The first colon splits a string in one way. *)
Lemma split_first_colon (a b r1 r2 : string) :
  all_chars not_colon a = true -> all_chars not_colon b = true ->
  a +:+ String colon r1 = b +:+ String colon r2 -> a = b /\ r1 = r2.
Proof.
  revert b. induction a as [|c a IH]; intros [|d b]; cbn; rewrite ?andb_true_iff.
  - intros _ _ [= ->]. done.
  - intros _ [Hd _] [= <- _]. done.
  - intros [Hc _] _ [= -> _]. done.
  - intros [_ Ha] [_ Hb] [= -> Heq]. destruct (IH b Ha Hb Heq) as [-> ->]. done.
Qed.

(** And so does the last one. *)
Lemma split_last_colon (a b d1 d2 : string) :
  all_chars not_colon d1 = true -> all_chars not_colon d2 = true ->
  a +:+ String colon d1 = b +:+ String colon d2 -> a = b /\ d1 = d2.
Proof.
  intros H1 H2. revert b. induction a as [|c a IH]; intros [|d b].
  - intros [= ->]. done.
  - intros [= _ ->]. change (String.append b) with (fun s => b +:+ s) in H1. cbn beta in H1.
    rewrite all_chars_app, andb_true_iff in H1. by destruct H1.
  - intros [= _ <-]. change (String.append a) with (fun s => a +:+ s) in H2. cbn beta in H2.
    rewrite all_chars_app, andb_true_iff in H2. by destruct H2.
  - rewrite !app_String. intros [= -> Heq]. destruct (IH b Heq) as [-> ->]. done.
Qed.

Lemma app_inj_length (a b r1 r2 : string) :
  String.length a = String.length b -> a +:+ r1 = b +:+ r2 -> a = b /\ r1 = r2.
Proof.
  revert b. induction a as [|c a IH]; intros [|d b]; cbn; try done.
  intros [= Hl]. rewrite !app_String. intros [= -> Heq]. destruct (IH b Hl Heq) as [-> ->]. done.
Qed.

Lemma TaskRunIDFor_inj (r1 t1 r2 t2 : string) :
  TaskRunIDFor r1 t1 = TaskRunIDFor r2 t2 -> r1 = r2 /\ t1 = t2.
Proof.
  unfold TaskRunIDFor. intros Heq.
  change (fmt_d (Z.of_nat (String.length r1)) +:+ String colon (r1 +:+ ":" +:+ t1) =
          fmt_d (Z.of_nat (String.length r2)) +:+ String colon (r2 +:+ ":" +:+ t2)) in Heq.
  apply split_first_colon in Heq as [Hn Heq]; [|apply fmt_d_not_colon..].
  apply fmt_d_inj, Nat2Z.inj in Hn. apply app_inj_length in Heq as [-> Heq]; [|done].
  by injection Heq.
Qed.

Lemma AttemptIDFor_inj (id1 id2 : string) (n1 n2 : Z) :
  AttemptIDFor id1 n1 = AttemptIDFor id2 n2 -> id1 = id2 /\ n1 = n2.
Proof.
  assert (Hsplit : forall id n, AttemptIDFor id n = (id +:+ ":attempt") +:+ String colon (fmt_d n)).
  { intros id n. unfold AttemptIDFor. by rewrite app_assoc_string. }
  rewrite !Hsplit. intros Heq. apply split_last_colon in Heq as [Hid Hn]; [|apply fmt_d_not_colon..].
  apply fmt_d_inj in Hn as ->. split; [|done].
  assert (Hlen : String.length id1 = String.length id2).
  { apply (f_equal String.length) in Hid. rewrite !length_app_string in Hid. lia. }
  by apply (app_inj_length id1 id2 ":attempt" ":attempt" Hlen).
Qed.

(** The derived identities determine the run, the task and the attempt they
    were derived from, whatever punctuation the user-selected IDs contain. *)
Theorem attempt_identity_injective (r1 t1 r2 t2 : string) (n1 n2 : Z) :
  AttemptIDFor (TaskRunIDFor r1 t1) n1 = AttemptIDFor (TaskRunIDFor r2 t2) n2 <->
  r1 = r2 /\ t1 = t2 /\ n1 = n2.
Proof.
  split; [|by intros (-> & -> & ->)].
  intros [[-> ->]%TaskRunIDFor_inj ->]%AttemptIDFor_inj. done.
Qed.

(** ** Valid identifiers *)

Definition good_rune (rw : Z * nat) : bool := negb (is_space (fst rw) || is_control (fst rw)).

Lemma validIdentifier_runes (s : string) :
  validIdentifier s = true <-> s <> "" /\ forallb good_rune (runes s) = true.
Proof.
  unfold validIdentifier. destruct s as [|c s]; [naive_solver|].
  assert (Heq : forall l, forallb (fun '(r, _) => negb (is_space r || is_control r)) l
                          = forallb good_rune l).
  { induction l as [|[r w] l IH]; [done|]. cbn. by rewrite IH. }
  rewrite Heq. naive_solver.
Qed.

(** Decoding does not look past an ASCII byte. *)
Lemma decode_rune_ascii (b c : Z) (bs rest : list Z) :
  c < 128 -> decode_rune b (bs ++ c :: rest) = decode_rune b bs.
Proof.
  intros Hc. unfold decode_rune.
  assert (Hcont : is_cont c = false) by (unfold is_cont, in_range; lia).
  assert (Hsec : forall hi, in_range (if b =? 224 then 160 else if b =? 240 then 144 else 128) hi c = false).
  { intros hi. unfold in_range. destruct (b =? 224), (b =? 240); lia. }
  destruct bs as [|b1 [|b2 [|b3 bs]]]; cbn [app]; rewrite ?Hcont, ?Hsec, ?andb_false_r; try done;
    repeat case_match; done.
Qed.

Lemma decode_rune_width (b : Z) (bs : list Z) :
  (1 <= snd (decode_rune b bs) <= S (length bs))%nat.
Proof. unfold decode_rune. repeat case_match; cbn; lia. Qed.

Lemma runes_from_ascii (skip : nat) (bs rest : list Z) (c : Z) :
  0 <= c < 128 -> (skip <= length bs)%nat ->
  runes_from skip (bs ++ c :: rest) = runes_from skip bs ++ (c, 1%nat) :: runes_from 0 rest.
Proof.
  intros Hc. revert skip. induction bs as [|b bs IH]; intros skip Hs; cbn in Hs.
  - assert (skip = 0%nat) as -> by lia. cbn [app runes_from]. unfold decode_rune.
    by replace (c <? 128) with true by lia.
  - cbn [app runes_from]. destruct skip as [|k]; [|apply IH; lia].
    rewrite decode_rune_ascii by lia. pose proof (decode_rune_width b bs) as Hw.
    destruct (decode_rune b bs) as [r w]. cbn in Hw. rewrite IH by lia. done.
Qed.

Lemma bytes_of_app (s t : string) : bytes_of (s +:+ t) = bytes_of s ++ bytes_of t.
Proof. induction s as [|c s IH]; [done|]. rewrite app_String. cbn. by rewrite IH. Qed.

Lemma byte_val_nonneg (c : Ascii.ascii) : 0 <= byte_val c.
Proof. unfold byte_val. lia. Qed.

Lemma runes_ascii (s t : string) (c : Ascii.ascii) :
  byte_val c < 128 -> runes (s +:+ String c t) = runes s ++ (byte_val c, 1%nat) :: runes t.
Proof.
  intros Hc. unfold runes. rewrite bytes_of_app. cbn [bytes_of].
  apply runes_from_ascii; [|lia]. pose proof (byte_val_nonneg c). lia.
Qed.

Lemma runes_String_ascii (t : string) (c : Ascii.ascii) :
  byte_val c < 128 -> runes (String c t) = (byte_val c, 1%nat) :: runes t.
Proof. apply (runes_ascii ""). Qed.

(** Two good strings around a separator make a good string. *)
Lemma good_colon (s t : string) :
  forallb good_rune (runes s) = true -> forallb good_rune (runes t) = true ->
  forallb good_rune (runes (s +:+ ":" +:+ t)) = true.
Proof.
  intros Hs Ht. change (s +:+ ":" +:+ t) with (s +:+ String colon t).
  rewrite runes_ascii by done. rewrite forallb_app. cbn [forallb]. by rewrite Hs, Ht.
Qed.

Lemma good_decimal (s : string) :
  all_chars decimal_char s = true -> forallb good_rune (runes s) = true.
Proof.
  induction s as [|c s IH]; [done|]. cbn [all_chars]. rewrite andb_true_iff. intros [Hc Hs].
  unfold decimal_char, in_range in Hc.
  rewrite runes_String_ascii by lia. cbn [forallb]. rewrite (IH Hs), andb_true_r.
  unfold good_rune, is_space, is_control, in_range. cbn [fst]. lia.
Qed.

Lemma app_nonempty_r (s t : string) : t <> "" -> s +:+ t <> "".
Proof. by destruct s. Qed.

Lemma TaskRunIDFor_valid (runID taskID : string) :
  validIdentifier runID = true -> validIdentifier taskID = true ->
  validIdentifier (TaskRunIDFor runID taskID) = true.
Proof.
  rewrite !validIdentifier_runes. intros [_ Hr] [Ht0 Ht]. split.
  - unfold TaskRunIDFor. by repeat apply app_nonempty_r.
  - unfold TaskRunIDFor. apply good_colon; [apply good_decimal, fmt_d_decimal|].
    by apply good_colon.
Qed.

Lemma AttemptIDFor_valid (taskRunID : string) (n : Z) :
  validIdentifier taskRunID = true -> validIdentifier (AttemptIDFor taskRunID n) = true.
Proof.
  rewrite !validIdentifier_runes. intros [_ Hr]. unfold AttemptIDFor.
  change (":attempt:" +:+ fmt_d n) with (":" +:+ ("attempt" +:+ (":" +:+ fmt_d n))). split.
  - by apply app_nonempty_r.
  - apply good_colon; [done|]. apply good_colon; [done|]. apply good_decimal, fmt_d_decimal.
Qed.

Lemma AttemptIDFor_nonempty (taskRunID : string) (n : Z) : AttemptIDFor taskRunID n <> "".
Proof. unfold AttemptIDFor. by apply app_nonempty_r. Qed.
