(* ===== verification/Snapshot.v ===== *)
(** * Durable snapshots

    Models [src/internal/execution/store.go]: the storage-level validation of a
    snapshot and the reconstruction of the aggregate from one. The abstract
    [snapshot_valid] says what validation accepts. *)
From S2P Require Import Prelude Workflow Heap Graph GraphBuild Errors Run Ids.

Definition workflow_status_valid (status : WorkflowRunStatus) : bool :=
  match status with WorkflowRunOther _ => false | _ => true end.

Definition task_status_valid (status : TaskRunStatus) : bool :=
  match status with TaskRunOther _ => false | _ => true end.

(** The maps of the task loop: task IDs seen, tasks per status, leasing workers. *)
Record validate_state := mkValidateState {
  vs_seen : gset string;
  vs_statusCounts : TaskRunStatus -> Z;
  vs_leasedWorkers : gset string
}.

Definition bump (counts : TaskRunStatus -> Z) (status : TaskRunStatus) : TaskRunStatus -> Z :=
  fun s => if bool_decide (s = status) then counts s + 1 else counts s.

(** A snapshot at another version. *)
Definition snapshot_with_version (snapshot : WorkflowRunSnapshot) (version : Z) : WorkflowRunSnapshot :=
  mkSnapshot (snap_ID snapshot) (snap_WorkflowID snapshot) version (snap_Status snapshot)
    (snap_CreatedAt snapshot) (snap_UpdatedAt snapshot) (snap_Tasks snapshot) (snap_Workers snapshot).

Section Validation.
Context `{Unicode}.

Definition task_reason (before : string) (task : TaskRun) (after : string) : string :=
  before +:+ quote (tr_TaskID task) +:+ after.

(** The checks of one task that do not depend on the tasks before it. *)
Definition validate_task_fields (snapshot : WorkflowRunSnapshot) (task : TaskRun)
  : res go_error unit :=
  let invalid reason := SnapshotValidationError (snap_ID snapshot) reason in
  let expectedTaskRunID := TaskRunIDFor (snap_ID snapshot) (tr_TaskID task) in
  let no_attempt := tr_AttemptCount task =? 0 in
  let is_status s := bool_decide (tr_Status task = s) in
  fail_if negb (string_is_empty (tr_TaskRunID task)) && negb (String.eqb (tr_TaskRunID task) expectedTaskRunID)
    with invalid (task_reason "task " task " has an invalid task-run ID") ;;
  fail_if negb (task_status_valid (tr_Status task))
    with invalid (task_reason "task " task (" has unknown status " +:+ quote (task_status_string (tr_Status task)))) ;;
  fail_if tr_AttemptCount task <? 0
    with invalid (task_reason "task " task " has a negative attempt count") ;;
  fail_if no_attempt && negb (string_is_empty (tr_CurrentAttemptID task))
    with invalid (task_reason "task " task " has an attempt ID without an attempt") ;;
  fail_if negb (string_is_empty (tr_CurrentAttemptID task)) &&
          negb (String.eqb (tr_CurrentAttemptID task) (AttemptIDFor expectedTaskRunID (tr_AttemptCount task)))
    with invalid (task_reason "task " task " has an invalid current attempt ID") ;;
  fail_if time_is_zero (tr_UpdatedAt task) || time_before (tr_UpdatedAt task) (snap_CreatedAt snapshot)
    with invalid (task_reason "task " task " has an invalid update timestamp") ;;
  fail_if is_status TaskRunRunning && (no_attempt || time_is_zero (tr_StartedAt task))
    with invalid (task_reason "running task " task " has no recorded attempt") ;;
  fail_if (is_status TaskRunSucceeded || is_status TaskRunFailed) &&
          (no_attempt || time_is_zero (tr_FinishedAt task))
    with invalid (task_reason "completed task " task " has no recorded attempt") ;;
  fail_if is_status TaskRunCanceled && time_is_zero (tr_FinishedAt task)
    with invalid (task_reason "canceled task " task " has no finish timestamp") ;;
  fail_if is_status TaskRunRetryWaiting && time_is_zero (tr_NextAttemptAt task)
    with invalid (task_reason "retry-waiting task " task " has no retry deadline") ;;
  fail_if is_status TaskRunRetryWaiting && (no_attempt || string_is_empty (tr_CurrentAttemptID task))
    with invalid (task_reason "retry-waiting task " task " has no completed attempt") ;;
  fail_if negb (is_status TaskRunRetryWaiting) && negb (time_is_zero (tr_NextAttemptAt task))
    with invalid (task_reason "task " task " has a retry deadline outside retry-wait state") ;;
  Ok tt.

Definition lease_well_formed (snapshot : WorkflowRunSnapshot) (task : TaskRun) (lease : TaskLease)
  : bool :=
  let expectedTaskRunID := TaskRunIDFor (snap_ID snapshot) (tr_TaskID task) in
  bool_decide (tr_Status task = TaskRunRunning) && validIdentifier (lease_WorkerID lease) &&
  String.eqb (tr_TaskRunID task) expectedTaskRunID && validIdentifier (lease_AttemptID lease) &&
  String.eqb (lease_TaskRunID lease) expectedTaskRunID &&
  String.eqb (lease_AttemptID lease) (tr_CurrentAttemptID task) &&
  negb (time_is_zero (lease_ExpiresAt lease)).

Definition validate_task (snapshot : WorkflowRunSnapshot) (state : validate_state) (task : TaskRun)
  : res go_error validate_state :=
  let invalid reason := SnapshotValidationError (snap_ID snapshot) reason in
  fail_if negb (validIdentifier (tr_TaskID task))
    with invalid "task run has an empty or invalid task ID" ;;
  fail_if bool_decide (tr_TaskID task ∈ vs_seen state)
    with invalid ("duplicate task run " +:+ quote (tr_TaskID task)) ;;
  let seen := {[tr_TaskID task]} ∪ vs_seen state in
  try _ <- validate_task_fields snapshot task ;;
  try leased <-
    match tr_Lease task with
    | None => Ok (vs_leasedWorkers state)
    | Some lease =>
        fail_if negb (lease_well_formed snapshot task lease)
          with invalid (task_reason "task " task " has an invalid lease") ;;
        fail_if bool_decide (lease_WorkerID lease ∈ vs_leasedWorkers state)
          with invalid ("worker " +:+ quote (lease_WorkerID lease)
                        +:+ " holds more than one active task lease") ;;
        Ok ({[lease_WorkerID lease]} ∪ vs_leasedWorkers state)
    end ;;
  Ok (mkValidateState seen (bump (vs_statusCounts state) (tr_Status task)) leased).

Definition validate_worker (snapshot : WorkflowRunSnapshot) (seenWorkers : gset string)
    (worker : WorkerHeartbeat) : res go_error (gset string) :=
  let invalid reason := SnapshotValidationError (snap_ID snapshot) reason in
  fail_if negb (validIdentifier (hb_WorkerID worker)) || time_is_zero (hb_LastHeartbeatAt worker)
          || time_before (hb_LastHeartbeatAt worker) (snap_CreatedAt snapshot)
    with invalid ("worker " +:+ quote (hb_WorkerID worker) +:+ " has invalid heartbeat state") ;;
  fail_if bool_decide (hb_WorkerID worker ∈ seenWorkers)
    with invalid ("duplicate worker heartbeat " +:+ quote (hb_WorkerID worker)) ;;
  Ok ({[hb_WorkerID worker]} ∪ seenWorkers).

Definition validateAggregateStatus (snapshot : WorkflowRunSnapshot) (counts : TaskRunStatus -> Z)
  : res go_error unit :=
  let invalid reason := SnapshotValidationError (snap_ID snapshot) reason in
  let unfinished := counts TaskRunPending + counts TaskRunReady + counts TaskRunRunning
                    + counts TaskRunRetryWaiting in
  let total := Z.of_nat (length (snap_Tasks snapshot)) in
  match snap_Status snapshot with
  | WorkflowRunPending =>
      fail_if negb (counts TaskRunPending =? total)
        with invalid "pending workflow contains a task that has started" ;; Ok tt
  | WorkflowRunSucceeded =>
      fail_if negb (counts TaskRunSucceeded =? total)
        with invalid "succeeded workflow contains a task that did not succeed" ;; Ok tt
  | WorkflowRunFailed =>
      fail_if (0 <? unfinished) || (counts TaskRunFailed + counts TaskRunCanceled =? 0)
        with invalid "failed workflow has inconsistent task states" ;; Ok tt
  | WorkflowRunCanceled =>
      fail_if (0 <? unfinished) || (0 <? counts TaskRunFailed)
        with invalid "canceled workflow has inconsistent task states" ;; Ok tt
  | WorkflowRunRunning | WorkflowRunOther _ => Ok tt
  end.

Definition validate_state_init : validate_state := mkValidateState ∅ (fun _ => 0) ∅.

(** [WorkflowRunSnapshot.Validate]. The last loop ranges over a map; when
    several leases lack a heartbeat, Go may name any of their workers. *)
Definition validateSnapshot (snapshot : WorkflowRunSnapshot) : res go_error unit :=
  let invalid reason := SnapshotValidationError (snap_ID snapshot) reason in
  fail_if negb (validIdentifier (snap_ID snapshot)) with invalid "run ID is empty or invalid" ;;
  fail_if negb (validIdentifier (snap_WorkflowID snapshot))
    with invalid "workflow ID is empty or invalid" ;;
  fail_if negb (workflow_status_valid (snap_Status snapshot))
    with invalid ("unknown workflow status " +:+ quote (workflow_status_string (snap_Status snapshot))) ;;
  fail_if time_is_zero (snap_CreatedAt snapshot) with invalid "creation timestamp is missing" ;;
  fail_if time_is_zero (snap_UpdatedAt snapshot) || time_before (snap_UpdatedAt snapshot) (snap_CreatedAt snapshot)
    with invalid "update timestamp is missing or precedes creation" ;;
  fail_if Nat.eqb (length (snap_Tasks snapshot)) 0 with invalid "task runs are missing" ;;
  try state <- foldM (validate_task snapshot) validate_state_init (snap_Tasks snapshot) ;;
  try seenWorkers <- foldM (validate_worker snapshot) ∅ (snap_Workers snapshot) ;;
  match filter (fun workerID => workerID ∉ seenWorkers) (elements (vs_leasedWorkers state)) with
  | workerID :: _ =>
      Err (invalid ("lease references worker " +:+ quote workerID +:+ " without heartbeat state"))
  | [] => validateAggregateStatus snapshot (vs_statusCounts state)
  end.

(** ** Reconstruction *)

(** Older snapshots lack the identities that are derived now. *)
Definition restore_task (snapshot : WorkflowRunSnapshot) (task : TaskRun) : TaskRun :=
  let taskRunID := if string_is_empty (tr_TaskRunID task)
                   then TaskRunIDFor (snap_ID snapshot) (tr_TaskID task) else tr_TaskRunID task in
  let attemptID := if string_is_empty (tr_CurrentAttemptID task) && (0 <? tr_AttemptCount task)
                   then AttemptIDFor taskRunID (tr_AttemptCount task)
                   else tr_CurrentAttemptID task in
  {| tr_TaskID := tr_TaskID task; tr_TaskRunID := taskRunID; tr_Status := tr_Status task;
     tr_Output := tr_Output task; tr_Error := tr_Error task;
     tr_AttemptCount := tr_AttemptCount task; tr_CurrentAttemptID := attemptID;
     tr_NextAttemptAt := tr_NextAttemptAt task; tr_Lease := tr_Lease task;
     tr_UpdatedAt := tr_UpdatedAt task; tr_StartedAt := tr_StartedAt task;
     tr_FinishedAt := tr_FinishedAt task |}.

Definition restoreWorkflowRun (snapshot : WorkflowRunSnapshot) (definition : WorkflowDefinition)
  : res go_error WorkflowRun :=
  let invalid reason := SnapshotValidationError (snap_ID snapshot) reason in
  try _ <- validateSnapshot snapshot ;;
  try _ <- rmap_err ErrValidation (Validate definition) ;;
  fail_if negb (String.eqb (snap_WorkflowID snapshot) (wd_ID definition))
    with invalid ("references workflow " +:+ quote (snap_WorkflowID snapshot) +:+ ", not "
                  +:+ quote (wd_ID definition)) ;;
  fail_if negb (Nat.eqb (length (snap_Tasks snapshot)) (length (wd_Tasks definition)))
    with invalid "task runs do not match workflow definition" ;;
  let tasks := foldl (fun tasks task => <[tr_TaskID task := restore_task snapshot task]> tasks)
                     ∅ (snap_Tasks snapshot) in
  match List.find (fun task => bool_decide (tasks !! td_ID task = None)) (wd_Tasks definition) with
  | Some task => Err (invalid ("task run " +:+ quote (td_ID task) +:+ " is missing"))
  | None =>
      let workers := foldl (fun workers worker => <[hb_WorkerID worker := worker]> workers)
                           ∅ (snap_Workers snapshot) in
      Ok {| run_id := snap_ID snapshot; run_definition := cloneDefinition definition;
            run_version := snap_Version snapshot; run_status := snap_Status snapshot;
            run_tasks := tasks; run_workers := workers;
            run_createdAt := snap_CreatedAt snapshot; run_updatedAt := snap_UpdatedAt snapshot |}
  end.
End Validation.

(** ** What validation accepts *)

Record lease_valid (runID : string) (t : TaskRun) (lease : TaskLease) : Prop := {
  lv_running : tr_Status t = TaskRunRunning;
  lv_worker : validIdentifier (lease_WorkerID lease) = true;
  lv_run : tr_TaskRunID t = TaskRunIDFor runID (tr_TaskID t);
  lv_attempt_valid : validIdentifier (lease_AttemptID lease) = true;
  lv_lease_run : lease_TaskRunID lease = TaskRunIDFor runID (tr_TaskID t);
  lv_attempt : lease_AttemptID lease = tr_CurrentAttemptID t;
  lv_expires : lease_ExpiresAt lease <> zero_time
}.

(** One task of a valid snapshot of run [runID] created at [createdAt]. *)
Record task_valid (runID : string) (createdAt : Z) (t : TaskRun) : Prop := {
  tv_id : validIdentifier (tr_TaskID t) = true;
  tv_run_id : tr_TaskRunID t = "" \/ tr_TaskRunID t = TaskRunIDFor runID (tr_TaskID t);
  tv_status : task_status_valid (tr_Status t) = true;
  tv_count : 0 <= tr_AttemptCount t;
  tv_no_attempt : tr_AttemptCount t = 0 -> tr_CurrentAttemptID t = "";
  tv_attempt : tr_CurrentAttemptID t = "" \/
    tr_CurrentAttemptID t = AttemptIDFor (TaskRunIDFor runID (tr_TaskID t)) (tr_AttemptCount t);
  tv_updated : tr_UpdatedAt t <> zero_time /\ createdAt <= tr_UpdatedAt t;
  tv_running : tr_Status t = TaskRunRunning -> tr_AttemptCount t <> 0 /\ tr_StartedAt t <> zero_time;
  tv_completed : tr_Status t = TaskRunSucceeded \/ tr_Status t = TaskRunFailed ->
    tr_AttemptCount t <> 0 /\ tr_FinishedAt t <> zero_time;
  tv_canceled : tr_Status t = TaskRunCanceled -> tr_FinishedAt t <> zero_time;
  tv_waiting : tr_Status t = TaskRunRetryWaiting ->
    tr_NextAttemptAt t <> zero_time /\ tr_AttemptCount t <> 0 /\ tr_CurrentAttemptID t <> "";
  tv_not_waiting : tr_Status t <> TaskRunRetryWaiting -> tr_NextAttemptAt t = zero_time;
  tv_lease : forall lease, tr_Lease t = Some lease -> lease_valid runID t lease
}.

Definition worker_valid (createdAt : Z) (w : WorkerHeartbeat) : Prop :=
  validIdentifier (hb_WorkerID w) = true /\ hb_LastHeartbeatAt w <> zero_time /\
  createdAt <= hb_LastHeartbeatAt w.

(** The workers that hold a lease, one entry per lease. *)
Definition lease_workers (tasks : list TaskRun) : list string :=
  omap (fun t => lease_WorkerID <$> tr_Lease t) tasks.

Definition aggregate_valid (status : WorkflowRunStatus) (tasks : list TaskRun) : Prop :=
  match status with
  | WorkflowRunPending => Forall (fun t => tr_Status t = TaskRunPending) tasks
  | WorkflowRunSucceeded => Forall (fun t => tr_Status t = TaskRunSucceeded) tasks
  | WorkflowRunFailed => Forall (fun t => unfinished (tr_Status t) = false) tasks /\
      Exists (fun t => tr_Status t = TaskRunFailed \/ tr_Status t = TaskRunCanceled) tasks
  | WorkflowRunCanceled =>
      Forall (fun t => unfinished (tr_Status t) = false /\ tr_Status t <> TaskRunFailed) tasks
  | WorkflowRunRunning => True
  | WorkflowRunOther _ => False
  end.

Record snapshot_valid (s : WorkflowRunSnapshot) : Prop := {
  sn_id : validIdentifier (snap_ID s) = true;
  sn_workflow : validIdentifier (snap_WorkflowID s) = true;
  sn_created : snap_CreatedAt s <> zero_time;
  sn_updated : snap_UpdatedAt s <> zero_time /\ snap_CreatedAt s <= snap_UpdatedAt s;
  sn_nonempty : snap_Tasks s <> [];
  sn_tasks : Forall (task_valid (snap_ID s) (snap_CreatedAt s)) (snap_Tasks s);
  sn_unique : NoDup (tr_TaskID <$> snap_Tasks s);
  sn_leases : NoDup (lease_workers (snap_Tasks s));
  sn_workers : Forall (worker_valid (snap_CreatedAt s)) (snap_Workers s);
  sn_workers_unique : NoDup (hb_WorkerID <$> snap_Workers s);
  sn_lease_heartbeat : forall w, w ∈ lease_workers (snap_Tasks s) -> w ∈ hb_WorkerID <$> snap_Workers s;
  sn_aggregate : aggregate_valid (snap_Status s) (snap_Tasks s)
}.
