(* ===== verification/SnapshotValid.v ===== *)
(** * Snapshot validation meets its specification

    [validateSnapshot] accepts exactly the snapshots of [snapshot_valid]. *)
From S2P Require Import Prelude Workflow Heap Graph GraphBuild Errors Run Ids Snapshot.

(** Turns the guards of a translated function into propositions. *)
Create HintDb guards.
#[export] Hint Rewrite andb_false_iff orb_false_iff negb_false_iff negb_true_iff
  andb_true_iff orb_true_iff Z.eqb_eq Z.eqb_neq Z.ltb_ge Z.ltb_lt Z.leb_gt Z.leb_le
  bool_decide_eq_true bool_decide_eq_false String.eqb_eq String.eqb_neq
  string_is_empty_true string_is_empty_false : guards.

Lemma or_by_cases (st target : TaskRunStatus) (P : Prop) :
  (st = target -> P) -> st <> target \/ P.
Proof. destruct (decide (st = target)); auto. Qed.

Section Fields.
Context `{Unicode}.

Lemma validate_task_fields_ok (s : WorkflowRunSnapshot) (t : TaskRun) :
  validIdentifier (tr_TaskID t) = true ->
  (forall lease, tr_Lease t = Some lease -> lease_valid (snap_ID s) t lease) ->
  validate_task_fields s t = Ok tt <-> task_valid (snap_ID s) (snap_CreatedAt s) t.
Proof.
  intros Hid Hlease. unfold validate_task_fields. rewrite !guard_err_ok.
  unfold time_is_zero, time_before. autorewrite with guards. split.
  - intros (H1 & H2 & H3 & H4 & H5 & H6 & H7 & H8 & H9 & H10 & H11 & H12 & _).
    split; try assumption.
    + clear - H4; naive_solver.
    + clear - H7; naive_solver.
    + clear - H8; naive_solver.
    + clear - H9; naive_solver.
    + clear - H10 H11; naive_solver.
    + clear - H12; naive_solver.
  - intros Hv. pose proof (tv_updated _ _ _ Hv) as [? ?]. destruct Hv. split_and!; try done; try by apply or_by_cases.
    + destruct (Z.eq_dec (tr_AttemptCount t) 0); auto.
    + destruct (decide (tr_Status t = TaskRunSucceeded)), (decide (tr_Status t = TaskRunFailed)); auto.
    + apply or_by_cases. naive_solver.
    + apply or_by_cases. naive_solver.
    + destruct (decide (tr_Status t = TaskRunRetryWaiting)); auto.
Qed.

Lemma lease_well_formed_true (s : WorkflowRunSnapshot) (t : TaskRun) (lease : TaskLease) :
  lease_well_formed s t lease = true <-> lease_valid (snap_ID s) t lease.
Proof.
  unfold lease_well_formed, time_is_zero. autorewrite with guards. split.
  - intros ((((((? & ?) & ?) & ?) & ?) & ?) & ?). by split.
  - by intros [].
Qed.
End Fields.

(** ** The loops *)

Definition count_status (tasks : list TaskRun) (status : TaskRunStatus) : Z :=
  Z.of_nat (length (filter (fun t => tr_Status t = status) tasks)).

Definition tasks_seen (pre : list TaskRun) (state : validate_state) : Prop :=
  vs_seen state = list_to_set (tr_TaskID <$> pre) /\
  (forall status, vs_statusCounts state status = count_status pre status) /\
  vs_leasedWorkers state = list_to_set (lease_workers pre).

Definition task_step_valid (s : WorkflowRunSnapshot) (pre : list TaskRun) (t : TaskRun) : Prop :=
  task_valid (snap_ID s) (snap_CreatedAt s) t /\ tr_TaskID t ∉ tr_TaskID <$> pre /\
  forall lease, tr_Lease t = Some lease -> lease_WorkerID lease ∉ lease_workers pre.

Lemma count_status_snoc (pre : list TaskRun) (t : TaskRun) (status : TaskRunStatus) :
  count_status (pre ++ [t]) status = bump (count_status pre) (tr_Status t) status.
Proof.
  unfold count_status, bump. rewrite filter_app, length_app, filter_cons, filter_nil.
  destruct (bool_decide_reflect (status = tr_Status t)); case_decide; try congruence; cbn; lia.
Qed.

Lemma lease_workers_snoc (pre : list TaskRun) (t : TaskRun) :
  lease_workers (pre ++ [t]) =
  lease_workers pre ++ match tr_Lease t with Some lease => [lease_WorkerID lease] | None => [] end.
Proof. unfold lease_workers. rewrite omap_app. cbn. by destruct (tr_Lease t). Qed.

Section Loops.
Context `{Unicode}.

(** The checks of one task, as the guard of the loop. *)
Lemma validate_task_step (s : WorkflowRunSnapshot) (pre : list TaskRun) (state : validate_state)
    (t : TaskRun) :
  tasks_seen pre state ->
  match validate_task s state t with
  | Ok state' => task_step_valid s pre t /\ tasks_seen (pre ++ [t]) state'
  | Err _ => ~ task_step_valid s pre t
  end.
Proof.
  intros (Hseen & Hcounts & Hleased). unfold validate_task, task_step_valid.
  destruct (validIdentifier (tr_TaskID t)) eqn:Hid; cbn [negb guard_err];
    [|by intros [[] _]; congruence].
  case_bool_decide as Hdup; cbn [guard_err].
  { rewrite Hseen, elem_of_list_to_set in Hdup. naive_solver. }
  rewrite Hseen, elem_of_list_to_set in Hdup.
  assert (Hnext : forall leased, leased = list_to_set (lease_workers (pre ++ [t])) ->
    tasks_seen (pre ++ [t]) (mkValidateState ({[tr_TaskID t]} ∪ vs_seen state)
      (bump (vs_statusCounts state) (tr_Status t)) leased)).
  { intros leased ->. split_and!; cbn [vs_seen vs_statusCounts vs_leasedWorkers]; [|intros status|done].
    - rewrite fmap_app, list_to_set_app_L, Hseen. cbn. set_solver.
    - rewrite count_status_snoc. unfold bump. by rewrite Hcounts. }
  rewrite lease_workers_snoc in Hnext.
  pose proof (validate_task_fields_ok s t Hid) as Hf.
  destruct (validate_task_fields s t) as [[]|e] eqn:Ef; cbn [rbind].
  2: { intros (Hv & _). apply (proj2 (Hf (tv_lease _ _ _ Hv))) in Hv. congruence. }
  destruct (tr_Lease t) as [lease|] eqn:Elease.
  - destruct (lease_well_formed s t lease) eqn:Ewf; cbn [negb guard_err rbind].
    2: { intros (Hv & _). apply not_true_iff_false in Ewf. apply Ewf, lease_well_formed_true.
         by apply (tv_lease _ _ _ Hv). }
    apply lease_well_formed_true in Ewf.
    case_bool_decide as Hw; cbn [guard_err rbind]; rewrite Hleased, elem_of_list_to_set in Hw.
    { naive_solver. }
    split; [split_and!|].
    + apply Hf; [|done]. intros l [= <-]. done.
    + done.
    + intros l [= <-]. done.
    + apply Hnext. rewrite list_to_set_app_L, Hleased. cbn. set_solver.
  - split; [split_and!; [by apply Hf|done|done]|].
    apply Hnext. by rewrite app_nil_r, Hleased.
Qed.
Lemma validate_worker_step (s : WorkflowRunSnapshot) (pre : list WorkerHeartbeat)
    (seen : gset string) (w : WorkerHeartbeat) :
  seen = list_to_set (hb_WorkerID <$> pre) ->
  match validate_worker s seen w with
  | Ok seen' => (worker_valid (snap_CreatedAt s) w /\ hb_WorkerID w ∉ hb_WorkerID <$> pre) /\
      seen' = list_to_set (hb_WorkerID <$> (pre ++ [w]))
  | Err _ => ~ (worker_valid (snap_CreatedAt s) w /\ hb_WorkerID w ∉ hb_WorkerID <$> pre)
  end.
Proof.
  intros ->. unfold validate_worker, worker_valid, time_is_zero, time_before.
  destruct (negb _ || _ || _) eqn:E; cbn [guard_err].
  - rewrite !orb_true_iff in E. autorewrite with guards in E.
    intros ((Hid & Hz & Hle) & _). destruct E as [[E|E]|E]; [congruence|done|lia].
  - autorewrite with guards in E. destruct E as [[Hid Hz] Hle].
    case_bool_decide as Hin; cbn [guard_err]; rewrite elem_of_list_to_set in Hin; [naive_solver|].
    split; [done|]. rewrite fmap_app, list_to_set_app_L. cbn. set_solver.
Qed.
End Loops.

(** A loop whose guard is a property of the element and its absence from the
    keys before it checks the property and the uniqueness of the keys. *)
Lemma keyed_steps_iff {A : Type} (key : A -> list string) (V : A -> Prop) (l : list A) :
  (forall x, NoDup (key x)) ->
  (forall l1 x l2, l = l1 ++ x :: l2 -> V x /\ forall k, k ∈ key x -> k ∉ l1 ≫= key) <->
  Forall V l /\ NoDup (l ≫= key).
Proof.
  intros Hk. split.
  - induction l as [|x l IH] using rev_ind; [by split; constructor|]. intros Hs.
    destruct (Hs l x [] eq_refl) as [Hx Hn]. destruct IH as [IH1 IH2].
    { intros l1 y l2 ->. apply (Hs l1 y (l2 ++ [x])). by rewrite <- app_assoc. }
    split; [by apply Forall_app_2; [|apply Forall_singleton]|].
    rewrite bind_app. cbn. rewrite app_nil_r. apply NoDup_app. split_and!; [done| |done].
    intros k Hin Hkx. by apply (Hn k Hkx).
  - intros [Hf Hnd] l1 x l2 ->. rewrite bind_app in Hnd. apply NoDup_app in Hnd as (_ & Hd & _).
    apply Forall_app in Hf as [_ Hf]. inv Hf. split; [done|].
    intros k Hkx Hin. apply (Hd k Hin). rewrite bind_cons. set_solver.
Qed.

Lemma bind_singleton_fmap {A : Type} (f : A -> string) (l : list A) :
  l ≫= (fun x => [f x]) = f <$> l.
Proof. induction l as [|x l IH]; [done|]. rewrite bind_cons. cbn. by rewrite IH. Qed.

Definition lease_key (t : TaskRun) : list string :=
  match tr_Lease t with Some lease => [lease_WorkerID lease] | None => [] end.

Lemma lease_workers_bind (l : list TaskRun) : lease_workers l = l ≫= lease_key.
Proof.
  induction l as [|t l IH] using rev_ind; [done|].
  rewrite lease_workers_snoc, bind_app, IH. cbn. by rewrite app_nil_r.
Qed.

Lemma task_steps_valid_iff (s : WorkflowRunSnapshot) (l : list TaskRun) :
  (forall l1 x l2, l = l1 ++ x :: l2 -> task_step_valid s l1 x) <->
  Forall (task_valid (snap_ID s) (snap_CreatedAt s)) l /\ NoDup (tr_TaskID <$> l) /\
  NoDup (lease_workers l).
Proof.
  rewrite lease_workers_bind, <- bind_singleton_fmap.
  pose proof (keyed_steps_iff (fun t => [tr_TaskID t]) (task_valid (snap_ID s) (snap_CreatedAt s)) l
    (fun t => NoDup_singleton _)) as H1.
  assert (Hk : forall t, NoDup (lease_key t)).
  { intros t. unfold lease_key. destruct (tr_Lease t); [apply NoDup_singleton|apply NoDup_nil_2]. }
  pose proof (keyed_steps_iff lease_key (fun _ => True) l Hk) as H2.
  split.
  - intros Hs. destruct H1 as [H1 _]. destruct H2 as [H2 _]. split; [|split].
    + apply H1. intros l1 x l2 Heq. destruct (Hs l1 x l2 Heq) as (Hv & Hid & _). split; [done|].
      intros k Hkin. apply list_elem_of_singleton in Hkin as ->. by rewrite bind_singleton_fmap.
    + apply H1. intros l1 x l2 Heq. destruct (Hs l1 x l2 Heq) as (Hv & Hid & _). split; [done|].
      intros k Hkin. apply list_elem_of_singleton in Hkin as ->. by rewrite bind_singleton_fmap.
    + apply H2. intros l1 x l2 Heq. destruct (Hs l1 x l2 Heq) as (_ & _ & Hl). split; [done|].
      intros k. unfold lease_key at 1. destruct (tr_Lease x) as [lease|]; [|by intros ?%elem_of_nil].
      intros ->%list_elem_of_singleton. rewrite <- lease_workers_bind. by apply Hl.
  - intros (Hv & Hid & Hl) l1 x l2 Heq.
    destruct (proj2 H1 (conj Hv Hid) l1 x l2 Heq) as [Hvx Hidx].
    destruct (proj2 H2 (conj (Forall_trivial l) Hl) l1 x l2 Heq) as [_ Hlx].
    split_and!; [done| |].
    + rewrite <- bind_singleton_fmap. apply Hidx. left.
    + intros lease El. rewrite lease_workers_bind. apply Hlx. unfold lease_key. rewrite El. left.
Qed.

(** ** The aggregate status *)

Lemma count_status_all (l : list TaskRun) (status : TaskRunStatus) :
  count_status l status = Z.of_nat (length l) <-> Forall (fun t => tr_Status t = status) l.
Proof.
  unfold count_status. rewrite Nat2Z.inj_iff. split.
  - induction l as [|t l IH]; [constructor|]. rewrite filter_cons. case_decide; cbn.
    + intros [= Hl]. constructor; auto.
    + pose proof (length_filter (fun t => tr_Status t = status) l). lia.
  - induction 1 as [|t l Ht _ IH]; [done|]. rewrite filter_cons, decide_True by done. cbn. by rewrite IH.
Qed.

Lemma count_status_zero (l : list TaskRun) (status : TaskRunStatus) :
  count_status l status = 0 <-> Forall (fun t => tr_Status t <> status) l.
Proof.
  unfold count_status. induction l as [|t l IH]; [naive_solver|].
  rewrite filter_cons, Forall_cons. case_decide; cbn; [split; [lia|naive_solver]|].
  rewrite IH. naive_solver.
Qed.

Lemma count_status_nonneg (l : list TaskRun) (status : TaskRunStatus) : 0 <= count_status l status.
Proof. unfold count_status. lia. Qed.

Lemma unfinished_counts (l : list TaskRun) :
  count_status l TaskRunPending + count_status l TaskRunReady + count_status l TaskRunRunning
    + count_status l TaskRunRetryWaiting <= 0 <->
  Forall (fun t => unfinished (tr_Status t) = false) l.
Proof.
  pose proof (count_status_nonneg l) as Hn.
  assert (Hsum : forall a b c d, 0 <= a -> 0 <= b -> 0 <= c -> 0 <= d ->
    a + b + c + d <= 0 <-> a = 0 /\ b = 0 /\ c = 0 /\ d = 0) by lia.
  rewrite Hsum by apply Hn. rewrite !count_status_zero, !Forall_forall. split.
  - intros (H1 & H2 & H3 & H4) t Ht. specialize (H1 t Ht). specialize (H2 t Ht).
    specialize (H3 t Ht). specialize (H4 t Ht). by destruct (tr_Status t).
  - intros Hu. split_and!; intros t Ht Hs; specialize (Hu t Ht); by rewrite Hs in Hu.
Qed.

Lemma failed_or_canceled_counts (l : list TaskRun) :
  count_status l TaskRunFailed + count_status l TaskRunCanceled <> 0 <->
  Exists (fun t => tr_Status t = TaskRunFailed \/ tr_Status t = TaskRunCanceled) l.
Proof.
  pose proof (count_status_nonneg l TaskRunFailed). pose proof (count_status_nonneg l TaskRunCanceled).
  assert (Hz : Forall (fun t => tr_Status t <> TaskRunFailed) l /\
               Forall (fun t => tr_Status t <> TaskRunCanceled) l <->
               count_status l TaskRunFailed + count_status l TaskRunCanceled = 0).
  { rewrite <- !count_status_zero. lia. }
  rewrite <- Hz. split.
  - intros Hne. destruct (decide (Exists (fun t => tr_Status t = TaskRunFailed \/
      tr_Status t = TaskRunCanceled) l)) as [|Hn]; [done|]. exfalso. apply Hne.
    apply Forall_Exists_neg in Hn. rewrite !Forall_forall in *. naive_solver.
  - rewrite Exists_exists, !Forall_forall. naive_solver.
Qed.

Section Validate_snapshot.
Context `{Unicode}.

Lemma validateAggregateStatus_ok (s : WorkflowRunSnapshot) (counts : TaskRunStatus -> Z) :
  workflow_status_valid (snap_Status s) = true ->
  (forall status, counts status = count_status (snap_Tasks s) status) ->
  validateAggregateStatus s counts = Ok tt <-> aggregate_valid (snap_Status s) (snap_Tasks s).
Proof.
  intros Hst Hc. unfold validateAggregateStatus, aggregate_valid.
  pose proof (count_status_nonneg (snap_Tasks s)) as Hn.
  destruct (snap_Status s); [| | | | |done]; rewrite ?guard_err_ok, ?Hc; autorewrite with guards.
  - rewrite count_status_all. naive_solver.
  - naive_solver.
  - rewrite count_status_all. naive_solver.
  - rewrite unfinished_counts.
    rewrite failed_or_canceled_counts.
    naive_solver.
  - rewrite unfinished_counts, Forall_and, <- count_status_zero.
    pose proof (Hn TaskRunFailed).
    assert (count_status (snap_Tasks s) TaskRunFailed <= 0 <-> count_status (snap_Tasks s) TaskRunFailed = 0) as -> by lia.
    naive_solver.
Qed.
Lemma validate_tasks_spec (s : WorkflowRunSnapshot) :
  let valid := Forall (task_valid (snap_ID s) (snap_CreatedAt s)) (snap_Tasks s) /\
    NoDup (tr_TaskID <$> snap_Tasks s) /\ NoDup (lease_workers (snap_Tasks s)) in
  match foldM (validate_task s) validate_state_init (snap_Tasks s) with
  | Ok state => valid /\ tasks_seen (snap_Tasks s) state
  | Err _ => ~ valid
  end.
Proof.
  cbn zeta. pose proof (task_steps_valid_iff s (snap_Tasks s)) as Hiff.
  pose proof (foldM_invariant (validate_task s) (fun _ => True) tasks_seen (task_step_valid s)
    (fun pre st x _ => validate_task_step s pre st x) (snap_Tasks s) [] validate_state_init
    (Forall_trivial _)) as Hl.
  ospecialize (Hl _). { by split_and!. }
  destruct (foldM _ _ _) as [st|e]; [naive_solver|].
  destruct Hl as (l1 & x & l2 & Heq & Hn). intros Hall. by apply Hn, (proj2 Hiff Hall l1 x l2).
Qed.

Lemma validate_workers_spec (s : WorkflowRunSnapshot) :
  let valid := Forall (worker_valid (snap_CreatedAt s)) (snap_Workers s) /\
    NoDup (hb_WorkerID <$> snap_Workers s) in
  match foldM (validate_worker s) ∅ (snap_Workers s) with
  | Ok seen => valid /\ seen = list_to_set (hb_WorkerID <$> snap_Workers s)
  | Err _ => ~ valid
  end.
Proof.
  cbn zeta.
  pose proof (keyed_steps_iff (fun w => [hb_WorkerID w]) (worker_valid (snap_CreatedAt s))
    (snap_Workers s) (fun w => NoDup_singleton _)) as Hiff.
  rewrite bind_singleton_fmap in Hiff.
  assert (Hkey : forall l1 (x : WorkerHeartbeat),
    (forall k, k ∈ [hb_WorkerID x] -> k ∉ l1 ≫= (fun w => [hb_WorkerID w])) <->
    hb_WorkerID x ∉ hb_WorkerID <$> l1).
  { intros l1 x. rewrite bind_singleton_fmap. set_solver. }
  setoid_rewrite Hkey in Hiff.
  pose proof (foldM_invariant (validate_worker s) (fun _ => True)
    (fun pre seen => seen = list_to_set (hb_WorkerID <$> pre))
    (fun pre w => worker_valid (snap_CreatedAt s) w /\ hb_WorkerID w ∉ hb_WorkerID <$> pre)
    (fun pre st x _ => validate_worker_step s pre st x) (snap_Workers s) [] ∅
    (Forall_trivial _) eq_refl) as Hl.
  destruct (foldM _ _ _) as [st|e]; [naive_solver|].
  destruct Hl as (l1 & x & l2 & Heq & Hn). intros Hall. by apply Hn, (proj2 Hiff Hall l1 x l2).
Qed.

Lemma validateSnapshot_ok (s : WorkflowRunSnapshot) :
  validateSnapshot s = Ok tt <-> snapshot_valid s.
Proof.
  unfold validateSnapshot. rewrite !guard_err_ok. unfold time_is_zero, time_before.
  autorewrite with guards. rewrite Nat.eqb_neq, length_zero_iff_nil.
  pose proof (validate_tasks_spec s) as Ht. pose proof (validate_workers_spec s) as Hw.
  cbn zeta in Ht, Hw.
  destruct (foldM (validate_task s) _ _) as [st|e]; cbn [rbind].
  2: { split; [naive_solver|]. intros []. naive_solver. }
  destruct (foldM (validate_worker s) _ _) as [seen|e]; cbn [rbind].
  2: { split; [naive_solver|]. intros []. naive_solver. }
  destruct Ht as [(Hv & Hu & Hl) (Hseen & Hcounts & Hleased)]. destruct Hw as [[Hwv Hwu] ->].
  assert (Hmissing : forall w, w ∈ filter (fun w => w ∉ (list_to_set (hb_WorkerID <$> snap_Workers s) : gset string))
      (elements (vs_leasedWorkers st)) <->
    w ∈ lease_workers (snap_Tasks s) /\ w ∉ hb_WorkerID <$> snap_Workers s).
  { intros w. rewrite list_elem_of_filter, elem_of_elements, Hleased, !elem_of_list_to_set. naive_solver. }
  destruct (filter _ _) as [|w rest] eqn:Ef.
  - assert (Hheart : forall w, w ∈ lease_workers (snap_Tasks s) -> w ∈ hb_WorkerID <$> snap_Workers s).
    { intros w Hw. destruct (decide (w ∈ hb_WorkerID <$> snap_Workers s)); [done|].
      exfalso. apply (not_elem_of_nil w), Hmissing. done. }
    split.
    + intros (H1 & H2 & H3 & H4 & H5 & H6 & H7). split; try done.
      by apply (validateAggregateStatus_ok s (vs_statusCounts st)).
    + intros []. assert (Hst : workflow_status_valid (snap_Status s) = true).
      { by destruct (snap_Status s). }
      rewrite (validateAggregateStatus_ok s (vs_statusCounts st)) by done. naive_solver.
  - split; [naive_solver|]. intros []. exfalso.
    destruct (proj1 (Hmissing w)) as [? ?]; [left|]. naive_solver.
Qed.
End Validate_snapshot.

(** [Validate] accepts a snapshot exactly when all of its invariants hold:
    identities derived from the run and task IDs, recorded attempts and
    timestamps consistent with each status, well-formed leases held by distinct
    workers with a heartbeat, and task states consistent with the run's status. *)
Theorem validateSnapshot_iff `{Unicode} (snapshot : WorkflowRunSnapshot) :
  validateSnapshot snapshot = Ok tt <-> snapshot_valid snapshot.
Proof. apply validateSnapshot_ok. Qed.
