(* ===== verification/RunStep.v ===== *)
(** * Steps of the aggregate

    One [run_op] per mutating method of the aggregate, with its execution, and
    the relation [task_change] that says what a step can do to one task. The
    invariants of [RunInv] are proved once per case of [task_change]. *)
From S2P Require Import Prelude Workflow Heap Graph GraphBuild GraphOrder Errors Run Ids.

(** ** Ranging over a map does not depend on the order *)

Lemma lookup_range_map {A : Type} (f : string -> A -> option A) (m : gmap string A) (k : string) :
  range_map f m !! k = (fun a => default a (f k a)) <$> m !! k.
Proof. unfold range_map. rewrite map_lookup_imap. by destruct (m !! k). Qed.

Lemma range_in_order_lookup {A : Type} (f : string -> A -> option A) (order : list string)
    (m : gmap string A) (k : string) :
  NoDup order ->
  range_in_order f order m !! k =
  if decide (k ∈ order) then (fun a => default a (f k a)) <$> m !! k else m !! k.
Proof.
  unfold range_in_order. induction order as [|x order IH] using rev_ind; intros Hnd.
  { by rewrite decide_False by apply not_elem_of_nil. }
  apply NoDup_app in Hnd as (Hnd & Hd & _). rewrite foldl_snoc. specialize (IH Hnd).
  set (acc := foldl _ m order) in *.
  assert (Hx : x ∉ order) by (intros Hin; apply (Hd x Hin); left).
  destruct (decide (k = x)) as [->|Hne].
  - rewrite decide_True by set_solver. rewrite decide_False in IH by done.
    rewrite IH. destruct (m !! x) as [a|]; [|by rewrite IH].
    cbn [fmap option_fmap option_map]. destruct (f x a); [by rewrite lookup_insert_eq|by rewrite IH].
  - assert (Hacc : forall v, <[x := v]> acc !! k = acc !! k) by (intros; by apply lookup_insert_ne).
    replace (match acc !! x with Some a => _ | None => _ end !! k) with (acc !! k)
      by (destruct (acc !! x) as [a|]; [destruct (f x a)|]; by rewrite ?Hacc).
    rewrite IH. destruct (decide (k ∈ order)); [rewrite decide_True by set_solver; done|].
    by rewrite decide_False by set_solver.
Qed.

(** A loop that ranges over the task map and rewrites each entry from its
    own old value gives the same map in every iteration order; it is the map
    [range_map] of the model. *)
Theorem range_in_order_eq {A : Type} (f : string -> A -> option A) (order : list string)
    (m : gmap string A) :
  NoDup order -> (forall k, k ∈ order <-> is_Some (m !! k)) ->
  range_in_order f order m = range_map f m.
Proof.
  intros Hnd Hkeys. apply map_eq. intros k.
  rewrite range_in_order_lookup, lookup_range_map by done.
  case_decide as Hin; [done|]. rewrite Hkeys, <- eq_None_not_Some in Hin. by rewrite Hin.
Qed.

Lemma range_in_order_eq_witness :
  range_in_order (fun _ n => if n <? 5 then Some (n + 10) else None) ["b"; "a"]
    (<["a" := 1]> (<["b" := 7]> ∅))
  = range_map (fun _ n => if n <? 5 then Some (n + 10) else None) (<["a" := 1]> (<["b" := 7]> ∅)).
Proof.
  apply range_in_order_eq; [apply (bool_decide_unpack _); vm_compute; exact I|].
  intros k. destruct (decide (k = "a")) as [->|]; [split; [done|right; left]|].
  destruct (decide (k = "b")) as [->|].
  - split; [done|left].
  - rewrite !lookup_insert_ne by done. rewrite lookup_empty. split; [set_solver|by intros []].
Defined.

(** ** Operations as data *)

Inductive run_op :=
| OpTask (taskID : string) (target : TaskRunStatus) (output : string) (taskErr : option go_error)
| OpWorkflow (target : WorkflowRunStatus)
| OpCancel (cause : option go_error)
| OpHeartbeat (workerID : string) (leaseDuration : Z)
| OpStart (taskID workerID : string) (leaseDuration : Z)
| OpComplete (taskID taskRunID workerID attemptID output : string) (taskErr : option go_error)
| OpRecover
| OpPromote
| OpPersisted (version : Z).

Section Steps.
Context `{Unicode}.

(** The state after a method returns; a method that fails leaves the aggregate
    unchanged. *)
Definition exec (run : WorkflowRun) (now : Z) (op : run_op) : WorkflowRun :=
  match op with
  | OpTask taskID target output taskErr =>
      match transitionTask run now taskID target output taskErr with Ok r => r | Err _ => run end
  | OpWorkflow target =>
      match transitionWorkflow run now target with Ok r => r | Err _ => run end
  | OpCancel cause => cancelUnfinished run now cause
  | OpHeartbeat workerID leaseDuration =>
      match recordWorkerHeartbeat run now workerID leaseDuration with Ok r => r | Err _ => run end
  | OpStart taskID workerID leaseDuration =>
      match startTaskAttempt run now taskID workerID leaseDuration with
      | Ok (r, _) => r | Err _ => run end
  | OpComplete taskID taskRunID workerID attemptID output taskErr =>
      match completeTaskAttempt run now taskID taskRunID workerID attemptID output taskErr with
      | Ok (r, _) => r | Err _ => run end
  | OpRecover => fst (recoverExpiredLeases run now)
  | OpPromote => fst (promoteDueRetries run now)
  | OpPersisted version => setPersistedVersion run version
  end.

(** What the step [op] may do to the task [k]. *)
Inductive task_change (run : WorkflowRun) (ts : Z) (k : string)
  : run_op -> TaskRun -> TaskRun -> Prop :=
| tc_transition t target output err :
    legalTaskTransition (tr_Status t) target = true ->
    task_change run ts k (OpTask k target output err) t (transitioned run k target output err ts t)
| tc_cancel t t' cause :
    cancel_task cause ts k t = Some t' -> task_change run ts k (OpCancel cause) t t'
| tc_heartbeat t t' workerID duration :
    0 < duration -> heartbeat_task workerID duration ts k t = Some t' ->
    task_change run ts k (OpHeartbeat workerID duration) t t'
| tc_start t workerID duration :
    validIdentifier workerID = true -> 0 < duration -> tr_Status t = TaskRunReady ->
    task_change run ts k (OpStart k workerID duration) t (started run k workerID duration ts t)
| tc_success t taskRunID workerID attemptID output :
    holds_lease t taskRunID workerID attemptID = true ->
    task_change run ts k (OpComplete k taskRunID workerID attemptID output None) t
      (attempt_succeeded output ts t)
| tc_failure t taskRunID workerID attemptID output err :
    holds_lease t taskRunID workerID attemptID = true ->
    task_change run ts k (OpComplete k taskRunID workerID attemptID output (Some err)) t
      (fst (attempt_failed (retryPolicy run k) (IsRetryable err) (error_string err) ts t))
| tc_recover t t' recovery :
    recover_task run ts k t = Some (t', recovery) -> task_change run ts k OpRecover t t'
| tc_promote t t' :
    promote_task ts k t = Some t' -> task_change run ts k OpPromote t t'.

Lemma holds_lease_running (t : TaskRun) (taskRunID workerID attemptID : string) :
  holds_lease t taskRunID workerID attemptID = true -> tr_Status t = TaskRunRunning.
Proof. unfold holds_lease. by destruct (tr_Status t). Qed.

Lemma check_worker_ok (workerID : string) (duration : Z) :
  check_worker workerID duration = Ok tt <-> validIdentifier workerID = true /\ 0 < duration.
Proof.
  unfold check_worker. rewrite !guard_err_ok, negb_false_iff, Z.leb_gt. naive_solver.
Qed.
(** A task is untouched, or changed by one case of [task_change] in a step that
    also moves the aggregate's timestamp. *)
Definition task_stepped (run run' : WorkflowRun) (ts : Z) (op : run_op) (k : string)
    (t t' : TaskRun) : Prop :=
  t' = t \/ (task_change run ts k op t t' /\ run_updatedAt run' = ts).

Definition tasks_stepped (run run' : WorkflowRun) (ts : Z) (op : run_op) : Prop :=
  forall k, match run_tasks run !! k with
  | Some t => exists t', run_tasks run' !! k = Some t' /\ task_stepped run run' ts op k t t'
  | None => run_tasks run' !! k = None
  end.

Lemma tasks_stepped_same (run run' : WorkflowRun) (ts : Z) (op : run_op) :
  run_tasks run' = run_tasks run -> tasks_stepped run run' ts op.
Proof. intros Heq k. rewrite Heq. destruct (run_tasks run !! k) as [t|]; [|done]. exists t. by split; [|left]. Qed.

Lemma tasks_stepped_insert (run run' : WorkflowRun) (ts : Z) (op : run_op) (k : string)
    (t t' : TaskRun) :
  run_tasks run !! k = Some t -> run_tasks run' = <[k := t']> (run_tasks run) ->
  task_change run ts k op t t' -> run_updatedAt run' = ts -> tasks_stepped run run' ts op.
Proof.
  intros Hk Heq Hc Hu j. rewrite Heq, lookup_insert. case_decide as E.
  - subst j. rewrite Hk. exists t'. by split; [|right].
  - destruct (run_tasks run !! j) as [u|]; [|done]. exists u. by split; [|left].
Qed.

Lemma tasks_stepped_range (run run' : WorkflowRun) (ts : Z) (op : run_op)
    (f : string -> TaskRun -> option TaskRun) :
  run_tasks run' = range_map f (run_tasks run) ->
  (forall k t t', run_tasks run !! k = Some t -> f k t = Some t' ->
     task_change run ts k op t t' /\ run_updatedAt run' = ts) ->
  tasks_stepped run run' ts op.
Proof.
  intros Htasks Hf k. rewrite Htasks, lookup_range_map.
  destruct (run_tasks run !! k) as [t|] eqn:Hk; [|done]. cbn. exists (default t (f k t)).
  split; [done|]. destruct (f k t) as [t'|] eqn:E; [|by left]. right. eauto.
Qed.

Lemma any_entry_true {A B : Type} (f : string -> A -> option B) (m : gmap string A) (k : string)
    (a : A) (b : B) :
  m !! k = Some a -> f k a = Some b -> any_entry f m = true.
Proof.
  intros Hk Hf. apply existsb_exists. exists (k, a). split; [|by rewrite Hf].
  by apply list_elem_of_In, elem_of_map_to_list.
Qed.

(** The sorted list of results of a ranging loop is empty only if no entry
    produced one. *)
Lemma omap_map_to_list_elem {A B : Type} (f : string -> A -> option B) (m : gmap string A) (b : B) :
  b ∈ omap (fun '(k, a) => f k a) (map_to_list m) <-> exists k a, m !! k = Some a /\ f k a = Some b.
Proof.
  rewrite list_elem_of_omap. split.
  - intros ([k a] & Hin & Hf). exists k, a. by rewrite <- elem_of_map_to_list.
  - intros (k & a & Hk & Hf). exists (k, a). by rewrite elem_of_map_to_list.
Qed.

Lemma sort_by_nonempty {A C : Type} (key : A -> string) (l : list A) (x : A) (u v : C) (P : C -> Prop) :
  x ∈ l -> P v -> P (match sort_by key l with [] => u | _ => v end).
Proof.
  intros Hx Hv. destruct (sort_by key l) eqn:E; [|done].
  rewrite <- (sort_by_perm key l), E in Hx. by apply elem_of_nil in Hx.
Qed.
Lemma exec_tasks (run : WorkflowRun) (now : Z) (op : run_op) :
  tasks_stepped run (exec run now op) (nextTimestamp run now) op.
Proof.
  destruct op as [k target output err|target|cause|w d|k w d|k trid w aid output err| | |v]; cbn [exec].
  - unfold transitionTask. destruct (run_tasks run !! k) as [t|] eqn:Hk; [|by apply tasks_stepped_same].
    destruct (legalTaskTransition (tr_Status t) target) eqn:Hl; cbn; [|by apply tasks_stepped_same].
    eapply tasks_stepped_insert; [done|done|by apply tc_transition|done].
  - unfold transitionWorkflow. destruct (legalWorkflowTransition _ _); by apply tasks_stepped_same.
  - eapply tasks_stepped_range; [done|]. intros k t t' Hk Hf. split; [by eapply tc_cancel|].
    unfold cancelUnfinished. cbn. by rewrite (any_entry_true _ _ k t t').
  - unfold recordWorkerHeartbeat. destruct (check_worker w d) as [[]|] eqn:Hc; cbn; [|by apply tasks_stepped_same].
    apply check_worker_ok in Hc as [_ Hd].
    eapply tasks_stepped_range; [done|]. intros k t t' Hk Hf. split; [by eapply tc_heartbeat|done].
  - unfold startTaskAttempt. destruct (check_worker w d) as [[]|] eqn:Hc; cbn; [|by apply tasks_stepped_same].
    apply check_worker_ok in Hc as [Hw Hd].
    destruct (run_tasks run !! k) as [t|] eqn:Hk; [|by apply tasks_stepped_same].
    case_bool_decide as Hs; cbn; [|by apply tasks_stepped_same].
    eapply tasks_stepped_insert; [done|done|by apply tc_start|done].
  - unfold completeTaskAttempt. destruct (run_tasks run !! k) as [t|] eqn:Hk; [|by apply tasks_stepped_same].
    destruct (holds_lease t trid w aid) eqn:Hl; cbn [negb]; [|by apply tasks_stepped_same].
    destruct err as [e|].
    + pose proof (tc_failure run (nextTimestamp run now) k t trid w aid output e Hl) as Hc.
      destruct (attempt_failed _ _ _ _ _) as [t' outcome].
      eapply tasks_stepped_insert; [done|done|done|done].
    + eapply tasks_stepped_insert; [done|done|by apply tc_success|done].
  - eapply tasks_stepped_range; [done|]. intros k t t' Hk Hf. cbn beta in Hf.
    destruct (recover_task run (nextTimestamp run now) k t) as [[u r]|] eqn:Hr; simplify_eq/=.
    split; [by eapply tc_recover|]. apply (sort_by_nonempty lr_TaskID _ r); [|done].
    apply (omap_map_to_list_elem (fun k t => snd <$> recover_task run (nextTimestamp run now) k t)).
    exists k, t. by rewrite Hr.
  - eapply tasks_stepped_range; [done|]. intros k t t' Hk Hf. cbn beta in Hf.
    split; [by eapply tc_promote|]. unfold promoteDueRetries, sort_strings. cbn [fst with_tasks run_updatedAt].
    apply (sort_by_nonempty id _ k); [|done].
    apply (omap_map_to_list_elem (fun k t => (fun _ => k) <$> promote_task (nextTimestamp run now) k t)).
    exists k, t. by rewrite Hf.
  - by apply tasks_stepped_same.
Qed.

(** Everything a step leaves alone, and what it may do to the rest. *)
Lemma exec_frame (run : WorkflowRun) (now : Z) (op : run_op) :
  let run' := exec run now op in
  run_id run' = run_id run /\ run_definition run' = run_definition run /\
  run_createdAt run' = run_createdAt run /\
  (run_updatedAt run' = run_updatedAt run \/ run_updatedAt run' = nextTimestamp run now) /\
  (run_workers run' = run_workers run \/
   exists w, validIdentifier w = true /\
     run_workers run' = <[w := mkWorkerHeartbeat w (nextTimestamp run now)]> (run_workers run) /\
     run_updatedAt run' = nextTimestamp run now) /\
  (run_status run' = run_status run \/
   exists target, op = OpWorkflow target /\ run_status run' = target /\
     legalWorkflowTransition (run_status run) target = true).
Proof.
  destruct op as [k target output err|target|cause|w d|k w d|k trid w aid output err| | |v]; cbn [exec].
  - unfold transitionTask. destruct (run_tasks run !! k); [|naive_solver].
    destruct (legalTaskTransition _ _); cbn; naive_solver.
  - unfold transitionWorkflow. destruct (legalWorkflowTransition (run_status run) target) eqn:E; cbn; naive_solver.
  - unfold cancelUnfinished. cbn. destruct (any_entry _ _); naive_solver.
  - unfold recordWorkerHeartbeat. destruct (check_worker w d) as [[]|] eqn:Hc; cbn; [|naive_solver].
    apply check_worker_ok in Hc as [Hw _]. split_and!; naive_solver.
  - unfold startTaskAttempt. destruct (check_worker w d) as [[]|] eqn:Hc; cbn; [|naive_solver].
    apply check_worker_ok in Hc as [Hw _].
    destruct (run_tasks run !! k); [|naive_solver]. case_bool_decide; cbn; naive_solver.
  - unfold completeTaskAttempt. destruct (run_tasks run !! k); [|naive_solver].
    destruct (holds_lease _ _ _ _); cbn [negb]; [|naive_solver].
    destruct err as [e|]; [destruct (attempt_failed _ _ _ _ _)|]; cbn; naive_solver.
  - unfold recoverExpiredLeases. cbn. destruct (sort_by _ _); naive_solver.
  - unfold promoteDueRetries. cbn. destruct (sort_strings _); naive_solver.
  - cbn. naive_solver.
Qed.
End Steps.
