(* ===== verification/RunInv.v ===== *)
(** * Invariants of the aggregate

    The invariant that every method preserves whatever the clock does, and what
    it gives: bounded attempts, absorbing terminal states, timestamps that never
    run backwards, and snapshots that validation accepts. *)
From S2P Require Import Prelude Workflow Heap Graph GraphBuild GraphOrder Errors Run Ids Snapshot SnapshotValid RunStep.

(** ** The invariant *)

Definition policy_ok (policy : RetryPolicy) : Prop :=
  policy_in_range policy /\ 1 <= EffectiveMaxAttempts policy.

(** One task of a run, with the retry policy of its definition. *)
Record task_inv (runID : string) (policy : RetryPolicy) (createdAt updatedAt : Z) (k : string)
    (t : TaskRun) : Prop := {
  ti_valid : task_valid runID createdAt t;
  ti_key : tr_TaskID t = k;
  ti_run : tr_TaskRunID t = TaskRunIDFor runID k;
  ti_attempt : tr_AttemptCount t <> 0 ->
    tr_CurrentAttemptID t = AttemptIDFor (TaskRunIDFor runID k) (tr_AttemptCount t);
  ti_bound : tr_AttemptCount t <= EffectiveMaxAttempts policy;
  ti_more : tr_Status t = TaskRunPending \/ tr_Status t = TaskRunReady \/
    tr_Status t = TaskRunRetryWaiting -> tr_AttemptCount t < EffectiveMaxAttempts policy;
  ti_updated : tr_UpdatedAt t <= updatedAt
}.

Record run_inv (run : WorkflowRun) : Prop := {
  ri_id : validIdentifier (run_id run) = true;
  ri_definition : structurally_valid (run_definition run);
  ri_acyclic : acyclic (run_definition run);
  ri_cloned : cloneDefinition (run_definition run) = run_definition run;
  ri_policies : Forall (fun task => policy_in_range (td_Retry task)) (wd_Tasks (run_definition run));
  ri_dom : forall k, is_Some (run_tasks run !! k) <-> k ∈ taskIDs_of (run_definition run);
  ri_created : 0 < run_createdAt run <= run_updatedAt run;
  ri_tasks : forall k t, run_tasks run !! k = Some t ->
    task_inv (run_id run) (retryPolicy run k) (run_createdAt run) (run_updatedAt run) k t;
  ri_workers : forall k w, run_workers run !! k = Some w ->
    hb_WorkerID w = k /\ worker_valid (run_createdAt run) w /\ hb_LastHeartbeatAt w <= run_updatedAt run;
  ri_lease_worker : forall k t lease, run_tasks run !! k = Some t -> tr_Lease t = Some lease ->
    is_Some (run_workers run !! lease_WorkerID lease);
  ri_lease_unique : forall k1 k2 t1 t2 lease1 lease2,
    run_tasks run !! k1 = Some t1 -> run_tasks run !! k2 = Some t2 ->
    tr_Lease t1 = Some lease1 -> tr_Lease t2 = Some lease2 ->
    lease_WorkerID lease1 = lease_WorkerID lease2 -> k1 = k2
}.

(** A worker leases a task only when it holds no lease. *)
Definition worker_free (run : WorkflowRun) (workerID : string) : Prop :=
  forall k t lease, run_tasks run !! k = Some t -> tr_Lease t = Some lease ->
    lease_WorkerID lease <> workerID.

(** ** Retry policies *)

Lemma valid_policy_attempts (policy : RetryPolicy) :
  invalidRetryPolicyReason policy = "" -> 1 <= EffectiveMaxAttempts policy.
Proof.
  unfold invalidRetryPolicyReason, EffectiveMaxAttempts.
  destruct (MaxAttempts policy <? 0) eqn:E; [done|]. intros _.
  destruct (Z.eqb_spec (MaxAttempts policy) 0); lia.
Qed.

Lemma RetryDelay_nonneg (policy : RetryPolicy) (n : Z) :
  policy_in_range policy -> 0 <= RetryDelay policy n.
Proof.
  intros Hr. destruct (Z_lt_le_dec n 1) as [Hn|Hn].
  { unfold RetryDelay. by replace (n <? 1) with true by lia. }
  destruct (Z_le_gt_dec (InitialBackoff policy) 0) as [Hi|Hi].
  { unfold RetryDelay. by replace (InitialBackoff policy <=? 0) with true by lia; rewrite orb_true_r. }
  rewrite RetryDelay_eq_spec by (done || lia). unfold delay_spec, max_int64.
  pose proof (Z.pow_nonneg 2 (n - 1)). destruct (MaxBackoff policy >? 0) eqn:E; nia.
Qed.

Lemma run_policy_ok (run : WorkflowRun) (k : string) : run_inv run -> policy_ok (retryPolicy run k).
Proof.
  intros Hi. unfold retryPolicy. destruct (List.find _ _) as [task|] eqn:E.
  - apply List.find_some in E as [Hin%list_elem_of_In _]. split.
    + pose proof (ri_policies run Hi) as Hp. rewrite Forall_forall in Hp. by apply Hp.
    + pose proof (sv_tasks _ (ri_definition run Hi)) as Ht. rewrite Forall_forall in Ht.
      destruct (Ht task Hin) as (_ & _ & Hr). by apply valid_policy_attempts.
  - split; [|cbn; lia]. unfold policy_in_range, in_int64, min_int64, max_int64. cbn. lia.
Qed.

Lemma nextTimestamp_ge (run : WorkflowRun) (now : Z) : run_updatedAt run <= nextTimestamp run now.
Proof. unfold nextTimestamp, time_before. destruct (now <? run_updatedAt run) eqn:E; lia. Qed.

(** ** Every change of a task preserves the task invariant *)

Section Preservation.
Context `{Unicode} (run : WorkflowRun) (ts : Z) (k : string).
Context (Hid : validIdentifier (run_id run) = true) (Hk : validIdentifier k = true).
Context (Hpol : policy_ok (retryPolicy run k)).
Context (Hts : 0 < run_createdAt run) (Hup : run_updatedAt run <= ts) (Hcr : run_createdAt run <= ts).

Notation inv u := (task_inv (run_id run) (retryPolicy run k) (run_createdAt run) u k).

Lemma effective_in_int64 : EffectiveMaxAttempts (retryPolicy run k) <= max_int64.
Proof.
  destruct Hpol as [[Hm _] _]. unfold in_int64 in Hm. unfold EffectiveMaxAttempts, max_int64 in *.
  destruct (Z.eqb_spec (MaxAttempts (retryPolicy run k)) 0); lia.
Qed.

Lemma wrap_count (n : Z) :
  0 <= n -> n < EffectiveMaxAttempts (retryPolicy run k) -> wrap_int64 (n + 1) = n + 1.
Proof.
  intros H0 Hn. apply wrap_int64_id. pose proof effective_in_int64.
  unfold in_int64, min_int64, max_int64 in *. lia.
Qed.
(** Solves the fields of [task_inv] for a task built by an operation. *)
Ltac solve_fields :=
  cbn [tr_TaskID tr_TaskRunID tr_Status tr_Output tr_Error tr_AttemptCount tr_CurrentAttemptID
       tr_NextAttemptAt tr_Lease tr_UpdatedAt tr_StartedAt tr_FinishedAt];
  unfold zero_time in *; intros;
  repeat match goal with
  | H : _ \/ _ |- _ => destruct H
  | |- _ /\ _ => split
  end;
  first [ done | lia | congruence | right; congruence | left; congruence | solve [auto] ].

Ltac open_task H :=
  let Hv := fresh "Hv" in
  destruct H as [Hv Hkey Hrun Hatt Hbound Hmore Hupdated];
  pose proof (tv_running _ _ _ Hv) as Hrunning; pose proof (tv_waiting _ _ _ Hv) as Hwaiting;
  pose proof (tv_completed _ _ _ Hv) as Hcompleted; pose proof (tv_canceled _ _ _ Hv) as Hcanceled;
  pose proof (tv_not_waiting _ _ _ Hv) as Hnotwaiting; pose proof (tv_count _ _ _ Hv) as Hcount;
  pose proof (tv_no_attempt _ _ _ Hv) as Hnoattempt; pose proof (tv_id _ _ _ Hv) as Htid;
  pose proof (tv_lease _ _ _ Hv) as Hlease; pose proof (tv_updated _ _ _ Hv) as Htup;
  pose proof (tv_status _ _ _ Hv) as Hstatus; pose proof (tv_attempt _ _ _ Hv) as Hattempt.

Lemma inv_success (u : Z) (output : string) (t : TaskRun) :
  inv u t -> tr_Status t = TaskRunRunning -> inv ts (attempt_succeeded output ts t).
Proof.
  intros Hi Hs. open_task Hi. destruct (Hrunning Hs) as [Hc Hst].
  split; [split|..]; unfold attempt_succeeded; solve_fields.
Qed.
Lemma inv_failure (u : Z) (retryable : bool) (message : string) (t : TaskRun) :
  inv u t -> tr_Status t = TaskRunRunning ->
  inv ts (fst (attempt_failed (retryPolicy run k) retryable message ts t)).
Proof.
  intros Hi Hs. open_task Hi. destruct (Hrunning Hs) as [Hc Hst]. unfold attempt_failed.
  pose proof (RetryDelay_nonneg (retryPolicy run k) (tr_AttemptCount t) (proj1 Hpol)) as Hd.
  assert (Hne : tr_CurrentAttemptID t <> "").
  { rewrite Hatt by done. apply AttemptIDFor_nonempty. }
  destruct (retryable && _) eqn:Er; [apply andb_true_iff in Er as [_ Er%Z.ltb_lt]|].
  - destruct (Z.eqb_spec (RetryDelay (retryPolicy run k) (tr_AttemptCount t)) 0) as [E|E];
      (split; [split|..]); cbn [fst]; unfold time_add; solve_fields.
  - split; [split|..]; cbn [fst]; solve_fields.
Qed.

Lemma inv_recover (u : Z) (t t' : TaskRun) (r : LeaseRecovery) :
  inv u t -> recover_task run ts k t = Some (t', r) -> inv ts t'.
Proof.
  intros Hi Hr. unfold recover_task in Hr.
  destruct (lease_lapsed ts t) eqn:Hl; [|done].
  assert (Hs : tr_Status t = TaskRunRunning) by (unfold lease_lapsed in Hl; by destruct (tr_Status t)).
  assert (Hsame : with_attempt_identity run k t = t).
  { unfold with_attempt_identity. destruct (string_is_empty _) eqn:E; [|done].
    apply string_is_empty_true in E. destruct (tv_running _ _ _ (ti_valid _ _ _ _ _ _ Hi) Hs) as [Hc _].
    rewrite (ti_attempt _ _ _ _ _ _ Hi Hc) in E. by apply AttemptIDFor_nonempty in E. }
  rewrite Hsame in Hr. pose proof (inv_failure u true
    (error_string (LeaseExpiredError (run_id run) k (tr_CurrentAttemptID t))) t Hi Hs) as Hf.
  destruct (attempt_failed _ _ _ _ _) as [t2 outcome]. by simplify_eq/=.
Qed.

Lemma inv_promote (u : Z) (t t' : TaskRun) : inv u t -> promote_task ts k t = Some t' -> inv ts t'.
Proof.
  intros Hi Hp. unfold promote_task in Hp. destruct (tr_Status t) eqn:Hs; try done.
  destruct (time_before _ _); [done|]. simplify_eq/=. open_task Hi.
  assert (Hnl : tr_Lease t = None).
  { destruct (tr_Lease t) as [l|] eqn:E; [|done]. destruct (Hlease l eq_refl). congruence. }
  assert (Hmore' : tr_AttemptCount t < EffectiveMaxAttempts (retryPolicy run k)) by auto.
  split; [split|..]; solve_fields.
Qed.

Lemma inv_cancel (u : Z) (t t' : TaskRun) (cause : option go_error) :
  inv u t -> cancel_task cause ts k t = Some t' -> inv ts t'.
Proof.
  intros Hi Hc. unfold cancel_task in Hc. destruct (unfinished (tr_Status t)) eqn:Hs; [|done].
  simplify_eq/=. open_task Hi. split; [split|..]; solve_fields.
Qed.

Lemma inv_heartbeat (u : Z) (t t' : TaskRun) (workerID : string) (d : Z) :
  0 < d -> inv u t -> heartbeat_task workerID d ts k t = Some t' -> inv ts t'.
Proof.
  intros Hd Hi Hh. unfold heartbeat_task in Hh.
  destruct (tr_Status t) eqn:Hs; try done. destruct (tr_Lease t) as [lease|] eqn:Hl; [|done].
  destruct (negb _); [done|]. destruct (negb _); [done|]. simplify_eq/=. open_task Hi.
  destruct (Hlease lease Hl). destruct (Hrunning Hs) as [Hc Hst].
  assert (Hn : tr_NextAttemptAt t = zero_time) by (apply Hnotwaiting; congruence).
  split; [split|..]; try solve_fields.
  cbn [tr_Lease]. intros l [= <-]. split; cbn; unfold time_add, zero_time; first [done | lia].
Qed.

Lemma inv_start (u : Z) (t : TaskRun) (workerID : string) (d : Z) :
  validIdentifier workerID = true -> 0 < d -> inv u t -> tr_Status t = TaskRunReady ->
  inv ts (started run k workerID d ts t).
Proof.
  intros Hw Hd Hi Hs. open_task Hi.
  assert (Hm : tr_AttemptCount t < EffectiveMaxAttempts (retryPolicy run k)) by auto.
  pose proof (AttemptIDFor_nonempty (TaskRunIDFor (run_id run) k) (tr_AttemptCount t + 1)).
  unfold started. rewrite (wrap_count (tr_AttemptCount t)) by done.
  split; [split|..]; try solve_fields.
  cbn [tr_Lease]. intros l [= <-].
  split; cbn; unfold time_add, zero_time; rewrite ?Hkey; try done; [|lia].
  by apply AttemptIDFor_valid, TaskRunIDFor_valid.
Qed.

Lemma inv_transition (u : Z) (t : TaskRun) (target : TaskRunStatus) (output : string)
    (err : option go_error) :
  inv u t -> legalTaskTransition (tr_Status t) target = true ->
  ~ (tr_Status t = TaskRunRetryWaiting /\ target = TaskRunReady) ->
  inv ts (transitioned run k target output err ts t).
Proof.
  intros Hi Hl Hnw. open_task Hi. unfold transitioned.
  assert (Hnl : tr_Status t <> TaskRunRunning -> tr_Lease t = None).
  { intros Hs. destruct (tr_Lease t) as [l|] eqn:E; [|done]. by destruct (Hlease l eq_refl). }
  destruct (tr_Status t) eqn:Hs; destruct target; try done; cbn [task_terminal];
    repeat case_bool_decide; try done; cbn [orb].
  all: try (assert (Hm : tr_AttemptCount t < EffectiveMaxAttempts (retryPolicy run k)) by auto).
  all: try (assert (Hno : tr_Lease t = None) by by apply Hnl).
  all: try (pose proof (wrap_count (tr_AttemptCount t) Hcount Hm) as Hwrap; rewrite Hwrap).
  all: try (destruct (Hrunning eq_refl) as [Hc Hst]).
  all: split; [split|..]; solve_fields.
Qed.
(** The transition out of retry-wait is left to [promoteDueRetries], which
    clears the retry deadline. *)
Definition change_allowed (op : run_op) (t : TaskRun) : Prop :=
  match op with
  | OpTask _ target _ _ => ~ (tr_Status t = TaskRunRetryWaiting /\ target = TaskRunReady)
  | _ => True
  end.

Lemma inv_change (op : run_op) (t t' : TaskRun) :
  inv (run_updatedAt run) t -> change_allowed op t -> task_change run ts k op t t' -> inv ts t'.
Proof.
  intros Hi Ha Hc. destruct Hc; cbn in Ha.
  - by eapply inv_transition.
  - by eapply inv_cancel.
  - by eapply inv_heartbeat.
  - by eapply inv_start.
  - by eapply inv_success, holds_lease_running.
  - by eapply inv_failure, holds_lease_running.
  - by eapply inv_recover.
  - by eapply inv_promote.
Qed.
End Preservation.

(** ** Every step preserves the run invariant *)

(** The calls that keep the invariant. The aggregate itself accepts two more: it leases
    a task to a worker that holds a lease, which gives a run whose snapshot validation
    refuses, so that the engine aborts before it is stored; and it takes a task from
    retry-wait to ready with its deadline left in place, which the engine never asks
    for, since it promotes due retries with [promoteDueRetries]. *)
Definition op_allowed (run : WorkflowRun) (op : run_op) : Prop :=
  match op with
  | OpStart _ workerID _ => worker_free run workerID
  | OpTask taskID _ _ _ => forall t, run_tasks run !! taskID = Some t -> change_allowed op t
  | _ => True
  end.

(** The part of it that concerns single tasks. *)
Definition op_changes (run : WorkflowRun) (op : run_op) : Prop :=
  match op with
  | OpTask taskID _ _ _ => forall t, run_tasks run !! taskID = Some t -> change_allowed op t
  | _ => True
  end.

Lemma op_allowed_changes run op : op_allowed run op -> op_changes run op.
Proof. by destruct op. Qed.

Lemma op_change_allowed `{Unicode} (run : WorkflowRun) (ts : Z) (op : run_op) (k : string) (t t' : TaskRun) :
  op_changes run op -> run_tasks run !! k = Some t -> task_change run ts k op t t' ->
  change_allowed op t.
Proof. intros Ha Hk Hc. destruct Hc; cbn in *; eauto. Qed.

Lemma task_inv_later (runID : string) (policy : RetryPolicy) (createdAt u v : Z) (k : string) (t : TaskRun) :
  u <= v -> task_inv runID policy createdAt u k t -> task_inv runID policy createdAt v k t.
Proof. intros Huv []. split; try done. lia. Qed.

(** A change leaves the lease, drops it, or grants it to the starting worker. *)
Lemma change_lease `{Unicode} (run : WorkflowRun) (ts : Z) (op : run_op) (k : string) (t t' : TaskRun)
    (lease' : TaskLease) :
  task_change run ts k op t t' -> tr_Lease t' = Some lease' ->
  (exists lease, tr_Lease t = Some lease /\ lease_WorkerID lease = lease_WorkerID lease') \/
  (exists duration, op = OpStart k (lease_WorkerID lease') duration).
Proof.
  intros Hc Hl. destruct Hc as [t target output err Hlegal|t t' cause Hc|t t' w d Hd Hc|t w d Hw Hd Hs
    |t trid w aid output Hh|t trid w aid output err Hh|t t' r Hr|t t' Hp].
  - cbn in Hl. destruct (task_terminal target); naive_solver.
  - unfold cancel_task in Hc. destruct (unfinished _); naive_solver.
  - unfold heartbeat_task in Hc. destruct (tr_Status t); try done.
    destruct (tr_Lease t) as [lease|]; [|done]. destruct (negb _); [done|]. destruct (negb _); [done|].
    simplify_eq/=. naive_solver.
  - cbn in Hl. simplify_eq/=. naive_solver.
  - done.
  - unfold attempt_failed in Hl. repeat case_match; simplify_eq/=.
  - unfold recover_task, attempt_failed in Hr. repeat case_match; simplify_eq/=.
  - unfold promote_task in Hp. destruct (tr_Status t); try done. destruct (time_before _ _); [done|].
    simplify_eq/=. naive_solver.
Qed.

Section Steps_preserve.
Context `{Unicode}.

Lemma exec_start_worker (run : WorkflowRun) (now : Z) (k w : string) (d : Z) :
  exec run now (OpStart k w d) = run \/ is_Some (run_workers (exec run now (OpStart k w d)) !! w).
Proof.
  cbn. unfold startTaskAttempt. destruct (check_worker w d); cbn; [|by left].
  destruct (run_tasks run !! k); [|by left]. case_bool_decide; cbn; [|by left].
  right. by rewrite lookup_insert_eq.
Qed.

Lemma start_change (run : WorkflowRun) (ts : Z) (k w : string) (d : Z) (t t' : TaskRun) :
  task_change run ts k (OpStart k w d) t t' ->
  tr_Status t = TaskRunReady /\ tr_Status t' = TaskRunRunning.
Proof. intros Hc. by inv Hc. Qed.

Lemma exec_workers_grow (run : WorkflowRun) (now : Z) (op : run_op) (w : string) :
  is_Some (run_workers run !! w) -> is_Some (run_workers (exec run now op) !! w).
Proof.
  intros Hw. destruct (exec_frame run now op) as (_ & _ & _ & _ & [-> | (v & _ & -> & _)] & _); [done|].
  rewrite lookup_insert. case_decide; [done|done].
Qed.

(** Where a lease of the new state comes from. *)
Lemma exec_lease (run : WorkflowRun) (now : Z) (op : run_op) (k : string) (t' : TaskRun)
    (lease' : TaskLease) :
  run_tasks (exec run now op) !! k = Some t' -> tr_Lease t' = Some lease' ->
  (exists t lease, run_tasks run !! k = Some t /\ tr_Lease t = Some lease /\
     lease_WorkerID lease = lease_WorkerID lease') \/
  (exists duration, op = OpStart k (lease_WorkerID lease') duration /\
     is_Some (run_workers (exec run now op) !! lease_WorkerID lease')).
Proof.
  intros Hk Hl. pose proof (exec_tasks run now op k) as Hs.
  destruct (run_tasks run !! k) as [t|] eqn:Ht; [|congruence].
  destruct Hs as (t2 & Hk2 & [-> |[Hc _]]); rewrite Hk in Hk2; simplify_eq.
  - left. by eexists _, lease'.
  - destruct (change_lease _ _ _ _ _ _ _ Hc Hl) as [(lease & Hl' & Hw)|[d ->]]; [left; by exists t, lease|].
    right. exists d. split; [done|].
    destruct (exec_start_worker run now k (lease_WorkerID lease') d) as [Heq|Hw]; [|done].
    apply start_change in Hc as [Hs1 Hs2]. rewrite Heq in Hk. congruence.
Qed.

Lemma retryPolicy_exec (run : WorkflowRun) (now : Z) (op : run_op) (k : string) :
  retryPolicy (exec run now op) k = retryPolicy run k.
Proof. unfold retryPolicy. by destruct (exec_frame run now op) as (_ & -> & _). Qed.

Lemma exec_updatedAt (run : WorkflowRun) (now : Z) (op : run_op) :
  run_updatedAt run <= run_updatedAt (exec run now op).
Proof.
  pose proof (nextTimestamp_ge run now).
  destruct (exec_frame run now op) as (_ & _ & _ & [-> | ->] & _); lia.
Qed.

Lemma exec_task_inv (run : WorkflowRun) (now : Z) (op : run_op) (k : string) (t' : TaskRun) :
  run_inv run -> op_changes run op -> run_tasks (exec run now op) !! k = Some t' ->
  task_inv (run_id run) (retryPolicy run k) (run_createdAt run) (run_updatedAt (exec run now op)) k t'.
Proof.
  intros Hi Ha Hk. pose proof (exec_tasks run now op k) as Hs.
  destruct (run_tasks run !! k) as [t|] eqn:Ht; [|congruence].
  destruct Hs as (t2 & Hk2 & Hstep). rewrite Hk in Hk2. simplify_eq.
  pose proof (ri_tasks run Hi k t Ht) as Hti.
  destruct Hstep as [-> |[Hc Hu]].
  - eapply task_inv_later; [|done]. apply exec_updatedAt.
  - rewrite Hu. pose proof (nextTimestamp_ge run now). pose proof (ri_created run Hi).
    apply (inv_change run (nextTimestamp run now) k) with (op := op) (t := t); try done; try lia.
    + apply ri_id, Hi.
    + destruct Hti as [Hv <- _ _ _ _ _]. apply (tv_id _ _ _ Hv).
    + by apply run_policy_ok.
    + by eapply op_change_allowed.
Qed.

Lemma run_inv_exec (run : WorkflowRun) (now : Z) (op : run_op) :
  run_inv run -> op_allowed run op -> run_inv (exec run now op).
Proof.
  intros Hi Ha. pose proof (exec_frame run now op) as (Eid & Edef & Ecr & Eup & Ew & _).
  pose proof (nextTimestamp_ge run now) as Hge. pose proof (exec_updatedAt run now op) as Hup.
  pose proof (ri_created run Hi) as Hcr.
  split; rewrite ?Eid, ?Edef, ?Ecr; try apply Hi.
  - intros k. rewrite <- (ri_dom run Hi k). pose proof (exec_tasks run now op k) as Hs.
    destruct (run_tasks run !! k) as [t|]; [|by rewrite Hs].
    destruct Hs as (t' & -> & _). split; by eexists.
  - lia.
  - intros k t' Hk. rewrite retryPolicy_exec. by apply exec_task_inv; [|apply op_allowed_changes|].
  - intros k w. destruct Ew as [-> |(v & Hv & -> & Hts)].
    + intros Hk. destruct (ri_workers run Hi k w Hk) as (? & ? & ?). split_and!; [done|done|lia].
    + rewrite lookup_insert. case_decide as E.
      * intros [= <-]. subst k. unfold worker_valid, zero_time. cbn. split_and!; try done; lia.
      * intros Hk. destruct (ri_workers run Hi k w Hk) as (? & ? & ?). split_and!; [done|done|lia].
  - intros k t' lease' Hk Hl.
    destruct (exec_lease run now op k t' lease' Hk Hl) as [(t & lease & Ht & Hlt & <-)|(d & _ & Hw)]; [|done].
    apply exec_workers_grow. by eapply (ri_lease_worker run Hi).
  - intros k1 k2 t1 t2 l1 l2 Hk1 Hk2 Hl1 Hl2 Heq.
    destruct (exec_lease run now op k1 t1 l1 Hk1 Hl1) as [(u1 & m1 & Hu1 & Hm1 & E1)|(d1 & E1 & _)];
    destruct (exec_lease run now op k2 t2 l2 Hk2 Hl2) as [(u2 & m2 & Hu2 & Hm2 & E2)|(d2 & E2 & _)].
    + eapply (ri_lease_unique run Hi k1 k2 u1 u2 m1 m2); try done. congruence.
    + subst op. cbn in Ha. exfalso. eapply Ha; [done|done|congruence].
    + subst op. cbn in Ha. exfalso. eapply Ha; [done|done|congruence].
    + congruence.
Qed.
End Steps_preserve.

(** ** Reachable runs *)

(** ** Cloned definitions *)

Lemma clone_dependencies_default (d : option (list string)) :
  default [] (clone_dependencies d) = default [] d.
Proof. by destruct d as [[|]|]. Qed.

Lemma deps_cloneTask (task : TaskDefinition) : deps (cloneTask task) = deps task.
Proof. apply clone_dependencies_default. Qed.

Lemma cloneTask_idemp (task : TaskDefinition) : cloneTask (cloneTask task) = cloneTask task.
Proof. unfold cloneTask. cbn. f_equal. by destruct (td_Dependencies task) as [[|]|]. Qed.

Lemma cloneDefinition_idemp (d : WorkflowDefinition) :
  cloneDefinition (cloneDefinition d) = cloneDefinition d.
Proof.
  unfold cloneDefinition. cbn. f_equal. rewrite <- list_fmap_compose. apply list_fmap_ext.
  intros _ task _. apply cloneTask_idemp.
Qed.

Lemma taskIDs_clone (d : WorkflowDefinition) : taskIDs_of (cloneDefinition d) = taskIDs_of d.
Proof. unfold taskIDs_of, cloneDefinition. cbn. by rewrite <- list_fmap_compose. Qed.

Lemma structurally_valid_clone (d : WorkflowDefinition) :
  structurally_valid d -> structurally_valid (cloneDefinition d).
Proof.
  intros [sv_id sv_nonempty sv_tasks sv_unique sv_deps]. split; rewrite ?taskIDs_clone; try done.
  - cbn. by destruct (wd_Tasks d).
  - cbn. rewrite Forall_fmap. exact sv_tasks.
  - cbn. rewrite Forall_fmap. eapply Forall_impl; [exact sv_deps|]. intros task.
    unfold deps_ok, compose. by rewrite deps_cloneTask.
Qed.

Lemma depends_clone (d : WorkflowDefinition) (x y : string) :
  depends (cloneDefinition d) x y -> depends d x y.
Proof.
  intros (t & Ht & Hx & Hy). cbn in Ht. apply list_elem_of_fmap in Ht as (u & -> & Hu).
  rewrite deps_cloneTask in Hy. by exists u.
Qed.

Lemma acyclic_clone (d : WorkflowDefinition) : acyclic d -> acyclic (cloneDefinition d).
Proof.
  intros Ha x Hx. apply (Ha x). revert Hx. generalize x at 1 3. intros y Hy.
  induction Hy as [? ? H|? ? ? H _ IH]; [by apply tc_once, depends_clone|].
  eapply tc_l; [by apply depends_clone|done].
Qed.

(** Every policy field is a Go [int] or [time.Duration]. *)
Definition definition_in_range (d : WorkflowDefinition) : Prop :=
  Forall (fun task => policy_in_range (td_Retry task)) (wd_Tasks d).

(** ** The first state *)

Lemma new_tasks_lookup (runID : string) (createdAt : Z) (tasks : list TaskDefinition) (k : string) :
  newTaskRuns runID createdAt tasks !! k =
  if decide (k ∈ td_ID <$> tasks) then Some (newTaskRun runID k createdAt) else None.
Proof.
  unfold newTaskRuns. induction tasks as [|task tasks IH] using rev_ind; [done|].
  rewrite foldl_snoc, lookup_insert, fmap_app.
  destruct (decide (td_ID task = k)) as [<-|E].
  - by rewrite decide_True by set_solver.
  - rewrite IH. destruct (decide (k ∈ td_ID <$> tasks)); [by rewrite decide_True by set_solver|].
    by rewrite decide_False by set_solver.
Qed.

Lemma newTaskRun_inv (runID k : string) (policy : RetryPolicy) (createdAt : Z) :
  validIdentifier k = true -> 0 < createdAt -> 1 <= EffectiveMaxAttempts policy ->
  task_inv runID policy createdAt createdAt k (newTaskRun runID k createdAt).
Proof.
  intros Hk Hc Hp. split; [split|..]; cbn; unfold zero_time; try done; try lia;
    [by right|by left|intros [?|?]; congruence].
Qed.

Section Reach.
Context `{Unicode}.

Lemma newWorkflowRun_ok (runID : string) (d : WorkflowDefinition) (now : Z) (run : WorkflowRun) :
  newWorkflowRun runID d now = Ok run ->
  validIdentifier runID = true /\ Validate d = Ok tt /\
  run = mkWorkflowRun runID (cloneDefinition d) 0 WorkflowRunPending
    (newTaskRuns runID now (wd_Tasks (cloneDefinition d))) ∅ now now.
Proof.
  unfold newWorkflowRun. rewrite guard_err_ok, negb_false_iff, rbind_ok.
  intros (Hid & [] & Hv & [= <-]). split_and!; [done| |done].
  by destruct (Validate d) as [[]|].
Qed.
Lemma newWorkflowRun_inv (runID : string) (d : WorkflowDefinition) (now : Z) (run : WorkflowRun) :
  newWorkflowRun runID d now = Ok run -> definition_in_range d -> 0 < now -> run_inv run.
Proof.
  intros (Hid & Hv & ->)%newWorkflowRun_ok Hr Hnow. apply Validate_ok_iff in Hv as [Hs Ha].
  pose proof (structurally_valid_clone d Hs) as Hsc.
  assert (Hr' : definition_in_range (cloneDefinition d)).
  { unfold definition_in_range. cbn. rewrite Forall_fmap. exact Hr. }
  split; cbn [run_id run_definition run_tasks run_workers run_createdAt run_updatedAt]; try done.
  - by apply acyclic_clone.
  - apply cloneDefinition_idemp.
  - intros k. rewrite new_tasks_lookup. fold (taskIDs_of (cloneDefinition d)).
    case_decide; split; try done; by intros [].
  - intros k t. rewrite new_tasks_lookup. fold (taskIDs_of (cloneDefinition d)).
    case_decide as Hk; [|done]. intros [= <-]. apply newTaskRun_inv; [|done|].
    + apply list_elem_of_fmap in Hk as (task & -> & Hin).
      pose proof (sv_tasks _ Hsc) as Ht. rewrite Forall_forall in Ht. by apply (Ht task Hin).
    + unfold retryPolicy. cbn [run_definition]. destruct (List.find _ _) as [task|] eqn:E; [|cbn; lia].
      apply List.find_some in E as [Hin%list_elem_of_In _].
      pose proof (sv_tasks _ Hsc) as Ht. rewrite Forall_forall in Ht.
      destruct (Ht task Hin) as (_ & _ & Hp). by apply valid_policy_attempts.
  - intros k t lease. rewrite new_tasks_lookup. case_decide; [|done]. by intros [= <-].
  - intros k1 k2 t1 t2 l1 l2. rewrite new_tasks_lookup. case_decide; [|done]. by intros [= <-].
Qed.

(** One call of a method of the aggregate that keeps the invariant. *)
Definition run_step (run run' : WorkflowRun) : Prop :=
  exists now op, op_allowed run op /\ run' = exec run now op.

(** The states of the runs of [definition]. *)
Definition reachable (runID : string) (definition : WorkflowDefinition) (run : WorkflowRun) : Prop :=
  exists now start, 0 < now /\ newWorkflowRun runID definition now = Ok start /\ rtc run_step start run.

Lemma rtc_run_inv (run run' : WorkflowRun) : rtc run_step run run' -> run_inv run -> run_inv run'.
Proof.
  induction 1 as [|run ? run' (now & op & Ha & ->) _ IH]; [done|].
  intros Hi. by apply IH, run_inv_exec.
Qed.

Lemma reachable_inv (runID : string) (d : WorkflowDefinition) (run : WorkflowRun) :
  definition_in_range d -> reachable runID d run -> run_inv run.
Proof.
  intros Hr (now & start & Hnow & Hstart & Hsteps).
  by eapply rtc_run_inv, newWorkflowRun_inv.
Qed.

Lemma reachable_frame (runID : string) (d : WorkflowDefinition) (run : WorkflowRun) :
  reachable runID d run -> run_id run = runID /\ run_definition run = cloneDefinition d.
Proof.
  intros (now & start & _ & (_ & _ & ->)%newWorkflowRun_ok & Hsteps).
  remember (mkWorkflowRun _ _ _ _ _ _ _ _) as start eqn:E.
  assert (Hb : run_id start = runID /\ run_definition start = cloneDefinition d) by by subst start.
  clear E. induction Hsteps as [|start ? run (n & op & _ & ->) _ IH]; [done|].
  apply IH. destruct (exec_frame start n op) as (-> & -> & _). done.
Qed.
End Reach.
