(* ===== verification/RunProps.v ===== *)
(** * Guarantees of the run aggregate

    What the state machine of [run.go] and [reliability.go] promises to the
    engine and to the users of a run: frozen terminal tasks, the attempt limit,
    at-most-once completion, lease recovery, retry deadlines and accepted
    snapshots. *)
From S2P Require Import Prelude Workflow Heap Graph GraphBuild GraphOrder Errors Run Ids Snapshot SnapshotValid RunStep RunInv.

Lemma StronglySorted_fmap_key {A : Type} (key : A -> string) (l : list A) :
  StronglySorted (key_le key) l -> StronglySorted String.le (key <$> l).
Proof. induction 1 as [|x l _ IH Hx]; [constructor|]. cbn. constructor; [done|]. by apply Forall_fmap. Qed.

Section Properties.
Context `{Unicode}.

(** Any sequence of method calls with the clock readings they see. *)
Definition exec_all (run : WorkflowRun) (ops : list (Z * run_op)) : WorkflowRun :=
  foldl (fun r '(now, op) => exec r now op) run ops.

(** ** Terminal tasks *)

Lemma change_terminal (run : WorkflowRun) (ts : Z) (k : string) (op : run_op) (t t' : TaskRun) :
  task_terminal (tr_Status t) = true -> task_change run ts k op t t' -> False.
Proof.
  intros Ht Hc. destruct Hc as [t target output err Hl|t t' cause Hc|t t' w d Hd Hc|t w d Hw Hd Hs
    |t trid w aid output Hh|t trid w aid output err Hh|t t' r Hr|t t' Hp].
  - by destruct (tr_Status t).
  - unfold cancel_task in Hc. by destruct (tr_Status t).
  - unfold heartbeat_task in Hc. by destruct (tr_Status t).
  - by rewrite Hs in Ht.
  - apply holds_lease_running in Hh. by rewrite Hh in Ht.
  - apply holds_lease_running in Hh. by rewrite Hh in Ht.
  - unfold recover_task, lease_lapsed in Hr. by destruct (tr_Status t).
  - unfold promote_task in Hp. by destruct (tr_Status t).
Qed.

Lemma exec_terminal (run : WorkflowRun) (now : Z) (op : run_op) (k : string) (t : TaskRun) :
  run_tasks run !! k = Some t -> task_terminal (tr_Status t) = true ->
  run_tasks (exec run now op) !! k = Some t.
Proof.
  intros Hk Ht. pose proof (exec_tasks run now op k) as Hs. rewrite Hk in Hs.
  destruct Hs as (t' & Hk' & [-> |[Hc _]]); [done|]. by apply change_terminal in Hc.
Qed.

(** A task that has succeeded, failed or been canceled never changes
    again: no sequence of method calls, at any clock readings, alters any field
    of its record. *)
Theorem terminal_task_frozen (run : WorkflowRun) (ops : list (Z * run_op)) (k : string) (t : TaskRun) :
  run_tasks run !! k = Some t -> task_terminal (tr_Status t) = true ->
  run_tasks (exec_all run ops) !! k = Some t.
Proof.
  revert run. induction ops as [|[now op] ops IH]; intros run Hk Ht; [done|].
  cbn. apply IH; [|done]. by apply exec_terminal.
Qed.

(** ** Well-formed states *)

Lemma effective_attempts_range (policy : RetryPolicy) : policy_ok policy -> EffectiveMaxAttempts policy <= max_int64.
Proof.
  intros [([_ Hmax] & _) _]. unfold EffectiveMaxAttempts, max_int64 in *. destruct (MaxAttempts policy =? 0); lia.
Qed.

(** C26: every state a run can reach is well formed. It has exactly the tasks of its
    definition, each filed under its own identifiers; the attempt counter is a
    machine integer within the limit of the retry policy, with an attempt left while
    the task is eligible; the attempt in force is the one counted; the times lie
    between the creation and the last update of the run; a retry time is set exactly
    while a retry is awaited; and a lease is one of the attempt in force of a running
    task, by a worker the run knows. *)
Theorem reachable_well_formed (runID : string) (definition : WorkflowDefinition) (run : WorkflowRun) :
  definition_in_range definition -> reachable runID definition run ->
  (forall k, is_Some (run_tasks run !! k) <-> k ∈ taskIDs_of definition) /\
  forall k t, run_tasks run !! k = Some t ->
    tr_TaskID t = k /\ tr_TaskRunID t = TaskRunIDFor runID k /\
    in_int64 (tr_AttemptCount t) /\ 0 <= tr_AttemptCount t <= EffectiveMaxAttempts (retryPolicy run k) /\
    (tr_Status t = TaskRunReady -> tr_AttemptCount t < EffectiveMaxAttempts (retryPolicy run k)) /\
    tr_CurrentAttemptID t =
      (if tr_AttemptCount t =? 0 then "" else AttemptIDFor (TaskRunIDFor runID k) (tr_AttemptCount t)) /\
    run_createdAt run <= tr_UpdatedAt t <= run_updatedAt run /\
    (tr_NextAttemptAt t <> zero_time <-> tr_Status t = TaskRunRetryWaiting) /\
    (forall lease, tr_Lease t = Some lease ->
       tr_Status t = TaskRunRunning /\ lease_AttemptID lease = tr_CurrentAttemptID t /\
       is_Some (run_workers run !! lease_WorkerID lease)).
Proof.
  intros Hr Hreach. pose proof (reachable_inv _ _ _ Hr Hreach) as Hi.
  destruct (reachable_frame _ _ _ Hreach) as [Hid Hdef]. split.
  { intros k. by rewrite (ri_dom run Hi), Hdef, taskIDs_clone. }
  intros k t Hk. destruct (ri_tasks run Hi k t Hk) as [Hv Hkey Htr Hatt Hb Hm Hu]. rewrite Hid in *.
  pose proof (tv_count _ _ _ Hv). destruct (tv_updated _ _ _ Hv).
  pose proof (effective_attempts_range _ (run_policy_ok run k Hi)). unfold in_int64, min_int64.
  split_and!; try done; try lia.
  - auto.
  - destruct (Z.eqb_spec (tr_AttemptCount t) 0); [by apply (tv_no_attempt _ _ _ Hv)|auto].
  - split; [|apply (tv_waiting _ _ _ Hv)]. intros Hn. destruct (decide (tr_Status t = TaskRunRetryWaiting)); [done|].
    by destruct Hn; apply (tv_not_waiting _ _ _ Hv).
  - intros lease Hl. destruct (tv_lease _ _ _ Hv lease Hl). split_and!; [done|done|]. by eapply ri_lease_worker.
Qed.

(** ** Timestamps *)

(** The aggregate's timestamps never run backwards, whatever the clock
    does: a later state has a later [updatedAt], and every recorded task change
    lies between the run's creation and its last update. *)
Theorem timestamps_monotone (runID : string) (definition : WorkflowDefinition)
    (run run' : WorkflowRun) :
  definition_in_range definition -> reachable runID definition run -> rtc run_step run run' ->
  run_createdAt run' = run_createdAt run /\ run_updatedAt run <= run_updatedAt run' /\
  forall k t, run_tasks run' !! k = Some t ->
    run_createdAt run' <= tr_UpdatedAt t <= run_updatedAt run'.
Proof.
  intros Hr Hreach Hsteps. pose proof (reachable_inv _ _ _ Hr Hreach) as Hi. clear Hreach.
  pose proof (rtc_run_inv _ _ Hsteps Hi) as Hi'. split_and!.
  - clear Hi Hi'. induction Hsteps as [|run ? run' (now & op & _ & ->) _ IH]; [done|].
    rewrite IH. by destruct (exec_frame run now op) as (_ & _ & -> & _).
  - clear Hi Hi'. induction Hsteps as [|run ? run' (now & op & _ & ->) _ IH]; [done|].
    pose proof (exec_updatedAt run now op). lia.
  - intros k t Hk. destruct (ri_tasks run' Hi' k t Hk) as [Hv _ _ _ _ _ Hu].
    destruct (tv_updated _ _ _ Hv). lia.
Qed.

(** ** At-most-once completion *)

(** The attempt [n] of task [k] is no longer the one that may complete. *)
Definition attempt_over (run : WorkflowRun) (k : string) (n : Z) : Prop :=
  exists t, run_tasks run !! k = Some t /\ n <= tr_AttemptCount t /\
    (tr_AttemptCount t = n -> tr_Lease t = None).

Lemma change_attempt_count (run : WorkflowRun) (ts : Z) (k : string) (op : run_op) (t t' : TaskRun) :
  task_change run ts k op t t' -> 0 <= tr_AttemptCount t < max_int64 \/ tr_Status t <> TaskRunReady ->
  tr_AttemptCount t' = tr_AttemptCount t + 1 \/
  (tr_AttemptCount t' = tr_AttemptCount t /\ (tr_Lease t = None -> tr_Lease t' = None)).
Proof.
  intros Hc Hr. assert (Hw : tr_Status t = TaskRunReady ->
    wrap_int64 (tr_AttemptCount t + 1) = tr_AttemptCount t + 1).
  { intros Hs. apply wrap_int64_id. unfold in_int64, min_int64, max_int64 in *. destruct Hr; [lia|done]. }
  destruct Hc as [t target output err Hl|t t' cause Hc|t t' w d Hd Hc|t w d Hwid Hd Hs
    |t trid w aid output Hh|t trid w aid output err Hh|t t' r Hrec|t t' Hp]; cbn.
  - case_bool_decide as E; [|right; split; [done|]; by destruct (task_terminal target)].
    left. apply Hw. subst target. by destruct (tr_Status t).
  - unfold cancel_task in Hc. destruct (unfinished _); [|done]. simplify_eq/=. by right.
  - unfold heartbeat_task in Hc. destruct (tr_Status t); try done. destruct (tr_Lease t); [|done].
    destruct (negb _); [done|]. destruct (negb _); [done|]. simplify_eq/=. by right.
  - left. by apply Hw.
  - by right.
  - right. unfold attempt_failed. repeat case_match; done.
  - right. unfold recover_task, with_attempt_identity, attempt_failed in Hrec.
    repeat case_match; simplify_eq/=; done.
  - unfold promote_task in Hp. destruct (tr_Status t); try done. destruct (time_before _ _); [done|].
    simplify_eq/=. by right.
Qed.

Lemma attempt_over_exec (run : WorkflowRun) (now : Z) (op : run_op) (k : string) (n : Z) :
  run_inv run -> attempt_over run k n -> attempt_over (exec run now op) k n.
Proof.
  intros Hi (t & Hk & Hn & Hl). pose proof (exec_tasks run now op k) as Hs. rewrite Hk in Hs.
  destruct Hs as (t' & Hk' & [-> |[Hc _]]); [by exists t|]. exists t'. split; [done|].
  destruct (ri_tasks run Hi k t Hk) as [Hv _ _ _ Hb Hm _]. pose proof (tv_count _ _ _ Hv).
  destruct (change_attempt_count _ _ _ _ _ _ Hc) as [Hcount|[Hcount Hlease]].
  - destruct (decide (tr_Status t = TaskRunReady)) as [Hst|]; [left|by right].
    assert (Hlt : tr_AttemptCount t < EffectiveMaxAttempts (retryPolicy run k)) by auto.
    pose proof (effective_in_int64 run k (run_policy_ok run k Hi)). lia.
  - split; lia.
  - split; [lia|]. intros Heq. apply Hlease, Hl. lia.
Qed.
Lemma rtc_run_id (run run' : WorkflowRun) : rtc run_step run run' -> run_id run' = run_id run.
Proof.
  induction 1 as [|run ? run' (now & op & _ & ->) _ IH]; [done|].
  rewrite IH. by destruct (exec_frame run now op) as (-> & _).
Qed.

Lemma attempt_over_steps (run run' : WorkflowRun) (k : string) (n : Z) :
  run_inv run -> attempt_over run k n -> rtc run_step run run' -> attempt_over run' k n.
Proof.
  intros Hi Ho Hsteps. induction Hsteps as [|run ? run' (now & op & Ha & ->) _ IH]; [done|].
  apply IH; [by apply run_inv_exec|by apply attempt_over_exec].
Qed.

(** A lease holder's identity is the attempt counter's. *)
Lemma holds_lease_count (run : WorkflowRun) (k trid w a : string) (t : TaskRun) :
  run_inv run -> run_tasks run !! k = Some t -> holds_lease t trid w a = true ->
  a = AttemptIDFor (TaskRunIDFor (run_id run) k) (tr_AttemptCount t) /\ is_Some (tr_Lease t).
Proof.
  intros Hi Hk Hh. pose proof (holds_lease_running _ _ _ _ Hh) as Hs.
  destruct (ri_tasks run Hi k t Hk) as [Hv _ _ Hatt _ _ _].
  destruct (tv_running _ _ _ Hv Hs) as [Hc _]. unfold holds_lease in Hh. rewrite Hs in Hh.
  destruct (tr_Lease t) as [lease|]; [|done]. autorewrite with guards in Hh.
  split; [|done]. rewrite <- Hatt by done. naive_solver.
Qed.

Lemma attempt_over_ignored (run : WorkflowRun) (now n : Z) (k trid w out : string)
    (err : option go_error) :
  run_inv run -> attempt_over run k n ->
  completeTaskAttempt run now k trid w (AttemptIDFor (TaskRunIDFor (run_id run) k) n) out err
  = Ok (run, CompletionIgnored).
Proof.
  intros Hi (t & Hk & Hn & Hl). unfold completeTaskAttempt. rewrite Hk.
  destruct (holds_lease t trid w _) eqn:Hh; [|done].
  destruct (holds_lease_count run k trid w _ t Hi Hk Hh) as [Heq [lease Hlease]].
  apply AttemptIDFor_inj in Heq as [_ Hcount]. rewrite Hl in Hlease by done. done.
Qed.

Lemma complete_attempt_over (run run' : WorkflowRun) (now : Z) (k trid w a out : string)
    (err : option go_error) (outcome : CompletionOutcome) :
  run_inv run -> completeTaskAttempt run now k trid w a out err = Ok (run', outcome) ->
  outcome <> CompletionIgnored ->
  exists n, a = AttemptIDFor (TaskRunIDFor (run_id run) k) n /\ attempt_over run' k n.
Proof.
  intros Hi Hc Ho. unfold completeTaskAttempt in Hc.
  destruct (run_tasks run !! k) as [t|] eqn:Hk; [|done].
  destruct (holds_lease t trid w a) eqn:Hh; [|by simplify_eq/=]. cbn [negb] in Hc.
  destruct (holds_lease_count run k trid w a t Hi Hk Hh) as [Heq _].
  exists (tr_AttemptCount t). split; [done|]. unfold attempt_over.
  destruct err as [e|].
  - unfold attempt_failed in Hc. repeat case_match; simplify_eq/=; eexists;
      (split; [by rewrite lookup_insert_eq|]); by split.
  - simplify_eq/=. eexists. split; [by rewrite lookup_insert_eq|]. by split.
Qed.

(** C2: at most one completion of an attempt takes effect. Once a completion
    has been recorded, whether it succeeded, was scheduled for a retry or
    failed, every later report for the same attempt, from any worker and after
    any further history of the run, is ignored and changes nothing. *)
Theorem completion_at_most_once (runID : string) (definition : WorkflowDefinition)
    (run run' run'' : WorkflowRun) (now now' : Z) (k trid w a out trid' w' out' : string)
    (err err' : option go_error) (outcome : CompletionOutcome) :
  definition_in_range definition -> reachable runID definition run ->
  completeTaskAttempt run now k trid w a out err = Ok (run', outcome) ->
  outcome <> CompletionIgnored -> rtc run_step run' run'' ->
  completeTaskAttempt run'' now' k trid' w' a out' err' = Ok (run'', CompletionIgnored).
Proof.
  intros Hr Hreach Hc Ho Hsteps. pose proof (reachable_inv _ _ _ Hr Hreach) as Hi.
  destruct (complete_attempt_over _ _ _ _ _ _ _ _ _ _ Hi Hc Ho) as (n & -> & Hover).
  assert (Hi' : run_inv run').
  { replace run' with (exec run now (OpComplete k trid w (AttemptIDFor (TaskRunIDFor (run_id run) k) n) out err))
      by (cbn; by rewrite Hc). by apply run_inv_exec. }
  assert (Hid : run_id run' = run_id run).
  { pose proof (exec_frame run now (OpComplete k trid w (AttemptIDFor (TaskRunIDFor (run_id run) k) n) out err)) as (E & _).
    cbn in E. by rewrite Hc in E. }
  rewrite <- Hid, <- (rtc_run_id _ _ Hsteps). apply attempt_over_ignored; [by eapply rtc_run_inv|].
  by eapply attempt_over_steps.
Qed.
(** ** Lease recovery *)

Lemma recoveries_elem (run : WorkflowRun) (now : Z) (r : LeaseRecovery) :
  r ∈ snd (recoverExpiredLeases run now) <->
  exists k t, run_tasks run !! k = Some t /\
    snd <$> recover_task run (nextTimestamp run now) k t = Some r.
Proof.
  cbn. rewrite sort_by_perm.
  apply (omap_map_to_list_elem (fun k t => snd <$> recover_task run (nextTimestamp run now) k t)).
Qed.

Lemma recover_task_lapsed (run : WorkflowRun) (ts : Z) (k : string) (t : TaskRun) :
  match recover_task run ts k t with
  | Some (t', r) => lease_lapsed ts t = true /\ lr_TaskID r = k /\
      tr_Status t' <> TaskRunRunning /\ tr_Lease t' = None /\ tr_AttemptCount t' = tr_AttemptCount t /\
      lr_AttemptID r = tr_CurrentAttemptID t'
  | None => lease_lapsed ts t = false
  end.
Proof.
  unfold recover_task. destruct (lease_lapsed ts t); [|done].
  unfold attempt_failed, with_attempt_identity.
  destruct (string_is_empty _ && _); cbn; repeat case_match; simplify_eq/=; done.
Qed.

(** Recovery handles exactly the lapsed leases. It reports one recovery per
    running task whose lease is missing or has expired, in task order; it leaves
    the other tasks alone; and afterwards no task is running on a lapsed lease. *)
Theorem recoverExpiredLeases_spec (run : WorkflowRun) (now : Z) :
  let ts := nextTimestamp run now in
  let '(run', recoveries) := recoverExpiredLeases run now in
  (forall k, k ∈ lr_TaskID <$> recoveries <->
     exists t, run_tasks run !! k = Some t /\ lease_lapsed ts t = true) /\
  StronglySorted String.le (lr_TaskID <$> recoveries) /\
  (forall k t, run_tasks run !! k = Some t -> lease_lapsed ts t = false ->
     run_tasks run' !! k = Some t) /\
  (forall k t', run_tasks run' !! k = Some t' -> lease_lapsed ts t' = false).
Proof.
  cbn zeta. pose proof (recoveries_elem run now) as Hrec.
  destruct (recoverExpiredLeases run now) as [run' recoveries] eqn:E. cbn [snd] in Hrec.
  assert (Htasks : run_tasks run' = range_map (fun k t => fst <$> recover_task run (nextTimestamp run now) k t)
    (run_tasks run)) by (unfold recoverExpiredLeases in E; by simplify_eq/=).
  split_and!.
  - intros k. rewrite list_elem_of_fmap. split.
    + intros (r & -> & (j & t & Hj & Hr)%Hrec). pose proof (recover_task_lapsed run (nextTimestamp run now) j t) as Hl.
      destruct (recover_task _ _ _ _) as [[t' r']|]; simplify_eq/=. destruct Hl as (Hl & -> & _). by exists t.
    + intros (t & Hk & Hl). pose proof (recover_task_lapsed run (nextTimestamp run now) k t) as Hs.
      destruct (recover_task _ _ _ _) as [[t' r]|] eqn:Er; [|congruence]. destruct Hs as (_ & <- & _).
      exists r. split; [done|]. apply Hrec. exists (lr_TaskID r), t. by rewrite Er.
  - unfold recoverExpiredLeases in E. simplify_eq/=. apply StronglySorted_fmap_key, sort_by_sorted.
  - intros k t Hk Hl. rewrite Htasks, lookup_range_map, Hk. cbn.
    pose proof (recover_task_lapsed run (nextTimestamp run now) k t) as Hs.
    destruct (recover_task _ _ _ _) as [[t' r]|]; [|done]. destruct Hs as [? _]. congruence.
  - intros k t'. rewrite Htasks, lookup_range_map. destruct (run_tasks run !! k) as [t|]; [|done].
    cbn. pose proof (recover_task_lapsed run (nextTimestamp run now) k t) as Hs.
    destruct (recover_task _ _ _ _) as [[u r]|]; cbn; intros [= <-]; [|done].
    destruct Hs as (_ & _ & Hns & _). unfold lease_lapsed. by destruct (tr_Status u).
Qed.

(** C9: fencing. After a lease was recovered, the worker that lost it can no
    longer complete the attempt, now or after any further history of the run. *)
Theorem recovered_attempt_fenced (runID : string) (definition : WorkflowDefinition)
    (run run'' : WorkflowRun) (now now' : Z) (r : LeaseRecovery) (trid w out : string)
    (err : option go_error) :
  definition_in_range definition -> reachable runID definition run ->
  r ∈ snd (recoverExpiredLeases run now) ->
  rtc run_step (fst (recoverExpiredLeases run now)) run'' ->
  completeTaskAttempt run'' now' (lr_TaskID r) trid w (lr_AttemptID r) out err
  = Ok (run'', CompletionIgnored).
Proof.
  intros Hr Hreach Hin Hsteps. pose proof (reachable_inv _ _ _ Hr Hreach) as Hi.
  assert (Hi' : run_inv (exec run now OpRecover)) by by apply run_inv_exec.
  apply recoveries_elem in Hin as (k & t & Hk & Hrt).
  pose proof (recover_task_lapsed run (nextTimestamp run now) k t) as Hs.
  destruct (recover_task run (nextTimestamp run now) k t) as [[t' r']|] eqn:Er; simplify_eq/=.
  destruct Hs as (Hl & -> & Hns & Hlease & Hcount & Hatt).
  assert (Hk' : run_tasks (exec run now OpRecover) !! k = Some t').
  { cbn. rewrite lookup_range_map, Hk. cbn. by rewrite Er. }
  assert (Hrun : tr_Status t = TaskRunRunning) by (unfold lease_lapsed in Hl; by destruct (tr_Status t)).
  destruct (ri_tasks run Hi k t Hk) as [Hv _ _ _ _ _ _]. destruct (tv_running _ _ _ Hv Hrun) as [Hc _].
  destruct (ri_tasks _ Hi' k t' Hk') as [_ _ _ Hatt' _ _ _]. rewrite Hcount in Hatt'.
  pose proof (rtc_run_id _ _ Hsteps) as Hid.
  change (fst (recoverExpiredLeases run now)) with (exec run now OpRecover) in Hid.
  rewrite Hatt, Hatt', <- Hid by done. apply attempt_over_ignored; [by eapply rtc_run_inv|].
  eapply attempt_over_steps; [exact Hi'| |done]. exists t'. split; [done|]. split; [lia|done].
Qed.
(** ** Deadlines *)

(** A task the reliability pass would act on at the timestamp [ts]. *)
Definition task_due (ts : Z) (t : TaskRun) : Prop :=
  lease_lapsed ts t = true \/ (tr_Status t = TaskRunRetryWaiting /\ tr_NextAttemptAt t <= ts).

(** Deadlines that are set are not the zero time. *)
Definition deadlines_set (t : TaskRun) : Prop :=
  (tr_Status t = TaskRunRetryWaiting -> tr_NextAttemptAt t <> zero_time) /\
  forall lease, tr_Lease t = Some lease -> lease_ExpiresAt lease <> zero_time.

Lemma deadline_loop_spec (updatedAt ts : Z) (tasks : list TaskRun) (deadline : Z) :
  Forall deadlines_set tasks -> updatedAt <= ts ->
  let '(d, found) := deadline_loop updatedAt deadline tasks in
  (found = true /\ d <= ts) <->
  (deadline <> zero_time /\ deadline <= ts) \/ Exists (task_due ts) tasks.
Proof.
  intros Hset Hts. revert deadline. induction Hset as [|t tasks [Hw Hl] Hset IH]; intros deadline.
  { cbn. unfold time_is_zero. rewrite Exists_nil, negb_true_iff, Z.eqb_neq. tauto. }
  assert (Hconsider : forall candidate, candidate <> zero_time ->
    (task_due ts t <-> candidate <= ts) ->
    let '(d, found) :=
      (if time_is_zero deadline || time_before candidate deadline
       then deadline_loop updatedAt candidate tasks else deadline_loop updatedAt deadline tasks) in
    (found = true /\ d <= ts) <->
    (deadline <> zero_time /\ deadline <= ts) \/ Exists (task_due ts) (t :: tasks)).
  { intros candidate Hc Hdue. unfold time_is_zero, time_before, zero_time in *.
    pose proof (IH candidate) as IH1. pose proof (IH deadline) as IH2.
    destruct ((deadline =? 0) || (candidate <? deadline)) eqn:E;
      [destruct (deadline_loop updatedAt candidate tasks)|destruct (deadline_loop updatedAt deadline tasks)];
      rewrite ?IH1, ?IH2, Exists_cons, Hdue.
    - apply orb_true_iff in E. rewrite Z.eqb_eq, Z.ltb_lt in E. destruct E; split; intros [[? ?]|?]; try tauto.
      all: try (left; lia). all: try (right; left; lia). all: lia.
    - apply orb_false_iff in E. rewrite Z.eqb_neq, Z.ltb_ge in E. destruct E. split; [tauto|].
      intros [?|[?|?]]; [tauto| |tauto]. left. lia. }
  assert (Hskip : ~ task_due ts t ->
    let '(d, found) := deadline_loop updatedAt deadline tasks in
    (found = true /\ d <= ts) <->
    (deadline <> zero_time /\ deadline <= ts) \/ Exists (task_due ts) (t :: tasks)).
  { intros Hn. specialize (IH deadline). destruct (deadline_loop _ _ _). rewrite IH, Exists_cons. tauto. }
  cbn [deadline_loop]. unfold task_due, lease_lapsed in Hconsider, Hskip |- *.
  destruct (tr_Status t) eqn:Hs; try (apply Hskip; naive_solver).
  - destruct (tr_Lease t) as [lease|] eqn:El.
    + apply Hconsider; [by apply Hl|]. unfold time_before. rewrite negb_true_iff, Z.ltb_ge. naive_solver.
    + split; [|done]. intros _. right. left. unfold task_due, lease_lapsed. rewrite Hs, El. by left.
  - apply Hconsider; [by apply Hw|]. naive_solver.
Qed.
Lemma task_inv_deadlines (runID : string) (policy : RetryPolicy) (createdAt updatedAt : Z) (k : string)
    (t : TaskRun) : task_inv runID policy createdAt updatedAt k t -> deadlines_set t.
Proof.
  intros [Hv _ _ _ _ _ _]. split.
  - intros Hs. by destruct (tv_waiting _ _ _ Hv Hs).
  - intros lease Hl. apply (lv_expires _ _ _ (tv_lease _ _ _ Hv lease Hl)).
Qed.

Lemma nonempty_elem {A : Type} (l : list A) : l <> [] <-> exists x, x ∈ l.
Proof. destruct l as [|x l]; [set_solver|]. split; [|done]. intros _. exists x. left. Qed.

Lemma promoted_elem (run : WorkflowRun) (now : Z) (k : string) :
  k ∈ snd (promoteDueRetries run now) <->
  exists t, run_tasks run !! k = Some t /\ tr_Status t = TaskRunRetryWaiting /\
    tr_NextAttemptAt t <= nextTimestamp run now.
Proof.
  cbn. unfold sort_strings. rewrite sort_by_perm.
  rewrite (omap_map_to_list_elem (fun k t => (fun _ => k) <$> promote_task (nextTimestamp run now) k t)).
  unfold promote_task, time_before. split.
  - intros (j & t & Hj & Hp). destruct (tr_Status t) eqn:Hs; try done.
    destruct (Z.ltb_spec (nextTimestamp run now) (tr_NextAttemptAt t)); simplify_eq/=. by exists t.
  - intros (t & Hk & Hs & Hle). exists k, t. split; [done|]. rewrite Hs.
    by destruct (Z.ltb_spec (nextTimestamp run now) (tr_NextAttemptAt t)); [lia|].
Qed.

(** The reliability pass has something to do at a clock reading. *)
Definition reliability_due (run : WorkflowRun) (now : Z) : Prop :=
  snd (recoverExpiredLeases run now) <> [] \/ snd (promoteDueRetries run now) <> [].

Lemma deadline_due (runID : string) (definition : WorkflowDefinition) (run : WorkflowRun) (now : Z) :
  definition_in_range definition -> reachable runID definition run ->
  reliability_due run now <->
  (snd (nextReliabilityDeadline run) = true /\ fst (nextReliabilityDeadline run) <= nextTimestamp run now).
Proof.
  intros Hr Hreach. pose proof (reachable_inv _ _ _ Hr Hreach) as Hi.
  pose proof (deadline_loop_spec (run_updatedAt run) (nextTimestamp run now) (map_values (run_tasks run)) zero_time)
    as Hd. unfold nextReliabilityDeadline, reliability_due.
  destruct (deadline_loop _ _ _) as [d found]. cbn [fst snd]. rewrite Hd.
  2: { apply Forall_forall. intros t Ht. unfold map_values in Ht.
       apply list_elem_of_fmap in Ht as ([k t'] & -> & Hin%elem_of_map_to_list).
       by eapply task_inv_deadlines, (ri_tasks run Hi). }
  2: { apply nextTimestamp_ge. }
  clear Hd. rewrite Exists_exists, !nonempty_elem. unfold zero_time, task_due, map_values.
  setoid_rewrite recoveries_elem. setoid_rewrite promoted_elem. split.
  - intros [(r & k & t & Hk & Hrt)|(k & t & Hk & Hs & Hle)]; right; exists t;
      (split; [apply list_elem_of_fmap; exists (k, t); by rewrite elem_of_map_to_list|]); [left|by right].
    pose proof (recover_task_lapsed run (nextTimestamp run now) k t) as Hl.
    destruct (recover_task _ _ _ _) as [[t' r']|]; [by destruct Hl|done].
  - intros [[? _]|(t & Hin & Hdue)]; [done|].
    apply list_elem_of_fmap in Hin as ([k t'] & -> & Hk%elem_of_map_to_list). cbn in Hdue.
    destruct Hdue as [Hl|[Hs Hle]]; [left|right; by exists k, t'].
    pose proof (recover_task_lapsed run (nextTimestamp run now) k t') as Hrl.
    destruct (recover_task run (nextTimestamp run now) k t') as [[u r]|] eqn:Er; [|congruence].
    exists r, k, t'. by rewrite Er.
Qed.

(** C33: the reliability timer is exact. In a reachable state the reliability pass
    (lease recovery and retry promotion) has something to do at a clock reading if and
    only if [nextReliabilityDeadline] reports a deadline that has been reached. A
    timer that [reliabilityTimer] sets, with a duration that a [time.Duration] can
    hold, goes off neither early nor late; without a timer nothing becomes due. *)
Theorem deadline_exact (runID : string) (definition : WorkflowDefinition) (run : WorkflowRun) (now : Z) :
  definition_in_range definition -> reachable runID definition run ->
  (reliability_due run now <->
   (snd (nextReliabilityDeadline run) = true /\ fst (nextReliabilityDeadline run) <= nextTimestamp run now))
  /\ (forall started, started <= now -> run_updatedAt run <= now ->
        match reliabilityTimer run started with
        | Some d => 0 <= d /\ (d < max_int64 -> reliability_due run now <-> started + d <= now)
        | None => ~ reliability_due run now
        end).
Proof.
  intros Hr Hreach. pose proof (deadline_due _ _ _ now Hr Hreach) as Hdue. split; [done|]. intros started Hs Hu.
  assert (nextTimestamp run now = now) as Hnow by (unfold nextTimestamp, time_before; destruct (Z.ltb_spec now (run_updatedAt run)); lia).
  rewrite Hnow in Hdue. unfold reliabilityTimer. destruct (nextReliabilityDeadline run) as [deadline [|]]; cbn [negb fst snd] in *;
    [|rewrite Hdue; naive_solver].
  unfold time_sub, min_int64, max_int64 in *. destruct (Z.ltb_spec (Z.max (-9223372036854775808) (Z.min 9223372036854775807 (deadline - started))) 0);
    (split; [lia|]); intros Hd; rewrite Hdue; split; try (intros [_ ?]); lia.
Qed.
End Properties.
