(* ===== verification/RunDurable.v ===== *)
(** * Snapshots of reachable runs

    A run that satisfies its invariant has a snapshot that validation accepts,
    and reconstruction from that snapshot gives the run back. *)
From S2P Require Import Prelude Workflow Heap Graph GraphBuild GraphOrder Errors Run Ids Snapshot SnapshotValid RunStep RunInv.

(** ** Maps as sorted slices *)

Lemma map_values_elem {A : Type} (m : gmap string A) (x : A) :
  x ∈ map_values m <-> exists k, m !! k = Some x.
Proof.
  unfold map_values. rewrite list_elem_of_fmap. split.
  - intros ([k y] & -> & Hin%elem_of_map_to_list). by exists k.
  - intros (k & Hk). exists (k, x). by rewrite elem_of_map_to_list.
Qed.

(** The key of a map as a field of its values. *)
Definition keyed_by {A : Type} (key : A -> string) (m : gmap string A) : Prop :=
  forall k x, m !! k = Some x -> key x = k.

Lemma map_values_keys {A : Type} (key : A -> string) (m : gmap string A) :
  keyed_by key m -> key <$> map_values m = fst <$> map_to_list m.
Proof.
  intros Hk. unfold map_values. rewrite <- list_fmap_compose. apply list_fmap_ext.
  intros i [k x] Hi. cbn. apply Hk, elem_of_map_to_list. by eapply list_elem_of_lookup_2.
Qed.

Lemma sorted_values_elem {A : Type} (key : A -> string) (m : gmap string A) (x : A) :
  x ∈ sort_by key (map_values m) <-> exists k, m !! k = Some x.
Proof. by rewrite sort_by_perm, map_values_elem. Qed.

Lemma sorted_values_nodup {A : Type} (key : A -> string) (m : gmap string A) :
  keyed_by key m -> NoDup (key <$> sort_by key (map_values m)).
Proof.
  intros Hk. rewrite sort_by_perm, map_values_keys by done. apply NoDup_fst_map_to_list.
Qed.

(** Filling a map from a slice with unique keys. *)
Lemma fold_insert_lookup {A B : Type} (key : A -> string) (f : A -> B) (l : list A) (k : string) :
  NoDup (key <$> l) ->
  foldl (fun (m : gmap string B) x => <[key x := f x]> m) ∅ l !! k =
  f <$> List.find (fun x => String.eqb (key x) k) l.
Proof.
  induction l as [|x l IH] using rev_ind; intros Hnd; [done|].
  rewrite fmap_app in Hnd. apply NoDup_app in Hnd as (Hnd & Hd & _).
  rewrite foldl_snoc, lookup_insert.
  assert (Hfind : List.find (fun y => String.eqb (key y) k) (l ++ [x]) =
    match List.find (fun y => String.eqb (key y) k) l with
    | Some y => Some y
    | None => if String.eqb (key x) k then Some x else None
    end).
  { clear. induction l as [|y l IH]; cbn; [done|]. by destruct (String.eqb (key y) k). }
  rewrite Hfind. case_decide as E.
  - subst k. destruct (List.find _ l) as [y|] eqn:Ey; [|by rewrite String.eqb_refl].
    apply List.find_some in Ey as [Hin%list_elem_of_In Heq%String.eqb_eq].
    exfalso. apply (Hd (key x)); [|by left]. rewrite <- Heq. by apply list_elem_of_fmap_2.
  - rewrite IH by done. destruct (List.find _ l); [done|].
    by rewrite (proj2 (String.eqb_neq _ _) E).
Qed.

Lemma find_sorted_values {A : Type} (key : A -> string) (m : gmap string A) (k : string) :
  keyed_by key m ->
  List.find (fun x => String.eqb (key x) k) (sort_by key (map_values m)) = m !! k.
Proof.
  intros Hk. destruct (List.find _ _) as [x|] eqn:E.
  - apply List.find_some in E as [Hin%list_elem_of_In Heq%String.eqb_eq].
    apply sorted_values_elem in Hin as [j Hj]. rewrite (Hk j x Hj) in Heq. by subst k.
  - destruct (m !! k) as [x|] eqn:Ek; [|done]. exfalso.
    assert (Hin : x ∈ sort_by key (map_values m)) by (apply sorted_values_elem; eauto).
    rewrite list_elem_of_In in Hin. apply (List.find_none _ _ E) in Hin.
    apply String.eqb_neq in Hin. by rewrite (Hk k x Ek) in Hin.
Qed.

(** Filling a map from its own sorted values gives the map back. *)
Lemma rebuild_map {A : Type} (key : A -> string) (f : A -> A) (m : gmap string A) :
  keyed_by key m -> (forall k x, m !! k = Some x -> f x = x) ->
  foldl (fun (acc : gmap string A) x => <[key x := f x]> acc) ∅ (sort_by key (map_values m)) = m.
Proof.
  intros Hk Hf. apply map_eq. intros k.
  rewrite fold_insert_lookup, find_sorted_values by (done || by apply sorted_values_nodup).
  destruct (m !! k) as [x|] eqn:E; [|done]. cbn. by rewrite (Hf k x E).
Qed.

(** ** Accepted snapshots *)

Lemma restore_task_inv `{Unicode} (s : WorkflowRunSnapshot) policy createdAt updatedAt (k : string) (t : TaskRun) :
  validIdentifier (snap_ID s) = true -> task_inv (snap_ID s) policy createdAt updatedAt k t -> restore_task s t = t.
Proof.
  intros Hid [Hv Hkey Hrun Hatt _ _ _]. unfold restore_task.
  assert (Hne : tr_TaskRunID t <> "").
  { rewrite Hrun. pose proof (tv_id _ _ _ Hv) as Htid. rewrite Hkey in Htid.
    by destruct (proj1 (validIdentifier_runes _) (TaskRunIDFor_valid _ _ Hid Htid)). }
  rewrite (proj2 (string_is_empty_false _) Hne).
  destruct (string_is_empty (tr_CurrentAttemptID t) && (0 <? tr_AttemptCount t)) eqn:E;
    [|by destruct t].
  apply andb_true_iff in E as [E1%string_is_empty_true E2%Z.ltb_lt].
  rewrite Hatt in E1 by lia. by apply AttemptIDFor_nonempty in E1.
Qed.

Section Durable.
Context `{Unicode} (run : WorkflowRun) (Hi : run_inv run).

Lemma run_tasks_keyed : keyed_by tr_TaskID (run_tasks run).
Proof. intros k t Hk. apply (ti_key _ _ _ _ _ _ (ri_tasks run Hi k t Hk)). Qed.

Lemma run_workers_keyed : keyed_by hb_WorkerID (run_workers run).
Proof. intros k w Hk. by destruct (ri_workers run Hi k w Hk) as [? _]. Qed.

Lemma sortedTasks_ids : tr_TaskID <$> sortedTasks run ≡ₚ taskIDs_of (run_definition run).
Proof.
  apply NoDup_Permutation; [apply sorted_values_nodup, run_tasks_keyed|apply sv_unique, (ri_definition run Hi)|].
  intros k. rewrite <- (ri_dom run Hi k), list_elem_of_fmap. unfold sortedTasks. split.
  - intros (t & -> & (j & Hj)%sorted_values_elem). rewrite (run_tasks_keyed j t Hj). by exists t.
  - intros [t Ht]. exists t. rewrite sorted_values_elem. split; [|by exists k].
    by rewrite (run_tasks_keyed k t Ht).
Qed.

Lemma run_lease_workers_nodup : NoDup (lease_workers (sortedTasks run)).
Proof.
  rewrite lease_workers_bind. apply NoDup_bind.
  - intros t1 t2 w H1 H2 Hw1 Hw2. apply sorted_values_elem in H1 as [k1 Hk1].
    apply sorted_values_elem in H2 as [k2 Hk2]. unfold lease_key in *.
    destruct (tr_Lease t1) as [l1|] eqn:E1; [|by apply elem_of_nil in Hw1].
    destruct (tr_Lease t2) as [l2|] eqn:E2; [|by apply elem_of_nil in Hw2].
    apply list_elem_of_singleton in Hw1, Hw2.
    pose proof (ri_lease_unique run Hi k1 k2 t1 t2 l1 l2 Hk1 Hk2 E1 E2) as Hu. subst w.
    specialize (Hu Hw2). subst k2. congruence.
  - intros t _. unfold lease_key. destruct (tr_Lease t); [apply NoDup_singleton|apply NoDup_nil_2].
  - eapply NoDup_fmap_1, sorted_values_nodup, run_tasks_keyed.
Qed.

(** What remains for a snapshot to be valid is the consistency of the run's
    status with its tasks. *)
Lemma snapshot_valid_inv :
  aggregate_valid (run_status run) (sortedTasks run) -> snapshot_valid (Snapshot run).
Proof.
  intros Hagg. pose proof (ri_created run Hi) as [Hc Hu].
  split; cbn [Snapshot snap_ID snap_WorkflowID snap_Status snap_CreatedAt snap_UpdatedAt snap_Tasks
              snap_Workers]; unfold zero_time; try done; try lia.
  - apply (ri_id run Hi).
  - apply (sv_id _ (ri_definition run Hi)).
  - intros Hnil. pose proof sortedTasks_ids as Hp. rewrite Hnil in Hp. cbn in Hp.
    apply Permutation_nil_l in Hp. apply (sv_nonempty _ (ri_definition run Hi)).
    by apply (fmap_nil_inv td_ID).
  - apply Forall_forall. intros t [k Hk]%sorted_values_elem. apply (ri_tasks run Hi k t Hk).
  - apply sorted_values_nodup, run_tasks_keyed.
  - apply run_lease_workers_nodup.
  - apply Forall_forall. intros w [k Hk]%sorted_values_elem. by apply (ri_workers run Hi k w Hk).
  - apply sorted_values_nodup, run_workers_keyed.
  - intros w. unfold lease_workers. rewrite list_elem_of_omap.
    intros (t & [k Hk]%sorted_values_elem & Hl). destruct (tr_Lease t) as [lease|] eqn:E; [|done].
    simplify_eq/=. destruct (ri_lease_worker run Hi k t lease Hk E) as [hb Hhb].
    apply list_elem_of_fmap. exists hb. unfold sortedWorkers. rewrite sorted_values_elem.
    split; [|by eexists]. by rewrite (run_workers_keyed _ hb Hhb).
Qed.

Lemma restore_task_id (k : string) (t : TaskRun) :
  run_tasks run !! k = Some t -> restore_task (Snapshot run) t = t.
Proof. intros Hk. eapply restore_task_inv; [exact (ri_id run Hi)|exact (ri_tasks run Hi k t Hk)]. Qed.

Lemma restore_snapshot :
  aggregate_valid (run_status run) (sortedTasks run) ->
  restoreWorkflowRun (Snapshot run) (run_definition run) = Ok run.
Proof.
  intros Hagg. unfold restoreWorkflowRun.
  rewrite (proj2 (validateSnapshot_ok _) (snapshot_valid_inv Hagg)). cbn [rbind].
  rewrite (proj2 (Validate_ok_iff _) (conj (ri_definition run Hi) (ri_acyclic run Hi))).
  cbn [rmap_err rbind]. cbn [snap_WorkflowID Snapshot]. rewrite String.eqb_refl. cbn [negb guard_err].
  assert (Hlen : length (snap_Tasks (Snapshot run)) = length (wd_Tasks (run_definition run))).
  { pose proof (Permutation_length sortedTasks_ids) as Hl. unfold taskIDs_of in Hl.
    by rewrite !length_fmap in Hl. }
  rewrite Hlen, Nat.eqb_refl. cbn [negb guard_err snap_Tasks snap_Workers Snapshot].
  unfold sortedTasks, sortedWorkers.
  rewrite (rebuild_map tr_TaskID (restore_task (Snapshot run))) by (apply run_tasks_keyed || apply restore_task_id).
  rewrite (rebuild_map hb_WorkerID (fun w => w)) by (apply run_workers_keyed || done).
  destruct (List.find _ _) as [task|] eqn:E.
  - apply List.find_some in E as [Hin%list_elem_of_In Hn%bool_decide_eq_true].
    assert (Hsome : is_Some (run_tasks run !! td_ID task)).
    { apply (ri_dom run Hi). by apply list_elem_of_fmap_2. }
    rewrite Hn in Hsome. by destruct Hsome.
  - cbn. rewrite (ri_cloned run Hi). by destruct run.
Qed.
End Durable.

(** ** Snapshots that reconstruction leaves alone *)

(** The tasks and workers of a run are filed under their own identities, and have
    the derived identities that reconstruction would fill in. *)
Record shaped `{Unicode} (r : WorkflowRun) : Prop := {
  sh_tasks : keyed_by tr_TaskID (run_tasks r);
  sh_workers : keyed_by hb_WorkerID (run_workers r);
  sh_restored : forall k t, run_tasks r !! k = Some t -> restore_task (Snapshot r) t = t
}.

Lemma inv_shaped `{Unicode} (r : WorkflowRun) : run_inv r -> shaped r.
Proof. intros Hi. split; [by apply run_tasks_keyed|by apply run_workers_keyed|by apply restore_task_id]. Qed.

(** [r] is the run [r0] in a later state: the identity, the definition, the creation
    time and the set of tasks are those of [r0]. *)
Record same_run `{Unicode} (r0 r : WorkflowRun) : Prop := {
  sr_id : run_id r = run_id r0;
  sr_definition : run_definition r = run_definition r0;
  sr_created : run_createdAt r = run_createdAt r0;
  sr_dom : forall k, is_Some (run_tasks r !! k) <-> is_Some (run_tasks r0 !! k);
  sr_keyed : keyed_by tr_TaskID (run_tasks r0);
  sr_shaped : shaped r
}.

Lemma same_run_refl `{Unicode} r : shaped r -> same_run r r.
Proof. intros Hr. split; try done. apply Hr. Qed.

Lemma same_run_trans `{Unicode} r1 r2 r3 : same_run r1 r2 -> same_run r2 r3 -> same_run r1 r3.
Proof. intros [? ? ? Hd1 ? ?] [? ? ? Hd2 ? ?]. split; try done; try congruence. intros k. by rewrite Hd2, Hd1. Qed.

(** Two states of one run that satisfy the invariant. *)
Lemma same_run_inv `{Unicode} r0 r :
  run_inv r0 -> run_inv r -> run_id r = run_id r0 -> run_definition r = run_definition r0 ->
  run_createdAt r = run_createdAt r0 -> same_run r0 r.
Proof.
  intros H0 H1 Hid Hdef Hcr. split; [done|done|done| |by apply run_tasks_keyed|by apply inv_shaped].
  intros k. by rewrite (ri_dom _ H1 k), (ri_dom _ H0 k), Hdef.
Qed.

(** A method call leads to a later state of the run, whatever it does to leases. *)
Lemma same_run_exec `{Unicode} r now op : run_inv r -> op_changes r op -> same_run r (exec r now op).
Proof.
  intros Hi Ha. pose proof (exec_frame r now op) as (Eid & Edef & Ecr & _ & Ew & _).
  assert (Hti : forall k t, run_tasks (exec r now op) !! k = Some t ->
    task_inv (run_id r) (retryPolicy r k) (run_createdAt r) (run_updatedAt (exec r now op)) k t).
  { intros k t Hk. by apply exec_task_inv. }
  split; [done|done|done| |by apply run_tasks_keyed|split].
  - intros k. pose proof (exec_tasks r now op k) as Hs. destruct (run_tasks r !! k) as [t|]; [|by rewrite Hs].
    destruct Hs as (t' & -> & _). split; by eexists.
  - intros k t Hk. apply (ti_key _ _ _ _ _ _ (Hti k t Hk)).
  - intros k w. destruct Ew as [-> |(v & _ & -> & _)]; [by apply run_workers_keyed|].
    rewrite lookup_insert. case_decide as E; [intros [= <-]; by subst|by apply run_workers_keyed].
  - intros k t Hk. eapply restore_task_inv; [cbn; rewrite Eid; apply Hi|]. cbn. rewrite Eid. by apply Hti.
Qed.

Lemma sorted_task_ids r k : keyed_by tr_TaskID (run_tasks r) ->
  k ∈ tr_TaskID <$> sortedTasks r <-> is_Some (run_tasks r !! k).
Proof.
  intros Hk. rewrite list_elem_of_fmap. unfold sortedTasks. split.
  - intros (t & -> & (j & Hj)%sorted_values_elem). rewrite (Hk j t Hj). by exists t.
  - intros [t Ht]. exists t. rewrite sorted_values_elem. split; [by rewrite (Hk k t Ht)|by exists k].
Qed.

Lemma restore_ok `{Unicode} (s : WorkflowRunSnapshot) (d : WorkflowDefinition) (run : WorkflowRun) :
  restoreWorkflowRun s d = Ok run ->
  validateSnapshot s = Ok tt /\ Validate d = Ok tt /\ snap_WorkflowID s = wd_ID d /\
  run_definition run = cloneDefinition d /\ run_id run = snap_ID s /\ run_version run = snap_Version s /\
  run_status run = snap_Status s /\ run_createdAt run = snap_CreatedAt s /\ run_updatedAt run = snap_UpdatedAt s /\
  run_tasks run = foldl (fun m t => <[tr_TaskID t := restore_task s t]> m) ∅ (snap_Tasks s) /\
  run_workers run = foldl (fun m w => <[hb_WorkerID w := w]> m) ∅ (snap_Workers s) /\
  length (snap_Tasks s) = length (wd_Tasks d) /\
  (forall t, t ∈ wd_Tasks d -> is_Some (run_tasks run !! td_ID t)).
Proof.
  unfold restoreWorkflowRun. intros H1. apply rbind_ok in H1 as ([] & Hv & H1).
  apply rbind_ok in H1 as ([] & Hd%rmap_err_ok & H1). apply guard_err_ok in H1 as [Hw H1].
  apply guard_err_ok in H1 as [Hlen H1]. rewrite Bool.negb_false_iff in Hw, Hlen.
  apply String.eqb_eq in Hw. apply Nat.eqb_eq in Hlen.
  destruct (List.find _ _) as [task|] eqn:Ef; [done|]. injection H1 as <-. split_and!; try done.
  intros t Ht%list_elem_of_In. apply (List.find_none _ _ Ef) in Ht. by apply bool_decide_eq_false, not_eq_None_Some in Ht.
Qed.

Lemma restore_shaped `{Unicode} (r run : WorkflowRun) (d : WorkflowDefinition) :
  shaped r -> restoreWorkflowRun (Snapshot r) d = Ok run -> Snapshot run = Snapshot r.
Proof.
  intros [Ht Hw Hr] (_ & _ & Hwf & Hdef & Hid & Hver & Hst & Hcr & Hup & Htasks & Hworkers & _)%restore_ok.
  unfold Snapshot at 1. unfold sortedTasks, sortedWorkers. rewrite Hid, Hver, Hst, Hcr, Hup, Htasks, Hworkers, Hdef.
  cbn [snap_Tasks snap_Workers Snapshot snap_ID snap_Version snap_Status snap_CreatedAt snap_UpdatedAt].
  unfold sortedTasks at 1, sortedWorkers at 1. rewrite rebuild_map, (rebuild_map hb_WorkerID (fun w => w)) by done.
  cbn [cloneDefinition wd_ID]. rewrite <- Hwf. done.
Qed.

Section Durable_theorems.
Context `{Unicode}.

(** Every state of a running workflow that the aggregate's methods can
    reach is a snapshot that storage validation accepts. *)
Theorem running_snapshot_accepted (runID : string) (definition : WorkflowDefinition)
    (run : WorkflowRun) :
  definition_in_range definition -> reachable runID definition run ->
  run_status run = WorkflowRunRunning -> validateSnapshot (Snapshot run) = Ok tt.
Proof.
  intros Hr Hreach Hs. pose proof (reachable_inv _ _ _ Hr Hreach) as Hi.
  apply validateSnapshot_ok, snapshot_valid_inv; [done|]. by rewrite Hs.
Qed.

(** Reconstruction inverts [Snapshot]: a run whose status is consistent
    with its tasks is restored from its snapshot with every field unchanged. *)
Theorem restore_roundtrip (runID : string) (definition : WorkflowDefinition) (run : WorkflowRun) :
  definition_in_range definition -> reachable runID definition run ->
  aggregate_valid (run_status run) (sortedTasks run) ->
  restoreWorkflowRun (Snapshot run) (run_definition run) = Ok run.
Proof.
  intros Hr Hreach. pose proof (reachable_inv _ _ _ Hr Hreach) as Hi. by apply restore_snapshot.
Qed.

(** [legalTaskTransition] lets [transitionTask] move a retry-waiting task to
    ready, but that path keeps the retry deadline, and the resulting snapshot is
    rejected: only [promoteDueRetries] may promote a retry. *)
Theorem retry_wait_transition_rejected (runID : string) (definition : WorkflowDefinition)
    (run run' : WorkflowRun) (now : Z) (k : string) (t : TaskRun) :
  definition_in_range definition -> reachable runID definition run ->
  run_tasks run !! k = Some t -> tr_Status t = TaskRunRetryWaiting ->
  transitionTask run now k TaskRunReady "" None = Ok run' ->
  validateSnapshot (Snapshot run') <> Ok tt.
Proof.
  intros Hr Hreach Hk Hs Ht Hv. pose proof (reachable_inv _ _ _ Hr Hreach) as Hi.
  destruct (ri_tasks run Hi k t Hk) as [Htv _ _ _ _ _ _].
  destruct (tv_waiting _ _ _ Htv Hs) as [Hnext _].
  unfold transitionTask in Ht. rewrite Hk, Hs in Ht. cbn in Ht. simplify_eq/=.
  apply validateSnapshot_ok in Hv. pose proof (sn_tasks _ Hv) as Hts. rewrite Forall_forall in Hts.
  set (t' := transitioned _ _ _ _ _ _ _) in Hts.
  assert (Ht' : task_valid (run_id run) (run_createdAt run) t').
  { apply Hts. cbn. unfold sortedTasks. apply sorted_values_elem. exists k. cbn. by rewrite lookup_insert_eq. }
  pose proof (tv_not_waiting _ _ _ Ht') as Hz. cbn in Hz. by apply Hnext, Hz.
Qed.
End Durable_theorems.
