(* ===== verification/RunTermination.v ===== *)
(** * Runs come to an end

    A run can change the statuses of its tasks only finitely often: every change
    uses up part of a budget that the retry policies of the definition fix. *)
From S2P Require Import Prelude Workflow Heap Graph GraphBuild GraphOrder Errors Run Ids Snapshot SnapshotValid RunStep RunInv RunProps RunDurable.

(** How many changes of status are left to a task that has [remaining] attempts:
    an attempt takes a task from ready to running, to waiting, and back. *)
Definition status_weight (s : TaskRunStatus) (remaining : Z) : Z :=
  match s with
  | TaskRunPending | TaskRunRetryWaiting => 3 * remaining + 1
  | TaskRunReady => 3 * remaining
  | TaskRunRunning => 3 * remaining + 2
  | _ => 0
  end.

Definition task_weight (policy : RetryPolicy) (t : TaskRun) : Z :=
  status_weight (tr_Status t) (EffectiveMaxAttempts policy - tr_AttemptCount t).

Fixpoint sum_over {A : Type} (f : A -> Z) (l : list A) : Z :=
  match l with
  | [] => 0
  | x :: rest => f x + sum_over f rest
  end.

(** The budget of a run. *)
Definition run_weight (r : WorkflowRun) : Z :=
  sum_over (fun k => match run_tasks r !! k with Some t => task_weight (retryPolicy r k) t | None => 0 end)
    (taskIDs_of (run_definition r)).

(** What a definition grants. *)
Definition definition_budget (d : WorkflowDefinition) : Z :=
  sum_over (fun task => 3 * EffectiveMaxAttempts (td_Retry task) + 1) (wd_Tasks d).

Lemma sum_over_le {A : Type} (f g : A -> Z) l : (forall x, x ∈ l -> f x <= g x) -> sum_over f l <= sum_over g l.
Proof.
  induction l as [|x l IH]; intros Hle; cbn; [done|]. pose proof (Hle x (list_elem_of_here _ _)).
  assert (sum_over f l <= sum_over g l) by (apply IH; intros y Hy; apply Hle; by right). lia.
Qed.

Lemma sum_over_lt {A : Type} (f g : A -> Z) l x :
  (forall x, x ∈ l -> f x <= g x) -> x ∈ l -> f x < g x -> sum_over f l < sum_over g l.
Proof.
  intros Hle Hx Hlt. apply split_elem in Hx as (l1 & l2 & ->).
  assert (Happ : forall h : A -> Z, sum_over h (l1 ++ x :: l2) = sum_over h l1 + h x + sum_over h l2).
  { intros h. clear. induction l1 as [|y l1 IH]; cbn; [done|]. rewrite IH. lia. }
  rewrite !Happ. assert (sum_over f l1 <= sum_over g l1) by (apply sum_over_le; intros y Hy; apply Hle; set_solver).
  assert (sum_over f l2 <= sum_over g l2) by (apply sum_over_le; intros y Hy; apply Hle; set_solver). lia.
Qed.

(** ** What every method keeps *)

(** A task has made no more attempts than its policy grants, and one that may still
    start has one left. Unlike [run_inv], every call of a method keeps this, also
    one that the engine would not make or that leaves a run no store accepts. *)
Definition counts_ok (policy : RetryPolicy) (t : TaskRun) : Prop :=
  0 <= tr_AttemptCount t <= EffectiveMaxAttempts policy /\
  (tr_Status t = TaskRunPending \/ tr_Status t = TaskRunReady \/ tr_Status t = TaskRunRetryWaiting ->
   tr_AttemptCount t < EffectiveMaxAttempts policy).

Record budget_inv (r : WorkflowRun) : Prop := {
  bu_dom : forall k, is_Some (run_tasks r !! k) <-> k ∈ taskIDs_of (run_definition r);
  bu_policies : forall k, policy_ok (retryPolicy r k);
  bu_counts : forall k t, run_tasks r !! k = Some t -> counts_ok (retryPolicy r k) t
}.

Lemma run_inv_budget (r : WorkflowRun) : run_inv r -> budget_inv r.
Proof.
  intros Hi. split; [apply Hi|by intros k; apply run_policy_ok|]. intros k t Hk. pose proof (ri_tasks r Hi k t Hk) as Ht.
  pose proof (tv_count _ _ _ (ti_valid _ _ _ _ _ _ Ht)). split; [split; [done|apply Ht]|apply Ht].
Qed.

Section Weights.
Context `{Unicode}.

Lemma attempt_failed_weight policy retryable message ts t :
  tr_Status t = TaskRunRunning -> counts_ok policy t ->
  let t' := fst (attempt_failed policy retryable message ts t) in
  counts_ok policy t' /\ task_weight policy t' < task_weight policy t.
Proof.
  intros Hs [Hc Hm]. unfold task_weight at 2. rewrite Hs. unfold attempt_failed, counts_ok.
  destruct (retryable && _) eqn:E; [destruct (_ =? 0)|]; cbn; unfold task_weight; cbn;
    (split; [split; [lia|]|lia]); intros; try lia; naive_solver.
Qed.

(** A change of a task keeps its counts, stays within its budget and uses some of it
    when the status changes. *)
Definition within (policy : RetryPolicy) (t t' : TaskRun) : Prop :=
  counts_ok policy t' /\ task_weight policy t' <= task_weight policy t /\
  (tr_Status t' <> tr_Status t -> task_weight policy t' < task_weight policy t).

Lemma within_less policy t t' :
  counts_ok policy t' -> task_weight policy t' < task_weight policy t -> within policy t t'.
Proof. intros Hc Hw. split_and!; [done|lia|done]. Qed.

Lemma within_same policy t t' :
  counts_ok policy t -> tr_Status t' = tr_Status t -> tr_AttemptCount t' = tr_AttemptCount t -> within policy t t'.
Proof. intros Hc Hs Ha. unfold within, counts_ok, task_weight in *. rewrite Hs, Ha. split_and!; try apply Hc; [lia|done]. Qed.

Lemma started_within r k w d ts t :
  policy_ok (retryPolicy r k) -> counts_ok (retryPolicy r k) t -> tr_Status t = TaskRunReady ->
  within (retryPolicy r k) t (started r k w d ts t).
Proof.
  intros Hpol Hc Hs. assert (Hm : tr_AttemptCount t < EffectiveMaxAttempts (retryPolicy r k)) by (apply Hc; auto).
  destruct Hc as [Hb _]. apply within_less; unfold counts_ok, task_weight, started; cbn [tr_Status tr_AttemptCount];
    rewrite (wrap_count r k Hpol) by lia.
  - split; [lia|naive_solver].
  - rewrite Hs. cbn. lia.
Qed.

Lemma transition_within r k ts t target output err :
  policy_ok (retryPolicy r k) -> counts_ok (retryPolicy r k) t -> legalTaskTransition (tr_Status t) target = true ->
  within (retryPolicy r k) t (transitioned r k target output err ts t).
Proof.
  intros Hpol [Hc Hm] Hl. pose proof (wrap_count r k Hpol (tr_AttemptCount t)) as Hwrap.
  apply within_less; unfold counts_ok, task_weight, transitioned; cbn [tr_Status tr_AttemptCount];
    destruct (tr_Status t), target; try done; rewrite ?bool_decide_eq_true_2, ?bool_decide_eq_false_2 by done;
    cbn [status_weight];
    try (assert (tr_AttemptCount t < EffectiveMaxAttempts (retryPolicy r k)) by (apply Hm; auto); rewrite ?Hwrap by lia);
    try lia; split; try lia; naive_solver.
Qed.

Lemma change_within r ts k op t t' :
  policy_ok (retryPolicy r k) -> counts_ok (retryPolicy r k) t -> task_change r ts k op t t' ->
  within (retryPolicy r k) t t'.
Proof.
  intros Hpol Hok Hc. destruct Hc as [t target output err Hl|t t' cause Hc|t t' w d Hd Hc|t w d Hw Hd Hs|t trid w aid output Hl
    |t trid w aid output err Hl|t t' rec Hr|t t' Hp].
  - by apply transition_within.
  - unfold cancel_task in Hc. destruct (unfinished (tr_Status t)) eqn:Hu; simplify_eq/=. destruct Hok as [Hb Hm].
    apply within_less; unfold counts_ok, task_weight; cbn [status_weight tr_Status tr_AttemptCount]; [naive_solver|].
    destruct (tr_Status t); try done; cbn [status_weight];
      try (assert (tr_AttemptCount t < EffectiveMaxAttempts (retryPolicy r k)) by auto); lia.
  - unfold heartbeat_task in Hc. destruct (tr_Status t) eqn:Hs; try done. destruct (tr_Lease t); [|done].
    destruct (negb _); [done|]. destruct (negb _); [done|]. simplify_eq. by apply within_same.
  - by apply started_within.
  - apply holds_lease_running in Hl. destruct Hok as [Hb Hm]. apply within_less;
      unfold counts_ok, task_weight, attempt_succeeded; cbn [status_weight tr_Status tr_AttemptCount]; [naive_solver|].
    rewrite Hl. cbn. lia.
  - apply holds_lease_running in Hl. by apply within_less; apply attempt_failed_weight.
  - unfold recover_task in Hr. destruct (lease_lapsed ts t) eqn:Hl; [|done].
    assert (Hs : tr_Status t = TaskRunRunning) by (unfold lease_lapsed in Hl; by destruct (tr_Status t)).
    set (u := with_attempt_identity r k t) in *.
    assert (Hu : tr_Status u = tr_Status t /\ tr_AttemptCount u = tr_AttemptCount t)
      by (unfold u, with_attempt_identity; by destruct (_ && _)).
    destruct Hu as [Hu1 Hu2]. destruct (within_same (retryPolicy r k) t u Hok Hu1 Hu2) as (Hok' & Hle & _).
    pose proof (attempt_failed_weight (retryPolicy r k) true
      (error_string (LeaseExpiredError (run_id r) k (tr_CurrentAttemptID u))) ts u) as Hw.
    rewrite Hu1 in Hw. specialize (Hw Hs Hok'). destruct (attempt_failed _ _ _ _ _) as [u' o]. simplify_eq.
    apply within_less; cbn in Hw; [apply Hw|lia].
  - unfold promote_task in Hp. destruct (tr_Status t) eqn:Hs; try done. destruct (time_before _ _); [done|]. simplify_eq.
    destruct Hok as [Hb Hm]. apply within_less; unfold counts_ok, task_weight; cbn [status_weight tr_Status tr_AttemptCount].
    + split; [done|]. intros _. apply Hm. auto.
    + rewrite Hs. cbn. lia.
Qed.

(** ** Histories *)

(** A step changes the status of some task. *)
Definition status_changed (r r' : WorkflowRun) : Prop :=
  exists k t t', run_tasks r !! k = Some t /\ run_tasks r' !! k = Some t' /\ tr_Status t' <> tr_Status t.

(** A history of the run in which [n] steps change a status: any methods, with any
    arguments, at any times. *)
Inductive changes : WorkflowRun -> nat -> WorkflowRun -> Prop :=
| changes_none r : changes r 0 r
| changes_step r now op n r' : changes (exec r now op) n r' -> changes r n r'
| changes_status r now op n r' :
    status_changed r (exec r now op) -> changes (exec r now op) n r' -> changes r (S n) r'.

Lemma step_within r now op k t :
  budget_inv r -> run_tasks r !! k = Some t ->
  exists t', run_tasks (exec r now op) !! k = Some t' /\ within (retryPolicy r k) t t'.
Proof.
  intros Hi Ht. pose proof (exec_tasks r now op k) as Htasks. rewrite Ht in Htasks.
  pose proof (bu_counts r Hi k t Ht) as Hc. destruct Htasks as (t' & Ht' & Hs). exists t'. split; [done|].
  destruct Hs as [->|[Hch _]]; [by apply within_same|by eapply change_within; [apply Hi|..]].
Qed.

Lemma budget_inv_exec r now op : budget_inv r -> budget_inv (exec r now op).
Proof.
  intros Hi. destruct (exec_frame r now op) as (_ & Hdef & _). split.
  - intros k. rewrite Hdef, <- (bu_dom r Hi k). pose proof (exec_tasks r now op k) as Hs.
    destruct (run_tasks r !! k); [|by rewrite Hs]. destruct Hs as (t' & -> & _). split; by eexists.
  - intros k. rewrite retryPolicy_exec. apply Hi.
  - intros k t' Hk. rewrite retryPolicy_exec. pose proof (exec_tasks r now op k) as Hs.
    destruct (run_tasks r !! k) as [t|] eqn:Ht; [|congruence].
    destruct (step_within r now op k t Hi Ht) as (t2 & Ht2 & Hw). rewrite Hk in Ht2. simplify_eq. apply Hw.
Qed.

Lemma step_weight r now op :
  budget_inv r ->
  run_weight (exec r now op) <= run_weight r /\
  (status_changed r (exec r now op) -> run_weight (exec r now op) < run_weight r).
Proof.
  intros Hi. pose proof (exec_tasks r now op) as Htasks. destruct (exec_frame r now op) as (_ & Hdef & _).
  assert (Hle : forall k,
    match run_tasks (exec r now op) !! k with Some t => task_weight (retryPolicy (exec r now op) k) t | None => 0 end <=
    match run_tasks r !! k with Some t => task_weight (retryPolicy r k) t | None => 0 end).
  { intros k. rewrite retryPolicy_exec. specialize (Htasks k). destruct (run_tasks r !! k) as [t|] eqn:Ht; [|by rewrite Htasks].
    destruct (step_within r now op k t Hi Ht) as (t' & -> & Hw). apply Hw. }
  unfold run_weight. rewrite Hdef. split; [by apply sum_over_le|]. intros (k & t & t' & Ht & Ht' & Hs).
  apply (sum_over_lt _ _ _ k); [done|apply (bu_dom r Hi); by exists t|]. rewrite Ht, Ht', retryPolicy_exec.
  destruct (step_within r now op k t Hi Ht) as (t2 & Ht2 & Hw). rewrite Ht' in Ht2. simplify_eq. by apply Hw.
Qed.

Lemma run_weight_nonneg r : budget_inv r -> 0 <= run_weight r.
Proof.
  intros Hi. unfold run_weight. set (f := fun k => _). assert (Hf : forall k, 0 <= f k).
  { intros k. unfold f. destruct (run_tasks r !! k) as [t|] eqn:Ht; [|done].
    destruct (bu_counts r Hi k t Ht). unfold task_weight, status_weight. destruct (tr_Status t); lia. }
  clearbody f. induction (taskIDs_of _) as [|k l IH]; cbn; [done|]. specialize (Hf k). lia.
Qed.

Lemma changes_bound r n r' : changes r n r' -> budget_inv r -> Z.of_nat n <= run_weight r.
Proof.
  induction 1 as [r|r now op n r' _ IH|r now op n r' Hs _ IH]; intros Hi; [by apply run_weight_nonneg|..];
    destruct (step_weight r now op Hi) as [Hle Hlt]; specialize (IH (budget_inv_exec _ _ _ Hi)); [lia|].
  specialize (Hlt Hs). lia.
Qed.

(** What the definition grants is the budget of the new run. *)
Lemma find_task (tasks : list TaskDefinition) task :
  NoDup (td_ID <$> tasks) -> task ∈ tasks -> List.find (fun x => String.eqb (td_ID x) (td_ID task)) tasks = Some task.
Proof.
  induction tasks as [|x tasks IH]; intros Hnd Hin; [by apply elem_of_nil in Hin|]. cbn in *.
  apply NoDup_cons in Hnd as [Hx Hnd]. apply elem_of_cons in Hin as [->|Hin]; [by rewrite String.eqb_refl|].
  destruct (String.eqb_spec (td_ID x) (td_ID task)) as [Heq|]; [|by apply IH].
  destruct Hx. rewrite Heq. by apply list_elem_of_fmap_2.
Qed.

Lemma new_run_weight runID d now r :
  newWorkflowRun runID d now = Ok r -> definition_in_range d -> 0 < now -> run_weight r <= definition_budget d.
Proof.
  intros Hn Hd Hnow. pose proof (newWorkflowRun_inv _ _ _ _ Hn Hd Hnow) as Hi.
  pose proof (sv_unique _ (ri_definition r Hi)) as Hnd. apply newWorkflowRun_ok in Hn as (_ & _ & ->).
  cbn [run_definition] in Hnd. unfold run_weight, definition_budget. cbn [run_definition run_tasks].
  assert (Hmap : forall (f : string -> Z) tasks, sum_over f (td_ID <$> tasks) = sum_over (fun t => f (td_ID t)) tasks).
  { intros f tasks. induction tasks as [|x l IH]; cbn; [done|]. by rewrite <- IH. }
  assert (Hclone : forall (f : TaskDefinition -> Z) tasks, sum_over f (cloneTask <$> tasks) = sum_over (fun t => f (cloneTask t)) tasks).
  { intros f tasks. induction tasks as [|x l IH]; cbn; [done|]. by rewrite <- IH. }
  unfold taskIDs_of. rewrite Hmap. etrans; [apply Z.eq_le_incl, (Hclone _ (wd_Tasks d))|]. cbn beta.
  apply sum_over_le. intros task Hin. rewrite new_tasks_lookup. case_decide as Hk.
  - unfold task_weight, retryPolicy. cbn [run_definition].
    rewrite (find_task (wd_Tasks (cloneDefinition d)) (cloneTask task) Hnd) by (by apply list_elem_of_fmap_2). cbn. lia.
  - destruct Hk. by apply (list_elem_of_fmap_2 td_ID (cloneTask <$> wd_Tasks d) (cloneTask task)), list_elem_of_fmap_2.
Qed.

(** C21: every history of a run comes to rest. The calls that change the status of a
    task, in any sequence of method calls with any arguments and any clock, are no more
    than three per attempt the retry policies grant and one more per task; after that
    the run can only be saved, send heartbeats and change its own status. *)
Theorem run_comes_to_rest runID d now r0 n r :
  newWorkflowRun runID d now = Ok r0 -> definition_in_range d -> 0 < now -> changes r0 n r ->
  Z.of_nat n <= definition_budget d.
Proof.
  intros Hn Hd Hnow Hc. pose proof (new_run_weight _ _ _ _ Hn Hd Hnow).
  pose proof (changes_bound _ _ _ Hc (run_inv_budget _ (newWorkflowRun_inv _ _ _ _ Hn Hd Hnow))). lia.
Qed.
End Weights.
