(* ===== verification/RunExamples.v ===== *)
(** * Concrete runs

    A two-task workflow driven through the aggregate's methods: the instances
    at which the guarantees of [RunProps] and [RunDurable] are applied. A script
    is a list of method calls whose preconditions are checked by evaluation. *)
From S2P Require Import Prelude Workflow Heap Graph GraphBuild GraphOrder Errors Run Ids Snapshot SnapshotValid RunStep RunInv RunProps RunDurable RunTermination.

(** ** Scripts *)

Definition worker_free_b (run : WorkflowRun) (workerID : string) : bool :=
  forallb (fun t => match tr_Lease t with
                    | Some lease => negb (String.eqb (lease_WorkerID lease) workerID)
                    | None => true
                    end) (map_values (run_tasks run)).

Definition op_allowed_b (run : WorkflowRun) (op : run_op) : bool :=
  match op with
  | OpStart _ workerID _ => worker_free_b run workerID
  | OpTask taskID target _ _ =>
      match run_tasks run !! taskID with
      | Some t => negb (bool_decide (tr_Status t = TaskRunRetryWaiting /\ target = TaskRunReady))
      | None => true
      end
  | _ => true
  end.

Lemma op_allowed_b_sound (run : WorkflowRun) (op : run_op) :
  op_allowed_b run op = true -> op_allowed run op.
Proof.
  destruct op as [k target output err| | | |k w d| | | |]; cbn; try done.
  - intros Hb t Hk. rewrite Hk in Hb. by apply negb_true_iff, bool_decide_eq_false in Hb.
  - unfold worker_free_b. rewrite forallb_forall. intros Hb j t lease Hj Hl Hw.
    specialize (Hb t). rewrite <- list_elem_of_In, map_values_elem in Hb.
    ospecialize (Hb _); [by exists j|]. rewrite Hl in Hb.
    by apply negb_true_iff, String.eqb_neq in Hb.
Defined.

Section Scripts.
Context `{Unicode}.

Fixpoint script_ok (run : WorkflowRun) (ops : list (Z * run_op)) : bool :=
  match ops with
  | [] => true
  | (now, op) :: rest => op_allowed_b run op && script_ok (exec run now op) rest
  end.

Lemma script_steps (run : WorkflowRun) (ops : list (Z * run_op)) :
  script_ok run ops = true -> rtc run_step run (exec_all run ops).
Proof.
  revert run. induction ops as [|[now op] ops IH]; intros run; cbn; [done|].
  intros [Ha Hs]%andb_true_iff. eapply rtc_l; [|by apply IH].
  exists now, op. split; [by apply op_allowed_b_sound|done].
Defined.
End Scripts.

(** ** The instance *)

(** ASCII identifiers only: no rune above U+007F occurs. *)
Definition ascii_unicode : Unicode := fun _ => false.
#[local] Existing Instance ascii_unicode.

Definition demo : WorkflowDefinition :=
  mkWorkflowDefinition "demo"
    [mkTaskDefinition "a" "first" None "h" "" (mkRetryPolicy 3 10 100);
     mkTaskDefinition "b" "second" (Some ["a"]) "h" "" (mkRetryPolicy 1 0 0)].

Definition demo_new : WorkflowRun :=
  match newWorkflowRun "r1" demo 1000 with
  | Ok run => run
  | Err _ => mkWorkflowRun "" demo 0 WorkflowRunPending ∅ ∅ 0 0
  end.

Lemma demo_in_range : definition_in_range demo.
Proof.
  unfold definition_in_range, policy_in_range, in_int64, min_int64, max_int64.
  repeat constructor; cbn; lia.
Defined.

Lemma demo_new_inv : run_inv demo_new.
Proof. apply (newWorkflowRun_inv "r1" demo 1000); [reflexivity|apply demo_in_range|lia]. Qed.

Lemma demo_reachable (ops : list (Z * run_op)) :
  script_ok demo_new ops = true -> reachable "r1" demo (exec_all demo_new ops).
Proof.
  intros Hs. exists 1000, demo_new. split; [lia|]. split; [reflexivity|]. by apply script_steps.
Defined.

(** Task [a] leased to worker [w1] until 1052. *)
Definition lease_a : list (Z * run_op) :=
  [(1001, OpWorkflow WorkflowRunRunning); (1001, OpTask "a" TaskRunReady "" None);
   (1002, OpStart "a" "w1" 50)].
Definition run_leased : WorkflowRun := exec_all demo_new lease_a.
Definition attempt_a1 : string := "2:r1:a:attempt:1".

(** The attempt fails with a retryable error: the retry is due at 1020. *)
Definition fail_a : list (Z * run_op) :=
  lease_a ++ [(1010, OpComplete "a" "2:r1:a" "w1" attempt_a1 "" (Retryable (Some (ErrText "busy"))))].
Definition run_waiting : WorkflowRun := exec_all demo_new fail_a.

(** The retry is promoted, leased to another worker and succeeds. *)
Definition finish_a : list (Z * run_op) :=
  [(1020, OpPromote); (1021, OpStart "a" "w2" 50);
   (1030, OpComplete "a" "2:r1:a" "w2" "2:r1:a:attempt:2" "done" None)].
Definition run_finished : WorkflowRun := exec_all run_waiting finish_a.

(** ** Witnesses *)

Definition task_of (run : WorkflowRun) (k : string) : TaskRun :=
  default (newTaskRun "" "" 0) (run_tasks run !! k).

Lemma terminal_task_frozen_witness :
  run_tasks (exec_all run_finished [(2000, OpCancel (Some ErrContextCanceled)); (1, OpRecover)]) !! "a"
  = Some (task_of run_finished "a") /\ tr_Output (task_of run_finished "a") = "done".
Proof.
  split; [|vm_compute; reflexivity].
  apply terminal_task_frozen; vm_compute; reflexivity.
Defined.

Lemma reachable_well_formed_witness :
  tr_AttemptCount (task_of run_leased "a") = 1 /\
  1 <= EffectiveMaxAttempts (retryPolicy run_leased "a") /\ is_Some (run_workers run_leased !! "w1").
Proof.
  split; [vm_compute; reflexivity|].
  destruct (reachable_well_formed "r1" demo run_leased) as [_ Ht].
  - apply demo_in_range.
  - apply demo_reachable. vm_compute. reflexivity.
  - destruct (Ht "a" (task_of run_leased "a")) as (_ & _ & _ & Hb & _ & _ & _ & _ & Hl); [vm_compute; reflexivity|].
    split; [apply Hb|]. refine (proj2 (proj2 (Hl (mkTaskLease "w1" _ _ _) _))). vm_compute. reflexivity.
Defined.

Lemma timestamps_monotone_witness :
  run_createdAt run_finished = run_createdAt run_waiting /\
  run_updatedAt run_waiting <= run_updatedAt run_finished /\
  forall k t, run_tasks run_finished !! k = Some t ->
    run_createdAt run_finished <= tr_UpdatedAt t <= run_updatedAt run_finished.
Proof.
  apply (timestamps_monotone "r1" demo run_waiting run_finished).
  - apply demo_in_range.
  - apply demo_reachable. vm_compute. reflexivity.
  - apply (script_steps run_waiting finish_a). vm_compute. reflexivity.
Defined.

(** The report of the first attempt arrives again after the retry succeeded. *)
Lemma completion_at_most_once_witness :
  completeTaskAttempt run_finished 1040 "a" "2:r1:a" "w1" attempt_a1 "late" None
  = Ok (run_finished, CompletionIgnored).
Proof.
  apply (completion_at_most_once "r1" demo run_leased run_waiting run_finished 1010 1040 "a" "2:r1:a" "w1"
           attempt_a1 "" "2:r1:a" "w1" "late" (Retryable (Some (ErrText "busy"))) None
           CompletionRetryScheduled).
  - apply demo_in_range.
  - apply demo_reachable. vm_compute. reflexivity.
  - vm_compute. reflexivity.
  - discriminate.
  - apply (script_steps run_waiting finish_a). vm_compute. reflexivity.
Defined.

(** The lease of [w1] expires at 1052 and the worker reports afterwards. *)
Lemma recovered_attempt_fenced_witness :
  let run' := exec_all (fst (recoverExpiredLeases run_leased 1052)) [(1063, OpPromote)] in
  completeTaskAttempt run' 1064 "a" "2:r1:a" "w1" attempt_a1 "late" None = Ok (run', CompletionIgnored).
Proof.
  apply (recovered_attempt_fenced "r1" demo run_leased
           (exec_all (fst (recoverExpiredLeases run_leased 1052)) [(1063, OpPromote)]) 1052 1064
           (mkLeaseRecovery "a" attempt_a1 "w1" CompletionRetryScheduled) "2:r1:a" "w1" "late" None).
  - apply demo_in_range.
  - apply demo_reachable. vm_compute. reflexivity.
  - vm_compute. left.
  - apply script_steps. vm_compute. reflexivity.
Defined.

Lemma deadline_exact_witness :
  (reliability_due run_waiting 1020 <->
   (snd (nextReliabilityDeadline run_waiting) = true /\
    fst (nextReliabilityDeadline run_waiting) <= nextTimestamp run_waiting 1020))
  /\ is_Some (reliabilityTimer run_waiting 1015) /\ reliability_due run_waiting 1020.
Proof.
  destruct (deadline_exact "r1" demo run_waiting 1020) as [Hdue Htimer].
  - apply demo_in_range.
  - apply demo_reachable. vm_compute. reflexivity.
  - split; [exact Hdue|]. destruct (reliabilityTimer run_waiting 1015) as [d|] eqn:E; [|vm_compute in E; discriminate].
    split; [eexists; reflexivity|]. pose proof (Htimer 1015) as Ht. rewrite E in Ht.
    vm_compute in E. injection E as <-. apply Ht; vm_compute; (reflexivity || discriminate).
Defined.

Lemma running_snapshot_accepted_witness : validateSnapshot (Snapshot run_waiting) = Ok tt.
Proof.
  apply (running_snapshot_accepted "r1" demo run_waiting).
  - apply demo_in_range.
  - apply demo_reachable. vm_compute. reflexivity.
  - vm_compute. reflexivity.
Defined.

Lemma restore_roundtrip_witness :
  restoreWorkflowRun (Snapshot run_leased) (run_definition run_leased) = Ok run_leased.
Proof.
  apply (restore_roundtrip "r1" demo run_leased).
  - apply demo_in_range.
  - apply demo_reachable. vm_compute. reflexivity.
  - exact I.
Defined.

Lemma retry_wait_transition_rejected_witness :
  match transitionTask run_waiting 1020 "a" TaskRunReady "" None with
  | Ok run' => validateSnapshot (Snapshot run') <> Ok tt
  | Err _ => False
  end.
Proof.
  destruct (transitionTask run_waiting 1020 "a" TaskRunReady "" None) as [run'|e] eqn:E.
  - apply (retry_wait_transition_rejected "r1" demo run_waiting run' 1020 "a" (task_of run_waiting "a")).
    + apply demo_in_range.
    + apply demo_reachable. vm_compute. reflexivity.
    + vm_compute. reflexivity.
    + vm_compute. reflexivity.
    + exact E.
  - vm_compute in E. discriminate E.
Defined.

Lemma script_step (run : WorkflowRun) (now : Z) (op : run_op) :
  op_allowed_b run op = true -> run_step run (exec run now op).
Proof. intros Ha. exists now, op. split; [by apply op_allowed_b_sound|done]. Defined.

(** Whether the status of the task [k] differs. *)
Definition differs_at (k : string) (r r' : WorkflowRun) : bool :=
  match run_tasks r !! k, run_tasks r' !! k with
  | Some t, Some t' => bool_decide (tr_Status t' <> tr_Status t)
  | _, _ => false
  end.

Lemma differs_at_sound (k : string) (r r' : WorkflowRun) : differs_at k r r' = true -> status_changed r r'.
Proof.
  unfold differs_at. destruct (run_tasks r !! k) as [t|] eqn:E, (run_tasks r' !! k) as [t'|] eqn:E'; try done.
  intros Hd%bool_decide_eq_true. by exists k, t, t'.
Defined.

(** Task [a] becomes ready and starts: two changes of the fourteen that the retry
    policies of the two tasks allow. *)
Lemma run_comes_to_rest_witness : 2 <= definition_budget demo /\ definition_budget demo = 14.
Proof.
  split; [|vm_compute; reflexivity].
  apply (run_comes_to_rest "r1" demo 1000 demo_new 2 run_leased).
  - reflexivity.
  - apply demo_in_range.
  - lia.
  - apply (changes_step _ 1001 (OpWorkflow WorkflowRunRunning)).
    apply (changes_status _ 1001 (OpTask "a" TaskRunReady "" None)); [apply (differs_at_sound "a"); vm_compute; reflexivity|].
    apply (changes_status _ 1002 (OpStart "a" "w1" 50)); [apply (differs_at_sound "a"); vm_compute; reflexivity|].
    apply changes_none.
Defined.
