(* ===== verification/Broker.v ===== *)
(** * The task broker

    Models [src/internal/broker/broker.go] and the in-memory broker of
    [src/internal/broker/memory.go]: messages, durable subscriptions with their
    queue, in-flight deliveries and acknowledgements. The broker's mutex makes
    every critical section one function on the state. [Receive] blocks on the
    subscription's [notify] channel when the queue is empty; here one pass of its
    loop either delivers or reports that it blocks. *)
From S2P Require Import Prelude Workflow Errors.

(** ** Contexts *)

Definition contextError (ctx : context) : option go_error :=
  match ctx with
  | CtxNil => Some (ErrText "task broker context is nil")
  | CtxLive => None
  | CtxDone err => Some err
  end.

(** ** Messages *)

Record TaskMessage := mkTaskMessage {
  msg_ID : string;
  msg_Topic : string;
  msg_Body : string;
  msg_Headers : gmap string string
}.

Record Subscription := mkSubscription {
  sub_ConsumerID : string;
  sub_Topic : string
}.

#[export] Instance TaskMessage_eq_dec : EqDecision TaskMessage.
Proof. solve_decision. Defined.

Definition lower_byte (c : Ascii.ascii) : Ascii.ascii :=
  if in_range 65 90 (byte_val c) then Ascii.ascii_of_N (Z.to_N (byte_val c + 32)) else c.

(** [strings.ToLower] on the ASCII letters. A name with any other byte fails the
    loop of [validHeaderName] whatever its lower-case form is. *)
Fixpoint to_lower (s : string) : string :=
  match s with
  | EmptyString => EmptyString
  | String c rest => String (lower_byte c) (to_lower rest)
  end.

(** The bytes of [!#$%&'*+-.^_`|~]. *)
Definition header_punctuation : list Z := [33; 35; 36; 37; 38; 39; 42; 43; 45; 46; 94; 95; 96; 124; 126].

Definition header_byte (b : Z) : bool :=
  in_range 97 122 b || in_range 48 57 b || existsb (Z.eqb b) header_punctuation.

Definition validHeaderName (name : string) : bool :=
  if string_is_empty name || negb (String.eqb name (to_lower name)) then false
  else forallb header_byte (bytes_of name).

Definition has_line_break (value : string) : bool :=
  existsb (fun b => (b =? 13) || (b =? 10)) (bytes_of value).

Definition header_error (name value : string) : option go_error :=
  if negb (validHeaderName name) then Some (BrokerValidationError "header name" name "")
  else if has_line_break value
       then Some (BrokerValidationError "header value" "" "must not contain a line break")
       else None.

(** [TaskMessage.Validate]; with several bad headers Go may report any of them. *)
Definition validateMessage (message : TaskMessage) : res go_error unit :=
  fail_if negb (validIdentifier (msg_ID message))
    with BrokerValidationError "message ID" (msg_ID message) "" ;;
  fail_if negb (validIdentifier (msg_Topic message))
    with BrokerValidationError "topic" (msg_Topic message) "" ;;
  fail_if string_is_empty (msg_Body message) with BrokerValidationError "body" "" "must not be empty" ;;
  match omap (fun '(name, value) => header_error name value) (map_to_list (msg_Headers message)) with
  | err :: _ => Err err
  | [] => Ok tt
  end.

Definition validateSubscription (subscription : Subscription) : res go_error unit :=
  fail_if negb (validIdentifier (sub_ConsumerID subscription))
    with BrokerValidationError "consumer ID" (sub_ConsumerID subscription) "" ;;
  fail_if negb (validIdentifier (sub_Topic subscription))
    with BrokerValidationError "topic" (sub_Topic subscription) "" ;;
  Ok tt.

(** ** The in-memory broker *)

(** [ms_notify] tells whether the one-place channel holds a token. *)
Record memorySubscription := mkMemorySubscription {
  ms_queued : list string;
  ms_queuedSet : gset string;
  ms_inFlight : gmap string Z;
  ms_acked : gset string;
  ms_deliveryCount : gmap string Z;
  ms_notify : bool
}.

(** Subscriptions are keyed by consumer ID and topic. *)
Record InMemoryBroker := mkBroker {
  mb_closed : bool;
  mb_messages : gmap string TaskMessage;
  mb_topics : gmap string (list string);
  mb_subscriptions : gmap (string * string) memorySubscription
}.

Definition NewInMemoryBroker : InMemoryBroker := mkBroker false ∅ ∅ ∅.

(** A send on the full channel is dropped. *)
Definition signalMemorySubscription (s : memorySubscription) : memorySubscription :=
  mkMemorySubscription (ms_queued s) (ms_queuedSet s) (ms_inFlight s) (ms_acked s)
    (ms_deliveryCount s) true.

Definition enqueueMemoryMessage (s : memorySubscription) (messageID : string) : memorySubscription :=
  if bool_decide (messageID ∈ ms_acked s) then s
  else if bool_decide (messageID ∈ ms_queuedSet s) then s
  else if bool_decide (is_Some (ms_inFlight s !! messageID)) then s
  else signalMemorySubscription
         (mkMemorySubscription (ms_queued s ++ [messageID]) ({[messageID]} ∪ ms_queuedSet s)
            (ms_inFlight s) (ms_acked s) (ms_deliveryCount s) (ms_notify s)).

Definition with_subscriptions (b : InMemoryBroker)
    (subscriptions : gmap (string * string) memorySubscription) : InMemoryBroker :=
  mkBroker (mb_closed b) (mb_messages b) (mb_topics b) subscriptions.

(** [subscriptionLocked]: a new subscription starts with the topic's history. *)
Definition subscriptionLocked (b : InMemoryBroker) (key : string * string)
  : InMemoryBroker * memorySubscription :=
  match mb_subscriptions b !! key with
  | Some s => (b, s)
  | None =>
      let s := foldl enqueueMemoryMessage (mkMemorySubscription [] ∅ ∅ ∅ ∅ false)
                     (default [] (mb_topics b !! key.2)) in
      (with_subscriptions b (<[key := s]> (mb_subscriptions b)), s)
  end.

Definition Publish (b : InMemoryBroker) (ctx : context) (message : TaskMessage)
  : res go_error InMemoryBroker :=
  match contextError ctx with
  | Some err => Err err
  | None =>
      try _ <- validateMessage message ;;
      fail_if mb_closed b with ErrBrokerClosed ;;
      match mb_messages b !! msg_ID message with
      | Some existing =>
          if String.eqb (msg_Topic existing) (msg_Topic message)
             && String.eqb (msg_Body existing) (msg_Body message)
          then Ok b
          else Err (MessageConflictError (msg_ID message))
      | None =>
          let topics := <[msg_Topic message :=
            default [] (mb_topics b !! msg_Topic message) ++ [msg_ID message]]> (mb_topics b) in
          let subscriptions := map_imap (fun key s =>
            Some (if String.eqb key.2 (msg_Topic message) then enqueueMemoryMessage s (msg_ID message) else s))
            (mb_subscriptions b) in
          Ok (mkBroker (mb_closed b) (<[msg_ID message := message]> (mb_messages b)) topics subscriptions)
      end
  end.

Record memoryDelivery := mkDelivery {
  md_key : string * string;
  md_message : TaskMessage;
  md_count : Z
}.

Inductive receive_result :=
| Delivered (delivery : memoryDelivery)
| Blocks.

(** One pass of the loop of [Receive], up to the wait on [notify]. *)
Definition Receive (b : InMemoryBroker) (ctx : context) (subscription : Subscription)
  : res go_error (InMemoryBroker * receive_result) :=
  match contextError ctx with
  | Some err => Err err
  | None =>
      try _ <- validateSubscription subscription ;;
      let key := (sub_ConsumerID subscription, sub_Topic subscription) in
      fail_if mb_closed b with ErrBrokerClosed ;;
      let '(b, state) := subscriptionLocked b key in
      match ms_queued state with
      | [] => Ok (b, Blocks)
      | messageID :: rest =>
          let count := wrap_uint64 (default 0 (ms_deliveryCount state !! messageID) + 1) in
          let state := mkMemorySubscription rest (ms_queuedSet state ∖ {[messageID]})
            (<[messageID := count]> (ms_inFlight state)) (ms_acked state)
            (<[messageID := count]> (ms_deliveryCount state)) (ms_notify state) in
          let message := default (mkTaskMessage "" "" "" ∅) (mb_messages b !! messageID) in
          Ok (with_subscriptions b (<[key := state]> (mb_subscriptions b)),
              Delivered (mkDelivery key message count))
      end
  end.

Definition Ping (b : InMemoryBroker) (ctx : context) : res go_error unit :=
  match contextError ctx with
  | Some err => Err err
  | None => fail_if mb_closed b with ErrBrokerClosed ;; Ok tt
  end.

Definition Close (b : InMemoryBroker) : InMemoryBroker :=
  if mb_closed b then b
  else mkBroker true (mb_messages b) (mb_topics b) (signalMemorySubscription <$> mb_subscriptions b).

(** The common prefix of [Ack], [Nack] and [Progress]: the subscription in which
    this delivery is the active one. *)
Definition active_subscription (b : InMemoryBroker) (ctx : context) (d : memoryDelivery)
  : res go_error memorySubscription :=
  match contextError ctx with
  | Some err => Err err
  | None =>
      fail_if mb_closed b with ErrBrokerClosed ;;
      match mb_subscriptions b !! md_key d with
      | None => Err ErrDeliverySettled
      | Some s =>
          fail_if negb (default 0 (ms_inFlight s !! msg_ID (md_message d)) =? md_count d)
            with ErrDeliverySettled ;; Ok s
      end
  end.

Definition Ack (b : InMemoryBroker) (ctx : context) (d : memoryDelivery) : res go_error InMemoryBroker :=
  try s <- active_subscription b ctx d ;;
  let s := mkMemorySubscription (ms_queued s) (ms_queuedSet s)
    (delete (msg_ID (md_message d)) (ms_inFlight s)) ({[msg_ID (md_message d)]} ∪ ms_acked s)
    (ms_deliveryCount s) (ms_notify s) in
  Ok (with_subscriptions b (<[md_key d := s]> (mb_subscriptions b))).

Definition Nack (b : InMemoryBroker) (ctx : context) (d : memoryDelivery) : res go_error InMemoryBroker :=
  try s <- active_subscription b ctx d ;;
  let s := mkMemorySubscription (ms_queued s) (ms_queuedSet s)
    (delete (msg_ID (md_message d)) (ms_inFlight s)) (ms_acked s)
    (ms_deliveryCount s) (ms_notify s) in
  Ok (with_subscriptions b
        (<[md_key d := enqueueMemoryMessage s (msg_ID (md_message d))]> (mb_subscriptions b))).

Definition Progress (b : InMemoryBroker) (ctx : context) (d : memoryDelivery) : res go_error unit :=
  try _ <- active_subscription b ctx d ;; Ok tt.
