(* ===== verification/BrokerProps.v ===== *)
(** * Delivery guarantees of the in-memory broker

    Every published message of a topic is, in each of its subscriptions, queued,
    in flight or acknowledged, and in exactly one of these states; an
    acknowledged message is never delivered again; a superseded delivery can
    neither acknowledge nor requeue the message. *)
From S2P Require Import Prelude Workflow Errors Broker.

(** ** The invariant *)

(** A subscription of a topic with the history [ids]. *)
Record sub_inv (ids : list string) (s : memorySubscription) : Prop := {
  si_set : ms_queuedSet s = list_to_set (ms_queued s);
  si_nodup : NoDup (ms_queued s);
  si_cover : forall id, id ∈ ids <-> id ∈ ms_queued s \/ is_Some (ms_inFlight s !! id) \/ id ∈ ms_acked s;
  si_queued_flight : forall id, id ∈ ms_queued s -> ms_inFlight s !! id = None;
  si_queued_acked : forall id, id ∈ ms_queued s -> id ∉ ms_acked s;
  si_flight_acked : forall id, id ∈ ms_acked s -> ms_inFlight s !! id = None;
  si_count : forall id c, ms_inFlight s !! id = Some c -> ms_deliveryCount s !! id = Some c;
  si_positive : forall id c, ms_deliveryCount s !! id = Some c -> 1 <= c < 18446744073709551616
}.

Record broker_inv (b : InMemoryBroker) : Prop := {
  bi_ids : forall id m, mb_messages b !! id = Some m -> msg_ID m = id;
  bi_topics : forall t id, id ∈ default [] (mb_topics b !! t) <->
    exists m, mb_messages b !! id = Some m /\ msg_Topic m = t;
  bi_subs : forall key s, mb_subscriptions b !! key = Some s ->
    sub_inv (default [] (mb_topics b !! key.2)) s
}.

(** No delivery counter is at the end of its range. *)
Definition counters_below_max (b : InMemoryBroker) : Prop :=
  forall key s id c, mb_subscriptions b !! key = Some s -> ms_deliveryCount s !! id = Some c ->
    c + 1 < 18446744073709551616.

(** A call of a method; a delivery that [Receive] returned has a positive count. *)
Inductive broker_step (b : InMemoryBroker) : InMemoryBroker -> Prop :=
| bs_publish ctx m b' : Publish b ctx m = Ok b' -> broker_step b b'
| bs_receive ctx sub b' r : counters_below_max b -> Receive b ctx sub = Ok (b', r) -> broker_step b b'
| bs_ack ctx d b' : 1 <= md_count d -> Ack b ctx d = Ok b' -> broker_step b b'
| bs_nack ctx d b' : 1 <= md_count d -> Nack b ctx d = Ok b' -> broker_step b b'
| bs_close : broker_step b (Close b).

(** ** Preservation *)

Lemma sub_inv_signal (ids : list string) (s : memorySubscription) :
  sub_inv ids s -> sub_inv ids (signalMemorySubscription s).
Proof. intros []. by split. Qed.

(** Enqueueing a message of the history that is in no other state, or one that
    the history gains. *)
Lemma sub_inv_enqueue (ids ids' : list string) (s : memorySubscription) (id : string) :
  sub_inv ids s -> (forall x, x ∈ ids' <-> x = id \/ x ∈ ids) ->
  sub_inv ids' (enqueueMemoryMessage s id).
Proof.
  intros Hi Hids. destruct Hi as [Hset Hnd Hcover Hqf Hqa Hfa Hc Hp] eqn:E.
  unfold enqueueMemoryMessage.
  case_bool_decide as Ha; [|case_bool_decide as Hq; [|case_bool_decide as Hf]].
  - split; try done. intros x. rewrite Hids, Hcover. naive_solver.
  - rewrite Hset, elem_of_list_to_set in Hq. split; try done. intros x. rewrite Hids, Hcover. naive_solver.
  - split; try done. intros x. rewrite Hids, Hcover. naive_solver.
  - apply sub_inv_signal. rewrite Hset, elem_of_list_to_set in Hq. rewrite <- eq_None_not_Some in Hf.
    split; cbn [ms_queued ms_queuedSet ms_inFlight ms_acked ms_deliveryCount]; try done.
    + rewrite Hset, list_to_set_app_L. cbn. set_solver.
    + apply NoDup_app. split_and!; [done|set_solver|apply NoDup_singleton].
    + intros x. rewrite Hids, Hcover, elem_of_app, list_elem_of_singleton. naive_solver.
    + intros x [Hx|Hx%list_elem_of_singleton]%elem_of_app; [by apply Hqf|by subst x].
    + intros x [Hx|Hx%list_elem_of_singleton]%elem_of_app; [by apply Hqa|by subst x].
Qed.

Lemma sub_inv_fresh (ids : list string) :
  sub_inv ids (foldl enqueueMemoryMessage (mkMemorySubscription [] ∅ ∅ ∅ ∅ false) ids).
Proof.
  induction ids as [|id ids IH] using rev_ind.
  - split; cbn; try done; [constructor| |by intros ? ?%elem_of_nil..].
    intros id. rewrite lookup_empty. split; [by intros ?%elem_of_nil|].
    intros [?|[[? ?]|?]]; [done|done|set_solver].
  - rewrite foldl_snoc. eapply sub_inv_enqueue; [done|]. set_solver.
Qed.

Lemma subscriptionLocked_inv (b : InMemoryBroker) (key : string * string) :
  broker_inv b ->
  let '(b', s) := subscriptionLocked b key in
  broker_inv b' /\ mb_subscriptions b' !! key = Some s /\ mb_messages b' = mb_messages b /\
  mb_topics b' = mb_topics b /\ mb_closed b' = mb_closed b.
Proof.
  intros Hi. unfold subscriptionLocked. destruct (mb_subscriptions b !! key) as [s|] eqn:E; [done|].
  split_and!; cbn; try done; [|by rewrite lookup_insert_eq].
  destruct Hi. split; cbn; try done. intros k s. rewrite lookup_insert. case_decide as Ek.
  - intros [= <-]. subst k. apply sub_inv_fresh.
  - apply bi_subs0.
Qed.

(** Replacing one subscription by another that satisfies its invariant. *)
Lemma broker_inv_update (b : InMemoryBroker) (key : string * string) (s : memorySubscription) :
  broker_inv b -> sub_inv (default [] (mb_topics b !! key.2)) s ->
  broker_inv (with_subscriptions b (<[key := s]> (mb_subscriptions b))).
Proof.
  intros [] Hs. split; cbn; try done. intros k s'. rewrite lookup_insert. case_decide as Ek.
  - intros [= <-]. by subst k.
  - by apply bi_subs0.
Qed.

Lemma active_subscription_ok (b : InMemoryBroker) (ctx : context) (d : memoryDelivery)
    (s : memorySubscription) :
  1 <= md_count d -> active_subscription b ctx d = Ok s ->
  mb_closed b = false /\ mb_subscriptions b !! md_key d = Some s /\
  ms_inFlight s !! msg_ID (md_message d) = Some (md_count d).
Proof.
  intros Hc. unfold active_subscription. destruct (contextError ctx); [done|]. rewrite guard_err_ok.
  intros [Hcl H]. destruct (mb_subscriptions b !! md_key d) as [s'|] eqn:E; [|done].
  rewrite guard_err_ok, negb_false_iff, Z.eqb_eq in H. destruct H as [H [= <-]]. split_and!; [done|done|].
  destruct (ms_inFlight s' !! msg_ID (md_message d)); cbn in H; [congruence|lia].
Qed.

Lemma sub_inv_remove_flight (ids : list string) (s : memorySubscription) (id : string) (c : Z) :
  sub_inv ids s -> ms_inFlight s !! id = Some c ->
  id ∈ ids /\ id ∉ ms_queued s /\ id ∉ ms_acked s /\
  sub_inv (filter (fun x => x <> id) ids)
    (mkMemorySubscription (ms_queued s) (ms_queuedSet s) (delete id (ms_inFlight s)) (ms_acked s)
       (ms_deliveryCount s) (ms_notify s)).
Proof.
  intros [Hset Hnd Hcover Hqf Hqa Hfa Hc Hp] Hid.
  assert (Hq : id ∉ ms_queued s) by (intros Hq; apply Hqf in Hq; congruence).
  assert (Ha : id ∉ ms_acked s) by (intros Ha; apply Hfa in Ha; congruence).
  split_and!; [apply Hcover; eauto|done|done|].
  split; cbn [ms_queued ms_queuedSet ms_inFlight ms_acked ms_deliveryCount]; try done.
  - intros x. rewrite list_elem_of_filter, Hcover, lookup_delete. case_decide as Ex; [subst x|].
    + split; [by intros [? _]|]. intros [?|[[? ?]|?]]; [done|done|done].
    + split; [by intros [_ ?]|]. intros Hx. by split; [intros ->|].
  - intros x Hx. rewrite lookup_delete. case_decide; [done|]. by apply Hqf.
  - intros x Hx. rewrite lookup_delete. case_decide; [done|]. by apply Hfa.
  - intros x c'. rewrite lookup_delete. case_decide; [done|]. apply Hc.
Qed.

Lemma sub_inv_ack (ids : list string) (s : memorySubscription) (id : string) (c : Z) :
  sub_inv ids s -> ms_inFlight s !! id = Some c ->
  sub_inv ids (mkMemorySubscription (ms_queued s) (ms_queuedSet s) (delete id (ms_inFlight s))
    ({[id]} ∪ ms_acked s) (ms_deliveryCount s) (ms_notify s)).
Proof.
  intros Hi Hid. destruct (sub_inv_remove_flight ids s id c Hi Hid) as (Hin & Hq & Ha & Hr).
  destruct Hr as [Hset Hnd Hcover Hqf Hqa Hfa Hc Hp].
  cbn [ms_queued ms_queuedSet ms_inFlight ms_acked ms_deliveryCount] in *.
  split; cbn [ms_queued ms_queuedSet ms_inFlight ms_acked ms_deliveryCount]; try done.
  - intros x. specialize (Hcover x). rewrite list_elem_of_filter in Hcover.
    rewrite elem_of_union, elem_of_singleton. destruct (decide (x = id)) as [->|]; naive_solver.
  - intros x Hx. specialize (Hqa x Hx). set_solver.
  - intros x [->%elem_of_singleton|Hx]%elem_of_union; [by rewrite lookup_delete_eq|by apply Hfa].
Qed.

Lemma sub_inv_nack (ids : list string) (s : memorySubscription) (id : string) (c : Z) :
  sub_inv ids s -> ms_inFlight s !! id = Some c ->
  sub_inv ids (enqueueMemoryMessage (mkMemorySubscription (ms_queued s) (ms_queuedSet s)
    (delete id (ms_inFlight s)) (ms_acked s) (ms_deliveryCount s) (ms_notify s)) id).
Proof.
  intros Hi Hid. destruct (sub_inv_remove_flight ids s id c Hi Hid) as (Hin & Hq & Ha & Hr).
  eapply sub_inv_enqueue; [exact Hr|]. intros x. rewrite list_elem_of_filter.
  destruct (decide (x = id)) as [->|]; naive_solver.
Qed.

Lemma sub_inv_receive (ids : list string) (s : memorySubscription) (id : string) (rest : list string) (c : Z) :
  sub_inv ids s -> ms_queued s = id :: rest -> 1 <= c < 18446744073709551616 ->
  sub_inv ids (mkMemorySubscription rest (ms_queuedSet s ∖ {[id]}) (<[id := c]> (ms_inFlight s))
    (ms_acked s) (<[id := c]> (ms_deliveryCount s)) (ms_notify s)).
Proof.
  intros [Hset Hnd Hcover Hqf Hqa Hfa Hc Hp] Hq Hcount. rewrite Hq in *.
  apply NoDup_cons in Hnd as [Hid Hnd].
  split; cbn [ms_queued ms_queuedSet ms_inFlight ms_acked ms_deliveryCount]; try done.
  - rewrite Hset. cbn. set_solver.
  - intros x. rewrite Hcover, lookup_insert, elem_of_cons. case_decide as Ex; [subst x|naive_solver].
    split; [by eauto|]. by auto.
  - intros x Hx. rewrite lookup_insert_ne by (by intros ->). apply Hqf. by right.
  - intros x Hx. apply Hqa. by right.
  - intros x Hx. rewrite lookup_insert_ne; [by apply Hfa|]. intros <-. apply (Hqa id); [left|done].
  - intros x c'. rewrite !lookup_insert. case_decide; [done|]. apply Hc.
  - intros x c'. rewrite lookup_insert. case_decide; [naive_solver|]. apply Hp.
Qed.

Lemma broker_inv_publish (b b' : InMemoryBroker) (ctx : context) (m : TaskMessage) :
  broker_inv b -> Publish b ctx m = Ok b' -> broker_inv b'.
Proof.
  intros Hi. unfold Publish. destruct (contextError ctx); [done|]. rewrite rbind_ok. intros (_ & _ & H).
  rewrite guard_err_ok in H.
  destruct H as [_ H]. destruct (mb_messages b !! msg_ID m) as [existing|] eqn:Em.
  { destruct (_ && _); by simplify_eq. }
  simplify_eq. destruct Hi as [Hids Htopics Hsubs]. split; cbn.
  - intros id m'. rewrite lookup_insert. case_decide; [naive_solver|]. apply Hids.
  - intros t id. rewrite !lookup_insert. specialize (Htopics t id).
    destruct (decide (msg_Topic m = t)) as [<-|Ht]; cbn.
    + rewrite elem_of_app, list_elem_of_singleton, Htopics. destruct (decide (msg_ID m = id)) as [<-|Hne].
      * naive_solver.
      * naive_solver.
    + rewrite Htopics. destruct (decide (msg_ID m = id)) as [<-|Hne]; [|done]. naive_solver.
  - intros key s. rewrite map_lookup_imap. destruct (mb_subscriptions b !! key) as [s0|] eqn:Ek; [|done].
    cbn. intros [= <-]. specialize (Hsubs key s0 Ek). rewrite lookup_insert.
    destruct (decide (msg_Topic m = key.2)) as [Ht|Ht].
    + rewrite <- Ht, String.eqb_refl. cbn. rewrite Ht. eapply sub_inv_enqueue; [exact Hsubs|].
      intros x. rewrite elem_of_app, list_elem_of_singleton. naive_solver.
    + by rewrite (proj2 (String.eqb_neq _ _)) by done.
Qed.

Lemma Receive_ok (b b' : InMemoryBroker) (ctx : context) (sub : Subscription) (r : receive_result) :
  Receive b ctx sub = Ok (b', r) ->
  let key := (sub_ConsumerID sub, sub_Topic sub) in
  let '(b1, state) := subscriptionLocked b key in
  match ms_queued state with
  | [] => b' = b1 /\ r = Blocks
  | id :: rest =>
      let count := wrap_uint64 (default 0 (ms_deliveryCount state !! id) + 1) in
      b' = with_subscriptions b1 (<[key := mkMemorySubscription rest (ms_queuedSet state ∖ {[id]})
        (<[id := count]> (ms_inFlight state)) (ms_acked state) (<[id := count]> (ms_deliveryCount state))
        (ms_notify state)]> (mb_subscriptions b1)) /\
      r = Delivered (mkDelivery key (default (mkTaskMessage "" "" "" ∅) (mb_messages b1 !! id)) count)
  end.
Proof.
  unfold Receive. destruct (contextError ctx); [done|]. rewrite rbind_ok. intros (_ & _ & H).
  rewrite guard_err_ok in H. destruct H as [_ H]. cbn zeta.
  destruct (subscriptionLocked b _) as [b1 state]. destruct (ms_queued state); by simplify_eq.
Qed.

Lemma subscriptionLocked_counters (b : InMemoryBroker) (key : string * string) :
  counters_below_max b ->
  forall id c, ms_deliveryCount (subscriptionLocked b key).2 !! id = Some c -> c + 1 < 18446744073709551616.
Proof.
  intros Hb id c. unfold subscriptionLocked. destruct (mb_subscriptions b !! key) as [s|] eqn:E.
  { by eapply Hb. }
  cbn. assert (Hd : forall ids s, ms_deliveryCount (foldl enqueueMemoryMessage s ids) = ms_deliveryCount s).
  { induction ids as [|x ids IH]; intros s; [done|]. cbn. rewrite IH. unfold enqueueMemoryMessage.
    repeat case_bool_decide; done. }
  by rewrite Hd.
Qed.

Lemma delivery_count_range (ids : list string) (s : memorySubscription) (id : string) :
  sub_inv ids s ->
  (forall c, ms_deliveryCount s !! id = Some c -> c + 1 < 18446744073709551616) ->
  let c := default 0 (ms_deliveryCount s !! id) in
  0 <= c /\ wrap_uint64 (c + 1) = c + 1 /\ 1 <= c + 1 < 18446744073709551616.
Proof.
  intros Hi Hc. cbn zeta. pose proof (si_positive ids s Hi id) as Hp.
  destruct (ms_deliveryCount s !! id) as [c|]; cbn.
  - specialize (Hc c eq_refl). specialize (Hp c eq_refl). rewrite wrap_uint64_id by (unfold in_uint64; lia). lia.
  - rewrite wrap_uint64_id by (unfold in_uint64; lia). lia.
Qed.

Lemma broker_inv_receive (b b' : InMemoryBroker) (ctx : context) (sub : Subscription) (r : receive_result) :
  broker_inv b -> counters_below_max b -> Receive b ctx sub = Ok (b', r) -> broker_inv b'.
Proof.
  intros Hi Hb HR%Receive_ok. cbn zeta in HR.
  set (key := (sub_ConsumerID sub, sub_Topic sub)) in *.
  pose proof (subscriptionLocked_inv b key Hi) as Hs.
  pose proof (subscriptionLocked_counters b key Hb) as Hc.
  destruct (subscriptionLocked b key) as [b1 state]. cbn in Hc. destruct Hs as (Hi1 & Hk & Hm & Ht & _).
  destruct (ms_queued state) as [|id rest] eqn:Eq; [by destruct HR as [-> _]|]. destruct HR as [-> _].
  pose proof (bi_subs b1 Hi1 key state Hk) as Hsi.
  destruct (delivery_count_range _ state id Hsi (Hc id)) as (_ & Hw & Hr).
  apply broker_inv_update; [done|]. apply sub_inv_receive; [done|done|]. by rewrite Hw.
Qed.

Lemma broker_inv_step (b b' : InMemoryBroker) : broker_inv b -> broker_step b b' -> broker_inv b'.
Proof.
  intros Hi [ctx m ? HP|ctx sub ? r Hb HR|ctx d ? Hd HA|ctx d ? Hd HN|].
  - by eapply broker_inv_publish.
  - by eapply broker_inv_receive.
  - unfold Ack in HA. rewrite rbind_ok in HA. destruct HA as (s & Hs & [= <-]).
    apply active_subscription_ok in Hs as (_ & Hk & Hf); [|done].
    apply broker_inv_update; [done|]. eapply sub_inv_ack; [by apply (bi_subs b Hi)|done].
  - unfold Nack in HN. rewrite rbind_ok in HN. destruct HN as (s & Hs & [= <-]).
    apply active_subscription_ok in Hs as (_ & Hk & Hf); [|done].
    apply broker_inv_update; [done|]. eapply sub_inv_nack; [by apply (bi_subs b Hi)|done].
  - unfold Close. destruct (mb_closed b); [done|]. destruct Hi as [Hids Htopics Hsubs]. split; cbn; try done.
    intros key s. rewrite lookup_fmap. destruct (mb_subscriptions b !! key) as [s0|] eqn:E; [|done].
    cbn. intros [= <-]. by apply sub_inv_signal, Hsubs.
Qed.

Lemma broker_inv_new : broker_inv NewInMemoryBroker.
Proof.
  split; cbn; try done. intros t id. split; [by intros ?%elem_of_nil|]. by intros (m & ? & _).
Qed.

Definition broker_reachable (b : InMemoryBroker) : Prop := rtc broker_step NewInMemoryBroker b.

Lemma broker_inv_steps (b b' : InMemoryBroker) : broker_inv b -> rtc broker_step b b' -> broker_inv b'.
Proof. intros Hi. induction 1 as [|b ? b' Hs _ IH]; [done|]. by eapply IH, broker_inv_step. Qed.

Lemma broker_reachable_inv (b : InMemoryBroker) : broker_reachable b -> broker_inv b.
Proof. apply broker_inv_steps, broker_inv_new. Qed.

(** ** Guarantees *)

(** C29: no message is lost or duplicated inside the broker. In every reachable
    state each published message of a subscription's topic is queued, in flight
    or acknowledged in that subscription, in exactly one of these states, and
    the subscription holds nothing else. *)
Theorem message_in_one_state (b : InMemoryBroker) (key : string * string) (s : memorySubscription)
    (id : string) :
  broker_reachable b -> mb_subscriptions b !! key = Some s ->
  let queued := id ∈ ms_queued s in
  let inFlight := is_Some (ms_inFlight s !! id) in
  let acked := id ∈ ms_acked s in
  ((exists m, mb_messages b !! id = Some m /\ msg_Topic m = key.2) <-> queued \/ inFlight \/ acked) /\
  ~ (queued /\ inFlight) /\ ~ (queued /\ acked) /\ ~ (inFlight /\ acked) /\ NoDup (ms_queued s).
Proof.
  intros Hr Hk. cbn zeta. pose proof (broker_reachable_inv b Hr) as Hi.
  destruct (bi_subs b Hi key s Hk) as [_ Hnd Hcover Hqf Hqa Hfa _ _].
  rewrite <- (bi_topics b Hi key.2 id), Hcover. split_and!; [done| | | |done].
  - intros [Hq [c Hf]]. apply Hqf in Hq. congruence.
  - intros [Hq Ha]. by apply (Hqa id).
  - intros [[c Hf] Ha]. apply Hfa in Ha. congruence.
Qed.

Lemma enqueue_acked (s : memorySubscription) (id : string) : ms_acked (enqueueMemoryMessage s id) = ms_acked s.
Proof. unfold enqueueMemoryMessage. repeat case_bool_decide; done. Qed.
Lemma enqueue_counts (s : memorySubscription) (id : string) :
  ms_deliveryCount (enqueueMemoryMessage s id) = ms_deliveryCount s /\
  ms_inFlight (enqueueMemoryMessage s id) = ms_inFlight s.
Proof. unfold enqueueMemoryMessage. repeat case_bool_decide; done. Qed.

(** What a step does to one subscription, seen through the acknowledgements and
    the deliveries of one message. *)
Definition sub_later (id : string) (s s' : memorySubscription) : Prop :=
  (id ∈ ms_acked s -> id ∈ ms_acked s') /\
  (ms_inFlight s' !! id = ms_inFlight s !! id \/ ms_inFlight s' !! id = None \/
   exists c, ms_inFlight s' !! id = Some c /\ default 0 (ms_deliveryCount s !! id) < c) /\
  default 0 (ms_deliveryCount s !! id) <= default 0 (ms_deliveryCount s' !! id).

Lemma sub_later_refl (id : string) (s : memorySubscription) : sub_later id s s.
Proof. split_and!; [done|by left|lia]. Qed.

Lemma receive_sub_later (b b' : InMemoryBroker) (ctx : context) (sub : Subscription) (r : receive_result)
    (key : string * string) (s : memorySubscription) (id : string) :
  broker_inv b -> counters_below_max b -> Receive b ctx sub = Ok (b', r) ->
  mb_subscriptions b !! key = Some s ->
  exists s', mb_subscriptions b' !! key = Some s' /\ sub_later id s s'.
Proof.
  intros Hi Hb HR%Receive_ok Hk. cbn zeta in HR.
  set (k := (sub_ConsumerID sub, sub_Topic sub)) in *.
  pose proof (subscriptionLocked_counters b k Hb) as Hc. pose proof (subscriptionLocked_inv b k Hi) as Hs.
  assert (Hb1 : mb_subscriptions (subscriptionLocked b k).1 !! key = Some s).
  { unfold subscriptionLocked. destruct (mb_subscriptions b !! k) eqn:E; [done|]. cbn.
    rewrite lookup_insert_ne; [done|]. intros <-. congruence. }
  destruct (subscriptionLocked b k) as [b1 state]. cbn in Hc, Hb1. destruct Hs as (Hi1 & Hk1 & _).
  destruct (ms_queued state) as [|x rest] eqn:Eq; destruct HR as [-> _].
  { exists s. by split; [|apply sub_later_refl]. }
  cbn. rewrite lookup_insert. case_decide as Ek; [|exists s; by split; [|apply sub_later_refl]].
  rewrite <- Ek, Hk1 in Hb1. simplify_eq. eexists. split; [done|].
  pose proof (bi_subs b1 Hi1 _ s Hk1) as Hsi.
  destruct (delivery_count_range _ s x Hsi (Hc x)) as (H0 & Hw & Hr).
  unfold sub_later. cbn [ms_acked ms_inFlight ms_deliveryCount]. rewrite Hw, !lookup_insert.
  case_decide as Ex; [subst x|split_and!; [done|by left|lia]].
  split_and!; [done| |cbn; lia]. right. right. eexists. split; [done|]. lia.
Qed.

Lemma step_sub_later (b b' : InMemoryBroker) (key : string * string) (s : memorySubscription) (id : string) :
  broker_inv b -> broker_step b b' -> mb_subscriptions b !! key = Some s ->
  exists s', mb_subscriptions b' !! key = Some s' /\ sub_later id s s'.
Proof.
  intros Hi [ctx m ? HP|ctx sub ? r Hb HR|ctx d ? Hd HA|ctx d ? Hd HN|] Hk.
  - unfold Publish in HP. destruct (contextError ctx); [done|]. rewrite rbind_ok in HP.
    destruct HP as (_ & _ & HP). rewrite guard_err_ok in HP. destruct HP as [_ HP].
    destruct (mb_messages b !! msg_ID m) as [e|].
    { destruct (_ && _); simplify_eq. exists s. by split; [|apply sub_later_refl]. }
    simplify_eq. cbn. rewrite map_lookup_imap, Hk. cbn. eexists. split; [done|].
    destruct (String.eqb _ _); [|apply sub_later_refl]. destruct (enqueue_counts s (msg_ID m)) as [Ec Ef].
    split_and!; rewrite ?enqueue_acked, ?Ec, ?Ef; [done|by left|lia].
  - by eapply receive_sub_later.
  - unfold Ack in HA. rewrite rbind_ok in HA. destruct HA as (s0 & Hs & [= <-]).
    apply active_subscription_ok in Hs as (_ & Hk0 & Hf); [|done]. cbn. rewrite lookup_insert.
    case_decide as E; [|exists s; by split; [|apply sub_later_refl]]. rewrite <- E, Hk0 in Hk. simplify_eq.
    eexists. split; [done|]. split_and!; cbn; [set_solver| |lia]. rewrite lookup_delete.
    case_decide; [right; by left|by left].
  - unfold Nack in HN. rewrite rbind_ok in HN. destruct HN as (s0 & Hs & [= <-]).
    apply active_subscription_ok in Hs as (_ & Hk0 & Hf); [|done]. cbn. rewrite lookup_insert.
    case_decide as E; [|exists s; by split; [|apply sub_later_refl]]. rewrite <- E, Hk0 in Hk. simplify_eq.
    eexists. split; [done|].
    destruct (enqueue_counts (mkMemorySubscription (ms_queued s) (ms_queuedSet s)
      (delete (msg_ID (md_message d)) (ms_inFlight s)) (ms_acked s) (ms_deliveryCount s) (ms_notify s))
      (msg_ID (md_message d))) as [Ec Ef].
    split_and!; rewrite ?enqueue_acked, ?Ec, ?Ef; cbn; [done| |lia]. rewrite lookup_delete.
    case_decide; [right; by left|by left].
  - unfold Close. destruct (mb_closed b); [exists s; by split; [|apply sub_later_refl]|]. cbn.
    rewrite lookup_fmap, Hk. cbn. eexists. split; [done|]. split_and!; cbn; [done|by left|lia].
Qed.

(** A delivery that can no longer be settled. *)
Definition delivery_over (b : InMemoryBroker) (d : memoryDelivery) : Prop :=
  exists s, mb_subscriptions b !! md_key d = Some s /\
    md_count d <= default 0 (ms_deliveryCount s !! msg_ID (md_message d)) /\
    forall c, ms_inFlight s !! msg_ID (md_message d) = Some c -> md_count d < c.

Lemma delivery_over_steps (b b' : InMemoryBroker) (d : memoryDelivery) :
  broker_inv b -> delivery_over b d -> rtc broker_step b b' -> delivery_over b' d.
Proof.
  intros Hi Ho Hsteps. induction Hsteps as [|b b1 b' Hs _ IH]; [done|].
  apply IH; [by eapply broker_inv_step|]. destruct Ho as (s & Hk & Hc & Hf).
  destruct (step_sub_later b b1 _ s (msg_ID (md_message d)) Hi Hs Hk) as (s' & Hk' & _ & Hfl & Hle).
  exists s'. split_and!; [done|lia|]. intros c Hc'. rewrite Hc' in Hfl.
  destruct Hfl as [Hfl|[?|(c0 & [= <-] & Hlt)]]; [by apply Hf|done|lia].
Qed.

Lemma delivery_over_inactive (b : InMemoryBroker) (ctx : context) (d : memoryDelivery) :
  1 <= md_count d -> delivery_over b d -> exists e, active_subscription b ctx d = Err e.
Proof.
  intros Hd (s & Hk & _ & Hf). destruct (active_subscription b ctx d) as [s'|e] eqn:E; [|by exists e].
  apply active_subscription_ok in E as (_ & Hk' & Hin); [|done]. rewrite Hk in Hk'. simplify_eq.
  apply Hf in Hin. lia.
Qed.

Lemma settled_over (b b' : InMemoryBroker) (ctx : context) (d : memoryDelivery) :
  broker_inv b -> 1 <= md_count d -> Ack b ctx d = Ok b' \/ Nack b ctx d = Ok b' ->
  delivery_over b' d /\ broker_step b b'.
Proof.
  intros Hi Hd Hs. split; [|destruct Hs; [by eapply bs_ack|by eapply bs_nack]].
  unfold delivery_over. destruct Hs as [H|H]; unfold Ack, Nack in H; rewrite rbind_ok in H;
    destruct H as (s & Hs & [= <-]); apply active_subscription_ok in Hs as (_ & Hk & Hf); try done;
    pose proof (si_count _ s (bi_subs b Hi _ s Hk) _ _ Hf) as Hc; cbn; rewrite lookup_insert_eq;
    eexists; (split; [done|]).
  - cbn. rewrite Hc, lookup_delete_eq. by split; [cbn; lia|].
  - destruct (enqueue_counts (mkMemorySubscription (ms_queued s) (ms_queuedSet s)
      (delete (msg_ID (md_message d)) (ms_inFlight s)) (ms_acked s) (ms_deliveryCount s) (ms_notify s))
      (msg_ID (md_message d))) as [-> ->]. cbn. rewrite Hc, lookup_delete_eq. by split; [cbn; lia|].
Qed.

(** A delivery is settled once. After an acknowledgement or a negative
    acknowledgement took effect, the same delivery can never acknowledge, requeue
    or extend the message again, even after the message was redelivered. *)
Theorem delivery_settled_once (b b' b'' : InMemoryBroker) (ctx ctx' : context) (d : memoryDelivery) :
  broker_reachable b -> 1 <= md_count d -> Ack b ctx d = Ok b' \/ Nack b ctx d = Ok b' ->
  rtc broker_step b' b'' ->
  exists e, Ack b'' ctx' d = Err e /\ Nack b'' ctx' d = Err e /\ Progress b'' ctx' d = Err e.
Proof.
  intros Hr Hd Hs Hsteps. pose proof (broker_reachable_inv b Hr) as Hi.
  destruct (settled_over b b' ctx d Hi Hd Hs) as [Ho Hstep].
  pose proof (delivery_over_steps b' b'' d (broker_inv_step b b' Hi Hstep) Ho Hsteps) as Ho'.
  destruct (delivery_over_inactive b'' ctx' d Hd Ho') as [e He]. exists e.
  unfold Ack, Nack, Progress. by rewrite He.
Qed.

Lemma Receive_delivered (b b' : InMemoryBroker) (ctx : context) (sub : Subscription) (d : memoryDelivery) :
  broker_inv b -> Receive b ctx sub = Ok (b', Delivered d) ->
  exists b1 s id rest, subscriptionLocked b (md_key d) = (b1, s) /\ ms_queued s = id :: rest /\
    md_key d = (sub_ConsumerID sub, sub_Topic sub) /\
    mb_messages b !! id = Some (md_message d) /\ msg_ID (md_message d) = id /\
    msg_Topic (md_message d) = sub_Topic sub.
Proof.
  intros Hi HR%Receive_ok. cbn zeta in HR.
  set (key := (sub_ConsumerID sub, sub_Topic sub)) in *.
  pose proof (subscriptionLocked_inv b key Hi) as Hs.
  destruct (subscriptionLocked b key) as [b1 s] eqn:E. destruct Hs as (Hi1 & Hk & Hm & Ht & _).
  destruct (ms_queued s) as [|id rest] eqn:Eq; [by destruct HR|]. destruct HR as [_ [= ->]].
  assert (Hin : id ∈ default [] (mb_topics b1 !! key.2)).
  { apply (si_cover _ s (bi_subs b1 Hi1 key s Hk)). left. rewrite Eq. left. }
  apply (bi_topics b1 Hi1) in Hin as (m & Hmid & Htop). rewrite Hmid. cbn.
  exists b1, s, id, rest. split_and!; try done; [by rewrite <- Hm|]. by apply (bi_ids b1 Hi1).
Qed.

(** An acknowledged message is never delivered again to its consumer group,
    whatever is published, received, requeued or closed afterwards. *)
Theorem acked_never_redelivered (b b' b'' b3 : InMemoryBroker) (ctx ctx' : context)
    (d d' : memoryDelivery) (sub : Subscription) :
  broker_reachable b -> 1 <= md_count d -> Ack b ctx d = Ok b' -> rtc broker_step b' b'' ->
  Receive b'' ctx' sub = Ok (b3, Delivered d') -> md_key d' = md_key d ->
  msg_ID (md_message d') <> msg_ID (md_message d).
Proof.
  intros Hr Hd Ha Hsteps HR Hkey Heq. pose proof (broker_reachable_inv b Hr) as Hi.
  assert (Hacked : exists s, mb_subscriptions b' !! md_key d = Some s /\ msg_ID (md_message d) ∈ ms_acked s).
  { unfold Ack in Ha. rewrite rbind_ok in Ha. destruct Ha as (s & _ & [= <-]).
    cbn. rewrite lookup_insert_eq. eexists. split; [done|]. set_solver. }
  assert (Hi' : broker_inv b') by (eapply broker_inv_step; [exact Hi|by eapply bs_ack]).
  assert (Hacked' : exists s, mb_subscriptions b'' !! md_key d = Some s /\ msg_ID (md_message d) ∈ ms_acked s).
  { clear - Hacked Hi' Hsteps. induction Hsteps as [|b ? b' Hs _ IH]; [done|].
    apply IH; [|by eapply broker_inv_step]. destruct Hacked as (s & Hk & Hin).
    destruct (step_sub_later b _ _ s (msg_ID (md_message d)) Hi' Hs Hk) as (s' & Hk' & Hle & _).
    exists s'. auto. }
  pose proof (broker_inv_steps b' b'' Hi' Hsteps) as Hi''. destruct Hacked' as (s & Hk & Hin).
  destruct (Receive_delivered b'' b3 ctx' sub d' Hi'' HR) as (b1 & s1 & id & rest & Hsub & Hq & _ & _ & Hid & _).
  rewrite Hkey in Hsub. unfold subscriptionLocked in Hsub. rewrite Hk in Hsub. simplify_eq.
  apply (si_queued_acked _ s1 (bi_subs _ Hi'' _ s1 Hk) (msg_ID (md_message d'))); [rewrite Hq; left|].
  by rewrite Heq.
Qed.

(** Publication is idempotent by message ID. After a message was accepted,
    publishing its ID again with the same topic and body changes nothing, and
    with different content is refused, leaving the first publication in place. *)
Theorem publish_idempotent (b b' : InMemoryBroker) (ctx : context) (m m' : TaskMessage) :
  Publish b ctx m = Ok b' -> validateMessage m' = Ok tt -> msg_ID m' = msg_ID m ->
  Publish b' CtxLive m' =
  if bool_decide (msg_Topic m' = msg_Topic m /\ msg_Body m' = msg_Body m) then Ok b'
  else Err (MessageConflictError (msg_ID m)).
Proof.
  intros HP Hv Hid. unfold Publish in HP. destruct (contextError ctx); [done|].
  rewrite rbind_ok in HP. destruct HP as (_ & _ & HP). rewrite guard_err_ok in HP. destruct HP as [Hc HP].
  assert (Hstored : mb_closed b' = false /\ exists e, mb_messages b' !! msg_ID m = Some e /\
    msg_Topic e = msg_Topic m /\ msg_Body e = msg_Body m).
  { destruct (mb_messages b !! msg_ID m) as [e|] eqn:Em.
    - destruct (_ && _) eqn:Eq; [|done]. simplify_eq. split; [done|]. exists e.
      rewrite andb_true_iff, !String.eqb_eq in Eq. naive_solver.
    - simplify_eq. split; [done|]. exists m. cbn. by rewrite lookup_insert_eq. }
  destruct Hstored as (Hc' & e & He & Ht & Hb). unfold Publish. cbn [contextError].
  rewrite Hv. cbn [rbind]. rewrite Hc'. cbn [guard_err]. rewrite Hid, He, Ht, Hb.
  case_bool_decide as Hs.
  - destruct Hs as [-> ->]. by rewrite !String.eqb_refl.
  - destruct (String.eqb_spec (msg_Topic m) (msg_Topic m')); [|done].
    destruct (String.eqb_spec (msg_Body m) (msg_Body m')); [|done]. cbn. naive_solver.
Qed.

(** Redelivery. A negative acknowledgement puts the message back at the end
    of its queue: when nothing else is queued, the next receive of the consumer
    group delivers the same message with the next delivery count. *)
Theorem nack_redelivers (b b' : InMemoryBroker) (ctx : context) (d : memoryDelivery) (sub : Subscription)
    (s : memorySubscription) :
  broker_reachable b -> counters_below_max b -> 1 <= md_count d -> Nack b ctx d = Ok b' ->
  mb_messages b !! msg_ID (md_message d) = Some (md_message d) ->
  md_key d = (sub_ConsumerID sub, sub_Topic sub) -> validateSubscription sub = Ok tt ->
  mb_subscriptions b !! md_key d = Some s -> ms_queued s = [] ->
  exists b'', Receive b' CtxLive sub =
    Ok (b'', Delivered (mkDelivery (md_key d) (md_message d) (md_count d + 1))).
Proof.
  intros Hr Hcb Hd HN Hm Hkey Hv Hk Hq. pose proof (broker_reachable_inv b Hr) as Hi.
  unfold Nack in HN. rewrite rbind_ok in HN. destruct HN as (s0 & Hs & [= <-]).
  apply active_subscription_ok in Hs as (Hcl & Hk0 & Hf); [|done]. rewrite Hk in Hk0. simplify_eq.
  pose proof (bi_subs b Hi _ s0 Hk) as Hsi. set (id := msg_ID (md_message d)) in *.
  assert (Ha : id ∉ ms_acked s0) by (intros Ha; apply (si_flight_acked _ _ Hsi) in Ha; congruence).
  assert (Hc : ms_deliveryCount s0 !! id = Some (md_count d)) by by apply (si_count _ _ Hsi).
  pose proof (Hcb _ _ _ _ Hk Hc) as Hmax.
  unfold Receive. cbn [contextError]. rewrite Hv. cbn [rbind]. rewrite <- Hkey.
  unfold subscriptionLocked. cbn [with_subscriptions mb_closed mb_subscriptions]. rewrite Hcl. cbn [guard_err].
  rewrite lookup_insert_eq. unfold enqueueMemoryMessage at 1.
  cbn [ms_acked ms_queuedSet ms_inFlight ms_queued].
  rewrite bool_decide_false by done.
  rewrite (si_set _ _ Hsi), Hq. rewrite bool_decide_false by set_solver.
  rewrite lookup_delete_eq, bool_decide_false by (by intros []).
  cbn [ms_queued signalMemorySubscription app ms_deliveryCount]. eexists.
  unfold enqueueMemoryMessage. cbn [ms_acked ms_queuedSet ms_inFlight].
  rewrite !bool_decide_false by first [done|set_solver|rewrite lookup_delete_eq; by intros []].
  cbn. rewrite Hc, Hm. cbn. rewrite wrap_uint64_id by (unfold in_uint64; lia). done.
Qed.
