(* ===== verification/BrokerWait.v ===== *)
(** * Blocked receivers of the in-memory broker

    Several workers call [Receive] of [src/internal/broker/memory.go] on the same
    subscription. A receiver that finds the queue empty releases the mutex and
    waits on [notify], a channel with room for one token. The model keeps the
    receivers by the point they have reached and lets every method of the broker
    run between them. A send with a receiver waiting is handed to that receiver;
    every method signals a subscription at most once. *)
From S2P Require Import Prelude Workflow Errors Broker BrokerProps.

(** The receivers of the subscription [sub]: about to take the mutex, between
    the unlock and the [select], and blocked in the [select]. *)
Record receivers := mkReceivers {
  rv_checking : list nat;
  rv_selecting : list nat;
  rv_waiting : list nat
}.

Definition sub_key (sub : Subscription) : string * string := (sub_ConsumerID sub, sub_Topic sub).

Definition token (b : InMemoryBroker) (sub : Subscription) : bool :=
  match mb_subscriptions b !! sub_key sub with Some s => ms_notify s | None => false end.

(** Receiving from [notify] empties it. *)
Definition take_token (b : InMemoryBroker) (sub : Subscription) : InMemoryBroker :=
  match mb_subscriptions b !! sub_key sub with
  | Some s => with_subscriptions b (<[sub_key sub :=
      mkMemorySubscription (ms_queued s) (ms_queuedSet s) (ms_inFlight s) (ms_acked s)
        (ms_deliveryCount s) false]> (mb_subscriptions b))
  | None => b
  end.

(** A token sent while receivers wait goes to the first of them. *)
Definition hand_over (sub : Subscription) (state : InMemoryBroker * receivers) : InMemoryBroker * receivers :=
  let '(b, r) := state in
  match rv_waiting r with
  | first :: rest =>
      if token b sub then (take_token b sub, mkReceivers (rv_checking r ++ [first]) (rv_selecting r) rest)
      else (b, r)
  | [] => (b, r)
  end.

Inductive wait_step (sub : Subscription) : InMemoryBroker * receivers -> InMemoryBroker * receivers -> Prop :=
(** Another goroutine calls a method of the broker. *)
| ws_publish b b' r ctx m : Publish b ctx m = Ok b' -> wait_step sub (b, r) (hand_over sub (b', r))
| ws_ack b b' r ctx d : Ack b ctx d = Ok b' -> wait_step sub (b, r) (hand_over sub (b', r))
| ws_nack b b' r ctx d : Nack b ctx d = Ok b' -> wait_step sub (b, r) (hand_over sub (b', r))
| ws_close b r : wait_step sub (b, r) (hand_over sub (Close b, r))
(** A new call of [Receive]. *)
| ws_call b r n :
    wait_step sub (b, r) (b, mkReceivers (rv_checking r ++ [n]) (rv_selecting r) (rv_waiting r))
(** The critical section of [Receive]. *)
| ws_deliver b b' d n c1 c2 sel wait : Receive b CtxLive sub = Ok (b', Delivered d) ->
    wait_step sub (b, mkReceivers (c1 ++ n :: c2) sel wait) (b', mkReceivers (c1 ++ c2) sel wait)
| ws_error b e n c1 c2 sel wait : Receive b CtxLive sub = Err e ->
    wait_step sub (b, mkReceivers (c1 ++ n :: c2) sel wait) (b, mkReceivers (c1 ++ c2) sel wait)
| ws_empty b b' n c1 c2 sel wait : Receive b CtxLive sub = Ok (b', Blocks) ->
    wait_step sub (b, mkReceivers (c1 ++ n :: c2) sel wait) (b', mkReceivers (c1 ++ c2) (sel ++ [n]) wait)
(** The [select]: the token is there, or the receiver blocks. *)
| ws_select_token b n check s1 s2 wait : token b sub = true ->
    wait_step sub (b, mkReceivers check (s1 ++ n :: s2) wait)
      (take_token b sub, mkReceivers (check ++ [n]) (s1 ++ s2) wait)
| ws_select_block b n check s1 s2 wait : token b sub = false ->
    wait_step sub (b, mkReceivers check (s1 ++ n :: s2) wait)
      (b, mkReceivers check (s1 ++ s2) (wait ++ [n])).

(** ** Closing *)

(** A receiver that is still blocked on the empty channel of a closed broker. *)
Definition stranded (sub : Subscription) (n : nat) (state : InMemoryBroker * receivers) : Prop :=
  let '(b, r) := state in mb_closed b = true /\ token b sub = false /\ n ∈ rv_waiting r.

Lemma closed_methods_fail (b : InMemoryBroker) (ctx : context) (m : TaskMessage) (d : memoryDelivery) :
  mb_closed b = true ->
  (forall b', Publish b ctx m <> Ok b') /\ (forall b', Ack b ctx d <> Ok b') /\
  (forall b', Nack b ctx d <> Ok b') /\ (forall sub b' r, Receive b ctx sub <> Ok (b', r)).
Proof.
  intros Hc. unfold Publish, Ack, Nack, Receive, active_subscription. rewrite Hc.
  destruct (contextError ctx); [done|]. split_and!; try done.
  - intros b'. by destruct (validateMessage m).
  - intros sub b' r. by destruct (validateSubscription sub).
Qed.

Lemma stranded_step (sub : Subscription) (n : nat) (state state' : InMemoryBroker * receivers) :
  stranded sub n state -> wait_step sub state state' -> stranded sub n state'.
Proof.
  intros Hs Hstep. destruct Hstep as [b b' r ctx m HP|b b' r ctx d HA|b b' r ctx d HN|b r|b r k
    |b b' d k c1 c2 sel wait HR|b e k c1 c2 sel wait HR|b b' k c1 c2 sel wait HR
    |b k check s1 s2 wait Ht|b k check s1 s2 wait Ht]; destruct Hs as (Hc & Htok & Hin).
  - by destruct (closed_methods_fail b ctx m (mkDelivery (sub_key sub) m 0) Hc) as (H & _); apply H in HP.
  - destruct (closed_methods_fail b ctx (md_message d) d Hc) as (_ & H & _). by apply H in HA.
  - destruct (closed_methods_fail b ctx (md_message d) d Hc) as (_ & _ & H & _). by apply H in HN.
  - unfold Close. rewrite Hc. unfold hand_over. destruct (rv_waiting r) as [|x l] eqn:E; [set_solver|].
    rewrite Htok. split_and!; [done|done|]. by rewrite E.
  - by split_and!.
  - destruct (closed_methods_fail b CtxLive (md_message d) d Hc) as (_ & _ & _ & H). by apply H in HR.
  - by split_and!.
  - destruct (closed_methods_fail b CtxLive (mkTaskMessage "" "" "" ∅)
      (mkDelivery (sub_key sub) (mkTaskMessage "" "" "" ∅) 0) Hc) as (_ & _ & _ & H). by apply H in HR.
  - congruence.
  - split_and!; [done|done|]. cbn in *. set_solver.
Qed.

(** Closing the broker releases one blocked receiver per subscription only.
    When two receivers wait on the same subscription, [Close] wakes the first;
    the second stays blocked in every continuation, unless its context ends. *)
Theorem close_strands_receiver (sub : Subscription) (b : InMemoryBroker) (s : memorySubscription)
    (first second : nat) (check sel rest : list nat) (state : InMemoryBroker * receivers) :
  mb_closed b = false -> mb_subscriptions b !! sub_key sub = Some s ->
  rtc (wait_step sub)
    (hand_over sub (Close b, mkReceivers check sel (first :: second :: rest))) state ->
  second ∈ rv_waiting state.2 /\ mb_closed state.1 = true.
Proof.
  intros Hc Hk Hsteps.
  assert (Hstart : stranded sub second
    (hand_over sub (Close b, mkReceivers check sel (first :: second :: rest)))).
  { unfold Close. rewrite Hc. cbn [hand_over rv_waiting]. unfold token. cbn [mb_subscriptions].
    rewrite lookup_fmap, Hk. cbn. unfold take_token. cbn. rewrite lookup_fmap, Hk. cbn.
    split_and!; [done| |left]. unfold token. cbn. by rewrite lookup_insert_eq. }
  assert (Hend : stranded sub second state).
  { revert Hstart. induction Hsteps as [|x y z Hs _ IH]; [done|]. intros Hx.
    by eapply IH, stranded_step. }
  destruct state as [b' r]. by destruct Hend as (? & _ & ?).
Qed.
