(* ===== verification/BrokerExamples.v ===== *)
(** * Concrete broker histories

    One topic with two messages and one consumer group: the instances at which
    the guarantees of [BrokerProps] and [BrokerWait] are applied, and a history
    in which a wake-up is lost. *)
From S2P Require Import Prelude Workflow Errors Broker BrokerProps BrokerWait.

Definition msg_a : TaskMessage := mkTaskMessage "m-a" "run-1" "A" ∅.
Definition msg_b : TaskMessage := mkTaskMessage "m-b" "run-1" "B" ∅.
Definition demo_sub : Subscription := mkSubscription "group" "run-1".
Definition demo_key : string * string := ("group", "run-1").

Definition or_new {A : Type} (f : A -> InMemoryBroker) (m : res go_error A) : InMemoryBroker :=
  match m with Ok x => f x | Err _ => NewInMemoryBroker end.

(** [msg_a] published, received, and its delivery. *)
Definition b_published : InMemoryBroker := or_new id (Publish NewInMemoryBroker CtxLive msg_a).
Definition b_received : InMemoryBroker := or_new fst (Receive b_published CtxLive demo_sub).
Definition delivery_1 : memoryDelivery := mkDelivery demo_key msg_a 1.
Definition b_acked : InMemoryBroker := or_new id (Ack b_received CtxLive delivery_1).
Definition b_nacked : InMemoryBroker := or_new id (Nack b_received CtxLive delivery_1).
Definition b_acked_more : InMemoryBroker := or_new id (Publish b_acked CtxLive msg_b).
Definition b_redelivered : InMemoryBroker := or_new fst (Receive b_nacked CtxLive demo_sub).

Definition demo_subscription (b : InMemoryBroker) : memorySubscription :=
  default (mkMemorySubscription [] ∅ ∅ ∅ ∅ false) (mb_subscriptions b !! demo_key).

(** Counters of a concrete broker are checked by evaluation. *)
Definition counters_below_max_b (b : InMemoryBroker) : bool :=
  forallb (fun '(_, s) => forallb (fun '(_, c) => c + 1 <? 18446744073709551616)
    (map_to_list (ms_deliveryCount s))) (map_to_list (mb_subscriptions b)).

Lemma counters_below_max_sound (b : InMemoryBroker) :
  counters_below_max_b b = true -> counters_below_max b.
Proof.
  unfold counters_below_max_b. rewrite forallb_forall. intros Hb key s id c Hk Hc.
  specialize (Hb (key, s)). rewrite <- list_elem_of_In, elem_of_map_to_list in Hb.
  specialize (Hb Hk). cbn in Hb. rewrite forallb_forall in Hb.
  specialize (Hb (id, c)). rewrite <- list_elem_of_In, elem_of_map_to_list in Hb.
  specialize (Hb Hc). cbn in Hb. lia.
Defined.

Lemma b_received_reachable : broker_reachable b_received.
Proof.
  eapply rtc_l; [apply (bs_publish _ CtxLive msg_a b_published); vm_compute; reflexivity|].
  eapply rtc_l; [|apply rtc_refl].
  apply (bs_receive _ CtxLive demo_sub b_received (Delivered delivery_1)).
  - apply counters_below_max_sound. vm_compute. reflexivity.
  - vm_compute. reflexivity.
Defined.

Lemma message_in_one_state_witness :
  ((exists m, mb_messages b_received !! "m-a" = Some m /\ msg_Topic m = demo_key.2) <->
   "m-a" ∈ ms_queued (demo_subscription b_received) \/
   is_Some (ms_inFlight (demo_subscription b_received) !! "m-a") \/
   "m-a" ∈ ms_acked (demo_subscription b_received)) /\
  ms_inFlight (demo_subscription b_received) !! "m-a" = Some 1.
Proof.
  split; [|vm_compute; reflexivity].
  apply (message_in_one_state b_received demo_key (demo_subscription b_received) "m-a").
  - apply b_received_reachable.
  - vm_compute. reflexivity.
Defined.

(** The first delivery is stale after the redelivery. *)
Lemma delivery_settled_once_witness :
  exists e, Ack b_redelivered CtxLive delivery_1 = Err e /\
    Nack b_redelivered CtxLive delivery_1 = Err e /\ Progress b_redelivered CtxLive delivery_1 = Err e.
Proof.
  apply (delivery_settled_once b_received b_nacked b_redelivered CtxLive CtxLive delivery_1).
  - apply b_received_reachable.
  - vm_compute. discriminate.
  - right. vm_compute. reflexivity.
  - eapply rtc_l; [|apply rtc_refl].
    apply (bs_receive _ CtxLive demo_sub b_redelivered (Delivered (mkDelivery demo_key msg_a 2))).
    + apply counters_below_max_sound. vm_compute. reflexivity.
    + vm_compute. reflexivity.
Defined.

(** After [msg_a] is acknowledged, the next delivery is [msg_b]. *)
Lemma acked_never_redelivered_witness :
  exists b3 d', Receive b_acked_more CtxLive demo_sub = Ok (b3, Delivered d') /\
    msg_ID (md_message d') <> msg_ID (md_message delivery_1).
Proof.
  exists (or_new fst (Receive b_acked_more CtxLive demo_sub)), (mkDelivery demo_key msg_b 1).
  assert (HR : Receive b_acked_more CtxLive demo_sub =
    Ok (or_new fst (Receive b_acked_more CtxLive demo_sub), Delivered (mkDelivery demo_key msg_b 1)))
    by (vm_compute; reflexivity).
  split; [exact HR|].
  apply (acked_never_redelivered b_received b_acked b_acked_more _ CtxLive CtxLive delivery_1 _ demo_sub)
    with (5 := HR).
  - apply b_received_reachable.
  - vm_compute. discriminate.
  - vm_compute. reflexivity.
  - eapply rtc_l; [apply (bs_publish _ CtxLive msg_b b_acked_more); vm_compute; reflexivity|apply rtc_refl].
  - vm_compute. reflexivity.
Defined.

Lemma publish_idempotent_witness :
  Publish b_published CtxLive (mkTaskMessage "m-a" "run-1" "other" ∅)
  = Err (MessageConflictError "m-a").
Proof.
  apply (publish_idempotent NewInMemoryBroker b_published CtxLive msg_a
           (mkTaskMessage "m-a" "run-1" "other" ∅)); vm_compute; reflexivity.
Defined.

Lemma nack_redelivers_witness :
  exists b'', Receive b_nacked CtxLive demo_sub = Ok (b'', Delivered (mkDelivery demo_key msg_a 2)).
Proof.
  apply (nack_redelivers b_received b_nacked CtxLive delivery_1 demo_sub (demo_subscription b_received)).
  - apply b_received_reachable.
  - apply counters_below_max_sound. vm_compute. reflexivity.
  - vm_compute. discriminate.
  - vm_compute. reflexivity.
  - vm_compute. reflexivity.
  - vm_compute. reflexivity.
  - vm_compute. reflexivity.
  - vm_compute. reflexivity.
  - vm_compute. reflexivity.
Defined.

(** ** Blocked receivers *)

(** The subscription exists and its queue is empty. *)
Definition b_idle : InMemoryBroker := or_new fst (Receive NewInMemoryBroker CtxLive demo_sub).

Lemma close_strands_receiver_witness :
  let state := hand_over demo_sub (Close b_idle, mkReceivers [] [] [1%nat; 2%nat]) in
  2%nat ∈ rv_waiting state.2 /\ mb_closed state.1 = true.
Proof.
  apply (close_strands_receiver demo_sub b_idle (demo_subscription b_idle) 1%nat 2%nat [] [] []).
  - vm_compute. reflexivity.
  - vm_compute. reflexivity.
  - apply rtc_refl.
Defined.

Definition b_two : InMemoryBroker :=
  or_new id (Publish (or_new id (Publish b_idle CtxLive msg_a)) CtxLive msg_b).

(** A wake-up can be lost. Two receivers find the queue empty; two messages
    are published before either reaches its [select]; the second signal is
    dropped, so one receiver takes the first message and the other blocks beside
    a queued message with no token left. *)
Theorem wakeup_lost :
  exists state, rtc (wait_step demo_sub) (NewInMemoryBroker, mkReceivers [] [] []) state /\
    state.2 = mkReceivers [] [] [2%nat] /\ token state.1 demo_sub = false /\
    ms_queued (demo_subscription state.1) = ["m-b"].
Proof.
  exists (or_new fst (Receive (take_token b_two demo_sub) CtxLive demo_sub), mkReceivers [] [] [2%nat]).
  split; [|by vm_compute].
  eapply rtc_l; [apply (ws_call _ _ _ 1%nat)|]. eapply rtc_l; [apply (ws_call _ _ _ 2%nat)|]. cbn.
  eapply rtc_l; [apply (ws_empty _ _ b_idle 1%nat [] [2%nat] [] []); vm_compute; reflexivity|].
  eapply rtc_l; [apply (ws_empty _ _ b_idle 2%nat [] [] [1%nat] []); vm_compute; reflexivity|].
  eapply rtc_l; [apply (ws_publish _ _ (or_new id (Publish b_idle CtxLive msg_a)) _ CtxLive msg_a);
    vm_compute; reflexivity|].
  eapply rtc_l; [apply (ws_publish _ _ b_two _ CtxLive msg_b); vm_compute; reflexivity|].
  eapply rtc_l; [apply (ws_select_token _ _ 1%nat [] [] [2%nat] []); vm_compute; reflexivity|].
  eapply rtc_l; [apply (ws_deliver _ _ (or_new fst (Receive (take_token b_two demo_sub) CtxLive demo_sub))
    delivery_1 1%nat [] [] [2%nat] []); vm_compute; reflexivity|].
  eapply rtc_l; [apply (ws_select_block _ _ 2%nat [] [] [] []); vm_compute; reflexivity|].
  apply rtc_refl.
Qed.
