(* ===== verification/Security.v ===== *)
(** * Identity, tenancy and authorization

    Models [src/internal/security/model.go], the authenticator of
    [src/internal/security/auth.go] and [authorizeProject] of
    [src/internal/api/authorization.go]. The JWT library is not part of the
    repository: the parser is an argument. *)
From S2P Require Import Prelude Workflow Errors.

(** ** Roles and permissions

    As with the statuses, the last constructor stands for every other string. *)

Inductive Role :=
| RoleMember
| RoleOperator
| RoleAdmin
| RoleOther (raw : string).

Inductive Permission :=
| PermissionProjectRead
| PermissionWorkflowWrite
| PermissionRunStart
| PermissionRunRead
| PermissionTaskRead
| PermissionRunOperate
| PermissionProjectManage
| PermissionAuditRead
| PermissionOther (raw : string).

#[export] Instance Role_eq_dec : EqDecision Role.
Proof. solve_decision. Defined.
#[export] Instance Permission_eq_dec : EqDecision Permission.
Proof. solve_decision. Defined.

Definition role_string (role : Role) : string :=
  match role with
  | RoleMember => "member"
  | RoleOperator => "operator"
  | RoleAdmin => "admin"
  | RoleOther raw => raw
  end.

Definition member_allows (permission : Permission) : bool :=
  bool_decide (permission = PermissionProjectRead) || bool_decide (permission = PermissionWorkflowWrite)
  || bool_decide (permission = PermissionRunStart) || bool_decide (permission = PermissionRunRead).

Definition operator_allows (permission : Permission) : bool :=
  member_allows permission || bool_decide (permission = PermissionTaskRead)
  || bool_decide (permission = PermissionRunOperate).

Definition Allows (role : Role) (permission : Permission) : bool :=
  match role with
  | RoleMember => member_allows permission
  | RoleOperator => operator_allows permission
  | RoleAdmin =>
      operator_allows permission || bool_decide (permission = PermissionProjectManage)
      || bool_decide (permission = PermissionAuditRead)
  | RoleOther _ => false
  end.

(** ** Records *)

Record User := mkUser {
  user_ID : string;
  user_DisplayName : string;
  user_Disabled : bool;
  user_CreatedAt : Z
}.

Record Project := mkProject {
  proj_ID : string;
  proj_Name : string;
  proj_CreatedBy : string;
  proj_CreatedAt : Z;
  proj_UpdatedAt : Z
}.

Record Membership := mkMembership {
  mem_ProjectID : string;
  mem_UserID : string;
  mem_Role : Role;
  mem_CreatedAt : Z;
  mem_UpdatedAt : Z
}.

Record WorkflowOwnership := mkWorkflowOwnership {
  own_WorkflowID : string;
  own_ProjectID : string;
  own_OwnerUserID : string;
  own_CreatedAt : Z
}.

(** [None] is the nil metadata map. *)
Record AuditEvent := mkAuditEvent {
  ev_ID : string;
  ev_ProjectID : string;
  ev_ActorUserID : string;
  ev_Action : string;
  ev_ResourceType : string;
  ev_ResourceID : string;
  ev_OccurredAt : Z;
  ev_Metadata : option (gmap string string)
}.

#[export] Instance User_eq_dec : EqDecision User.
Proof. solve_decision. Defined.
#[export] Instance Project_eq_dec : EqDecision Project.
Proof. solve_decision. Defined.
#[export] Instance Membership_eq_dec : EqDecision Membership.
Proof. solve_decision. Defined.
#[export] Instance WorkflowOwnership_eq_dec : EqDecision WorkflowOwnership.
Proof. solve_decision. Defined.
#[export] Instance AuditEvent_eq_dec : EqDecision AuditEvent.
Proof. solve_decision. Defined.

(** ** Validation *)

Definition maxIdentifierLength : Z := 256.
Definition maxNameLength : Z := 200.
Definition string_len (s : string) : Z := Z.of_nat (String.length s).

(** The [validIdentifier] of package [security] also bounds the length in bytes. *)
Definition security_identifier (value : string) : bool :=
  if maxIdentifierLength <? string_len value then false else validIdentifier value.

Definition validName (value : string) : bool :=
  let trimmed := trim_space value in
  negb (string_is_empty trimmed) && (string_len trimmed <=? maxNameLength).

Section Validation.
Context `{Unicode}.

Definition validateRole (role : Role) : res go_error unit :=
  match role with
  | RoleOther raw => Err (ErrText ("invalid project role " +:+ quote raw))
  | _ => Ok tt
  end.

Definition validateUser (user : User) : res go_error unit :=
  fail_if negb (security_identifier (user_ID user))
    with ErrText ("invalid user ID " +:+ quote (user_ID user)) ;;
  fail_if negb (validName (user_DisplayName user))
    with ErrText ("invalid display name for user " +:+ quote (user_ID user)) ;;
  fail_if time_is_zero (user_CreatedAt user)
    with ErrText ("user " +:+ quote (user_ID user) +:+ " has no creation timestamp") ;;
  Ok tt.

Definition validateProject (project : Project) : res go_error unit :=
  fail_if negb (security_identifier (proj_ID project))
    with ErrText ("invalid project ID " +:+ quote (proj_ID project)) ;;
  fail_if negb (validName (proj_Name project))
    with ErrText ("invalid name for project " +:+ quote (proj_ID project)) ;;
  fail_if negb (security_identifier (proj_CreatedBy project))
    with ErrText ("project " +:+ quote (proj_ID project) +:+ " has invalid creator "
                  +:+ quote (proj_CreatedBy project)) ;;
  fail_if time_is_zero (proj_CreatedAt project) || time_before (proj_UpdatedAt project) (proj_CreatedAt project)
    with ErrText ("project " +:+ quote (proj_ID project) +:+ " has invalid timestamps") ;;
  Ok tt.

Definition validateMembership (membership : Membership) : res go_error unit :=
  fail_if negb (security_identifier (mem_ProjectID membership)) || negb (security_identifier (mem_UserID membership))
    with ErrText "membership has invalid project or user identity" ;;
  try _ <- validateRole (mem_Role membership) ;;
  fail_if time_is_zero (mem_CreatedAt membership)
          || time_before (mem_UpdatedAt membership) (mem_CreatedAt membership)
    with ErrText ("membership for user " +:+ quote (mem_UserID membership) +:+ " in project "
                  +:+ quote (mem_ProjectID membership) +:+ " has invalid timestamps") ;;
  Ok tt.

Definition validateOwnership (ownership : WorkflowOwnership) : res go_error unit :=
  fail_if negb (security_identifier (own_WorkflowID ownership))
          || negb (security_identifier (own_ProjectID ownership))
          || negb (security_identifier (own_OwnerUserID ownership))
    with ErrText "workflow ownership has an invalid identity" ;;
  fail_if time_is_zero (own_CreatedAt ownership)
    with ErrText ("workflow " +:+ quote (own_WorkflowID ownership)
                  +:+ " ownership has no creation timestamp") ;;
  Ok tt.

Definition metadata_invalid (entry : string * string) : bool :=
  let '(key, value) := entry in negb (security_identifier key) || (500 <? string_len value).

Definition validateAuditEvent (event : AuditEvent) : res go_error unit :=
  fail_if negb (security_identifier (ev_ID event)) || negb (security_identifier (ev_ProjectID event))
          || negb (security_identifier (ev_ActorUserID event))
    with ErrText "audit event has an invalid identity" ;;
  fail_if negb (security_identifier (ev_Action event)) || negb (security_identifier (ev_ResourceType event))
          || negb (security_identifier (ev_ResourceID event))
    with ErrText ("audit event " +:+ quote (ev_ID event) +:+ " has invalid action or resource") ;;
  fail_if time_is_zero (ev_OccurredAt event)
    with ErrText ("audit event " +:+ quote (ev_ID event) +:+ " has no timestamp") ;;
  fail_if existsb metadata_invalid (map_to_list (default ∅ (ev_Metadata event)))
    with ErrText ("audit event " +:+ quote (ev_ID event) +:+ " has invalid metadata") ;;
  Ok tt.
End Validation.

(** ** Authentication *)

Record Principal := mkPrincipal {
  pr_UserID : string;
  pr_DisplayName : string
}.

(** What [Authenticate] reads of a parsed token. *)
Record parsed_token := mkParsedToken {
  tok_Valid : bool;
  tok_Subject : string;
  tok_Name : string
}.

Record JWTConfig := mkJWTConfig {
  jc_PublicKeyPEM : string;
  jc_Issuer : string;
  jc_Audience : string;
  jc_Leeway : Z;
  jc_Now : option Z
}.

(** The options of a [jwt.Parser]. *)
Record parser_options := mkParserOptions {
  po_ValidMethods : list string;
  po_ExpirationRequired : bool;
  po_Issuer : string;
  po_Audience : string;
  po_Leeway : Z;
  po_StrictDecoding : bool;
  po_TimeFunc : option Z
}.

Record JWTAuthenticator := mkJWTAuthenticator {
  ja_publicKey : string;
  ja_parser : parser_options
}.

Definition SigningMethodEdDSA : string := "EdDSA".

(** [parse_key] is the answer of [jwt.ParseEdPublicKeyFromPEM]: an error, a key of
    another kind, or an Ed25519 key. *)
Definition NewJWTAuthenticator `{Unicode} (config : JWTConfig) (parse_key : res go_error (option string))
  : res go_error JWTAuthenticator :=
  fail_if string_is_empty (trim_space (jc_PublicKeyPEM config))
    with ErrText "create JWT authenticator: public key is empty" ;;
  fail_if string_is_empty (trim_space (jc_Issuer config)) || string_is_empty (trim_space (jc_Audience config))
    with ErrText "create JWT authenticator: issuer and audience are required" ;;
  fail_if jc_Leeway config <? 0 with ErrText "create JWT authenticator: leeway must not be negative" ;;
  try key <- rmap_err (wrapf "create JWT authenticator: parse Ed25519 public key") parse_key ;;
  match key with
  | None => Err (ErrText "create JWT authenticator: public key is not Ed25519")
  | Some publicKey =>
      Ok (mkJWTAuthenticator publicKey
            (mkParserOptions [SigningMethodEdDSA] true (jc_Issuer config) (jc_Audience config) (jc_Leeway config) true
               (jc_Now config)))
  end.

(** The function that [Authenticate] gives to [ParseWithClaims] for the key. *)
Definition signing_key (a : JWTAuthenticator) (method : string) : res go_error string :=
  fail_if negb (String.eqb method SigningMethodEdDSA) with ErrUnauthenticated ;; Ok (ja_publicKey a).

(** [parse] is [parser.ParseWithClaims] with the authenticator's options and
    [signing_key]. *)
Definition Authenticate (parse : string -> res go_error parsed_token) (ctx : context) (token : string)
  : res go_error Principal :=
  let live := match ctx with CtxLive => true | _ => false end in
  fail_if negb live || string_is_empty (trim_space token) with ErrUnauthenticated ;;
  match parse token with
  | Err _ => Err ErrUnauthenticated
  | Ok parsed =>
      fail_if negb (tok_Valid parsed) || negb (security_identifier (tok_Subject parsed))
        with ErrUnauthenticated ;;
      let displayName := trim_space (tok_Name parsed) in
      let displayName := if negb (validName displayName) then tok_Subject parsed else displayName in
      Ok (mkPrincipal (tok_Subject parsed) displayName)
  end.

(** ** Authorization *)

(** The response [authorizeProject] writes when it refuses. *)
Inductive denial :=
| DeniedStoreError (err : go_error)
| DeniedNotProvisioned
| DeniedUserDisabled
| DeniedProjectNotFound
| DeniedRole.

(** [user] and [membership] are the results of [LoadUser] and [LoadMembership]. *)
Definition authorizeProject (user : res go_error (option User))
    (membership : res go_error (option Membership)) (permission : Permission) : res denial unit :=
  match user with
  | Err err => Err (DeniedStoreError err)
  | Ok None => Err DeniedNotProvisioned
  | Ok (Some user) =>
      fail_if user_Disabled user with DeniedUserDisabled ;;
      match membership with
      | Err err => Err (DeniedStoreError err)
      | Ok None => Err DeniedProjectNotFound
      | Ok (Some membership) =>
          fail_if negb (Allows (mem_Role membership) permission) with DeniedRole ;;
          Ok tt
      end
  end.

(** ** What a principal rests on *)

(** The registered claims of a token that the authenticator looks at. *)
Record token_claims := mkTokenClaims {
  tc_Issuer : string;
  tc_Audience : list string;
  tc_ExpiresAt : option Z
}.

Section Tokens.
Context `{Unicode} (now : Z).
(** [ParseWithClaims], the claims of a token, and whether a signature of a token
    verifies with a method and a key. *)
Context (jwt_parse : parser_options -> (string -> res go_error string) -> string -> res go_error parsed_token).
Context (claims_of : string -> token_claims) (verifies : string -> string -> string -> Prop).

(** What the package documents: a token is valid when the key function has a key for
    its method, the method is one of the valid ones, the signature verifies, and the
    claims are those that the options ask for. *)
Hypothesis parse_valid : forall options key token parsed,
  jwt_parse options key token = Ok parsed -> tok_Valid parsed = true ->
  (exists method k, key method = Ok k /\ method ∈ po_ValidMethods options /\ verifies token method k) /\
  tc_Issuer (claims_of token) = po_Issuer options /\ po_Audience options ∈ tc_Audience (claims_of token) /\
  match tc_ExpiresAt (claims_of token) with
  | Some expires => default now (po_TimeFunc options) < expires + po_Leeway options
  | None => po_ExpirationRequired options = false
  end.

(** A principal comes from a token that is signed with the configured key, for the
    configured issuer and audience, and that has not expired by more than the
    leeway. *)
Theorem authenticated_token (config : JWTConfig) (parse_key : res go_error (option string)) (a : JWTAuthenticator)
    (ctx : context) (token : string) (principal : Principal) :
  NewJWTAuthenticator config parse_key = Ok a ->
  Authenticate (jwt_parse (ja_parser a) (signing_key a)) ctx token = Ok principal ->
  (exists key, parse_key = Ok (Some key) /\ verifies token SigningMethodEdDSA key) /\
  tc_Issuer (claims_of token) = jc_Issuer config /\ jc_Audience config ∈ tc_Audience (claims_of token) /\
  exists expires, tc_ExpiresAt (claims_of token) = Some expires /\
    default now (jc_Now config) < expires + jc_Leeway config.
Proof.
  unfold NewJWTAuthenticator. rewrite !guard_err_ok. intros (_ & _ & _ & Hk). apply rbind_ok in Hk as ([key|] & Hk%rmap_err_ok & [= <-]).
  unfold Authenticate. rewrite guard_err_ok. intros [_ Hp].
  destruct (jwt_parse _ _ token) as [parsed|] eqn:Hparse; [|done]. apply guard_err_ok in Hp as [[Hv _]%orb_false_iff _].
  apply negb_false_iff in Hv. destruct (parse_valid _ _ _ _ Hparse Hv) as ((method & k & Hkey & Hm & Hs) & Hi & Ha & He).
  cbn [ja_parser po_ValidMethods po_Issuer po_Audience po_ExpirationRequired po_TimeFunc po_Leeway] in *.
  apply list_elem_of_singleton in Hm as ->. unfold signing_key in Hkey. cbn in Hkey. injection Hkey as <-.
  split_and!; [by exists key|done|done|]. destruct (tc_ExpiresAt (claims_of token)) as [expires|]; [by exists expires|done].
Qed.
End Tokens.
