(* ===== verification/Sql.v ===== *)
(** * The database of the PostgreSQL store

    Models the schema of
    [src/internal/persistence/migrations/postgres/000001_initial.up.sql] and
    [000002_security.up.sql] as maps from primary keys to rows, and every SQL
    statement of [postgres_store.go] and [postgres_security.go] as a constructor of
    [query] with its effect in [execute]. A statement checks its arguments, the
    [CHECK] constraints, the unique constraints and the foreign keys, in the order
    in which the server does.

    A transaction is a tree of statements, [tx]. [run_tx] executes it on a copy of
    the database that the commit installs; [calls] is what the connection makes of
    each call. What the server decides is the class [Postgres]. *)
From S2P Require Import Prelude Workflow Errors Run Security.

(** ** What the server and the driver decide

    [pg_time] is the instant that a [timestamptz] column keeps of a Go time,
    [pg_text] says which strings the encoding of the database can represent,
    [pg_leb] is the collation behind [ORDER BY], and [pg_jsonb] is what a [jsonb]
    column keeps of a document. [pg_message] is the text of an error, by SQLSTATE. *)
Class Postgres := {
  pg_time : Z -> Z;
  pg_text : string -> bool;
  pg_leb : string -> string -> bool;
  pg_jsonb : string -> res go_error string;
  pg_message : string -> string
}.

(** A [timestamptz] has a resolution of a microsecond, so a time is rounded once
    and the order is kept. A deterministic collation is a total order. *)
Class PostgresLaws `{Postgres} : Prop := {
  pg_time_idem t : pg_time (pg_time t) = pg_time t;
  pg_time_mono t u : t <= u -> pg_time t <= pg_time u;
  pg_time_zero : pg_time zero_time = zero_time;
  pg_le_total s t : pg_leb s t = true \/ pg_leb t s = true;
  pg_le_trans s t u : pg_leb s t = true -> pg_leb t u = true -> pg_leb s u = true;
  pg_le_antisymm s t : pg_leb s t = true -> pg_leb t s = true -> s = t
}.

(** A time in the microsecond after the zero time becomes the zero time, which the
    program takes for an absent one. [time_kept] says that this does not happen. *)
Definition time_kept `{Postgres} (t : Z) : Prop := pg_time t = zero_time -> t = zero_time.

Section Collation.
Context `{Postgres}.

Definition text_le {A : Type} (key : A -> string) (x y : A) : Prop := pg_leb (key x) (key y) = true.
#[export] Instance text_le_dec {A : Type} (key : A -> string) : RelDecision (text_le key).
Proof. intros x y. unfold text_le. apply _. Defined.

(** [ORDER BY] on a text column. *)
Definition order_by {A : Type} (key : A -> string) (l : list A) : list A := merge_sort (text_le key) l.
End Collation.

Definition position_le {A : Type} (key : A -> Z) (x y : A) : Prop := key x <= key y.
#[export] Instance position_le_dec {A : Type} (key : A -> Z) : RelDecision (position_le key).
Proof. intros x y. unfold position_le. apply _. Defined.

(** [ORDER BY] on an integer column. *)
Definition order_by_position {A : Type} (key : A -> Z) (l : list A) : list A := merge_sort (position_le key) l.

(** ** Rows *)

Record task_definition_row := mkTaskDefinitionRow {
  tdr_position : Z;
  tdr_task_name : string;
  tdr_handler_name : string;
  tdr_task_input : string;
  tdr_max_attempts : Z;
  tdr_initial_backoff_ns : Z;
  tdr_max_backoff_ns : Z
}.

Record workflow_run_row := mkWorkflowRunRow {
  wrr_workflow_id : string;
  wrr_version : Z;
  wrr_status : string;
  wrr_created_at : Z;
  wrr_updated_at : Z
}.

(** The columns of [task_runs] that a save changes. *)
Record task_run_columns := mkTaskRunColumns {
  trc_status : string;
  trc_output : string;
  trc_error_message : string;
  trc_attempt_count : Z;
  trc_current_attempt_id : string;
  trc_next_attempt_at : option Z;
  trc_updated_at : Z;
  trc_started_at : option Z;
  trc_finished_at : option Z
}.

Record task_run_row := mkTaskRunRow {
  trr_workflow_id : string;
  trr_task_run_id : string;
  trr_columns : task_run_columns
}.

Record task_lease_row := mkTaskLeaseRow {
  tlr_task_run_id : string;
  tlr_worker_id : string;
  tlr_attempt_id : string;
  tlr_expires_at : Z
}.

(** [aer_metadata] is the text of the [jsonb] value. *)
Record audit_event_row := mkAuditEventRow {
  aer_project_id : string;
  aer_actor_user_id : string;
  aer_action : string;
  aer_resource_type : string;
  aer_resource_id : string;
  aer_occurred_at : Z;
  aer_metadata : string
}.

(** A table whose primary key starts with the workflow or the run is kept by
    workflow or run. The column [workflow_definitions.created_at], which nothing
    reads, is left out. *)
Record database := mkDatabase {
  db_workflow_definitions : gset string;
  db_task_definitions : gmap string (gmap string task_definition_row);
  db_task_dependencies : gmap string (gmap (string * string) Z);
  db_workflow_runs : gmap string workflow_run_row;
  db_task_runs : gmap string (gmap string task_run_row);
  db_workers : gmap string (gmap string Z);
  db_task_leases : gmap string (gmap string task_lease_row);
  db_users : gmap string User;
  db_projects : gmap string Project;
  db_project_memberships : gmap string (gmap string Membership);
  db_workflow_ownership : gmap string WorkflowOwnership;
  db_audit_events : gmap string audit_event_row
}.

(** The rows of a table that belong to a workflow, a run or a project. *)
Definition rows_of {K A : Type} `{Countable K} (table : gmap string (gmap K A)) (owner : string) : gmap K A :=
  default ∅ (table !! owner).
Definition put_row {K A : Type} `{Countable K} (table : gmap string (gmap K A)) (owner : string) (k : K) (row : A)
  : gmap string (gmap K A) := <[owner := <[k := row]> (rows_of table owner)]> table.

Definition with_definitions (db : database) (defs : gset string) (tasks : gmap string (gmap string task_definition_row))
    (deps : gmap string (gmap (string * string) Z)) : database :=
  mkDatabase defs tasks deps (db_workflow_runs db) (db_task_runs db) (db_workers db) (db_task_leases db)
    (db_users db) (db_projects db) (db_project_memberships db) (db_workflow_ownership db) (db_audit_events db).

Definition with_runs (db : database) (runs : gmap string workflow_run_row)
    (tasks : gmap string (gmap string task_run_row)) (ws : gmap string (gmap string Z))
    (leases : gmap string (gmap string task_lease_row)) : database :=
  mkDatabase (db_workflow_definitions db) (db_task_definitions db) (db_task_dependencies db) runs tasks ws leases
    (db_users db) (db_projects db) (db_project_memberships db) (db_workflow_ownership db) (db_audit_events db).

Definition with_security (db : database) (us : gmap string User) (ps : gmap string Project)
    (ms : gmap string (gmap string Membership)) (os : gmap string WorkflowOwnership)
    (es : gmap string audit_event_row) : database :=
  mkDatabase (db_workflow_definitions db) (db_task_definitions db) (db_task_dependencies db) (db_workflow_runs db)
    (db_task_runs db) (db_workers db) (db_task_leases db) us ps ms os es.

Definition empty_database : database := mkDatabase ∅ ∅ ∅ ∅ ∅ ∅ ∅ ∅ ∅ ∅ ∅ ∅.

(** ** Constraints

    The [CHECK] constraints of each table, on the row that is written. *)

Definition int4 (z : Z) : bool := (-2147483648 <=? z) && (z <=? 2147483647).
Definition not_empty (s : string) : bool := negb (string_is_empty s).
(** [btrim(s) <> '']: some byte of [s] is not a space. *)
Definition btrim_not_empty (s : string) : bool := existsb (fun b => negb (b =? 32)) (bytes_of s).

Definition task_definition_check (task_id : string) (row : task_definition_row) : bool :=
  not_empty task_id && btrim_not_empty (tdr_task_name row) && (0 <=? tdr_position row)
  && (0 <=? tdr_max_attempts row) && (0 <=? tdr_initial_backoff_ns row) && (0 <=? tdr_max_backoff_ns row)
  && ((tdr_max_backoff_ns row =? 0) || (tdr_initial_backoff_ns row <=? tdr_max_backoff_ns row)).

Definition task_dependency_check (task_id dependency_task_id : string) (position : Z) : bool :=
  negb (String.eqb task_id dependency_task_id) && (0 <=? position).

Definition run_statuses : list string := ["pending"; "running"; "succeeded"; "failed"; "canceled"].
Definition task_statuses : list string :=
  ["pending"; "ready"; "running"; "retry_wait"; "succeeded"; "failed"; "canceled"].

Definition workflow_run_check (run_id : string) (row : workflow_run_row) : bool :=
  not_empty run_id && (1 <=? wrr_version row) && bool_decide (wrr_status row ∈ run_statuses)
  && (wrr_created_at row <=? wrr_updated_at row).

Definition is_null {A : Type} (o : option A) : bool := match o with Some _ => false | None => true end.

Definition task_run_check (task_run_id : string) (columns : task_run_columns) : bool :=
  let has s := String.eqb (trc_status columns) s in
  let attempted := (0 <? trc_attempt_count columns) && not_empty (trc_current_attempt_id columns) in
  not_empty task_run_id && bool_decide (trc_status columns ∈ task_statuses)
  && (0 <=? trc_attempt_count columns)
  && (negb (has "running") || (attempted && negb (is_null (trc_started_at columns))))
  && (negb (has "retry_wait") || (attempted && negb (is_null (trc_next_attempt_at columns))))
  && (negb (has "succeeded" || has "failed" || has "canceled") || negb (is_null (trc_finished_at columns))).

Definition user_check (u : User) : bool := not_empty (user_ID u) && btrim_not_empty (user_DisplayName u).
Definition project_check (p : Project) : bool :=
  not_empty (proj_ID p) && btrim_not_empty (proj_Name p) && (proj_CreatedAt p <=? proj_UpdatedAt p).
Definition membership_check (m : Membership) : bool :=
  bool_decide (role_string (mem_Role m) ∈ ["member"; "operator"; "admin"])
  && (mem_CreatedAt m <=? mem_UpdatedAt m).
Definition audit_event_check (event_id : string) (row : audit_event_row) : bool :=
  not_empty event_id && not_empty (aer_action row) && not_empty (aer_resource_type row)
  && not_empty (aer_resource_id row).

(** A unique column: no other row of the group has the value. *)
Definition value_taken {K A : Type} `{Countable K} (p : K -> A -> bool) (rows : gmap K A) : bool :=
  existsb (fun '(k, row) => p k row) (map_to_list rows).

(** ** Statements

    One constructor per SQL statement, indexed by its answer. The answer of a
    [SELECT] of one row is [None] for [pgx.ErrNoRows], that of an [UPDATE] or an
    [INSERT ... ON CONFLICT] the number of rows affected. A query parameter that
    may be NULL is an option. *)
Inductive query : Type -> Type :=
| InsertWorkflowDefinition (workflow_id : string) : query Z
| InsertTaskDefinition (workflow_id task_id : string) (row : task_definition_row) : query unit
| InsertTaskDependency (workflow_id task_id dependency_task_id : string) (position : Z) : query unit
| SelectWorkflowDefinition (workflow_id : string) : query (option string)
| SelectTaskDefinitions (workflow_id : string) : query (list (string * task_definition_row))
| SelectTaskDependencies (workflow_id : string) : query (list (string * string))
| InsertWorkflowRun (run_id : string) (row : workflow_run_row) : query unit
| UpdateWorkflowRun (status : string) (updated_at : Z) (run_id workflow_id : string) (version : Z)
    : query (option Z)
| SelectRunVersion (run_id : string) : query (option Z)
| InsertTaskRun (run_id task_id : string) (row : task_run_row) : query unit
| UpdateTaskRun (columns : task_run_columns) (run_id task_id task_run_id : string) : query Z
| DeleteTaskLeases (run_id : string) : query unit
| DeleteWorkers (run_id : string) : query unit
| InsertWorker (run_id worker_id : string) (last_heartbeat_at : Z) : query unit
| InsertTaskLease (run_id task_id : string) (row : task_lease_row) : query unit
| SelectWorkflowRun (run_id : string) : query (option workflow_run_row)
| SelectTaskRuns (run_id : string) : query (list (string * task_run_row))
| SelectWorkers (run_id : string) : query (list (string * Z))
| SelectTaskLeases (run_id : string) : query (list (string * task_lease_row))
| InsertUser (user : User) : query Z
| SelectUserDisabled (user_id : string) : query (option bool)
| SelectUser (user_id : string) : query (option User)
| InsertProject (project : Project) : query unit
| UpdateProject (project : Project) : query Z
| SelectProject (project_id : string) : query (option Project)
| SelectMembershipForUpdate (project_id user_id : string) : query (option (Z * Z))
| UpsertMembership (membership : Membership) : query Z
| SelectMembership (project_id user_id : string) : query (option Membership)
| SelectMemberships (project_id : string) : query (list Membership)
| InsertWorkflowOwnership (ownership : WorkflowOwnership) : query Z
| SelectWorkflowOwnership (workflow_id : string) : query (option WorkflowOwnership)
| InsertAuditEvent (event_id : string) (row : audit_event_row) : query unit
| SelectAuditEvents (project_id : string) (limit : Z) : query (list (string * audit_event_row)).

Section Execute.
Context `{Postgres}.

(** A SQLSTATE, and the error of the driver when it cannot encode an argument. *)
Definition sqlstate (code : string) : go_error := PgError code (pg_message code).
Definition encode_error : go_error := ErrText (pg_message "").

Definition unique_violation : string := "23505".
Definition foreign_key_violation : string := "23503".
Definition check_violation : string := "23514".
Definition invalid_text : string := "22021".

(** The checks of a written row, in the order of the server: encoding of the
    arguments, text, [CHECK], unique and foreign-key constraints. *)
Definition checked {A : Type} (encodes : bool) (texts : list string) (check unique references : bool)
    (result : A) : res go_error A :=
  fail_if negb encodes with encode_error ;;
  fail_if negb (forallb pg_text texts) with sqlstate invalid_text ;;
  fail_if negb check with sqlstate check_violation ;;
  fail_if negb unique with sqlstate unique_violation ;;
  fail_if negb references with sqlstate foreign_key_violation ;;
  Ok result.

Definition taken {K A : Type} `{Countable K} (rows : gmap K A) (k : K) : bool := bool_decide (is_Some (rows !! k)).

Definition insert_task_definition (workflow_id task_id : string) (row : task_definition_row) (db : database)
  : res go_error (database * unit) :=
  let rows := rows_of (db_task_definitions db) workflow_id in
  checked (int4 (tdr_position row) && int4 (tdr_max_attempts row))
    [workflow_id; task_id; tdr_task_name row; tdr_handler_name row; tdr_task_input row]
    (task_definition_check task_id row)
    (negb (taken rows task_id) && negb (value_taken (fun _ r => tdr_position r =? tdr_position row) rows))
    (bool_decide (workflow_id ∈ db_workflow_definitions db))
    (with_definitions db (db_workflow_definitions db)
       (put_row (db_task_definitions db) workflow_id task_id row) (db_task_dependencies db), tt).

Definition insert_task_dependency (workflow_id task_id dependency_task_id : string) (position : Z) (db : database)
  : res go_error (database * unit) :=
  let rows := rows_of (db_task_dependencies db) workflow_id in
  let tasks := rows_of (db_task_definitions db) workflow_id in
  checked (int4 position) [workflow_id; task_id; dependency_task_id]
    (task_dependency_check task_id dependency_task_id position)
    (negb (taken rows (task_id, dependency_task_id))
     && negb (value_taken (fun k p => String.eqb (fst k) task_id && (p =? position)) rows))
    (taken tasks task_id && taken tasks dependency_task_id)
    (with_definitions db (db_workflow_definitions db) (db_task_definitions db)
       (put_row (db_task_dependencies db) workflow_id (task_id, dependency_task_id) position), tt).

(** The row as it is stored, with the times of the column type. *)
Definition stored_run (row : workflow_run_row) : workflow_run_row :=
  mkWorkflowRunRow (wrr_workflow_id row) (wrr_version row) (wrr_status row)
    (pg_time (wrr_created_at row)) (pg_time (wrr_updated_at row)).

Definition stored_columns (c : task_run_columns) : task_run_columns :=
  mkTaskRunColumns (trc_status c) (trc_output c) (trc_error_message c) (trc_attempt_count c)
    (trc_current_attempt_id c) (pg_time <$> trc_next_attempt_at c) (pg_time (trc_updated_at c))
    (pg_time <$> trc_started_at c) (pg_time <$> trc_finished_at c).

Definition insert_workflow_run (run_id : string) (row : workflow_run_row) (db : database)
  : res go_error (database * unit) :=
  let row := stored_run row in
  checked true [run_id; wrr_workflow_id row; wrr_status row] (workflow_run_check run_id row)
    (negb (taken (db_workflow_runs db) run_id))
    (bool_decide (wrr_workflow_id row ∈ db_workflow_definitions db))
    (with_runs db (<[run_id := row]> (db_workflow_runs db)) (db_task_runs db) (db_workers db)
       (db_task_leases db), tt).

(** [RETURNING version] yields no row when the condition fails. *)
Definition update_workflow_run (status : string) (updated_at : Z) (run_id workflow_id : string) (version : Z)
    (db : database) : res go_error (database * option Z) :=
  fail_if negb (forallb pg_text [status; run_id; workflow_id]) with sqlstate invalid_text ;;
  match db_workflow_runs db !! run_id with
  | None => Ok (db, None)
  | Some row =>
      if negb (String.eqb (wrr_workflow_id row) workflow_id && (wrr_version row =? version)) then Ok (db, None)
      else
        let row := mkWorkflowRunRow (wrr_workflow_id row) (wrr_version row + 1) status
                     (wrr_created_at row) (pg_time updated_at) in
        checked true [] (workflow_run_check run_id row) true true
          (with_runs db (<[run_id := row]> (db_workflow_runs db)) (db_task_runs db) (db_workers db)
             (db_task_leases db), Some (wrr_version row))
  end.

Definition insert_task_run (run_id task_id : string) (row : task_run_row) (db : database)
  : res go_error (database * unit) :=
  let columns := stored_columns (trr_columns row) in
  let row := mkTaskRunRow (trr_workflow_id row) (trr_task_run_id row) columns in
  let rows := rows_of (db_task_runs db) run_id in
  checked (int4 (trc_attempt_count columns))
    [run_id; trr_workflow_id row; task_id; trr_task_run_id row; trc_status columns; trc_output columns;
     trc_error_message columns; trc_current_attempt_id columns]
    (task_run_check (trr_task_run_id row) columns)
    (negb (taken rows task_id)
     && negb (value_taken (fun _ r => String.eqb (trr_task_run_id r) (trr_task_run_id row)) rows))
    (bool_decide (wrr_workflow_id <$> db_workflow_runs db !! run_id = Some (trr_workflow_id row))
     && taken (rows_of (db_task_definitions db) (trr_workflow_id row)) task_id)
    (with_runs db (db_workflow_runs db) (put_row (db_task_runs db) run_id task_id row) (db_workers db)
       (db_task_leases db), tt).

Definition update_task_run (columns : task_run_columns) (run_id task_id task_run_id : string) (db : database)
  : res go_error (database * Z) :=
  let columns := stored_columns columns in
  fail_if negb (int4 (trc_attempt_count columns)) with encode_error ;;
  fail_if negb (forallb pg_text [trc_status columns; trc_output columns; trc_error_message columns;
                                 trc_current_attempt_id columns; run_id; task_id; task_run_id])
    with sqlstate invalid_text ;;
  match rows_of (db_task_runs db) run_id !! task_id with
  | None => Ok (db, 0)
  | Some row =>
      if negb (String.eqb (trr_task_run_id row) task_run_id) then Ok (db, 0)
      else
        let row := mkTaskRunRow (trr_workflow_id row) (trr_task_run_id row) columns in
        checked true [] (task_run_check (trr_task_run_id row) columns) true true
          (with_runs db (db_workflow_runs db) (put_row (db_task_runs db) run_id task_id row) (db_workers db)
             (db_task_leases db), 1)
  end.

Definition insert_worker (run_id worker_id : string) (last_heartbeat_at : Z) (db : database)
  : res go_error (database * unit) :=
  checked true [run_id; worker_id] (not_empty worker_id)
    (negb (taken (rows_of (db_workers db) run_id) worker_id)) (taken (db_workflow_runs db) run_id)
    (with_runs db (db_workflow_runs db) (db_task_runs db)
       (put_row (db_workers db) run_id worker_id (pg_time last_heartbeat_at)) (db_task_leases db), tt).

Definition insert_task_lease (run_id task_id : string) (row : task_lease_row) (db : database)
  : res go_error (database * unit) :=
  let row := mkTaskLeaseRow (tlr_task_run_id row) (tlr_worker_id row) (tlr_attempt_id row)
               (pg_time (tlr_expires_at row)) in
  let rows := rows_of (db_task_leases db) run_id in
  let tasks := rows_of (db_task_runs db) run_id in
  checked true [run_id; task_id; tlr_task_run_id row; tlr_worker_id row; tlr_attempt_id row]
    (not_empty (tlr_attempt_id row))
    (negb (taken rows task_id)
     && negb (value_taken (fun _ r => String.eqb (tlr_attempt_id r) (tlr_attempt_id row)) rows)
     && negb (value_taken (fun _ r => String.eqb (tlr_worker_id r) (tlr_worker_id row)) rows))
    (taken tasks task_id
     && value_taken (fun _ r => String.eqb (trr_task_run_id r) (tlr_task_run_id row)) tasks
     && taken (rows_of (db_workers db) run_id) (tlr_worker_id row))
    (with_runs db (db_workflow_runs db) (db_task_runs db) (db_workers db)
       (put_row (db_task_leases db) run_id task_id row), tt).

(** *** Projects and members *)

Definition stored_user (u : User) : User :=
  mkUser (user_ID u) (user_DisplayName u) (user_Disabled u) (pg_time (user_CreatedAt u)).
Definition stored_project (p : Project) : Project :=
  mkProject (proj_ID p) (proj_Name p) (proj_CreatedBy p) (pg_time (proj_CreatedAt p)) (pg_time (proj_UpdatedAt p)).
Definition stored_membership (m : Membership) : Membership :=
  mkMembership (mem_ProjectID m) (mem_UserID m) (mem_Role m) (pg_time (mem_CreatedAt m)) (pg_time (mem_UpdatedAt m)).
Definition stored_ownership (o : WorkflowOwnership) : WorkflowOwnership :=
  mkWorkflowOwnership (own_WorkflowID o) (own_ProjectID o) (own_OwnerUserID o) (pg_time (own_CreatedAt o)).

(** [ON CONFLICT (user_id) DO NOTHING]. *)
Definition insert_user (u : User) (db : database) : res go_error (database * Z) :=
  let u := stored_user u in
  checked true [user_ID u; user_DisplayName u] (user_check u) true true
    (if taken (db_users db) (user_ID u) then (db, 0)
     else (with_security db (<[user_ID u := u]> (db_users db)) (db_projects db) (db_project_memberships db)
             (db_workflow_ownership db) (db_audit_events db), 1)).

Definition insert_project (p : Project) (db : database) : res go_error (database * unit) :=
  let p := stored_project p in
  checked true [proj_ID p; proj_Name p; proj_CreatedBy p] (project_check p)
    (negb (taken (db_projects db) (proj_ID p))) (taken (db_users db) (proj_CreatedBy p))
    (with_security db (db_users db) (<[proj_ID p := p]> (db_projects db)) (db_project_memberships db)
       (db_workflow_ownership db) (db_audit_events db), tt).

Definition update_project (p : Project) (db : database) : res go_error (database * Z) :=
  let p := stored_project p in
  fail_if negb (forallb pg_text [proj_Name p; proj_ID p; proj_CreatedBy p]) with sqlstate invalid_text ;;
  match db_projects db !! proj_ID p with
  | None => Ok (db, 0)
  | Some row =>
      if negb (String.eqb (proj_CreatedBy row) (proj_CreatedBy p) && (proj_CreatedAt row =? proj_CreatedAt p))
      then Ok (db, 0)
      else checked true [] (project_check p) true true
             (with_security db (db_users db) (<[proj_ID p := p]> (db_projects db)) (db_project_memberships db)
                (db_workflow_ownership db) (db_audit_events db), 1)
  end.

(** [ON CONFLICT (project_id, user_id) DO UPDATE ... WHERE EXCLUDED.updated_at >=
    project_memberships.updated_at]; the constraints are those of the proposed row
    first. *)
Definition upsert_membership (m : Membership) (db : database) : res go_error (database * Z) :=
  let m := stored_membership m in
  let put m := with_security db (db_users db) (db_projects db)
                 (put_row (db_project_memberships db) (mem_ProjectID m) (mem_UserID m) m)
                 (db_workflow_ownership db) (db_audit_events db) in
  let texts := [mem_ProjectID m; mem_UserID m; role_string (mem_Role m)] in
  match rows_of (db_project_memberships db) (mem_ProjectID m) !! mem_UserID m with
  | None =>
      checked true texts (membership_check m) true
        (taken (db_projects db) (mem_ProjectID m) && taken (db_users db) (mem_UserID m)) (put m, 1)
  | Some row =>
      let updated := mkMembership (mem_ProjectID m) (mem_UserID m) (mem_Role m) (mem_CreatedAt row)
                       (mem_UpdatedAt m) in
      if mem_UpdatedAt m <? mem_UpdatedAt row
      then checked true texts (membership_check m) true true (db, 0)
      else checked true texts (membership_check m && membership_check updated) true true (put updated, 1)
  end.

(** [ON CONFLICT (workflow_id) DO NOTHING]; foreign keys are those of a row that
    is inserted. *)
Definition insert_workflow_ownership (o : WorkflowOwnership) (db : database) : res go_error (database * Z) :=
  let o := stored_ownership o in
  let texts := [own_WorkflowID o; own_ProjectID o; own_OwnerUserID o] in
  if taken (db_workflow_ownership db) (own_WorkflowID o) then checked true texts true true true (db, 0)
  else
    checked true texts true true
      (bool_decide (own_WorkflowID o ∈ db_workflow_definitions db)
       && taken (rows_of (db_project_memberships db) (own_ProjectID o)) (own_OwnerUserID o))
      (with_security db (db_users db) (db_projects db) (db_project_memberships db)
         (<[own_WorkflowID o := o]> (db_workflow_ownership db)) (db_audit_events db), 1).

Definition insert_audit_event (event_id : string) (row : audit_event_row) (db : database)
  : res go_error (database * unit) :=
  try metadata <- pg_jsonb (aer_metadata row) ;;
  let row := mkAuditEventRow (aer_project_id row) (aer_actor_user_id row) (aer_action row) (aer_resource_type row)
               (aer_resource_id row) (pg_time (aer_occurred_at row)) metadata in
  checked true [event_id; aer_project_id row; aer_actor_user_id row; aer_action row; aer_resource_type row;
                aer_resource_id row]
    (audit_event_check event_id row) (negb (taken (db_audit_events db) event_id))
    (taken (db_projects db) (aer_project_id row) && taken (db_users db) (aer_actor_user_id row))
    (with_security db (db_users db) (db_projects db) (db_project_memberships db) (db_workflow_ownership db)
       (<[event_id := row]> (db_audit_events db)), tt).

(** [ORDER BY occurred_at DESC, event_id DESC]. *)
Definition audit_le (x y : string * audit_event_row) : Prop :=
  aer_occurred_at (snd y) < aer_occurred_at (snd x) \/
  (aer_occurred_at (snd y) = aer_occurred_at (snd x) /\ pg_leb (fst y) (fst x) = true).
#[export] Instance audit_le_dec : RelDecision audit_le.
Proof. intros x y. unfold audit_le. apply _. Defined.

Definition select_audit_events (project_id : string) (limit : Z) (db : database)
  : list (string * audit_event_row) :=
  take (Z.to_nat limit) (merge_sort audit_le
    (filter (fun '(_, row) => aer_project_id row = project_id) (map_to_list (db_audit_events db)))).

(** *** All statements *)

Definition select {A : Type} (texts : list string) (db : database) (answer : A) : res go_error (database * A) :=
  checked true texts true true true (db, answer).

(** [ORDER BY task_id, position]. *)
Definition dependency_le (x y : string * string * Z) : Prop :=
  let '(task1, _, position1) := x in
  let '(task2, _, position2) := y in
  if String.eqb task1 task2 then position1 <= position2 else pg_leb task1 task2 = true.
#[export] Instance dependency_le_dec : RelDecision dependency_le.
Proof. intros [[? ?] ?] [[? ?] ?]. unfold dependency_le. destruct (String.eqb _ _); apply _. Defined.

Definition select_dependencies (workflow_id : string) (db : database) : list (string * string) :=
  fst <$> merge_sort dependency_le (map_to_list (rows_of (db_task_dependencies db) workflow_id)).

Definition execute {A : Type} (q : query A) (db : database) : res go_error (database * A) :=
  match q in query A return res go_error (database * A) with
  | InsertWorkflowDefinition id =>
      checked true [id] (not_empty id) true true
        (if bool_decide (id ∈ db_workflow_definitions db) then (db, 0)
         else (with_definitions db ({[id]} ∪ db_workflow_definitions db) (db_task_definitions db)
                 (db_task_dependencies db), 1))
  | InsertTaskDefinition w t row => insert_task_definition w t row db
  | InsertTaskDependency w t d position => insert_task_dependency w t d position db
  | SelectWorkflowDefinition id =>
      select [id] db (if bool_decide (id ∈ db_workflow_definitions db) then Some id else None)
  | SelectTaskDefinitions id =>
      select [id] db (order_by_position (fun r => tdr_position (snd r))
                        (map_to_list (rows_of (db_task_definitions db) id)))
  | SelectTaskDependencies id => select [id] db (select_dependencies id db)
  | InsertWorkflowRun id row => insert_workflow_run id row db
  | UpdateWorkflowRun status updated id w version => update_workflow_run status updated id w version db
  | SelectRunVersion id => select [id] db (wrr_version <$> db_workflow_runs db !! id)
  | InsertTaskRun id t row => insert_task_run id t row db
  | UpdateTaskRun columns id t task_run_id => update_task_run columns id t task_run_id db
  | DeleteTaskLeases id =>
      checked true [id] true true true
        (with_runs db (db_workflow_runs db) (db_task_runs db) (db_workers db) (delete id (db_task_leases db)), tt)
  | DeleteWorkers id =>
      checked true [id] true true true
        (with_runs db (db_workflow_runs db) (db_task_runs db) (delete id (db_workers db))
           (delete id (db_task_leases db)), tt)
  | InsertWorker id w heartbeat => insert_worker id w heartbeat db
  | InsertTaskLease id t row => insert_task_lease id t row db
  | SelectWorkflowRun id => select [id] db (db_workflow_runs db !! id)
  | SelectTaskRuns id => select [id] db (order_by fst (map_to_list (rows_of (db_task_runs db) id)))
  | SelectWorkers id => select [id] db (order_by fst (map_to_list (rows_of (db_workers db) id)))
  | SelectTaskLeases id => select [id] db (order_by fst (map_to_list (rows_of (db_task_leases db) id)))
  | InsertUser u => insert_user u db
  | SelectUserDisabled id => select [id] db (user_Disabled <$> db_users db !! id)
  | SelectUser id => select [id] db (db_users db !! id)
  | InsertProject p => insert_project p db
  | UpdateProject p => update_project p db
  | SelectProject id => select [id] db (db_projects db !! id)
  | SelectMembershipForUpdate p u =>
      select [p; u] db ((fun m => (mem_CreatedAt m, mem_UpdatedAt m)) <$>
                        rows_of (db_project_memberships db) p !! u)
  | UpsertMembership m => upsert_membership m db
  | SelectMembership p u => select [p; u] db (rows_of (db_project_memberships db) p !! u)
  | SelectMemberships p =>
      select [p] db (order_by mem_UserID (map_values (rows_of (db_project_memberships db) p)))
  | InsertWorkflowOwnership o => insert_workflow_ownership o db
  | SelectWorkflowOwnership id => select [id] db (db_workflow_ownership db !! id)
  | InsertAuditEvent id row => insert_audit_event id row db
  | SelectAuditEvents p limit => select [p] db (select_audit_events p limit db)
  end.
End Execute.

#[global] Arguments checked : simpl never.
#[global] Arguments select : simpl never.
