(* ===== verification/Tx.v ===== *)
(** * Transactions

    A function of the PostgreSQL store that runs inside a transaction is a [tx]: a
    tree whose nodes are SQL statements and whose leaves are results. [run_tx]
    executes it call by call, with the failures of the connection as an argument;
    [transaction] adds [BeginTx], [Commit] and the deferred [Rollback]. [eval] is the
    same without failures, and [run_tx_ok] says that a transaction that ends well is
    one in which nothing failed. *)
From S2P Require Import Prelude Workflow Errors Run Security Sql.

(** A statement is answered by the server or fails; [Lost] also says whether a
    lost [Commit] took effect before the connection failed. *)
Inductive call_answer :=
| Answered
| Lost (err : go_error) (applied : bool).

Inductive tx (A : Type) : Type :=
| Done (r : res go_error A)
| Call {B : Type} (q : query B) (k : res go_error B -> tx A).
Arguments Done {A} r.
Arguments Call {A B} q k.

Fixpoint tx_bind {A B : Type} (m : tx A) (f : A -> tx B) : tx B :=
  match m with
  | Done (Ok a) => f a
  | Done (Err e) => Done (Err e)
  | Call q k => Call q (fun r => tx_bind (k r) f)
  end.

Definition tx_ret {A : Type} (a : A) : tx A := Done (Ok a).
Definition tx_fail {A : Type} (e : go_error) : tx A := Done (Err e).
(** A step that does not touch the database. *)
Definition tx_lift {A : Type} (r : res go_error A) : tx A := Done r.
(** [if err != nil { return wrap(err) }] after a statement. *)
Definition stmt {A : Type} (wrap : go_error -> go_error) (q : query A) : tx A :=
  Call q (fun r => Done (rmap_err wrap r)).

(** [if err != nil { return f(err) }] after a part of a transaction. *)
Fixpoint tx_map_err {A : Type} (f : go_error -> go_error) (m : tx A) : tx A :=
  match m with
  | Done r => Done (rmap_err f r)
  | Call q k => Call q (fun r => tx_map_err f (k r))
  end.

Notation "'sql' x <- m ;; k" := (tx_bind m (fun x => k))
  (at level 200, x pattern, m at level 99, k at level 200, right associativity) : go_scope.

(** [for i, x := range l]. *)
Fixpoint tx_each {A : Type} (f : Z -> A -> tx unit) (i : Z) (l : list A) : tx unit :=
  match l with
  | [] => tx_ret tt
  | x :: rest => sql _ <- f i x ;; tx_each f (i + 1) rest
  end.

Section Semantics.
Context `{Postgres}.

(** After a failed statement the server refuses every other statement of the
    transaction, and its commit. *)
Definition in_failed_transaction : go_error := sqlstate "25P02".
Definition commit_rolled_back : go_error := ErrText (pg_message "commit").

(** [None] is a transaction that has failed; the number counts the calls. *)
Fixpoint run_tx {A : Type} (calls : nat -> call_answer) (n : nat) (view : option database) (t : tx A)
  : nat * option database * res go_error A :=
  match t with
  | Done r => (n, view, r)
  | Call q k =>
      match view with
      | None => run_tx calls (S n) None (k (Err in_failed_transaction))
      | Some db =>
          match calls n with
          | Lost e _ => run_tx calls (S n) None (k (Err e))
          | Answered =>
              match execute q db with
              | Ok (db', b) => run_tx calls (S n) (Some db') (k (Ok b))
              | Err e => run_tx calls (S n) None (k (Err e))
              end
          end
      end
  end.

Definition transaction {A : Type} (calls : nat -> call_answer) (begin_failed : go_error -> go_error)
    (commit_failed : A -> go_error -> go_error) (body : tx A) (db : database) : database * res go_error A :=
  match calls O with
  | Lost e _ => (db, Err (begin_failed e))
  | Answered =>
      match run_tx calls 1 (Some db) body with
      | (_, _, Err e) => (db, Err e)
      | (n, view, Ok a) =>
          match view, calls n with
          | Some db', Answered => (db', Ok a)
          | Some db', Lost e applied => (if applied then db' else db, Err (commit_failed a e))
          | None, Lost e _ => (db, Err (commit_failed a e))
          | None, Answered => (db, Err (commit_failed a commit_rolled_back))
          end
      end
  end.

(** A statement outside a transaction. *)
Definition pool_query {A : Type} (calls : nat -> call_answer) (q : query A) (db : database) : res go_error A :=
  match calls O with
  | Lost e _ => Err e
  | Answered => try r <- execute q db ;; Ok (snd r)
  end.

(** ** Execution without failures of the connection *)

Fixpoint aborted {A : Type} (t : tx A) : res go_error A :=
  match t with
  | Done r => r
  | Call q k => aborted (k (Err in_failed_transaction))
  end.

Fixpoint eval {A : Type} (t : tx A) (db : database) : option database * res go_error A :=
  match t with
  | Done r => (Some db, r)
  | Call q k =>
      match execute q db with
      | Ok (db', b) => eval (k (Ok b)) db'
      | Err e => (None, aborted (k (Err e)))
      end
  end.

(** The transaction ends with [a] and leaves [db']. *)
Definition evals {A : Type} (t : tx A) (db db' : database) (a : A) : Prop := eval t db = (Some db', Ok a).

Lemma run_aborted {A : Type} calls (t : tx A) : forall n, exists m, run_tx calls n None t = (m, None, aborted t).
Proof. induction t as [r|B q k IH]; intros n; cbn; [eauto|apply IH]. Qed.

Lemma run_answered {A : Type} calls (t : tx A) :
  (forall n, calls n = Answered) ->
  forall n db, exists m, run_tx calls n (Some db) t = (m, fst (eval t db), snd (eval t db)).
Proof.
  intros Hc. induction t as [r|B q k IH]; intros n db; cbn; [eauto|]. rewrite Hc.
  destruct (execute q db) as [[db' b]|e]; [apply IH|apply run_aborted].
Qed.

(** A transaction in which something failed does not keep its view. *)
Lemma run_tx_ok {A : Type} calls (t : tx A) :
  forall n m db db' a, run_tx calls n (Some db) t = (m, Some db', Ok a) -> evals t db db' a.
Proof.
  unfold evals. induction t as [r|B q k IH]; intros n m db db' a; cbn; [by intros [= _ -> ->]|].
  destruct (calls n); [|destruct (run_aborted calls (k (Err err)) (S n)) as [? ->]; done].
  destruct (execute q db) as [[db1 b]|e]; [apply IH|destruct (run_aborted calls (k (Err e)) (S n)) as [? ->]; done].
Qed.

Lemma transaction_ok {A : Type} calls bf cf (t : tx A) db db' a :
  transaction calls bf cf t db = (db', Ok a) -> evals t db db' a.
Proof.
  unfold transaction. destruct (calls O); [|done].
  destruct (run_tx _ _ _ _) as [[n view] [x|e]] eqn:E; [|done].
  destruct view as [db1|], (calls n); intros [= <- <-]. by eapply run_tx_ok.
Qed.

(** A transaction that ends with an error changes nothing, unless its commit was
    lost after it took effect. *)
Lemma transaction_err {A : Type} calls bf cf (t : tx A) db db' e :
  transaction calls bf cf t db = (db', Err e) ->
  db' = db \/ exists n cause a, calls n = Lost cause true /\ evals t db db' a /\ e = cf a cause.
Proof.
  unfold transaction. destruct (calls O); [|intros [= <- _]; by left].
  destruct (run_tx _ _ _ _) as [[n view] [x|e0]] eqn:E; [|intros [= <- _]; by left].
  destruct view as [db1|], (calls n) as [|cause applied] eqn:Ec; intros [= <- <-]; [|by left..].
  destruct applied; [|by left]. right. exists n, cause, x. split_and!; [done| |done]. by eapply run_tx_ok.
Qed.

(** What a transaction leaves is the database as it was or as [eval] makes it. *)
Lemma transaction_state {A : Type} calls bf cf (t : tx A) db :
  fst (transaction calls bf cf t db) = db \/ exists a, evals t db (fst (transaction calls bf cf t db)) a.
Proof.
  destruct (transaction calls bf cf t db) as [db' [a|e]] eqn:E; cbn.
  - right. exists a. by eapply transaction_ok.
  - apply transaction_err in E as [->|(n & cause & a & _ & He & _)]; eauto.
Qed.

Lemma transaction_answered {A : Type} calls bf cf (t : tx A) db :
  (forall n, calls n = Answered) ->
  transaction calls bf cf t db =
  match eval t db with
  | (_, Err e) => (db, Err e)
  | (Some db', Ok a) => (db', Ok a)
  | (None, Ok a) => (db, Err (cf a commit_rolled_back))
  end.
Proof.
  intros Hc. unfold transaction. rewrite Hc. destruct (run_answered calls t Hc 1 db) as [m ->].
  destruct (eval t db) as [[db'|] [a|e]]; cbn; by rewrite ?Hc.
Qed.

(** ** Sequencing *)

Lemma aborted_bind {A B : Type} (m : tx A) (f : A -> tx B) :
  aborted (tx_bind m f) = match aborted m with Ok a => aborted (f a) | Err e => Err e end.
Proof. induction m as [[a|e]|C q k IH]; cbn; [done|done|apply IH]. Qed.

Lemma eval_bind {A B : Type} (m : tx A) (f : A -> tx B) db :
  eval (tx_bind m f) db =
  match eval m db with
  | (Some db', Ok a) => eval (f a) db'
  | (None, Ok a) => (None, aborted (f a))
  | (view, Err e) => (view, Err e)
  end.
Proof.
  revert db. induction m as [[a|e]|C q k IH]; intros db; cbn; [done|done|].
  destruct (execute q db) as [[db' b]|e]; [apply IH|]. rewrite aborted_bind. by destruct (aborted (k (Err e))).
Qed.

Lemma evals_bind {A B : Type} (m : tx A) (f : A -> tx B) db db' b :
  evals (tx_bind m f) db db' b <-> exists db1 a, evals m db db1 a /\ evals (f a) db1 db' b.
Proof.
  unfold evals. rewrite eval_bind. destruct (eval m db) as [[db1|] [a|e]]; split; try done; try naive_solver.
Qed.

Lemma evals_ret {A : Type} (a b : A) db db' : evals (tx_ret a) db db' b <-> db' = db /\ b = a.
Proof. unfold evals. cbn. naive_solver. Qed.

Lemma evals_lift {A : Type} (r : res go_error A) db db' b : evals (tx_lift r) db db' b <-> db' = db /\ r = Ok b.
Proof. unfold evals. cbn. naive_solver. Qed.

Lemma evals_fail {A : Type} e db db' (b : A) : ~ evals (tx_fail e) db db' b.
Proof. done. Qed.

Lemma evals_stmt {A : Type} wrap (q : query A) db db' a :
  evals (stmt wrap q) db db' a <-> execute q db = Ok (db', a).
Proof. unfold evals, stmt. cbn. destruct (execute q db) as [[db1 b]|e]; cbn; naive_solver. Qed.

Lemma evals_map_err {A : Type} f (m : tx A) db db' a : evals (tx_map_err f m) db db' a <-> evals m db db' a.
Proof.
  unfold evals. revert db. induction m as [[x|e]|B q k IH]; intros db; cbn; [done|done|].
  destruct (execute q db) as [[db1 b]|e]; [apply IH|].
  assert (Ha : forall t : tx A, (None, aborted t) <> (Some db', Ok a)) by done. split; intros Hx; by apply Ha in Hx.
Qed.

(** A loop of statements. *)
Lemma evals_each {A : Type} (f : Z -> A -> tx unit) (P : Z -> list A -> database -> Prop) (l : list A) :
  (forall i x rest db db', P i (x :: rest) db -> evals (f i x) db db' tt -> P (i + 1) rest db') ->
  forall i db db', P i l db -> evals (tx_each f i l) db db' tt -> P (i + Z.of_nat (length l)) [] db'.
Proof.
  intros Hstep. induction l as [|x l IH]; intros i db db' HP; cbn [tx_each length].
  - intros [-> _]%evals_ret. by replace (i + Z.of_nat 0) with i by lia.
  - intros (db1 & [] & H1 & H2)%evals_bind. replace (i + Z.of_nat (S (length l))) with (i + 1 + Z.of_nat (length l)) by lia.
    eapply IH; [by eapply Hstep|done].
Qed.
End Semantics.
