(* ===== verification/FileStore.v ===== *)
(** * The embedded journal store

    Models [src/internal/persistence/file_store.go]: the in-memory state, the
    checks of every operation, the append-only checksummed journal and its
    replay. JSON and SHA-256 come with [JournalCodec]; the operating system's
    answers to open, write, sync, close and truncate calls are scripts. *)
From S2P Require Import Prelude Workflow Heap Graph GraphBuild Errors Run Snapshot Security.

Notation bytes := (list Ascii.ascii).

(** ** Records *)

Definition journalVersion : Z := 1.

Record journalRecord := mkJournalRecord {
  jr_Version : Z;
  jr_Operation : string;
  jr_Workflow : option WorkflowDefinition;
  jr_Run : option WorkflowRunSnapshot;
  jr_User : option User;
  jr_Project : option Project;
  jr_Membership : option Membership;
  jr_Ownership : option WorkflowOwnership;
  jr_AuditEvent : option AuditEvent
}.

Definition operationSaveWorkflow : string := "save_workflow".
Definition operationCreateRun : string := "create_run".
Definition operationSaveRun : string := "save_run".
Definition operationCreateProject : string := "create_project".
Definition operationSaveProject : string := "save_project".
Definition operationPutMembership : string := "put_membership".
Definition operationSaveOwnedWorkflow : string := "save_owned_workflow".

Definition workflow_record (definition : WorkflowDefinition) : journalRecord :=
  mkJournalRecord journalVersion operationSaveWorkflow (Some definition) None None None None None None.
Definition run_record (operation : string) (snapshot : WorkflowRunSnapshot) : journalRecord :=
  mkJournalRecord journalVersion operation None (Some snapshot) None None None None None.
Definition create_project_record (user : User) (project : Project) (membership : Membership)
    (event : AuditEvent) : journalRecord :=
  mkJournalRecord journalVersion operationCreateProject None None (Some user) (Some project)
    (Some membership) None (Some event).
Definition save_project_record (project : Project) (event : AuditEvent) : journalRecord :=
  mkJournalRecord journalVersion operationSaveProject None None None (Some project) None None (Some event).
Definition put_membership_record (user : User) (membership : Membership) (event : AuditEvent)
  : journalRecord :=
  mkJournalRecord journalVersion operationPutMembership None None (Some user) None (Some membership)
    None (Some event).
Definition owned_workflow_record (definition : WorkflowDefinition) (ownership : WorkflowOwnership)
  : journalRecord :=
  mkJournalRecord journalVersion operationSaveOwnedWorkflow (Some definition) None None None None
    (Some ownership) None.

(** ** Memory *)

Record FileStore := mkFileStore {
  fs_workflows : gmap string WorkflowDefinition;
  fs_runs : gmap string WorkflowRunSnapshot;
  fs_users : gmap string User;
  fs_projects : gmap string Project;
  fs_memberships : gmap string (gmap string Membership);
  fs_ownerships : gmap string WorkflowOwnership;
  fs_auditEvents : gmap string (list AuditEvent);
  fs_auditIDs : gset string
}.

Definition empty_store : FileStore := mkFileStore ∅ ∅ ∅ ∅ ∅ ∅ ∅ ∅.

Definition with_workflow (store : FileStore) (definition : WorkflowDefinition) : FileStore :=
  mkFileStore (<[wd_ID definition := definition]> (fs_workflows store)) (fs_runs store) (fs_users store)
    (fs_projects store) (fs_memberships store) (fs_ownerships store) (fs_auditEvents store)
    (fs_auditIDs store).

Definition with_run (store : FileStore) (snapshot : WorkflowRunSnapshot) : FileStore :=
  mkFileStore (fs_workflows store) (<[snap_ID snapshot := snapshot]> (fs_runs store)) (fs_users store)
    (fs_projects store) (fs_memberships store) (fs_ownerships store) (fs_auditEvents store)
    (fs_auditIDs store).

(** [store.memberships[projectID][userID]]. *)
Definition lookup_membership (store : FileStore) (projectID userID : string) : option Membership :=
  fs_memberships store !! projectID ≫= (.!! userID).

(** ** The journal file *)

(** One answer of [Write]: the bytes taken and the error. *)
Definition write_result : Type := nat * option go_error.

(** The operating system's answers during one append. *)
Record append_io := mkAppendIO {
  io_open : option go_error;
  io_writes : list write_result;
  io_sync : option go_error;
  io_close : option go_error
}.

(** The journal file and the answers still to come; an append beyond the
    script succeeds. *)
Record disk := mkDisk {
  dk_file : bytes;
  dk_script : list append_io
}.

Definition io_success : append_io := mkAppendIO None [] None None.

Definition newline : Ascii.ascii := Ascii.ascii_of_N 10.
#[global] Arguments newline : simpl never.

(** The loop of [writeAll]; a call beyond the script takes everything. *)
Fixpoint writeAll (results : list write_result) (file data : bytes) : bytes * option go_error :=
  match data with
  | [] => (file, None)
  | _ =>
      match results with
      | [] => (file ++ data, None)
      | (written, err) :: rest =>
          let file := file ++ take written data in
          match err with
          | Some e => (file, Some e)
          | None =>
              if Nat.eqb written 0 then (file, Some (ErrText "short write"))
              else writeAll rest file (drop written data)
          end
      end
  end.

(** The lines of the journal, each with its newline, and the rest after the last. *)
Fixpoint split_lines (file : bytes) : list bytes * bytes :=
  match file with
  | [] => ([], [])
  | c :: rest =>
      let '(lines, tail) := split_lines rest in
      if bool_decide (c = newline) then ([c] :: lines, tail)
      else match lines with
           | [] => ([], c :: tail)
           | line :: lines => ((c :: line) :: lines, tail)
           end
  end.

(** [json.Marshal] and [json.Unmarshal] at the two types of the journal, and the
    hexadecimal SHA-256 digest. *)
Class JournalCodec := {
  marshal_record : journalRecord -> res go_error bytes;
  unmarshal_record : bytes -> res go_error journalRecord;
  marshal_envelope : string -> bytes -> res go_error bytes;
  unmarshal_envelope : bytes -> res go_error (string * bytes);
  sha256_hex : bytes -> string
}.

Section Store.
Context `{Unicode} `{JournalCodec}.

Definition storeContextError (ctx : context) : option go_error :=
  match ctx with
  | CtxNil => Some (ErrText "ForgeFlow store context is nil")
  | CtxLive => None
  | CtxDone err => Some (wrapf "ForgeFlow store operation" err)
  end.

Definition check_context (ctx : context) : res go_error unit :=
  match storeContextError ctx with Some err => Err err | None => Ok tt end.

Definition encode_line (record : journalRecord) : res go_error bytes :=
  try payload <- rmap_err (wrapf "encode ForgeFlow journal record") (marshal_record record) ;;
  try encoded <- rmap_err (wrapf "encode ForgeFlow journal envelope")
                   (marshal_envelope (sha256_hex payload) payload) ;;
  Ok (encoded ++ [newline]).

Definition appendRecord (d : disk) (record : journalRecord) : disk * res go_error unit :=
  match encode_line record with
  | Err err => (d, Err err)
  | Ok encoded =>
      let io := default io_success (head (dk_script d)) in
      let script := tail (dk_script d) in
      match io_open io with
      | Some err => (mkDisk (dk_file d) script, Err (wrapf "open ForgeFlow journal for append" err))
      | None =>
          let '(file, writeErr) := writeAll (io_writes io) (dk_file d) encoded in
          let syncErr := match writeErr with None => io_sync io | Some _ => None end in
          (mkDisk file script,
           match errors_join [writeErr; syncErr; io_close io] with
           | Some err => Err (wrapf "commit ForgeFlow journal record" err)
           | None => Ok tt
           end)
      end
  end.

(** ** Applying records *)

Definition validateRunDefinition (store : FileStore) (snapshot : WorkflowRunSnapshot)
  : res go_error unit :=
  match fs_workflows store !! snap_WorkflowID snapshot with
  | None => Err (WorkflowNotFoundError (snap_WorkflowID snapshot))
  | Some definition =>
      try _ <- rmap_err (wrapf "validate workflow run against definition")
                 (restoreWorkflowRun snapshot definition) ;;
      Ok tt
  end.

Definition validateProjectCreation (ctx : context) (user : User) (project : Project)
    (membership : Membership) (event : AuditEvent) : res go_error unit :=
  try _ <- check_context ctx ;;
  try _ <- rmap_err (wrapf "create project user") (validateUser user) ;;
  try _ <- rmap_err (wrapf "create project") (validateProject project) ;;
  try _ <- rmap_err (wrapf "create project membership") (validateMembership membership) ;;
  try _ <- rmap_err (wrapf "create project audit event") (validateAuditEvent event) ;;
  fail_if negb (String.eqb (proj_CreatedBy project) (user_ID user))
          || negb (String.eqb (mem_ProjectID membership) (proj_ID project))
          || negb (String.eqb (mem_UserID membership) (user_ID user))
          || negb (bool_decide (mem_Role membership = RoleAdmin))
          || negb (String.eqb (ev_ProjectID event) (proj_ID project))
          || negb (String.eqb (ev_ActorUserID event) (user_ID user))
    with ErrText "create project: creator, initial admin, or audit identity does not match" ;;
  Ok tt.

(** The audit checks that precede every change of [applySecurityRecord]. *)
Definition check_audit (store : FileStore) (event : option AuditEvent) : res go_error unit :=
  match event with
  | None => Ok tt
  | Some event =>
      try _ <- validateAuditEvent event ;;
      fail_if bool_decide (ev_ID event ∈ fs_auditIDs store) with AuditEventAlreadyExistsError (ev_ID event) ;;
      Ok tt
  end.

Definition apply_user (users : gmap string User) (user : option User) : res go_error (gmap string User) :=
  match user with
  | None => Ok users
  | Some user =>
      match users !! user_ID user with
      | Some existing =>
          fail_if negb (Bool.eqb (user_Disabled existing) (user_Disabled user))
            with ErrText ("user " +:+ quote (user_ID user) +:+ " immutable disabled state differs") ;;
          Ok users
      | None => Ok (<[user_ID user := user]> users)
      end
  end.

Definition put_membership (memberships : gmap string (gmap string Membership)) (m : Membership)
  : gmap string (gmap string Membership) :=
  <[mem_ProjectID m := <[mem_UserID m := m]> (default ∅ (memberships !! mem_ProjectID m))]> memberships.

Definition append_event (events : gmap string (list AuditEvent)) (event : AuditEvent)
  : gmap string (list AuditEvent) :=
  <[ev_ProjectID event := default [] (events !! ev_ProjectID event) ++ [event]]> events.

(** The assignment [m[k] = v] under [if record.Field != nil]. *)
Definition when_some {A M : Type} (f : M -> A -> M) (m : M) (a : option A) : M :=
  match a with Some a => f m a | None => m end.

Definition applySecurityRecord (store : FileStore) (record : journalRecord) : res go_error FileStore :=
  try _ <- check_audit store (jr_AuditEvent record) ;;
  try users <- apply_user (fs_users store) (jr_User record) ;;
  Ok {| fs_workflows := when_some (fun m d => <[wd_ID d := cloneDefinition d]> m)
                          (fs_workflows store) (jr_Workflow record);
        fs_runs := fs_runs store;
        fs_users := users;
        fs_projects := when_some (fun m p => <[proj_ID p := p]> m) (fs_projects store) (jr_Project record);
        fs_memberships := when_some put_membership (fs_memberships store) (jr_Membership record);
        fs_ownerships := when_some (fun m o => <[own_WorkflowID o := o]> m)
                           (fs_ownerships store) (jr_Ownership record);
        fs_auditEvents := when_some append_event (fs_auditEvents store) (jr_AuditEvent record);
        fs_auditIDs := when_some (fun s e => {[ev_ID e]} ∪ s) (fs_auditIDs store) (jr_AuditEvent record) |}.

(** The cases of [applyRecord]. *)
Definition replay_workflow (store : FileStore) (record : journalRecord) : res go_error FileStore :=
  match jr_Workflow record, jr_Run record with
  | Some definition, None =>
      try _ <- rmap_err (fun e => wrapf "replay ForgeFlow workflow definition" (ErrValidation e))
                 (Validate definition) ;;
      match fs_workflows store !! wd_ID definition with
      | Some existing =>
          fail_if negb (bool_decide (existing = definition)) with WorkflowConflictError (wd_ID definition) ;;
          Ok (with_workflow store (cloneDefinition definition))
      | None => Ok (with_workflow store (cloneDefinition definition))
      end
  | _, _ => Err (ErrText "replay ForgeFlow journal: malformed workflow record")
  end.

Definition replay_run (store : FileStore) (record : journalRecord) : res go_error FileStore :=
  let creates := String.eqb (jr_Operation record) operationCreateRun in
  let saves := String.eqb (jr_Operation record) operationSaveRun in
  match jr_Run record, jr_Workflow record with
  | Some run, None =>
      let current := fs_runs store !! snap_ID run in
      let exists_ := bool_decide (is_Some current) in
      let next := wrap_uint64 (default 0 (snap_Version <$> current) + 1) in
      let run := if snap_Version run =? 0
                 then snapshot_with_version run (if exists_ then next else 1) else run in
      let wrapped := rmap_err (wrapf "replay ForgeFlow workflow run") in
      try _ <- wrapped (validateSnapshot run) ;;
      try _ <- wrapped (validateRunDefinition store run) ;;
      fail_if creates && exists_ with RunAlreadyExistsError (snap_ID run) ;;
      fail_if saves && negb exists_ with RunNotFoundError (snap_ID run) ;;
      fail_if creates && negb (snap_Version run =? 1)
        with ErrText ("replay ForgeFlow workflow run " +:+ quote (snap_ID run) +:+ ": create version is "
                      +:+ fmt_d (snap_Version run) +:+ ", want 1") ;;
      fail_if saves && negb (snap_Version run =? next)
        with ErrText ("replay ForgeFlow workflow run " +:+ quote (snap_ID run) +:+ ": version is "
                      +:+ fmt_d (snap_Version run) +:+ ", want " +:+ fmt_d next) ;;
      Ok (with_run store run)
  | _, _ => Err (ErrText "replay ForgeFlow journal: malformed workflow run record")
  end.

Definition replay_create_project (store : FileStore) (record : journalRecord) : res go_error FileStore :=
  match jr_User record, jr_Project record, jr_Membership record, jr_AuditEvent record with
  | Some user, Some project, Some membership, Some event =>
      try _ <- rmap_err (wrapf "replay ForgeFlow project")
                 (validateProjectCreation CtxLive user project membership event) ;;
      fail_if bool_decide (is_Some (fs_projects store !! proj_ID project))
        with ProjectAlreadyExistsError (proj_ID project) ;;
      applySecurityRecord store record
  | _, _, _, _ => Err (ErrText "replay ForgeFlow journal: malformed create project record")
  end.

Definition replay_save_project (store : FileStore) (record : journalRecord) : res go_error FileStore :=
  match jr_Project record, jr_AuditEvent record with
  | Some project, Some event =>
      try _ <- rmap_err (wrapf "replay ForgeFlow project") (validateProject project) ;;
      fail_if negb (bool_decide (is_Some (fs_projects store !! proj_ID project)))
        with ProjectNotFoundError (proj_ID project) ;;
      fail_if negb (String.eqb (ev_ProjectID event) (proj_ID project))
        with ErrText "replay ForgeFlow project: audit project does not match" ;;
      applySecurityRecord store record
  | _, _ => Err (ErrText "replay ForgeFlow journal: malformed save project record")
  end.

Definition replay_put_membership (store : FileStore) (record : journalRecord) : res go_error FileStore :=
  match jr_User record, jr_Membership record, jr_AuditEvent record with
  | Some user, Some membership, Some event =>
      try _ <- rmap_err (wrapf "replay ForgeFlow membership user") (validateUser user) ;;
      try _ <- rmap_err (wrapf "replay ForgeFlow membership") (validateMembership membership) ;;
      fail_if negb (String.eqb (mem_UserID membership) (user_ID user))
              || negb (String.eqb (ev_ProjectID event) (mem_ProjectID membership))
        with ErrText "replay ForgeFlow membership: identities do not match" ;;
      fail_if negb (bool_decide (is_Some (fs_projects store !! mem_ProjectID membership)))
        with ProjectNotFoundError (mem_ProjectID membership) ;;
      applySecurityRecord store record
  | _, _, _ => Err (ErrText "replay ForgeFlow journal: malformed membership record")
  end.

Definition replay_owned_workflow (store : FileStore) (record : journalRecord) : res go_error FileStore :=
  match jr_Workflow record, jr_Ownership record with
  | Some definition, Some ownership =>
      try _ <- rmap_err (fun e => wrapf "replay ForgeFlow owned workflow" (ErrValidation e))
                 (Validate definition) ;;
      try _ <- rmap_err (wrapf "replay ForgeFlow workflow ownership") (validateOwnership ownership) ;;
      fail_if negb (String.eqb (own_WorkflowID ownership) (wd_ID definition))
        with ErrText "replay ForgeFlow owned workflow: ownership identity does not match" ;;
      fail_if negb (bool_decide (is_Some (fs_projects store !! own_ProjectID ownership)))
        with ProjectNotFoundError (own_ProjectID ownership) ;;
      fail_if negb (bool_decide (is_Some (lookup_membership store (own_ProjectID ownership)
                                            (own_OwnerUserID ownership))))
        with ErrText "replay ForgeFlow owned workflow: owner is not a project member" ;;
      fail_if match fs_workflows store !! wd_ID definition with
              | Some existing => negb (bool_decide (existing = definition)) | None => false end
        with WorkflowConflictError (wd_ID definition) ;;
      fail_if match fs_ownerships store !! wd_ID definition with
              | Some existing => negb (bool_decide (existing = ownership)) | None => false end
        with WorkflowOwnershipConflictError (wd_ID definition) ;;
      applySecurityRecord store record
  | _, _ => Err (ErrText "replay ForgeFlow journal: malformed owned workflow record")
  end.

Definition applyRecord (store : FileStore) (record : journalRecord) : res go_error FileStore :=
  let op := jr_Operation record in
  if String.eqb op operationSaveWorkflow then replay_workflow store record
  else if String.eqb op operationCreateRun || String.eqb op operationSaveRun then replay_run store record
  else if String.eqb op operationCreateProject then replay_create_project store record
  else if String.eqb op operationSaveProject then replay_save_project store record
  else if String.eqb op operationPutMembership then replay_put_membership store record
  else if String.eqb op operationSaveOwnedWorkflow then replay_owned_workflow store record
  else Err (ErrText ("replay ForgeFlow journal: unknown operation " +:+ quote op)).

(** ** Opening *)

Definition replayLine (store : FileStore) (line : bytes) : res go_error FileStore :=
  try envelope <- rmap_err (wrapf "decode ForgeFlow journal envelope") (unmarshal_envelope line) ;;
  let '(checksum, payload) := envelope in
  fail_if negb (String.eqb checksum (sha256_hex payload))
    with ErrText "verify ForgeFlow journal record: checksum mismatch" ;;
  try record <- rmap_err (wrapf "decode ForgeFlow journal record") (unmarshal_record payload) ;;
  fail_if negb (jr_Version record =? journalVersion)
    with ErrText ("decode ForgeFlow journal record: unsupported version " +:+ fmt_d (jr_Version record)) ;;
  applyRecord store record.

(** The operating system's answers while a store is opened; [oi_read k] is the
    error, if any, of the [k]-th [ReadBytes]. *)
Record open_io := mkOpenIO {
  oi_abs : option go_error;
  oi_mkdir : option go_error;
  oi_open : option go_error;
  oi_read : nat -> option go_error;
  oi_truncate : option go_error;
  oi_sync : option go_error;
  oi_close : option go_error
}.

Definition open_success : open_io := mkOpenIO None None None (fun _ => None) None None None.

Definition closing (io : open_io) (err : go_error) : go_error :=
  default err (errors_join [Some err; oi_close io]).

(** The loop of [replay] up to the end of the file; the number is [committedOffset]. *)
Fixpoint replay_loop (io : open_io) (k : nat) (store : FileStore) (committed : nat) (lines : list bytes)
  : res go_error (FileStore * nat) :=
  match oi_read io k with
  | Some err => Err (closing io (wrapf "read ForgeFlow journal" err))
  | None =>
      match lines with
      | [] => Ok (store, committed)
      | line :: rest =>
          try store <- rmap_err (closing io) (replayLine store line) ;;
          replay_loop io (S k) store (committed + length line) rest
      end
  end.

(** [replay]: the file it leaves behind and the reconstructed state. *)
Definition replay (io : open_io) (file : bytes) : bytes * res go_error FileStore :=
  match oi_open io with
  | Some err => (file, Err (wrapf "open ForgeFlow journal" err))
  | None =>
      let '(lines, rest) := split_lines file in
      match replay_loop io 0 empty_store 0 lines with
      | Err err => (file, Err err)
      | Ok (store, committed) =>
          let closed : res go_error FileStore :=
            match oi_close io with
            | Some err => Err (wrapf "close ForgeFlow journal" err)
            | None => Ok store
            end in
          match rest with
          | [] => (file, closed)
          | _ =>
              match oi_truncate io with
              | Some err => (file, Err (closing io (wrapf "truncate incomplete ForgeFlow journal record" err)))
              | None =>
                  let file := take committed file in
                  match oi_sync io with
                  | Some err => (file, Err (closing io (wrapf "sync truncated ForgeFlow journal" err)))
                  | None => (file, closed)
                  end
              end
          end
      end
  end.

Definition OpenFileStore (io : open_io) (path : string) (file : bytes) : bytes * res go_error FileStore :=
  if string_is_empty path then (file, Err (ErrText "open ForgeFlow file store: path is empty"))
  else
    match oi_abs io, oi_mkdir io with
    | Some err, _ => (file, Err (wrapf "resolve ForgeFlow file store path" err))
    | None, Some err => (file, Err (wrapf "create ForgeFlow file store directory" err))
    | None, None => replay io file
    end.
End Store.
