(* ===== verification/FileStoreOps.v ===== *)
(** * Operations of the journal store

    The methods of [FileStore] in [src/internal/persistence/file_store.go]. The
    store's lock makes a method one function on memory and disk. A mutating
    method first checks its arguments against memory, then appends one record,
    then changes memory: the checks are its [plan_*] function and [perform] is
    the rest. [ctx] is the context as first read, [ctx_locked] as it is read
    again under the lock. *)
From S2P Require Import Prelude Workflow Heap Graph GraphBuild Errors Run Snapshot Security FileStore.

Record file_state := mkFileState {
  st_memory : FileStore;
  st_disk : disk
}.

(** What a method does once its checks pass: nothing more, or one append
    followed by an assignment to memory. *)
Inductive plan (A : Type) :=
| Skip (value : A)
| Commit (record : journalRecord) (memory : FileStore) (value : A).
Arguments Skip {A} value.
Arguments Commit {A} record memory value.

Section Operations.
Context `{Unicode} `{JournalCodec}.

Definition perform {A : Type} (s : file_state) (p : res go_error (plan A)) : file_state * res go_error A :=
  match p with
  | Err err => (s, Err err)
  | Ok (Skip value) => (s, Ok value)
  | Ok (Commit record memory value) =>
      match appendRecord (st_disk s) record with
      | (d, Ok _) => (mkFileState memory d, Ok value)
      | (d, Err err) => (mkFileState (st_memory s) d, Err err)
      end
  end.

(** ** Workflows and runs *)

Definition plan_SaveWorkflow (store : FileStore) (ctx ctx_locked : context)
    (definition : WorkflowDefinition) : res go_error (plan unit) :=
  try _ <- check_context ctx ;;
  try _ <- rmap_err (fun e => wrapf "save workflow definition" (ErrValidation e)) (Validate definition) ;;
  match fs_workflows store !! wd_ID definition with
  | Some existing =>
      if bool_decide (existing = definition) then Ok (Skip tt)
      else Err (WorkflowConflictError (wd_ID definition))
  | None =>
      try _ <- check_context ctx_locked ;;
      let definition := cloneDefinition definition in
      Ok (Commit (workflow_record definition) (with_workflow store definition) tt)
  end.

Definition SaveWorkflow (s : file_state) (ctx ctx_locked : context) (definition : WorkflowDefinition)
  : file_state * res go_error unit :=
  perform s (plan_SaveWorkflow (st_memory s) ctx ctx_locked definition).

Definition LoadWorkflow (s : file_state) (ctx : context) (workflowID : string)
  : res go_error (option WorkflowDefinition) :=
  try _ <- check_context ctx ;;
  Ok (cloneDefinition <$> fs_workflows (st_memory s) !! workflowID).

Definition plan_CreateRun (store : FileStore) (ctx ctx_locked : context) (snapshot : WorkflowRunSnapshot)
  : res go_error (plan WorkflowRunSnapshot) :=
  try _ <- check_context ctx ;;
  try _ <- rmap_err (wrapf "create workflow run") (validateSnapshot snapshot) ;;
  fail_if bool_decide (is_Some (fs_runs store !! snap_ID snapshot))
    with RunAlreadyExistsError (snap_ID snapshot) ;;
  fail_if negb (snap_Version snapshot =? 0)
    with ErrText ("create workflow run " +:+ quote (snap_ID snapshot) +:+ ": initial version must be zero") ;;
  try _ <- validateRunDefinition store snapshot ;;
  try _ <- check_context ctx_locked ;;
  let snapshot := snapshot_with_version snapshot 1 in
  Ok (Commit (run_record operationCreateRun snapshot) (with_run store snapshot) snapshot).

Definition CreateRun (s : file_state) (ctx ctx_locked : context) (snapshot : WorkflowRunSnapshot)
  : file_state * res go_error WorkflowRunSnapshot :=
  perform s (plan_CreateRun (st_memory s) ctx ctx_locked snapshot).

Definition plan_SaveRun (store : FileStore) (ctx ctx_locked : context) (snapshot : WorkflowRunSnapshot)
  : res go_error (plan WorkflowRunSnapshot) :=
  try _ <- check_context ctx ;;
  try _ <- rmap_err (wrapf "save workflow run") (validateSnapshot snapshot) ;;
  match fs_runs store !! snap_ID snapshot with
  | None => Err (RunNotFoundError (snap_ID snapshot))
  | Some current =>
      fail_if negb (snap_Version snapshot =? snap_Version current)
        with RunVersionConflictError (snap_ID snapshot) (snap_Version snapshot) (snap_Version current) ;;
      try _ <- validateRunDefinition store snapshot ;;
      try _ <- check_context ctx_locked ;;
      let snapshot := snapshot_with_version snapshot (wrap_uint64 (snap_Version snapshot + 1)) in
      Ok (Commit (run_record operationSaveRun snapshot) (with_run store snapshot) snapshot)
  end.

Definition SaveRun (s : file_state) (ctx ctx_locked : context) (snapshot : WorkflowRunSnapshot)
  : file_state * res go_error WorkflowRunSnapshot :=
  perform s (plan_SaveRun (st_memory s) ctx ctx_locked snapshot).

Definition LoadRun (s : file_state) (ctx : context) (runID : string)
  : res go_error (option WorkflowRunSnapshot) :=
  try _ <- check_context ctx ;;
  Ok (fs_runs (st_memory s) !! runID).

(** ** Projects, memberships and ownership *)

(** The methods of this group discard the error of [applySecurityRecord], which
    fails before it changes anything. *)
Definition commit_security (store : FileStore) (record : journalRecord) : plan unit :=
  Commit record (match applySecurityRecord store record with Ok store' => store' | Err _ => store end) tt.

(** A known user keeps its stored record; a disabled one is refused. *)
Definition resolve_user (store : FileStore) (user : User) : res go_error User :=
  match fs_users store !! user_ID user with
  | Some existing =>
      fail_if user_Disabled existing with UserDisabledError (user_ID user) ;;
      Ok existing
  | None => Ok user
  end.

Definition plan_CreateProject (store : FileStore) (ctx : context) (user : User) (project : Project)
    (membership : Membership) (event : AuditEvent) : res go_error (plan unit) :=
  try _ <- validateProjectCreation ctx user project membership event ;;
  fail_if bool_decide (is_Some (fs_projects store !! proj_ID project))
    with ProjectAlreadyExistsError (proj_ID project) ;;
  try user <- resolve_user store user ;;
  fail_if bool_decide (ev_ID event ∈ fs_auditIDs store) with AuditEventAlreadyExistsError (ev_ID event) ;;
  Ok (commit_security store (create_project_record user project membership event)).

Definition CreateProject (s : file_state) (ctx : context) (user : User) (project : Project)
    (membership : Membership) (event : AuditEvent) : file_state * res go_error unit :=
  perform s (plan_CreateProject (st_memory s) ctx user project membership event).

Definition LoadUser (s : file_state) (ctx : context) (userID : string) : res go_error (option User) :=
  try _ <- check_context ctx ;;
  Ok (fs_users (st_memory s) !! userID).

Definition LoadProject (s : file_state) (ctx : context) (projectID : string)
  : res go_error (option Project) :=
  try _ <- check_context ctx ;;
  Ok (fs_projects (st_memory s) !! projectID).

Definition plan_SaveProject (store : FileStore) (ctx : context) (project : Project) (event : AuditEvent)
  : res go_error (plan unit) :=
  try _ <- check_context ctx ;;
  try _ <- rmap_err (wrapf "save project") (validateProject project) ;;
  try _ <- rmap_err (wrapf "save project audit event") (validateAuditEvent event) ;;
  fail_if negb (String.eqb (ev_ProjectID event) (proj_ID project))
    with ErrText "save project: audit event belongs to another project" ;;
  match fs_projects store !! proj_ID project with
  | None => Err (ProjectNotFoundError (proj_ID project))
  | Some existing =>
      fail_if negb (proj_CreatedAt existing =? proj_CreatedAt project)
              || negb (String.eqb (proj_CreatedBy existing) (proj_CreatedBy project))
        with ErrText "save project: immutable creator fields changed" ;;
      fail_if bool_decide (ev_ID event ∈ fs_auditIDs store) with AuditEventAlreadyExistsError (ev_ID event) ;;
      Ok (commit_security store (save_project_record project event))
  end.

Definition SaveProject (s : file_state) (ctx : context) (project : Project) (event : AuditEvent)
  : file_state * res go_error unit :=
  perform s (plan_SaveProject (st_memory s) ctx project event).

(** An existing membership keeps its creation time, and its update time must not
    go back. *)
Definition resolve_membership (store : FileStore) (m : Membership) : res go_error Membership :=
  match lookup_membership store (mem_ProjectID m) (mem_UserID m) with
  | Some existing =>
      fail_if time_before (mem_UpdatedAt m) (mem_UpdatedAt existing)
        with ErrText "put membership: update timestamp moved backwards" ;;
      Ok (mkMembership (mem_ProjectID m) (mem_UserID m) (mem_Role m) (mem_CreatedAt existing) (mem_UpdatedAt m))
  | None => Ok m
  end.

Definition plan_PutMembership (store : FileStore) (ctx : context) (user : User) (membership : Membership)
    (event : AuditEvent) : res go_error (plan unit) :=
  try _ <- check_context ctx ;;
  try _ <- rmap_err (wrapf "put membership user") (validateUser user) ;;
  try _ <- rmap_err (wrapf "put membership") (validateMembership membership) ;;
  try _ <- rmap_err (wrapf "put membership audit event") (validateAuditEvent event) ;;
  fail_if negb (String.eqb (mem_UserID membership) (user_ID user))
          || negb (String.eqb (ev_ProjectID event) (mem_ProjectID membership))
    with ErrText "put membership: user or audit project does not match membership" ;;
  fail_if negb (bool_decide (is_Some (fs_projects store !! mem_ProjectID membership)))
    with ProjectNotFoundError (mem_ProjectID membership) ;;
  try user <- resolve_user store user ;;
  try membership <- resolve_membership store membership ;;
  fail_if bool_decide (ev_ID event ∈ fs_auditIDs store) with AuditEventAlreadyExistsError (ev_ID event) ;;
  Ok (commit_security store (put_membership_record user membership event)).

Definition PutMembership (s : file_state) (ctx : context) (user : User) (membership : Membership)
    (event : AuditEvent) : file_state * res go_error unit :=
  perform s (plan_PutMembership (st_memory s) ctx user membership event).

Definition LoadMembership (s : file_state) (ctx : context) (projectID userID : string)
  : res go_error (option Membership) :=
  try _ <- check_context ctx ;;
  Ok (lookup_membership (st_memory s) projectID userID).

Definition ListMemberships (s : file_state) (ctx : context) (projectID : string)
  : res go_error (list Membership) :=
  try _ <- check_context ctx ;;
  Ok (sort_by mem_UserID (map_values (default ∅ (fs_memberships (st_memory s) !! projectID)))).

Definition plan_SaveWorkflowForProject (store : FileStore) (ctx : context)
    (definition : WorkflowDefinition) (ownership : WorkflowOwnership) : res go_error (plan unit) :=
  try _ <- check_context ctx ;;
  try _ <- rmap_err (fun e => wrapf "save owned workflow definition" (ErrValidation e)) (Validate definition) ;;
  try _ <- rmap_err (wrapf "save workflow ownership") (validateOwnership ownership) ;;
  fail_if negb (String.eqb (own_WorkflowID ownership) (wd_ID definition))
    with ErrText "save workflow ownership: definition identity does not match" ;;
  fail_if negb (bool_decide (is_Some (fs_projects store !! own_ProjectID ownership)))
    with ProjectNotFoundError (own_ProjectID ownership) ;;
  fail_if negb (bool_decide (is_Some (lookup_membership store (own_ProjectID ownership)
                                        (own_OwnerUserID ownership))))
    with ErrText "save workflow ownership: owner is not a project member" ;;
  fail_if default false (user_Disabled <$> fs_users store !! own_OwnerUserID ownership)
    with UserDisabledError (own_OwnerUserID ownership) ;;
  fail_if match fs_workflows store !! wd_ID definition with
          | Some existing => negb (bool_decide (existing = definition)) | None => false end
    with WorkflowConflictError (wd_ID definition) ;;
  match fs_ownerships store !! wd_ID definition with
  | Some existing =>
      if bool_decide (existing = ownership) then Ok (Skip tt)
      else Err (WorkflowOwnershipConflictError (wd_ID definition))
  | None => Ok (commit_security store (owned_workflow_record (cloneDefinition definition) ownership))
  end.

Definition SaveWorkflowForProject (s : file_state) (ctx : context) (definition : WorkflowDefinition)
    (ownership : WorkflowOwnership) : file_state * res go_error unit :=
  perform s (plan_SaveWorkflowForProject (st_memory s) ctx definition ownership).

Definition LoadWorkflowOwnership (s : file_state) (ctx : context) (workflowID : string)
  : res go_error (option WorkflowOwnership) :=
  try _ <- check_context ctx ;;
  Ok (fs_ownerships (st_memory s) !! workflowID).

(** The loop that copies the newest [limit] events, last first. *)
Definition ListAuditEvents (s : file_state) (ctx : context) (projectID : string) (limit : Z)
  : res go_error (list AuditEvent) :=
  try _ <- check_context ctx ;;
  fail_if (limit <=? 0) || (1000 <? limit)
    with ErrText "list audit events: limit must be between 1 and 1000" ;;
  let source := default [] (fs_auditEvents (st_memory s) !! projectID) in
  Ok (take (Z.to_nat limit) (rev source)).
End Operations.
