(* ===== verification/FileStoreInv.v ===== *)
(** * The journal describes the memory

    Every record that a method of the store appends, when it is replayed on the
    memory the method started from, gives the memory the method ends with. *)
From S2P Require Import Prelude Workflow Heap Graph GraphBuild GraphOrder Errors Run Snapshot RunInv Security FileStore FileStoreOps.

(** Decompose a successful run of a body with guards and early returns. *)
Ltac run_ok :=
  repeat match goal with
  | H : rbind _ _ = Ok _ |- _ =>
      let v := fresh "v" in let Hm := fresh "Hm" in
      apply rbind_ok in H as (v & Hm & H); rewrite ?rmap_err_ok in Hm
  | H : guard_err _ _ _ = Ok _ |- _ =>
      let Hg := fresh "Hg" in apply guard_err_ok in H as [Hg H]
  | v : unit |- _ => destruct v
  end.

(** Replay a body whose checks are known to pass. *)
Ltac checks_pass :=
  repeat (cbn [rmap_err rbind guard_err];
    match goal with
    | Hx : ?c = Ok tt |- context [?c] => rewrite Hx
    | Hx : ?c = false |- context [guard_err ?c] => rewrite Hx
    end).

(** ** Mutating operations *)

Inductive store_op :=
| OpSaveWorkflow (ctx ctx_locked : context) (definition : WorkflowDefinition)
| OpCreateRun (ctx ctx_locked : context) (snapshot : WorkflowRunSnapshot)
| OpSaveRun (ctx ctx_locked : context) (snapshot : WorkflowRunSnapshot)
| OpCreateProject (ctx : context) (user : User) (project : Project) (membership : Membership)
    (event : AuditEvent)
| OpSaveProject (ctx : context) (project : Project) (event : AuditEvent)
| OpPutMembership (ctx : context) (user : User) (membership : Membership) (event : AuditEvent)
| OpSaveWorkflowForProject (ctx : context) (definition : WorkflowDefinition)
    (ownership : WorkflowOwnership).

Definition forget {A : Type} (p : plan A) : plan unit :=
  match p with
  | Skip _ => Skip tt
  | Commit record memory _ => Commit record memory tt
  end.

Definition rforget {A : Type} (p : res go_error (plan A)) : res go_error (plan unit) :=
  try q <- p ;; Ok (forget q).

Section Invariant.
Context `{Unicode} `{JournalCodec}.

Definition plan_of (store : FileStore) (op : store_op) : res go_error (plan unit) :=
  match op with
  | OpSaveWorkflow ctx ctx' definition => plan_SaveWorkflow store ctx ctx' definition
  | OpCreateRun ctx ctx' snapshot => rforget (plan_CreateRun store ctx ctx' snapshot)
  | OpSaveRun ctx ctx' snapshot => rforget (plan_SaveRun store ctx ctx' snapshot)
  | OpCreateProject ctx user project membership event =>
      plan_CreateProject store ctx user project membership event
  | OpSaveProject ctx project event => plan_SaveProject store ctx project event
  | OpPutMembership ctx user membership event => plan_PutMembership store ctx user membership event
  | OpSaveWorkflowForProject ctx definition ownership =>
      plan_SaveWorkflowForProject store ctx definition ownership
  end.

Definition exec_op (s : file_state) (op : store_op) : file_state * res go_error unit :=
  perform s (plan_of (st_memory s) op).

(** The state after an operation does not depend on the value it returns. *)
Lemma perform_forget {A : Type} (s : file_state) (p : res go_error (plan A)) :
  fst (perform s (rforget p)) = fst (perform s p).
Proof.
  destruct p as [[v|record memory v]|e]; cbn; [done| |done].
  by destruct (appendRecord (st_disk s) record) as [d [[]|e]].
Qed.

(** ** The invariant of the memory *)

Record memory_inv (store : FileStore) : Prop := {
  mi_workflows : forall k d, fs_workflows store !! k = Some d -> wd_ID d = k /\ cloneDefinition d = d;
  mi_users : forall k u, fs_users store !! k = Some u -> user_ID u = k /\ validateUser u = Ok tt;
  mi_memberships : forall p k m, lookup_membership store p k = Some m ->
    mem_ProjectID m = p /\ mem_UserID m = k /\ validateMembership m = Ok tt
}.

Lemma memory_inv_empty : memory_inv empty_store.
Proof. split; unfold lookup_membership; cbn; intros *; rewrite ?lookup_empty; done. Qed.

Lemma Validate_clone (d : WorkflowDefinition) :
  Validate d = Ok tt -> Validate (cloneDefinition d) = Ok tt.
Proof.
  rewrite !Validate_ok_iff. intros [Hs Ha]. split; [by apply structurally_valid_clone|by apply acyclic_clone].
Qed.

Lemma with_workflow_inv (store : FileStore) (d : WorkflowDefinition) :
  memory_inv store -> memory_inv (with_workflow store (cloneDefinition d)).
Proof.
  intros [Hw Hu Hm]. split; [|done|done]. cbn. intros k e. rewrite lookup_insert.
  case_decide; [|apply Hw]. intros [= <-]. split; [done|apply cloneDefinition_idemp].
Qed.

(** [applySecurityRecord] on a record whose user and membership are valid. *)
Lemma applySecurityRecord_inv (store store' : FileStore) (record : journalRecord) :
  memory_inv store -> applySecurityRecord store record = Ok store' ->
  (forall u, jr_User record = Some u -> validateUser u = Ok tt) ->
  (forall m, jr_Membership record = Some m -> validateMembership m = Ok tt) ->
  memory_inv store'.
Proof.
  intros [Hw Hu Hm] Ha Hvu Hvm. unfold applySecurityRecord in Ha. run_ok. simplify_eq/=.
  split; cbn.
  - intros k d. destruct (jr_Workflow record) as [e|]; cbn; [|apply Hw].
    rewrite lookup_insert. case_decide; [|apply Hw]. intros [= <-].
    split; [done|apply cloneDefinition_idemp].
  - intros k u. unfold apply_user in Hm1. destruct (jr_User record) as [w|]; [|simplify_eq; apply Hu].
    destruct (fs_users store !! user_ID w); run_ok; simplify_eq; [apply Hu|].
    rewrite lookup_insert. case_decide; [|apply Hu]. intros [= <-]. split; [done|by apply Hvu].
  - intros p k m. unfold lookup_membership. cbn. destruct (jr_Membership record) as [n|]; cbn; [|apply Hm].
    unfold put_membership. rewrite lookup_insert. case_decide as Ep; cbn; [|apply Hm].
    rewrite lookup_insert. case_decide as Ek; [|].
    + intros [= <-]. split; [done|]. split; [done|]. by apply Hvm.
    + intros Hk. apply Hm. unfold lookup_membership. rewrite <- Ep.
      destruct (fs_memberships store !! mem_ProjectID n); [done|]. cbn in Hk. by rewrite lookup_empty in Hk.
Qed.

Lemma resolve_user_ok (store : FileStore) (user v : User) :
  memory_inv store -> validateUser user = Ok tt -> resolve_user store user = Ok v ->
  user_ID v = user_ID user /\ validateUser v = Ok tt /\
  apply_user (fs_users store) (Some v) =
  Ok (if decide (is_Some (fs_users store !! user_ID user)) then fs_users store
      else <[user_ID v := v]> (fs_users store)).
Proof.
  intros Hi Hv Hr. unfold resolve_user in Hr.
  destruct (fs_users store !! user_ID user) as [e|] eqn:E; run_ok; simplify_eq.
  - destruct (mi_users _ Hi _ _ E) as [Hid Hve]. split; [done|]. split; [done|].
    unfold apply_user. rewrite Hid, E, Bool.eqb_reflx. cbn. done.
  - split; [done|]. split; [done|]. unfold apply_user. by rewrite E.
Qed.

Lemma validateMembership_ok (m : Membership) :
  validateMembership m = Ok tt <->
  security_identifier (mem_ProjectID m) = true /\ security_identifier (mem_UserID m) = true /\
  validateRole (mem_Role m) = Ok tt /\ mem_CreatedAt m <> zero_time /\ mem_CreatedAt m <= mem_UpdatedAt m.
Proof.
  unfold validateMembership, time_is_zero, time_before. split.
  - intros Hv. run_ok. rewrite ?Bool.orb_false_iff, ?Bool.negb_false_iff in *.
    rewrite Z.eqb_neq, Z.ltb_ge in *. tauto.
  - intros (-> & -> & -> & Hz & Hle). cbn.
    by replace ((mem_CreatedAt m =? zero_time) || (mem_UpdatedAt m <? mem_CreatedAt m)) with false by lia.
Qed.

Lemma resolve_membership_ok (store : FileStore) (m v : Membership) :
  memory_inv store -> validateMembership m = Ok tt -> resolve_membership store m = Ok v ->
  mem_ProjectID v = mem_ProjectID m /\ mem_UserID v = mem_UserID m /\ mem_Role v = mem_Role m /\
  validateMembership v = Ok tt.
Proof.
  intros Hi Hv Hr. unfold resolve_membership in Hr.
  destruct (lookup_membership store _ _) as [e|] eqn:E; run_ok; simplify_eq/=; [|done].
  split; [done|]. split; [done|]. split; [done|].
  destruct (mi_memberships _ Hi _ _ _ E) as (_ & _ & He).
  rewrite validateMembership_ok in *. cbn. unfold time_before in *. intuition lia.
Qed.
(** ** Replaying what was appended *)

(** The record of a plan replays to the memory of the plan. *)
Definition replays {A : Type} (store : FileStore) (p : plan A) : Prop :=
  match p with
  | Skip _ => True
  | Commit record memory _ =>
      applyRecord store record = Ok memory /\ memory_inv memory /\ jr_Version record = journalVersion
  end.

Lemma SaveWorkflow_replays (store : FileStore) (ctx ctx' : context) (d : WorkflowDefinition) (p : plan unit) :
  memory_inv store -> plan_SaveWorkflow store ctx ctx' d = Ok p -> replays store p.
Proof.
  intros Hi Hp. unfold plan_SaveWorkflow in Hp. run_ok.
  destruct (fs_workflows store !! wd_ID d) as [e|] eqn:E; [by case_bool_decide; simplify_eq|].
  run_ok. simplify_eq/=. split; [|split; [by apply with_workflow_inv|done]].
  unfold replay_workflow. cbn. rewrite Validate_clone, E by done. cbn. by rewrite cloneDefinition_idemp.
Qed.

(** Validation and reconstruction do not read the version. *)
Lemma validateSnapshot_version (snapshot : WorkflowRunSnapshot) (v : Z) :
  validateSnapshot (snapshot_with_version snapshot v) = validateSnapshot snapshot.
Proof. reflexivity. Qed.

Lemma restoreWorkflowRun_version (snapshot : WorkflowRunSnapshot) (d : WorkflowDefinition) (v : Z) :
  restoreWorkflowRun (snapshot_with_version snapshot v) d =
  try run <- restoreWorkflowRun snapshot d ;; Ok (setPersistedVersion run v).
Proof.
  unfold restoreWorkflowRun. rewrite validateSnapshot_version.
  change (restore_task (snapshot_with_version snapshot v)) with (restore_task snapshot).
  cbn [snapshot_with_version snap_ID snap_WorkflowID snap_Status snap_CreatedAt snap_UpdatedAt snap_Tasks
       snap_Workers snap_Version].
  destruct (validateSnapshot snapshot); cbn [rbind]; [|done].
  destruct (Validate d); cbn [rbind rmap_err]; [|done].
  unfold guard_err. destruct (negb (String.eqb _ _)); [done|]. destruct (negb (Nat.eqb _ _)); [done|].
  by destruct (List.find _ _).
Qed.

Lemma validateRunDefinition_version (store : FileStore) (snapshot : WorkflowRunSnapshot) (v : Z) :
  validateRunDefinition store snapshot = Ok tt ->
  validateRunDefinition store (snapshot_with_version snapshot v) = Ok tt.
Proof.
  unfold validateRunDefinition. cbn [snap_WorkflowID snapshot_with_version].
  destruct (fs_workflows store !! _) as [d|]; [|done]. rewrite restoreWorkflowRun_version.
  by destruct (restoreWorkflowRun snapshot d).
Qed.

Lemma CreateRun_replays (store : FileStore) (ctx ctx' : context) (snapshot : WorkflowRunSnapshot)
    (p : plan WorkflowRunSnapshot) :
  memory_inv store -> plan_CreateRun store ctx ctx' snapshot = Ok p -> replays store p.
Proof.
  intros [Hw Hu Hm] Hp. unfold plan_CreateRun in Hp. run_ok. simplify_eq. split; [|split; done].
  change (replay_run store (run_record operationCreateRun (snapshot_with_version snapshot 1)) =
          Ok (with_run store (snapshot_with_version snapshot 1))).
  unfold replay_run. cbn [jr_Run jr_Workflow jr_Operation run_record snap_ID snapshot_with_version snap_Version].
  change (1 =? 0) with false. cbn iota. rewrite validateSnapshot_version, validateRunDefinition_version by done.
  match goal with Hs : validateSnapshot _ = _ |- _ => rewrite Hs end. cbn [rmap_err rbind].
  match goal with Hx : bool_decide (is_Some _) = false |- _ => rewrite Hx end. done.
Qed.

Lemma SaveRun_replays (store : FileStore) (ctx ctx' : context) (snapshot : WorkflowRunSnapshot)
    (p : plan WorkflowRunSnapshot) :
  memory_inv store -> plan_SaveRun store ctx ctx' snapshot = Ok p -> replays store p.
Proof.
  intros [Hw Hu Hm] Hp. unfold plan_SaveRun in Hp. run_ok.
  destruct (fs_runs store !! snap_ID snapshot) as [current|] eqn:E; [|done]. run_ok.
  rename Hg into Hv. apply Bool.negb_false_iff, Z.eqb_eq in Hv. simplify_eq. rewrite Hv. split; [|split; done].
  set (next := wrap_uint64 (snap_Version current + 1)).
  change (replay_run store (run_record operationSaveRun (snapshot_with_version snapshot next)) =
          Ok (with_run store (snapshot_with_version snapshot next))).
  unfold replay_run.
  cbn [jr_Run jr_Workflow jr_Operation run_record snap_ID snapshot_with_version snap_Version].
  rewrite E, bool_decide_eq_true_2 by done. cbn [fmap option_fmap option_map default id].
  fold next.
  assert (Hrun : (if next =? 0 then snapshot_with_version (snapshot_with_version snapshot next) next
                  else snapshot_with_version snapshot next) = snapshot_with_version snapshot next)
    by by destruct (next =? 0).
  rewrite Hrun, validateSnapshot_version, validateRunDefinition_version by done.
  match goal with Hs : validateSnapshot _ = _ |- _ => rewrite Hs end. cbn.
  by rewrite Z.eqb_refl.
Qed.

Lemma commit_security_replays (store : FileStore) (record : journalRecord) :
  memory_inv store -> jr_Version record = journalVersion ->
  is_ok (applySecurityRecord store record) = true ->
  (forall u, jr_User record = Some u -> validateUser u = Ok tt) ->
  (forall m, jr_Membership record = Some m -> validateMembership m = Ok tt) ->
  applyRecord store record = applySecurityRecord store record ->
  replays store (commit_security store record).
Proof.
  intros Hi Hv Hok Hu Hm Ha. cbn. rewrite Ha.
  destruct (applySecurityRecord store record) as [store'|e] eqn:E; [|done].
  split; [done|]. split; [|done]. by eapply applySecurityRecord_inv.
Qed.

(** What the checks of the audit event establish. *)
Lemma check_audit_ok (store : FileStore) (event : AuditEvent) :
  validateAuditEvent event = Ok tt -> bool_decide (ev_ID event ∈ fs_auditIDs store) = false ->
  check_audit store (Some event) = Ok tt.
Proof. intros Hv Hf. cbn. by rewrite Hv, Hf. Qed.

Lemma CreateProject_replays (store : FileStore) (ctx : context) (user : User) (project : Project)
    (membership : Membership) (event : AuditEvent) (p : plan unit) :
  memory_inv store -> plan_CreateProject store ctx user project membership event = Ok p -> replays store p.
Proof.
  intros Hi Hp. unfold plan_CreateProject in Hp. run_ok. simplify_eq.
  unfold validateProjectCreation in Hm. run_ok.
  match goal with Hr : resolve_user _ _ = Ok _ |- _ =>
    destruct (resolve_user_ok _ _ _ Hi ltac:(eassumption) Hr) as (Hid & Hvu & Happ) end.
  apply commit_security_replays; [done|done| | | |].
  - unfold applySecurityRecord. cbn [create_project_record jr_AuditEvent jr_User].
    rewrite check_audit_ok by done. cbn [rbind]. by rewrite Happ.
  - by intros u [= <-].
  - by intros m [= <-].
  - change (replay_create_project store (create_project_record v0 project membership event) =
            applySecurityRecord store (create_project_record v0 project membership event)).
    unfold replay_create_project. cbn [create_project_record jr_User jr_Project jr_Membership jr_AuditEvent].
    unfold validateProjectCreation. cbn [check_context storeContextError rbind].
    rewrite Hid. by checks_pass.
Qed.

Lemma SaveProject_replays (store : FileStore) (ctx : context) (project : Project) (event : AuditEvent)
    (p : plan unit) :
  memory_inv store -> plan_SaveProject store ctx project event = Ok p -> replays store p.
Proof.
  intros Hi Hp. unfold plan_SaveProject in Hp. run_ok.
  destruct (fs_projects store !! proj_ID project) as [existing|] eqn:E; [|done]. run_ok. simplify_eq.
  apply commit_security_replays; [done|done| |done|done|].
  - unfold applySecurityRecord. cbn [save_project_record jr_AuditEvent jr_User].
    by rewrite check_audit_ok by done.
  - change (replay_save_project store (save_project_record project event) =
            applySecurityRecord store (save_project_record project event)).
    unfold replay_save_project. cbn [save_project_record jr_Project jr_AuditEvent].
    rewrite E, bool_decide_eq_true_2 by done. by checks_pass.
Qed.

Lemma PutMembership_replays (store : FileStore) (ctx : context) (user : User) (membership : Membership)
    (event : AuditEvent) (p : plan unit) :
  memory_inv store -> plan_PutMembership store ctx user membership event = Ok p -> replays store p.
Proof.
  intros Hi Hp. unfold plan_PutMembership in Hp. run_ok. simplify_eq.
  match goal with Hr : resolve_user _ _ = Ok ?v, Hs : resolve_membership _ _ = Ok ?m |- _ =>
    destruct (resolve_user_ok _ _ _ Hi ltac:(eassumption) Hr) as (Hid & Hvu & Happ);
    destruct (resolve_membership_ok _ _ _ Hi ltac:(eassumption) Hs) as (Hpid & Huid & _ & Hvm);
    rename v into u; rename m into n end.
  apply commit_security_replays; [done|done| | | |].
  - unfold applySecurityRecord. cbn [put_membership_record jr_AuditEvent jr_User].
    rewrite check_audit_ok by done. cbn [rbind]. by rewrite Happ.
  - by intros w [= <-].
  - by intros m [= <-].
  - change (replay_put_membership store (put_membership_record u n event) =
            applySecurityRecord store (put_membership_record u n event)).
    unfold replay_put_membership. cbn [put_membership_record jr_User jr_Membership jr_AuditEvent].
    rewrite Hid, Hpid, Huid. by checks_pass.
Qed.

Lemma SaveWorkflowForProject_replays (store : FileStore) (ctx : context) (d : WorkflowDefinition)
    (ownership : WorkflowOwnership) (p : plan unit) :
  memory_inv store -> plan_SaveWorkflowForProject store ctx d ownership = Ok p -> replays store p.
Proof.
  intros Hi Hp. unfold plan_SaveWorkflowForProject in Hp. run_ok.
  destruct (fs_ownerships store !! wd_ID d) as [existing|] eqn:E; [by case_bool_decide; simplify_eq|].
  simplify_eq. apply commit_security_replays; [done|done|done|done|done|].
  change (replay_owned_workflow store (owned_workflow_record (cloneDefinition d) ownership) =
          applySecurityRecord store (owned_workflow_record (cloneDefinition d) ownership)).
  unfold replay_owned_workflow. cbn [owned_workflow_record jr_Workflow jr_Ownership].
  rewrite Validate_clone by done. cbn [cloneDefinition wd_ID]. rewrite E. checks_pass.
  destruct (fs_workflows store !! wd_ID d) as [w|] eqn:Ew; [|done].
  destruct (mi_workflows _ Hi _ _ Ew) as [_ Hw].
  match goal with Hx : negb (bool_decide (w = d)) = false |- _ =>
    apply Bool.negb_false_iff, bool_decide_eq_true in Hx; subst w end.
  change (mkWorkflowDefinition (wd_ID d) (cloneTask <$> wd_Tasks d)) with (cloneDefinition d).
  by rewrite Hw, bool_decide_eq_true_2.
Qed.

Lemma rforget_ok {A : Type} (p : res go_error (plan A)) (q : plan unit) :
  rforget p = Ok q -> exists r, p = Ok r /\ q = forget r.
Proof. destruct p as [r|]; cbn; naive_solver. Qed.

Lemma plan_of_replays (store : FileStore) (op : store_op) (p : plan unit) :
  memory_inv store -> plan_of store op = Ok p -> replays store p.
Proof.
  intros Hi Hp. destruct op; cbn in Hp.
  - by eapply SaveWorkflow_replays.
  - apply rforget_ok in Hp as (r & Hr & ->). apply CreateRun_replays in Hr; [|done]. by destruct r.
  - apply rforget_ok in Hp as (r & Hr & ->). apply SaveRun_replays in Hr; [|done]. by destruct r.
  - by eapply CreateProject_replays.
  - by eapply SaveProject_replays.
  - by eapply PutMembership_replays.
  - by eapply SaveWorkflowForProject_replays.
Qed.
End Invariant.
