(* ===== verification/FileStoreJournal.v ===== *)
(** * Durability of the journal store

    What reopening the journal reconstructs: after complete appends, after a
    crash in the middle of an append, and after an append that failed half-way
    while the process went on. *)
From S2P Require Import Prelude Workflow Heap Graph GraphBuild GraphOrder Errors Run Snapshot RunInv Security FileStore FileStoreOps FileStoreInv.

(** ** Records that JSON represents exactly

    [encoding/json] replaces invalid UTF-8 by U+FFFD. *)

Definition utf8_valid (s : string) : bool :=
  forallb (fun '(r, w) => negb ((r =? rune_error) && Nat.eqb w 1)) (runes s).

Definition task_strings (task : TaskDefinition) : list string :=
  [td_ID task; td_Name task; td_Handler task; td_Input task] ++ deps task.
Definition lease_strings (lease : TaskLease) : list string :=
  [lease_WorkerID lease; lease_TaskRunID lease; lease_AttemptID lease].
Definition task_run_strings (t : TaskRun) : list string :=
  [tr_TaskID t; tr_TaskRunID t; tr_Output t; tr_Error t; tr_CurrentAttemptID t]
  ++ default [] (lease_strings <$> tr_Lease t).
Definition metadata_strings (metadata : gmap string string) : list string :=
  map_to_list metadata ≫= (fun '(k, v) => [k; v]).
Definition option_strings {A : Type} (f : A -> list string) (a : option A) : list string :=
  default [] (f <$> a).

Definition record_strings (r : journalRecord) : list string :=
  [jr_Operation r]
  ++ option_strings (fun d => wd_ID d :: (wd_Tasks d ≫= task_strings)) (jr_Workflow r)
  ++ option_strings (fun s => [snap_ID s; snap_WorkflowID s] ++ (snap_Tasks s ≫= task_run_strings)
                              ++ (hb_WorkerID <$> snap_Workers s)) (jr_Run r)
  ++ option_strings (fun u => [user_ID u; user_DisplayName u]) (jr_User r)
  ++ option_strings (fun p => [proj_ID p; proj_Name p; proj_CreatedBy p]) (jr_Project r)
  ++ option_strings (fun m => [mem_ProjectID m; mem_UserID m]) (jr_Membership r)
  ++ option_strings (fun o => [own_WorkflowID o; own_ProjectID o; own_OwnerUserID o]) (jr_Ownership r)
  ++ option_strings (fun e => [ev_ID e; ev_ProjectID e; ev_ActorUserID e; ev_Action e; ev_ResourceType e;
                               ev_ResourceID e] ++ metadata_strings (default ∅ (ev_Metadata e)))
       (jr_AuditEvent r).

(** Valid UTF-8 throughout, and no status or role outside the declared ones. *)
Record record_faithful (r : journalRecord) : Prop := {
  rf_text : Forall (fun s => utf8_valid s = true) (record_strings r);
  rf_run : forall s, jr_Run r = Some s -> workflow_status_valid (snap_Status s) = true /\
    Forall (fun t => task_status_valid (tr_Status t) = true) (snap_Tasks s);
  rf_role : forall m raw, jr_Membership r = Some m -> mem_Role m <> RoleOther raw
}.

(** What the store relies on: decoding inverts encoding, an encoded value is one
    line, and a JSON object that is cut off, or complete, followed by another
    object is not a JSON text. *)
Class JournalCodecLaws `{JournalCodec} : Prop := {
  record_roundtrip r p : record_faithful r -> marshal_record r = Ok p -> unmarshal_record p = Ok r;
  envelope_roundtrip r p e : marshal_record r = Ok p -> marshal_envelope (sha256_hex p) p = Ok e ->
    unmarshal_envelope (e ++ [newline]) = Ok (sha256_hex p, p);
  envelope_line r p e : marshal_record r = Ok p -> marshal_envelope (sha256_hex p) p = Ok e -> newline ∉ e;
  envelope_framing r1 p1 e1 r2 p2 e2 (k : nat) :
    marshal_record r1 = Ok p1 -> marshal_envelope (sha256_hex p1) p1 = Ok e1 ->
    marshal_record r2 = Ok p2 -> marshal_envelope (sha256_hex p2) p2 = Ok e2 ->
    (0 < k <= length e1)%nat ->
    is_ok (unmarshal_envelope (take k e1 ++ e2 ++ [newline])) = false
}.

(** ** Lines *)

Lemma split_lines_line (e rest : bytes) :
  newline ∉ e ->
  split_lines (e ++ newline :: rest) =
  ((e ++ [newline]) :: fst (split_lines rest), snd (split_lines rest)).
Proof.
  induction e as [|c e IH]; intros Hn; cbn [split_lines app].
  - by destruct (split_lines rest).
  - rewrite IH by set_solver. rewrite bool_decide_eq_false_2 by set_solver. done.
Qed.

Lemma split_lines_tail (t : bytes) : newline ∉ t -> split_lines t = ([], t).
Proof.
  induction t as [|c t IH]; intros Hn; [done|]. cbn [split_lines].
  rewrite IH by set_solver. by rewrite bool_decide_eq_false_2 by set_solver.
Qed.

Definition is_line (l : bytes) : Prop := exists e, l = e ++ [newline] /\ newline ∉ e.

Lemma split_lines_concat (lines : list bytes) (t : bytes) :
  Forall is_line lines -> newline ∉ t -> split_lines (concat lines ++ t) = (lines, t).
Proof.
  intros HF Ht. induction HF as [|l lines (e & -> & He) _ IH]; [by apply split_lines_tail|].
  cbn [concat]. rewrite <- !app_assoc. cbn [app]. by rewrite split_lines_line, IH.
Qed.

(** ** Writing *)

Definition clean_io (io : append_io) : Prop :=
  is_Some (io_open io) \/
  (Forall (fun '(n, e) => n <> 0%nat /\ e = None) (io_writes io) /\ io_sync io = None /\ io_close io = None).

Lemma writeAll_clean (results : list write_result) (file data : bytes) :
  Forall (fun '(n, e) => n <> 0%nat /\ e = None) results -> writeAll results file data = (file ++ data, None).
Proof.
  intros HF. revert file data. induction HF as [|[n e] results [Hn ->] _ IH]; intros file [|c data];
    cbn; rewrite ?app_nil_r; try done.
  destruct n as [|n]; [done|]. cbn. rewrite IH, <- app_assoc. cbn. by rewrite take_drop.
Qed.

Section Journal.
Context `{Unicode} `{!JournalCodec} `{!JournalCodecLaws}.

Lemma encode_line_ok (r : journalRecord) (line : bytes) :
  encode_line r = Ok line <->
  exists p e, marshal_record r = Ok p /\ marshal_envelope (sha256_hex p) p = Ok e /\ line = e ++ [newline].
Proof.
  unfold encode_line. rewrite rbind_ok. setoid_rewrite rmap_err_ok. split.
  - intros (p & Hp & Hrest). run_ok. simplify_eq. eauto.
  - intros (p & e & Hp & He & ->). exists p. split; [done|]. by rewrite He.
Qed.

Lemma encode_line_is_line (r : journalRecord) (line : bytes) : encode_line r = Ok line -> is_line line.
Proof.
  intros (p & e & Hp & He & ->)%encode_line_ok. exists e. split; [done|]. by eapply envelope_line.
Qed.

(** A line holds the record it encodes. *)
Definition encodes (r : journalRecord) (line : bytes) : Prop :=
  encode_line r = Ok line /\ record_faithful r /\ jr_Version r = journalVersion.

Lemma replayLine_encodes (store : FileStore) (r : journalRecord) (line : bytes) :
  encodes r line -> replayLine store line = applyRecord store r.
Proof.
  intros ((p & e & Hp & He & ->)%encode_line_ok & Hf & Hv). unfold replayLine.
  rewrite (envelope_roundtrip _ _ _ Hp He). cbn. rewrite String.eqb_refl. cbn.
  rewrite (record_roundtrip _ _ Hf Hp). cbn. by rewrite Hv.
Qed.

Lemma replay_loop_success (k : nat) (store : FileStore) (n : nat) (lines : list bytes) :
  replay_loop open_success k store n lines =
  match foldM replayLine store lines with
  | Ok store' => Ok (store', n + length (concat lines))%nat
  | Err err => Err (ErrJoin [err])
  end.
Proof.
  revert k store n. induction lines as [|line lines IH]; intros k store n; cbn.
  - by rewrite Nat.add_0_r.
  - destruct (replayLine store line) as [store'|err]; cbn; [|done]. rewrite IH.
    destruct (foldM replayLine store' lines); [|done]. by rewrite length_app, Nat.add_assoc.
Qed.

Lemma open_lines (path : string) (lines : list bytes) (t : bytes) :
  path <> "" -> Forall is_line lines -> newline ∉ t ->
  OpenFileStore open_success path (concat lines ++ t) =
  match foldM replayLine empty_store lines with
  | Ok store => (concat lines, Ok store)
  | Err err => (concat lines ++ t, Err (ErrJoin [err]))
  end.
Proof.
  intros Hp HF Ht. unfold OpenFileStore, replay. destruct path; [done|].
  cbn [string_is_empty oi_abs oi_mkdir oi_open open_success].
  rewrite split_lines_concat, replay_loop_success by done.
  destruct (foldM replayLine empty_store lines); [|done]. cbn.
  destruct t; [by rewrite app_nil_r|]. by rewrite take_app_length.
Qed.

Lemma foldM_replay (rs : list journalRecord) (lines : list bytes) (store : FileStore) :
  Forall2 encodes rs lines -> foldM replayLine store lines = foldM applyRecord store rs.
Proof.
  intros HF. revert store. induction HF as [|r line rs lines Hr _ IH]; intros store; [done|].
  cbn. rewrite (replayLine_encodes store r line Hr). destruct (applyRecord store r); [apply IH|done].
Qed.

Lemma encodes_lines (rs : list journalRecord) (lines : list bytes) :
  Forall2 encodes rs lines -> Forall is_line lines.
Proof. induction 1 as [|r l rs lines (Hl & _)]; constructor; [by eapply encode_line_is_line|done]. Qed.

(** ** Reachable stores *)

(** The file is a sequence of complete records that replay to the memory. *)
Definition journal_of (s : file_state) (rs : list journalRecord) (lines : list bytes) : Prop :=
  Forall2 encodes rs lines /\ dk_file (st_disk s) = concat lines /\
  foldM applyRecord empty_store rs = Ok (st_memory s) /\ memory_inv (st_memory s).

(** The record that the operation appends can be encoded without loss. The code does
    not check this: the output of a handler with a byte that is not UTF-8 stays in
    memory as it is and is replayed with the replacement character. *)
Definition faithful_op (store : FileStore) (op : store_op) : Prop :=
  match plan_of store op with
  | Ok (Commit record _ _) => record_faithful record
  | _ => True
  end.

(** An operation on a store in memory with its file, of which the record, if there is
    one, is encoded without loss. *)
Definition file_step (s s' : file_state) : Prop :=
  exists op, faithful_op (st_memory s) op /\ s' = fst (exec_op s op).

Definition initial_state (script : list append_io) : file_state :=
  mkFileState empty_store (mkDisk [] script).

Lemma appendRecord_clean (d : disk) (r : journalRecord) :
  Forall clean_io (dk_script d) ->
  Forall clean_io (dk_script (fst (appendRecord d r))) /\
  match snd (appendRecord d r) with
  | Ok _ => exists line, encode_line r = Ok line /\ dk_file (fst (appendRecord d r)) = dk_file d ++ line
  | Err _ => dk_file (fst (appendRecord d r)) = dk_file d
  end.
Proof.
  intros HF. unfold appendRecord. destruct (encode_line r) as [line|err]; [|done].
  destruct (dk_script d) as [|io script]; cbn.
  - destruct line; cbn; rewrite ?app_nil_r; (split; [done|]); eexists; split; try done; by rewrite ?app_nil_r.
  - apply Forall_cons in HF as [[[err Ho]|(Hw & Hsy & Hcl)] HF]; [by rewrite Ho|].
    destruct (io_open io) as [err|]; [done|]. rewrite writeAll_clean, Hsy, Hcl by done. cbn. eauto.
Qed.

Lemma journal_extend (s : file_state) (rs : list journalRecord) (lines : list bytes) (op : store_op)
    (r : journalRecord) (memory : FileStore) (line : bytes) (script : list append_io) :
  journal_of s rs lines -> plan_of (st_memory s) op = Ok (Commit r memory tt) -> record_faithful r ->
  encode_line r = Ok line ->
  journal_of (mkFileState memory (mkDisk (dk_file (st_disk s) ++ line) script)) (rs ++ [r]) (lines ++ [line]).
Proof.
  intros (HF & Hfile & Hfold & Hi) Hp Hf Hl. destruct (plan_of_replays _ _ _ Hi Hp) as (Happly & Hi' & Hv).
  split; [by apply Forall2_app; [|constructor; [split|constructor]]|].
  split; [cbn; rewrite Hfile, concat_app; cbn; by rewrite app_nil_r|].
  split; [|done]. rewrite foldM_app, Hfold. cbn. by rewrite Happly.
Qed.

Lemma journal_step (s s' : file_state) (rs : list journalRecord) (lines : list bytes) :
  Forall clean_io (dk_script (st_disk s)) -> journal_of s rs lines -> file_step s s' ->
  Forall clean_io (dk_script (st_disk s')) /\ exists rs' lines', journal_of s' rs' lines'.
Proof.
  intros Hc Hj (op & Hf & ->). unfold exec_op. unfold faithful_op in Hf.
  destruct (plan_of (st_memory s) op) as [[[]|r m []]|e] eqn:Hp; cbn; [by eauto| |by eauto].
  pose proof (appendRecord_clean (st_disk s) r Hc) as [Hc' Hd].
  destruct (appendRecord (st_disk s) r) as [[file sc] [[]|err]]; cbn in *.
  - destruct Hd as (line & Hl & ->). split; [done|]. do 2 eexists. by eapply journal_extend.
  - destruct Hj as (HF & Hfile & Hrest). split; [done|]. exists rs, lines. split; [done|]. cbn. by rewrite Hd.
Qed.

Lemma journal_reachable (script : list append_io) (s : file_state) :
  Forall clean_io script -> rtc file_step (initial_state script) s ->
  Forall clean_io (dk_script (st_disk s)) /\ exists rs lines, journal_of s rs lines.
Proof.
  intros Hc Hr. revert s Hr. apply rtc_ind_r.
  - split; [done|]. exists [], []. split; [constructor|]. split; [done|]. split; [done|apply memory_inv_empty].
  - intros s1 s2 _ Hs (Hc1 & rs & lines & Hj). by eapply journal_step.
Qed.

(** ** Restart, crash and failed writes *)

Lemma open_journal (path : string) (s : file_state) (rs : list journalRecord) (lines : list bytes)
    (t : bytes) :
  path <> "" -> journal_of s rs lines -> newline ∉ t ->
  OpenFileStore open_success path (dk_file (st_disk s) ++ t) = (dk_file (st_disk s), Ok (st_memory s)).
Proof.
  intros Hp (HF & Hfile & Hfold & _) Ht. rewrite Hfile, open_lines by (done || by eapply encodes_lines).
  by rewrite (foldM_replay _ _ _ HF), Hfold.
Qed.

(** A record of the journal that replay refuses makes the store unreadable. *)
Lemma open_refused (path : string) (s : file_state) (rs : list journalRecord) (lines : list bytes)
    (line : bytes) :
  path <> "" -> journal_of s rs lines -> is_line line ->
  is_ok (replayLine (st_memory s) line) = false ->
  is_ok (snd (OpenFileStore open_success path (dk_file (st_disk s) ++ line))) = false.
Proof.
  intros Hp (HF & Hfile & Hfold & _) Hl Hbad. rewrite Hfile, <- (app_nil_r (concat lines ++ line)).
  replace (concat lines ++ line) with (concat (lines ++ [line]))
    by (rewrite concat_app; cbn; by rewrite app_nil_r).
  rewrite open_lines, foldM_app, (foldM_replay _ _ _ HF), Hfold; [|done| |set_solver].
  - cbn. by destruct (replayLine (st_memory s) line).
  - apply Forall_app. split; [by eapply encodes_lines|by constructor].
Qed.

(** C10: restart. From an empty journal, after any sequence of store operations whose
    appends complete or fail to open the file and whose records hold only valid UTF-8
    and the declared statuses and roles, opening the journal reconstructs exactly the
    memory of the running store and leaves the file as it is. *)
Theorem restart_restores (script : list append_io) (s : file_state) (path : string) :
  Forall clean_io script -> rtc file_step (initial_state script) s -> path <> "" ->
  OpenFileStore open_success path (dk_file (st_disk s)) = (dk_file (st_disk s), Ok (st_memory s)).
Proof.
  intros Hc Hr Hp. destruct (journal_reachable _ _ Hc Hr) as (_ & rs & lines & Hj).
  pose proof (open_journal path s rs lines [] Hp Hj ltac:(set_solver)) as Ho. by rewrite app_nil_r in Ho.
Qed.

(** C12: crash atomicity. After operations whose appends have completed or failed to
    open the file, a crash after any number of bytes of the next append leaves a
    journal that opens: to the memory before the operation, with the torn record cut
    off, unless the whole line was written, and then to the memory after it. The
    records hold only valid UTF-8 and the declared statuses and roles. *)
Theorem crash_atomic (script : list append_io) (s : file_state) (path : string) (op : store_op)
    (r : journalRecord) (memory : FileStore) (line : bytes) (k : nat) :
  Forall clean_io script -> rtc file_step (initial_state script) s -> path <> "" ->
  plan_of (st_memory s) op = Ok (Commit r memory tt) -> record_faithful r -> encode_line r = Ok line ->
  OpenFileStore open_success path (dk_file (st_disk s) ++ take k line) =
  if (k <? length line)%nat then (dk_file (st_disk s), Ok (st_memory s))
  else (dk_file (st_disk s) ++ line, Ok memory).
Proof.
  intros Hc Hr Hp Hplan Hf Hl. destruct (journal_reachable _ _ Hc Hr) as (_ & rs & lines & Hj).
  destruct (encode_line_is_line _ _ Hl) as (e & -> & He).
  destruct (Nat.ltb_spec k (length (e ++ [newline]))) as [Hk|Hk].
  - eapply open_journal; [done|done|]. rewrite length_app in Hk. cbn in Hk.
    rewrite take_app_le by lia. intros Hin. apply He. rewrite <- (take_drop k e). set_solver.
  - rewrite take_ge by done. pose proof (journal_extend _ _ _ _ _ _ _ [] Hj Hplan Hf Hl) as Hj'.
    pose proof (open_journal path _ _ _ [] Hp Hj' ltac:(set_solver)) as Ho.
    cbn [st_disk dk_file st_memory] in Ho. by rewrite app_nil_r in Ho.
Qed.

Lemma appendRecord_torn (d : disk) (r : journalRecord) (line : bytes) (k : nat) (err : go_error)
    (closeErr : option go_error) (script : list append_io) :
  encode_line r = Ok line -> dk_script d = mkAppendIO None [(k, Some err)] None closeErr :: script ->
  exists e, appendRecord d r = (mkDisk (dk_file d ++ take k line) script, Err e).
Proof.
  intros Hl Hs. destruct (encode_line_is_line _ _ Hl) as (e & He & _). unfold appendRecord.
  rewrite Hl, Hs. destruct line as [|c line]; [by destruct e|]. cbn. by eexists.
Qed.

Lemma appendRecord_success (d : disk) (r : journalRecord) (line : bytes) (script : list append_io) :
  encode_line r = Ok line -> dk_script d = io_success :: script ->
  appendRecord d r = (mkDisk (dk_file d ++ line) script, Ok tt).
Proof.
  intros Hl Hs. unfold appendRecord. rewrite Hl, Hs. cbn. by destruct line; rewrite ?app_nil_r.
Qed.

(** A write that fails after part of a record leaves the part in the file:
    the operation reports an error, but the next successful operation appends
    behind it, and the journal can no longer be opened. *)
Theorem short_write_corrupts (script script' : list append_io) (s : file_state) (path : string)
    (op1 op2 : store_op) (r1 r2 : journalRecord) (m1 m2 : FileStore) (line1 line2 : bytes) (k : nat)
    (err : go_error) (closeErr : option go_error) :
  Forall clean_io script -> rtc file_step (initial_state script) s -> path <> "" ->
  plan_of (st_memory s) op1 = Ok (Commit r1 m1 tt) -> encode_line r1 = Ok line1 ->
  plan_of (st_memory s) op2 = Ok (Commit r2 m2 tt) -> encode_line r2 = Ok line2 ->
  (0 < k < length line1)%nat ->
  let torn := mkAppendIO None [(k, Some err)] None closeErr in
  let s0 := mkFileState (st_memory s) (mkDisk (dk_file (st_disk s)) (torn :: io_success :: script')) in
  let '(s1, result1) := exec_op s0 op1 in
  let '(s2, result2) := exec_op s1 op2 in
  is_ok result1 = false /\ result2 = Ok tt /\
  is_ok (snd (OpenFileStore open_success path (dk_file (st_disk s2)))) = false.
Proof.
  intros Hc Hr Hp Hop1 Hl1 Hop2 Hl2 Hk torn s0.
  destruct (journal_reachable _ _ Hc Hr) as (_ & rs & lines & Hj).
  unfold exec_op. cbn [st_memory s0]. rewrite Hop1. cbn [perform].
  destruct (appendRecord_torn (st_disk s0) r1 line1 k err closeErr _ Hl1 eq_refl) as [e ->].
  cbn [st_memory s0]. rewrite Hop2. cbn [perform st_disk].
  rewrite (appendRecord_success _ r2 line2 script' Hl2) by done. cbn [st_disk dk_file s0].
  split; [done|]. split; [done|]. rewrite <- app_assoc.
  apply encode_line_ok in Hl1 as (p1 & e1 & Hp1 & He1 & ->).
  apply encode_line_ok in Hl2 as (p2 & e2 & Hp2 & He2 & ->).
  rewrite length_app in Hk. cbn in Hk. rewrite take_app_le by lia.
  eapply open_refused; [done|done| |].
  - exists (take k e1 ++ e2). split; [by rewrite app_assoc|].
    pose proof (envelope_line _ _ _ Hp1 He1) as Hn1. pose proof (envelope_line _ _ _ Hp2 He2).
    rewrite elem_of_app. intros [Hin|Hin]; [|done].
    apply Hn1. rewrite <- (take_drop k e1), elem_of_app. by left.
  - unfold replayLine. pose proof (envelope_framing _ _ _ _ _ _ k Hp1 He1 Hp2 He2 ltac:(lia)) as Hfr.
    by destruct (unmarshal_envelope _).
Qed.

Lemma appendRecord_unsynced (d : disk) (r : journalRecord) (line : bytes) (err : go_error)
    (script : list append_io) :
  encode_line r = Ok line -> dk_script d = mkAppendIO None [] (Some err) None :: script ->
  exists e, appendRecord d r = (mkDisk (dk_file d ++ line) script, Err e).
Proof.
  intros Hl Hs. unfold appendRecord. rewrite Hl, Hs. cbn.
  destruct line; rewrite ?app_nil_r; by eexists.
Qed.

(** The same version does not replay twice. *)
Lemma SaveRun_replays_once (store m : FileStore) (ctx ctx' : context) (snapshot v : WorkflowRunSnapshot)
    (r : journalRecord) :
  0 <= snap_Version snapshot < 18446744073709551615 ->
  plan_SaveRun store ctx ctx' snapshot = Ok (Commit r m v) -> is_ok (applyRecord m r) = false.
Proof.
  intros Hv Hp. unfold plan_SaveRun in Hp. run_ok.
  destruct (fs_runs store !! snap_ID snapshot) as [current|]; [|done]. run_ok. simplify_eq.
  rewrite wrap_uint64_id by (unfold in_uint64; lia). set (n := snap_Version snapshot + 1).
  change (is_ok (replay_run (with_run store (snapshot_with_version snapshot n))
            (run_record operationSaveRun (snapshot_with_version snapshot n))) = false).
  unfold replay_run. cbn [jr_Run jr_Workflow jr_Operation run_record with_run fs_runs].
  rewrite lookup_insert_eq. cbn [fmap option_fmap option_map default id snap_Version snapshot_with_version].
  replace (n =? 0) with false by lia. cbn iota.
  destruct (validateSnapshot _); cbn [rmap_err rbind]; [|done].
  destruct (validateRunDefinition (with_run _ _) _); cbn [rmap_err rbind]; [|done]. cbn.
  assert (n <> wrap_uint64 (n + 1)).
  { unfold wrap_uint64. destruct (decide (n + 1 = 18446744073709551616)) as [Heq|Hne].
    - rewrite Heq. change (_ mod _) with 0. lia.
    - rewrite Z.mod_small; lia. }
  by replace (n =? wrap_uint64 (n + 1)) with false by lia.
Qed.

(** A failed sync is reported as an error although the record is in the
    file. Saving the same snapshot again then succeeds and appends the same
    version twice, and the journal can no longer be opened. *)
Theorem sync_failure_retry_corrupts (script script' : list append_io) (s : file_state) (path : string)
    (snapshot : WorkflowRunSnapshot) (r : journalRecord) (m : FileStore) (line : bytes) (err : go_error) :
  Forall clean_io script -> rtc file_step (initial_state script) s -> path <> "" ->
  0 <= snap_Version snapshot < 18446744073709551615 ->
  plan_of (st_memory s) (OpSaveRun CtxLive CtxLive snapshot) = Ok (Commit r m tt) ->
  encode_line r = Ok line -> record_faithful r ->
  let failing := mkAppendIO None [] (Some err) None in
  let s0 := mkFileState (st_memory s) (mkDisk (dk_file (st_disk s)) (failing :: io_success :: script')) in
  let '(s1, result1) := SaveRun s0 CtxLive CtxLive snapshot in
  let '(s2, result2) := SaveRun s1 CtxLive CtxLive snapshot in
  is_ok result1 = false /\ is_ok result2 = true /\
  is_ok (snd (OpenFileStore open_success path (dk_file (st_disk s2)))) = false.
Proof.
  intros Hc Hr Hp Hv Hplan Hl Hf failing s0.
  destruct (journal_reachable _ _ Hc Hr) as (_ & rs & lines & Hj).
  pose proof (rforget_ok _ _ Hplan) as ([w|r' m' w] & Hw & Heq); [done|]. cbn in Heq. simplify_eq.
  unfold SaveRun. cbn [st_memory s0]. rewrite Hw. cbn [perform].
  destruct (appendRecord_unsynced (st_disk s0) r' line err _ Hl eq_refl) as [e ->].
  cbn [st_memory s0]. rewrite Hw. cbn [perform st_disk].
  rewrite (appendRecord_success _ r' line script' Hl) by done. cbn [st_disk dk_file s0].
  split; [done|]. split; [done|].
  pose proof (journal_extend _ _ _ _ _ _ _ [] Hj Hplan Hf Hl) as Hj'.
  eapply (open_refused path _ _ _ line Hp Hj'); [by eapply encode_line_is_line|].
  destruct Hj as (_ & _ & _ & Hi). destruct (plan_of_replays _ _ _ Hi Hplan) as (_ & _ & Hver).
  rewrite (replayLine_encodes _ r') by (split; [done|split; done]). by eapply SaveRun_replays_once.
Qed.
End Journal.
