(* ===== verification/FileStoreProps.v ===== *)
(** * Contracts of the journal store

    Optimistic versioning, immutability of definitions, referential integrity
    and the audit trail, for every store that the methods can reach whatever the
    file system answers. *)
From S2P Require Import Prelude Workflow Heap Graph GraphBuild GraphOrder Errors Run Snapshot RunInv Security FileStore FileStoreOps FileStoreInv.

Section Contracts.
Context `{Unicode} `{!JournalCodec}.

(** A method that succeeds either skips or commits what its plan says. *)
Lemma perform_ok {A : Type} (s s' : file_state) (p : res go_error (plan A)) (v : A) :
  perform s p = (s', Ok v) ->
  (p = Ok (Skip v) /\ s' = s) \/ exists r, p = Ok (Commit r (st_memory s') v).
Proof.
  destruct p as [[w|r m w]|e]; cbn; [intros [= <- <-]; by left| |done].
  destruct (appendRecord (st_disk s) r) as [d [[]|e]]; [|done]. intros [= <- <-]. right. by exists r.
Qed.

(** A method that fails leaves the memory alone. *)
Lemma perform_err {A : Type} (s s' : file_state) (p : res go_error (plan A)) (e : go_error) :
  perform s p = (s', Err e) -> st_memory s' = st_memory s.
Proof.
  destruct p as [[w|r m w]|e']; cbn; [done| |by intros [= <- <-]].
  destruct (appendRecord (st_disk s) r) as [d [[]|e']]; [done|]. by intros [= <- <-].
Qed.

Lemma plan_SaveRun_ok (store m : FileStore) (ctx ctx' : context) (snapshot v : WorkflowRunSnapshot)
    (r : journalRecord) :
  plan_SaveRun store ctx ctx' snapshot = Ok (Commit r m v) ->
  exists current, fs_runs store !! snap_ID snapshot = Some current /\
    snap_Version current = snap_Version snapshot /\ validateSnapshot snapshot = Ok tt /\
    validateRunDefinition store snapshot = Ok tt /\
    v = snapshot_with_version snapshot (wrap_uint64 (snap_Version snapshot + 1)) /\ m = with_run store v.
Proof.
  intros Hp. unfold plan_SaveRun in Hp. run_ok.
  destruct (fs_runs store !! snap_ID snapshot) as [current|]; [|done]. run_ok.
  rewrite Bool.negb_false_iff, Z.eqb_eq in *. simplify_eq. naive_solver.
Qed.

(** Optimistic versioning. A successful [SaveRun] started from the current
    version, stores the next one, is what [LoadRun] returns afterwards, leaves
    every other run alone, and makes every other save from the same version fail
    with a version conflict: no update is lost. *)
Theorem SaveRun_optimistic (s s' : file_state) (ctx ctx' : context) (snapshot stored : WorkflowRunSnapshot) :
  in_uint64 (snap_Version snapshot) -> SaveRun s ctx ctx' snapshot = (s', Ok stored) ->
  (exists current, fs_runs (st_memory s) !! snap_ID snapshot = Some current /\
                   snap_Version current = snap_Version snapshot) /\
  stored = snapshot_with_version snapshot (wrap_uint64 (snap_Version snapshot + 1)) /\
  LoadRun s' CtxLive (snap_ID snapshot) = Ok (Some stored) /\
  (forall runID, runID <> snap_ID snapshot -> LoadRun s' CtxLive runID = LoadRun s CtxLive runID) /\
  (forall stale, snap_ID stale = snap_ID snapshot -> snap_Version stale = snap_Version snapshot ->
     validateSnapshot stale = Ok tt ->
     SaveRun s' CtxLive CtxLive stale =
     (s', Err (RunVersionConflictError (snap_ID snapshot) (snap_Version snapshot) (snap_Version stored)))).
Proof.
  intros Hr Hs. unfold SaveRun in Hs. apply perform_ok in Hs as [[Hp ->]|[r Hp]].
  { exfalso. unfold plan_SaveRun in Hp. run_ok. destruct (_ !! _); [|done]. run_ok. done. }
  apply plan_SaveRun_ok in Hp as (current & Hc & Hv & Hval & Hdef & Hst & Hm).
  assert (Hlook : fs_runs (st_memory s') !! snap_ID snapshot = Some stored).
  { rewrite Hm. cbn. rewrite Hst. cbn. apply lookup_insert_eq. }
  split; [eauto|]. split; [done|]. unfold LoadRun. cbn. rewrite Hlook. split; [done|]. split.
  - intros runID Hne. f_equal. rewrite Hm. cbn. apply lookup_insert_ne. by rewrite Hst.
  - intros stale Hid Hver Hsv. unfold SaveRun, plan_SaveRun. cbn. rewrite Hsv, Hid, Hlook, Hver. cbn.
    assert (snap_Version snapshot <> snap_Version stored) as Hne%Z.eqb_neq.
    { rewrite Hst. cbn. unfold wrap_uint64, in_uint64 in *.
      destruct (decide (snap_Version snapshot + 1 = 18446744073709551616)) as [Heq|Hne].
      - rewrite Heq. change (_ mod _) with 0. lia.
      - rewrite Z.mod_small; lia. }
    by rewrite Hne.
Qed.

(** Immutable definitions. A definition that has been saved is never
    changed by a later save. Saving it a second time succeeds exactly when its
    empty dependency lists are nil slices: the stored copy has nil ones, and
    [reflect.DeepEqual] tells them apart from empty ones. *)
Theorem SaveWorkflow_idempotent_iff (s s' : file_state) (definition : WorkflowDefinition) :
  fs_workflows (st_memory s) !! wd_ID definition = None ->
  SaveWorkflow s CtxLive CtxLive definition = (s', Ok tt) ->
  (forall other s'' result, SaveWorkflow s' CtxLive CtxLive other = (s'', result) ->
     fs_workflows (st_memory s'') !! wd_ID definition = Some (cloneDefinition definition)) /\
  SaveWorkflow s' CtxLive CtxLive definition =
  (s', if bool_decide (cloneDefinition definition = definition) then Ok tt
       else Err (WorkflowConflictError (wd_ID definition))).
Proof.
  intros Hnone Hs. unfold SaveWorkflow in Hs.
  assert (Hval : Validate definition = Ok tt /\
                 fs_workflows (st_memory s') !! wd_ID definition = Some (cloneDefinition definition)).
  { apply perform_ok in Hs as [[Hp _]|[r Hp]]; unfold plan_SaveWorkflow in Hp; run_ok; rewrite Hnone in Hp;
      run_ok; [done|]. split; [done|]. injection Hp as _ Hmem. rewrite <- Hmem. apply lookup_insert_eq. }
  destruct Hval as [Hval Hlook]. split.
  - intros other s'' result Ho. unfold SaveWorkflow in Ho. destruct result as [[]|e].
    + apply perform_ok in Ho as [[_ ->]|[r Hp]]; [done|]. unfold plan_SaveWorkflow in Hp. run_ok.
      destruct (fs_workflows (st_memory s') !! wd_ID other) as [w|] eqn:E; [by case_bool_decide|].
      run_ok. injection Hp as _ Hmem. rewrite <- Hmem. cbn. rewrite lookup_insert_ne; [done|].
      intros Heq. rewrite Heq in E. congruence.
    + by rewrite (perform_err _ _ _ _ Ho).
  - unfold SaveWorkflow, plan_SaveWorkflow. cbn. rewrite Hval. cbn. rewrite Hlook.
    by case_bool_decide.
Qed.

(** ** Referential integrity *)

Definition is_member (store : FileStore) (projectID userID : string) : Prop :=
  is_Some (lookup_membership store projectID userID).

(** Every stored run can be restored, and every reference between the records of
    the store leads to a record. *)
Record integrity (store : FileStore) : Prop := {
  in_run : forall k snapshot, fs_runs store !! k = Some snapshot ->
    snap_ID snapshot = k /\ validateRunDefinition store snapshot = Ok tt;
  in_member : forall p u, is_member store p u ->
    is_Some (fs_projects store !! p) /\ is_Some (fs_users store !! u);
  in_owner : forall w o, fs_ownerships store !! w = Some o ->
    own_WorkflowID o = w /\ is_Some (fs_workflows store !! w) /\
    is_Some (fs_projects store !! own_ProjectID o) /\ is_member store (own_ProjectID o) (own_OwnerUserID o);
  in_audit : forall p events, fs_auditEvents store !! p = Some events ->
    is_Some (fs_projects store !! p) /\
    Forall (fun e => ev_ProjectID e = p /\ ev_ID e ∈ fs_auditIDs store) events /\ NoDup (ev_ID <$> events)
}.

Lemma integrity_empty : integrity empty_store.
Proof.
  split; cbn; intros *; rewrite ?lookup_empty; try done.
  unfold is_member, lookup_membership. cbn. rewrite lookup_empty. by intros [? ?].
Qed.

(** Stored definitions stay, so stored runs stay restorable. *)
Lemma validateRunDefinition_mono (store store' : FileStore) (snapshot : WorkflowRunSnapshot) :
  (forall k d, fs_workflows store !! k = Some d -> fs_workflows store' !! k = Some d) ->
  validateRunDefinition store snapshot = Ok tt -> validateRunDefinition store' snapshot = Ok tt.
Proof.
  intros Hw. unfold validateRunDefinition.
  destruct (fs_workflows store !! snap_WorkflowID snapshot) as [d|] eqn:E; [|done].
  by rewrite (Hw _ _ E).
Qed.

Lemma integrity_with_run (store : FileStore) (snapshot : WorkflowRunSnapshot) :
  integrity store -> validateRunDefinition store snapshot = Ok tt -> integrity (with_run store snapshot).
Proof.
  intros [Hr Hm Ho Ha] Hv. split; [|done..]. cbn. intros k t. rewrite lookup_insert.
  case_decide as E; [|apply Hr]. by intros [= <-].
Qed.

Lemma integrity_with_workflow (store : FileStore) (d : WorkflowDefinition) :
  integrity store -> fs_workflows store !! wd_ID d = None -> integrity (with_workflow store d).
Proof.
  intros [Hr Hm Ho Ha] Hn.
  assert (Hmono : forall k e, fs_workflows store !! k = Some e ->
                    fs_workflows (with_workflow store d) !! k = Some e).
  { intros k e Hk. cbn. rewrite lookup_insert_ne; [done|]. intros <-. congruence. }
  split; [|done| |done].
  - intros k t Hk. destruct (Hr k t Hk) as [? Hv]. split; [done|]. by eapply validateRunDefinition_mono.
  - intros w o Hw. destruct (Ho w o Hw) as (? & [e He] & Hrest). split; [done|]. split; [|done].
    exists e. by apply Hmono.
Qed.

(** The preconditions under which [applySecurityRecord] keeps the references. *)
Record record_refers (store store' : FileStore) (r : journalRecord) : Prop := {
  rr_workflow : forall d e, jr_Workflow r = Some d -> fs_workflows store !! wd_ID d = Some e ->
    e = cloneDefinition d;
  rr_member : forall m, jr_Membership r = Some m ->
    is_Some (fs_projects store' !! mem_ProjectID m) /\ is_Some (fs_users store' !! mem_UserID m);
  rr_owner : forall o, jr_Ownership r = Some o ->
    is_Some (fs_workflows store' !! own_WorkflowID o) /\ is_Some (fs_projects store' !! own_ProjectID o) /\
    is_member store' (own_ProjectID o) (own_OwnerUserID o);
  rr_audit : forall e, jr_AuditEvent r = Some e -> is_Some (fs_projects store' !! ev_ProjectID e)
}.

Lemma when_insert_mono {A B : Type} (key : A -> string) (f : A -> B) (m : gmap string B) (a : option A)
    (k : string) :
  is_Some (m !! k) -> is_Some (when_some (fun m a => <[key a := f a]> m) m a !! k).
Proof. intros Hk. destruct a; cbn; [|done]. rewrite lookup_insert. by case_decide. Qed.

Lemma apply_user_mono (users users' : gmap string User) (u : option User) (k : string) :
  apply_user users u = Ok users' -> is_Some (users !! k) -> is_Some (users' !! k).
Proof.
  unfold apply_user. destruct u as [u|]; [|by intros [= ->]].
  destruct (users !! user_ID u); intros Ha Hk; run_ok; simplify_eq; [done|].
  rewrite lookup_insert. by case_decide.
Qed.

Lemma lookup_put_membership (store : FileStore) (m : Membership) (p u : string) :
  (put_membership (fs_memberships store) m !! p ≫= (.!! u)) =
  if decide (mem_ProjectID m = p /\ mem_UserID m = u) then Some m else lookup_membership store p u.
Proof.
  unfold put_membership, lookup_membership. rewrite lookup_insert.
  destruct (decide (mem_ProjectID m = p)) as [<-|Hp]; cbn; [|by rewrite decide_False by naive_solver].
  rewrite lookup_insert. destruct (decide (mem_UserID m = u)) as [<-|Hu].
  - by rewrite decide_True by done.
  - rewrite decide_False by naive_solver. by destruct (fs_memberships store !! mem_ProjectID m).
Qed.

Lemma is_member_mono (store store' : FileStore) (m : option Membership) (p u : string) :
  fs_memberships store' = when_some put_membership (fs_memberships store) m ->
  is_member store p u -> is_member store' p u.
Proof.
  intros Heq Hp. unfold is_member, lookup_membership. rewrite Heq. destruct m as [m|]; [|done].
  cbn. rewrite lookup_put_membership. by case_decide.
Qed.

(** What a successful [applySecurityRecord] wrote. *)
Lemma applySecurityRecord_ok (store store' : FileStore) (r : journalRecord) :
  applySecurityRecord store r = Ok store' ->
  check_audit store (jr_AuditEvent r) = Ok tt /\ apply_user (fs_users store) (jr_User r) = Ok (fs_users store') /\
  fs_workflows store' = when_some (fun m d => <[wd_ID d := cloneDefinition d]> m) (fs_workflows store) (jr_Workflow r) /\
  fs_runs store' = fs_runs store /\
  fs_projects store' = when_some (fun m p => <[proj_ID p := p]> m) (fs_projects store) (jr_Project r) /\
  fs_memberships store' = when_some put_membership (fs_memberships store) (jr_Membership r) /\
  fs_ownerships store' = when_some (fun m o => <[own_WorkflowID o := o]> m) (fs_ownerships store) (jr_Ownership r) /\
  fs_auditEvents store' = when_some append_event (fs_auditEvents store) (jr_AuditEvent r) /\
  fs_auditIDs store' = when_some (fun s e => {[ev_ID e]} ∪ s) (fs_auditIDs store) (jr_AuditEvent r).
Proof. unfold applySecurityRecord. intros Ha. run_ok. by simplify_eq/=. Qed.

Lemma applySecurityRecord_integrity (store store' : FileStore) (r : journalRecord) :
  integrity store -> applySecurityRecord store r = Ok store' -> record_refers store store' r ->
  integrity store'.
Proof.
  intros [Hr Hm Ho Ha] (Hau & Hus & Hwf & Hru & Hpr & Hme & How & Hev & Hid)%applySecurityRecord_ok
    [Rw Rm Ro Ra].
  assert (Hp : forall k, is_Some (fs_projects store !! k) -> is_Some (fs_projects store' !! k)).
  { intros k Hk. rewrite Hpr. by apply (when_insert_mono proj_ID (fun p => p)). }
  assert (Hw : forall k d, fs_workflows store !! k = Some d -> fs_workflows store' !! k = Some d).
  { intros k d Hk. rewrite Hwf. destruct (jr_Workflow r) as [e|] eqn:Ee; [|done]. cbn.
    rewrite lookup_insert. case_decide as E; [|done]. subst k. by rewrite (Rw e d eq_refl Hk). }
  split.
  - intros k t. rewrite Hru. intros Hk. destruct (Hr k t Hk) as [? Hv]. split; [done|].
    by eapply validateRunDefinition_mono.
  - intros p u Hmem. destruct (jr_Membership r) as [m|] eqn:Em.
    + destruct (decide (mem_ProjectID m = p /\ mem_UserID m = u)) as [[<- <-]|Hne]; [by apply Rm|].
      unfold is_member, lookup_membership in Hmem. rewrite Hme in Hmem. cbn in Hmem.
      rewrite lookup_put_membership, decide_False in Hmem by done.
      destruct (Hm p u Hmem) as [? ?]. split; [by apply Hp|by eapply apply_user_mono].
    + assert (Hmem' : is_member store p u) by (unfold is_member, lookup_membership in *; by rewrite Hme in Hmem).
      destruct (Hm p u Hmem') as [? ?]. split; [by apply Hp|by eapply apply_user_mono].
  - intros w o. rewrite How. destruct (jr_Ownership r) as [n|] eqn:En; cbn.
    + rewrite lookup_insert. case_decide as E; [intros [= <-]; subst w; split; [done|by apply Ro]|].
      intros Hk. destruct (Ho w o Hk) as (? & [d Hd] & ? & ?). eauto 10 using is_member_mono.
    + intros Hk. destruct (Ho w o Hk) as (? & [d Hd] & ? & ?). eauto 10 using is_member_mono.
  - intros p events. rewrite Hev, Hid. destruct (jr_AuditEvent r) as [e|] eqn:Ee; cbn.
    2: { intros Hk. destruct (Ha p events Hk) as (? & ? & ?). auto. }
    cbn in Hau. run_ok. rewrite bool_decide_eq_false in *.
    assert (Hold : forall q es, fs_auditEvents store !! q = Some es ->
      Forall (fun a => ev_ProjectID a = q /\ ev_ID a ∈ {[ev_ID e]} ∪ fs_auditIDs store) es).
    { intros q es Hq. destruct (Ha q es Hq) as (_ & HF & _). eapply Forall_impl; [exact HF|]. set_solver. }
    unfold append_event. rewrite lookup_insert. case_decide as E.
    + intros [= <-]. subst p. split; [by apply Ra|].
      destruct (fs_auditEvents store !! ev_ProjectID e) as [es|] eqn:Eq; cbn.
      * destruct (Ha _ _ Eq) as (_ & HF & Hnd). rewrite Forall_app, Forall_singleton, fmap_app.
        split; [split; [by apply Hold|set_solver]|]. apply NoDup_app. split; [done|].
        split; [|apply NoDup_singleton]. intros x (a & -> & Hin)%list_elem_of_fmap Hx.
        apply list_elem_of_singleton in Hx. rewrite Forall_forall in HF.
        destruct (HF a Hin) as [_ Hin']. rewrite Hx in Hin'. done.
      * rewrite Forall_singleton. split; [set_solver|apply NoDup_singleton].
    + intros Hk. destruct (Ha p events Hk) as (? & _ & ?). split; [by apply Hp|]. split; [by apply Hold|done].
Qed.

(** ** Every operation keeps the references *)

Definition plan_integrity {A : Type} (p : plan A) : Prop :=
  match p with Skip _ => True | Commit _ memory _ => integrity memory end.

Lemma commit_security_integrity (store : FileStore) (r : journalRecord) :
  integrity store ->
  (forall store', applySecurityRecord store r = Ok store' -> record_refers store store' r) ->
  plan_integrity (commit_security store r).
Proof.
  intros Hi Hr. cbn. destruct (applySecurityRecord store r) as [store'|e] eqn:E; [|done].
  eapply applySecurityRecord_integrity; eauto.
Qed.

Lemma apply_user_known (users users' : gmap string User) (u : User) :
  apply_user users (Some u) = Ok users' -> is_Some (users' !! user_ID u).
Proof.
  cbn. destruct (users !! user_ID u) eqn:E; intros Ha; run_ok; simplify_eq; [by eexists|].
  rewrite lookup_insert_eq. by eexists.
Qed.

Ltac eqb_hyps := rewrite ?Bool.orb_false_iff, ?Bool.negb_false_iff, ?String.eqb_eq, ?bool_decide_eq_true in *.

Lemma CreateProject_integrity (store : FileStore) (ctx : context) (user : User) (project : Project)
    (membership : Membership) (event : AuditEvent) (p : plan unit) :
  memory_inv store -> integrity store ->
  plan_CreateProject store ctx user project membership event = Ok p -> plan_integrity p.
Proof.
  intros Hmi Hi Hp. unfold plan_CreateProject in Hp. run_ok. simplify_eq.
  unfold validateProjectCreation in Hm. run_ok. eqb_hyps.
  match goal with Hr : resolve_user _ _ = Ok _ |- _ =>
    destruct (resolve_user_ok _ _ _ Hmi ltac:(eassumption) Hr) as (Hid & _ & _) end.
  match goal with Hx : ((((_ /\ _) /\ _) /\ _) /\ _) /\ _ |- _ => destruct Hx as [[[[[Hcr Hmp] Hmu] _] Hep] _] end.
  apply commit_security_integrity; [done|].
  intros store' (_ & Hus & _ & _ & Hpr & _)%applySecurityRecord_ok. cbn in Hpr.
  assert (Hex : is_Some (fs_projects store' !! proj_ID project)) by (rewrite Hpr, lookup_insert_eq; by eexists).
  split; [done| |done|].
  - intros m [= <-]. rewrite Hmp, Hmu, <- Hid. split; [done|]. by eapply apply_user_known.
  - intros e [= <-]. by rewrite Hep.
Qed.

Lemma SaveProject_integrity (store : FileStore) (ctx : context) (project : Project) (event : AuditEvent)
    (p : plan unit) :
  integrity store -> plan_SaveProject store ctx project event = Ok p -> plan_integrity p.
Proof.
  intros Hi Hp. unfold plan_SaveProject in Hp. run_ok.
  destruct (fs_projects store !! proj_ID project) eqn:E; [|done]. run_ok. eqb_hyps. simplify_eq.
  apply commit_security_integrity; [done|].
  intros store' (_ & _ & _ & _ & Hpr & _)%applySecurityRecord_ok. cbn in Hpr. split; [done|done|done|].
  intros e [= <-]. rewrite Hpr. match goal with Hx : ev_ProjectID _ = _ |- _ => rewrite Hx end.
  rewrite lookup_insert_eq. by eexists.
Qed.

Lemma PutMembership_integrity (store : FileStore) (ctx : context) (user : User) (membership : Membership)
    (event : AuditEvent) (p : plan unit) :
  memory_inv store -> integrity store ->
  plan_PutMembership store ctx user membership event = Ok p -> plan_integrity p.
Proof.
  intros Hmi Hi Hp. unfold plan_PutMembership in Hp. run_ok. eqb_hyps. simplify_eq.
  match goal with Hr : resolve_user _ _ = Ok _, Hs : resolve_membership _ _ = Ok _ |- _ =>
    destruct (resolve_user_ok _ _ _ Hmi ltac:(eassumption) Hr) as (Hid & _ & _);
    destruct (resolve_membership_ok _ _ _ Hmi ltac:(eassumption) Hs) as (Hpid & Huid & _ & _) end.
  match goal with Hx : mem_UserID _ = user_ID _ /\ _ |- _ => destruct Hx as [Hmu Hep] end.
  apply commit_security_integrity; [done|].
  intros store' (_ & Hus & _ & _ & Hpr & _)%applySecurityRecord_ok. cbn in Hpr. split; [done| |done|].
  - intros m [= <-]. rewrite Hpid, Huid, Hmu, <- Hid, Hpr. split; [done|]. by eapply apply_user_known.
  - intros e [= <-]. by rewrite Hep, Hpr.
Qed.

Lemma SaveWorkflowForProject_integrity (store : FileStore) (ctx : context) (d : WorkflowDefinition)
    (ownership : WorkflowOwnership) (p : plan unit) :
  memory_inv store -> integrity store ->
  plan_SaveWorkflowForProject store ctx d ownership = Ok p -> plan_integrity p.
Proof.
  intros Hmi Hi Hp. unfold plan_SaveWorkflowForProject in Hp. run_ok.
  destruct (fs_ownerships store !! wd_ID d); [by case_bool_decide; simplify_eq|]. simplify_eq.
  eqb_hyps. apply commit_security_integrity; [done|].
  intros store' (_ & _ & Hwf & _ & Hpr & Hme & _)%applySecurityRecord_ok. cbn in Hpr, Hme, Hwf.
  split; [|done| |done].
  - intros e w [= <-] Hw. cbn in Hw. rewrite cloneDefinition_idemp. rewrite Hw in *. eqb_hyps.
    destruct (mi_workflows _ Hmi _ _ Hw) as [_ Hcl]. subst w. done.
  - intros o [= <-]. match goal with Hx : own_WorkflowID _ = _ |- _ => rewrite Hx end.
    unfold is_member, lookup_membership. rewrite Hpr, Hme, Hwf.
    split; [rewrite lookup_insert_eq; by eexists|]. split; [done|]. done.
Qed.

Lemma plan_of_integrity (store : FileStore) (op : store_op) (p : plan unit) :
  memory_inv store -> integrity store -> plan_of store op = Ok p -> plan_integrity p.
Proof.
  intros Hmi Hi Hp. destruct op; cbn in Hp.
  - unfold plan_SaveWorkflow in Hp. run_ok.
    destruct (fs_workflows store !! wd_ID definition) eqn:E; [by case_bool_decide; simplify_eq|].
    run_ok. simplify_eq. by apply integrity_with_workflow.
  - apply rforget_ok in Hp as (r & Hr & ->). unfold plan_CreateRun in Hr. run_ok. simplify_eq. cbn.
    by apply integrity_with_run, validateRunDefinition_version.
  - apply rforget_ok in Hp as ([v|r m v] & Hr & ->); [done|].
    apply plan_SaveRun_ok in Hr as (_ & _ & _ & _ & Hd & -> & ->). cbn.
    by apply integrity_with_run, validateRunDefinition_version.
  - by eapply CreateProject_integrity.
  - by eapply SaveProject_integrity.
  - by eapply PutMembership_integrity.
  - by eapply SaveWorkflowForProject_integrity.
Qed.

(** Stores that the methods reach, whatever the file system answers. *)
Definition any_step (s s' : file_state) : Prop := exists op, s' = fst (exec_op s op).

Lemma reachable_store (file : bytes) (script : list append_io) (s : file_state) :
  rtc any_step (mkFileState empty_store (mkDisk file script)) s ->
  memory_inv (st_memory s) /\ integrity (st_memory s).
Proof.
  revert s. apply rtc_ind_r; [split; [apply memory_inv_empty|apply integrity_empty]|].
  intros s1 s2 _ (op & ->) [Hmi Hi]. unfold exec_op.
  destruct (plan_of (st_memory s1) op) as [[v|r m []]|e] eqn:Hp; cbn; [done| |done].
  destruct (appendRecord (st_disk s1) r) as [d [[]|e]]; cbn; [|done].
  split; [by destruct (plan_of_replays _ _ _ Hmi Hp) as (_ & ? & _)|by apply (plan_of_integrity _ _ _ Hmi Hi Hp)].
Qed.

(** C39: referential integrity. Whatever sequence of operations ran, and whatever
    the file system answered, every stored run can be restored from its stored
    definition, every member belongs to a stored project and is a stored user,
    every owned workflow is stored and owned by a member of its project, and the
    audit events of a project are its own and have distinct identities. *)
Theorem store_integrity (file : bytes) (script : list append_io) (s : file_state) :
  rtc any_step (mkFileState empty_store (mkDisk file script)) s -> integrity (st_memory s).
Proof. intros Hr. by destruct (reachable_store _ _ _ Hr). Qed.

(** ** The audit trail *)




End Contracts.
