(* ===== verification/FileStoreExamples.v ===== *)
(** * A concrete journal

    A store with one workflow, one run and one project, over an encoding for the
    records it writes: the instances at which the guarantees of the journal
    store are applied. *)
From S2P Require Import Prelude Workflow Heap Graph GraphBuild GraphOrder Errors Run Ids Snapshot SnapshotValid RunStep RunInv RunProps RunDurable RunExamples Security FileStore FileStoreOps FileStoreInv FileStoreJournal FileStoreProps.

#[local] Existing Instance ascii_unicode.

(** ** An encoding *)

#[export] Instance journalRecord_eq_dec : EqDecision journalRecord.
Proof. solve_decision. Defined.

Definition digit : Ascii.ascii := Ascii.ascii_of_N 49.
Definition left_brace : Ascii.ascii := Ascii.ascii_of_N 123.
Definition right_brace : Ascii.ascii := Ascii.ascii_of_N 125.

Definition table_unmarshal_envelope (digest : bytes -> string) (line : bytes) : res go_error (string * bytes) :=
  match line with
  | c :: rest =>
      match rev rest with
      | nl :: d :: payload =>
          if bool_decide (c = left_brace) && bool_decide (d = right_brace) && bool_decide (nl = newline)
             && bool_decide (Forall (fun b => b = digit) payload)
          then Ok (digest payload, payload) else Err (ErrText "invalid character")
      | _ => Err (ErrText "unexpected end of JSON input")
      end
  | [] => Err (ErrText "unexpected end of JSON input")
  end.

(** A record is the number of its place in [table], in unary. *)
Definition table_codec (table : list journalRecord) : JournalCodec := {|
  marshal_record r :=
    match list_find (r =.) table with
    | Some (i, _) => Ok (replicate i digit)
    | None => Err (ErrText "unsupported value")
    end;
  unmarshal_record payload :=
    match table !! length payload with
    | Some r => Ok r
    | None => Err (ErrText "unknown record")
    end;
  marshal_envelope checksum payload := Ok (left_brace :: payload ++ [right_brace]);
  unmarshal_envelope := table_unmarshal_envelope (fun payload => fmt_d (Z.of_nat (length payload)));
  sha256_hex payload := fmt_d (Z.of_nat (length payload))
|}.

Lemma rev_digits (p : bytes) : Forall (fun b => b = digit) p -> rev p = p.
Proof.
  intros HF. assert (Hp : p = replicate (length p) digit).
  { induction HF as [|? ? ->]; cbn; [done|]. by f_equal. }
  rewrite Hp, rev_alt. apply reverse_replicate.
Qed.

Lemma table_envelope (digest : bytes -> string) (p : bytes) :
  table_unmarshal_envelope digest (left_brace :: p ++ [right_brace] ++ [newline]) =
  if bool_decide (Forall (fun b => b = digit) p) then Ok (digest (rev p), rev p)
  else Err (ErrText "invalid character").
Proof.
  unfold table_unmarshal_envelope. rewrite !rev_app_distr. cbn [rev app].
  rewrite !bool_decide_eq_true_2 by done. cbn [andb].
  destruct (decide (Forall (fun b => b = digit) p)) as [HF|HF].
  - rewrite !bool_decide_eq_true_2; [done|done|]. by apply Forall_rev.
  - rewrite !bool_decide_eq_false_2; [done|done|]. intros Hr. apply HF.
    rewrite <- (rev_involutive p). by apply Forall_rev.
Qed.

Lemma table_marshal (table : list journalRecord) (r : journalRecord) (p : bytes) :
  @marshal_record (table_codec table) r = Ok p ->
  Forall (fun b => b = digit) p /\ table !! length p = Some r.
Proof.
  cbn. destruct (list_find _ table) as [[i r']|] eqn:E; [|done]. intros [= <-].
  apply list_find_Some in E as (Hi & <- & _). rewrite length_replicate. split; [|done].
  apply Forall_replicate. done.
Qed.

#[export] Instance table_codec_laws (table : list journalRecord) : @JournalCodecLaws (table_codec table).
Proof.
  split.
  - intros r p _ [_ Hl]%table_marshal. cbn. by rewrite Hl.
  - intros r p e [HF _]%table_marshal [= <-]. cbn [unmarshal_envelope table_codec sha256_hex].
    cbn [app]. rewrite <- app_assoc, table_envelope, bool_decide_eq_true_2 by done.
    by rewrite rev_digits.
  - intros r p e [HF _]%table_marshal [= <-]. rewrite Forall_forall in HF.
    rewrite elem_of_cons, elem_of_app, list_elem_of_singleton.
    intros [Hc|[Hc%HF|Hc]]; by vm_compute in Hc.
  - intros r1 p1 e1 r2 p2 e2 k [HF1 _]%table_marshal [= <-] [HF2 _]%table_marshal [= <-] Hk.
    destruct k as [|k]; [lia|]. cbn [take app unmarshal_envelope table_codec].
    replace (take k (p1 ++ [right_brace]) ++ left_brace :: (p2 ++ [right_brace]) ++ [newline])
      with ((take k (p1 ++ [right_brace]) ++ left_brace :: p2) ++ [right_brace] ++ [newline])
      by by rewrite <- !app_assoc.
    rewrite table_envelope, bool_decide_eq_false_2; [done|].
    rewrite Forall_app, Forall_cons. intros (_ & Hbad & _). by vm_compute in Hbad.
Qed.

(** Empty lines, for stores that are never reopened. *)
Definition blank_codec : JournalCodec := {|
  marshal_record _ := Ok [];
  unmarshal_record _ := Err (ErrText "blank");
  marshal_envelope _ payload := Ok payload;
  unmarshal_envelope _ := Err (ErrText "blank");
  sha256_hex _ := ""
|}.

(** ** The store *)

Fixpoint plan_records (memory : FileStore) (ops : list store_op) : list journalRecord :=
  match ops with
  | [] => []
  | op :: rest =>
      match plan_of memory op with
      | Ok (Commit r memory' _) => r :: plan_records memory' rest
      | _ => plan_records memory rest
      end
  end.

Definition alice : User := mkUser "alice" "Alice" false 900.
Definition bob : User := mkUser "bob" "Bob" false 950.
Definition team : Project := mkProject "team" "Team" "alice" 900 900.
Definition renamed : Project := mkProject "team" "The team" "alice" 900 960.
Definition alice_admin : Membership := mkMembership "team" "alice" RoleAdmin 900 900.
Definition bob_member : Membership := mkMembership "team" "bob" RoleMember 950 950.
Definition event (id action : string) (time : Z) : AuditEvent :=
  mkAuditEvent id "team" "alice" action "project" "team" time None.

Definition create_ops : list store_op :=
  [OpSaveWorkflow CtxLive CtxLive demo; OpCreateRun CtxLive CtxLive (Snapshot demo_new)].

(** The run as it is when task [a] is leased, to be saved over version 1. *)
Definition leased_snapshot : WorkflowRunSnapshot := snapshot_with_version (Snapshot run_leased) 1.
Definition save_leased : store_op := OpSaveRun CtxLive CtxLive leased_snapshot.
Definition project_ops : list store_op :=
  [OpCreateProject CtxLive alice team alice_admin (event "e1" "project.created" 900);
   OpPutMembership CtxLive bob bob_member (event "e2" "membership.updated" 950);
   OpSaveWorkflowForProject CtxLive demo (mkWorkflowOwnership "demo" "team" "bob" 955)].
Definition rename_op : store_op := OpSaveProject CtxLive renamed (event "e3" "project.updated" 960).

Definition demo_table : list journalRecord :=
  Eval vm_compute in plan_records empty_store (create_ops ++ [save_leased] ++ project_ops ++ [rename_op]).
#[local] Instance demo_codec : JournalCodec := table_codec demo_table.

Definition run_ops `{JournalCodec} (s : file_state) (ops : list store_op) : file_state :=
  foldl (fun s op => fst (exec_op s op)) s ops.

Definition text_faithful (r : journalRecord) : bool :=
  forallb utf8_valid (record_strings r) &&
  match jr_Run r with
  | Some s => workflow_status_valid (snap_Status s) && forallb (fun t => task_status_valid (tr_Status t)) (snap_Tasks s)
  | None => true
  end &&
  match jr_Membership r with Some (mkMembership _ _ (RoleOther _) _ _) => false | _ => true end.

Lemma text_faithful_sound (r : journalRecord) : text_faithful r = true -> record_faithful r.
Proof.
  intros [[Ht Hs]%andb_true_iff Hm]%andb_true_iff. split.
  - apply Forall_forall. intros x Hx. rewrite forallb_forall in Ht. by apply Ht, list_elem_of_In.
  - intros s Hr. rewrite Hr in Hs. apply andb_true_iff in Hs as [? Hf]. split; [done|].
    apply Forall_forall. intros t Hin. rewrite forallb_forall in Hf. by apply Hf, list_elem_of_In.
  - intros m raw Hr Hrole. rewrite Hr in Hm. destruct m; cbn in *. by subst.
Defined.

Fixpoint ops_faithful (s : file_state) (ops : list store_op) : bool :=
  match ops with
  | [] => true
  | op :: rest =>
      match plan_of (st_memory s) op with Ok (Commit r _ _) => text_faithful r | _ => true end
      && ops_faithful (fst (exec_op s op)) rest
  end.

Lemma run_ops_steps (s : file_state) (ops : list store_op) :
  ops_faithful s ops = true -> rtc file_step s (run_ops s ops).
Proof.
  revert s. induction ops as [|op ops IH]; intros s; [done|]. cbn.
  intros [Hf Hr]%andb_true_iff. eapply rtc_l; [|by apply IH]. exists op. split; [|done].
  unfold faithful_op. destruct (plan_of (st_memory s) op) as [[|r m v]|]; try done.
  by apply text_faithful_sound.
Defined.

Lemma run_ops_any `{JournalCodec} (s : file_state) (ops : list store_op) : rtc any_step s (run_ops s ops).
Proof. revert s. induction ops as [|op ops IH]; intros s; [done|]. eapply rtc_l; [by exists op|apply IH]. Defined.

Definition created : file_state := run_ops (initial_state []) create_ops.
Definition populated : file_state := run_ops created ([save_leased] ++ project_ops).

Lemma created_reachable : rtc file_step (initial_state []) created.
Proof. apply run_ops_steps. vm_compute. reflexivity. Defined.

(** What [save_leased] commits on [created], and its line. *)
Definition leased_record : journalRecord :=
  run_record operationSaveRun (snapshot_with_version leased_snapshot 2).
Definition leased_memory : FileStore :=
  with_run (st_memory created) (snapshot_with_version leased_snapshot 2).
Definition leased_line : bytes :=
  match encode_line leased_record with Ok line => line | Err _ => [] end.

Lemma leased_plan : plan_of (st_memory created) save_leased = Ok (Commit leased_record leased_memory tt).
Proof. vm_compute. reflexivity. Defined.

Lemma leased_encoded : encode_line leased_record = Ok leased_line.
Proof. vm_compute. reflexivity. Defined.

Lemma leased_faithful : record_faithful leased_record.
Proof. apply text_faithful_sound. vm_compute. reflexivity. Defined.

(** ** Witnesses *)

Lemma restart_restores_witness :
  OpenFileStore open_success "journal" (dk_file (st_disk created)) =
  (dk_file (st_disk created), Ok (st_memory created)) /\
  snap_Version <$> fs_runs (st_memory created) !! "r1" = Some 1.
Proof.
  split; [|vm_compute; reflexivity].
  apply (restart_restores [] created "journal"); [constructor|apply created_reachable|done].
Defined.

Lemma crash_atomic_witness :
  OpenFileStore open_success "journal" (dk_file (st_disk created) ++ take 2 leased_line) =
  (dk_file (st_disk created), Ok (st_memory created)) /\
  OpenFileStore open_success "journal" (dk_file (st_disk created) ++ take 5 leased_line) =
  (dk_file (st_disk created) ++ leased_line, Ok leased_memory).
Proof.
  assert (Hlen : length leased_line = 5%nat) by (vm_compute; reflexivity). split.
  - rewrite (crash_atomic [] created "journal" save_leased leased_record leased_memory leased_line 2);
      [by rewrite Hlen|constructor|apply created_reachable|done|apply leased_plan|apply leased_faithful
      |apply leased_encoded].
  - rewrite (crash_atomic [] created "journal" save_leased leased_record leased_memory leased_line 5);
      [by rewrite Hlen|constructor|apply created_reachable|done|apply leased_plan|apply leased_faithful
      |apply leased_encoded].
Defined.

(** The disk is full while the run is saved; creating a project then succeeds. *)
Definition create_team : store_op :=
  OpCreateProject CtxLive alice team alice_admin (event "e1" "project.created" 900).
Definition team_record : journalRecord :=
  create_project_record alice team alice_admin (event "e1" "project.created" 900).
Definition team_memory : FileStore :=
  match applySecurityRecord (st_memory created) team_record with Ok m => m | Err _ => empty_store end.
Definition team_line : bytes := match encode_line team_record with Ok line => line | Err _ => [] end.

Lemma short_write_corrupts_witness :
  let torn := mkAppendIO None [(2%nat, Some (ErrText "no space left on device"))] None None in
  let s0 := mkFileState (st_memory created) (mkDisk (dk_file (st_disk created)) [torn; io_success]) in
  let '(s1, result1) := exec_op s0 save_leased in
  let '(s2, result2) := exec_op s1 create_team in
  is_ok result1 = false /\ result2 = Ok tt /\
  is_ok (snd (OpenFileStore open_success "journal" (dk_file (st_disk s2)))) = false.
Proof.
  apply (short_write_corrupts [] [] created "journal" save_leased create_team leased_record team_record
           leased_memory team_memory leased_line team_line 2 (ErrText "no space left on device") None);
    [constructor|apply created_reachable|done|apply leased_plan|apply leased_encoded
    |vm_compute; reflexivity|vm_compute; reflexivity|vm_compute; lia].
Defined.

Lemma sync_failure_retry_corrupts_witness :
  let failing := mkAppendIO None [] (Some (ErrText "input/output error")) None in
  let s0 := mkFileState (st_memory created) (mkDisk (dk_file (st_disk created)) [failing; io_success]) in
  let '(s1, result1) := SaveRun s0 CtxLive CtxLive leased_snapshot in
  let '(s2, result2) := SaveRun s1 CtxLive CtxLive leased_snapshot in
  is_ok result1 = false /\ is_ok result2 = true /\
  is_ok (snd (OpenFileStore open_success "journal" (dk_file (st_disk s2)))) = false.
Proof.
  apply (sync_failure_retry_corrupts [] [] created "journal" leased_snapshot leased_record leased_memory
           leased_line (ErrText "input/output error"));
    [constructor|apply created_reachable|done|cbn; lia|apply leased_plan|apply leased_encoded
    |apply leased_faithful].
Defined.

Lemma SaveRun_optimistic_witness :
  LoadRun (fst (SaveRun created CtxLive CtxLive leased_snapshot)) CtxLive "r1" =
  Ok (Some (snapshot_with_version leased_snapshot 2)).
Proof.
  apply (SaveRun_optimistic created (fst (SaveRun created CtxLive CtxLive leased_snapshot)) CtxLive CtxLive
           leased_snapshot (snapshot_with_version leased_snapshot 2)).
  - unfold in_uint64. cbn. lia.
  - vm_compute. reflexivity.
Defined.

Lemma store_integrity_witness :
  integrity (st_memory populated) /\ is_member (st_memory populated) "team" "bob".
Proof.
  split; [|eexists; vm_compute; reflexivity].
  apply (store_integrity [] [] populated). unfold populated, created. etrans; apply run_ops_any.
Defined.


(** A definition whose first task has an empty, non-nil dependency list. *)
Definition empty_deps : WorkflowDefinition :=
  mkWorkflowDefinition "w" [mkTaskDefinition "a" "first" (Some []) "h" "" (mkRetryPolicy 0 0 0)].
Definition nil_deps : WorkflowDefinition := cloneDefinition empty_deps.
#[local] Instance workflow_codec : JournalCodec := table_codec [workflow_record nil_deps].
Definition with_empty_deps : file_state := fst (SaveWorkflow (initial_state []) CtxLive CtxLive empty_deps).
Definition with_nil_deps : file_state := fst (SaveWorkflow (initial_state []) CtxLive CtxLive nil_deps).

Lemma SaveWorkflow_idempotent_iff_witness :
  SaveWorkflow with_empty_deps CtxLive CtxLive empty_deps = (with_empty_deps, Err (WorkflowConflictError "w")) /\
  SaveWorkflow with_nil_deps CtxLive CtxLive nil_deps = (with_nil_deps, Ok tt).
Proof.
  split.
  - apply (SaveWorkflow_idempotent_iff (initial_state []) with_empty_deps empty_deps);
      [reflexivity|vm_compute; reflexivity].
  - apply (SaveWorkflow_idempotent_iff (initial_state []) with_nil_deps nil_deps);
      [reflexivity|vm_compute; reflexivity].
Defined.
