(* ===== verification/Postgres.v ===== *)
(** * The PostgreSQL store: workflows and runs

    Models [src/internal/persistence/postgres_store.go]. A method checks its
    arguments, then runs one transaction: [*Tx] functions are trees of statements
    and the methods of [PostgresStore] execute them on the database. A failure while
    rows are read has the text of a failed query. *)
From S2P Require Import Prelude Workflow Heap Graph GraphBuild Errors Run Snapshot Security Sql Tx FileStore.

(** ** Opening a store

    Parsing a data source name, connecting and pinging are those of the driver. The
    first component is the pools that are closed again. *)
Section Opening.
Context `{Unicode} {Config Pool : Type} (parseConfig : string -> res go_error Config)
  (newPool : Config -> res go_error Pool) (ping : Pool -> res go_error unit).

Definition OpenPostgresStore (ctx : context) (dataSourceName : string) : list Pool * res go_error Pool :=
  match check_context ctx with
  | Err err => ([], Err err)
  | Ok _ =>
      if string_is_empty (trim_space dataSourceName)
      then ([], Err (ErrText "open ForgeFlow PostgreSQL store: data source name is empty"))
      else
        match parseConfig dataSourceName with
        | Err err => ([], Err (wrapf "parse ForgeFlow PostgreSQL data source name" err))
        | Ok config =>
            match newPool config with
            | Err err => ([], Err (wrapf "open ForgeFlow PostgreSQL connection pool" err))
            | Ok pool =>
                match ping pool with
                | Err err => ([pool], Err (wrapf "ping ForgeFlow PostgreSQL store" err))
                | Ok _ => ([], Ok pool)
                end
            end
        end
  end.

Definition NewPostgresStore (pool : option Pool) : res go_error Pool :=
  match pool with
  | None => Err (ErrText "create ForgeFlow PostgreSQL store: pool is nil")
  | Some pool => Ok pool
  end.

Definition PostgresStore_Ping (pool : Pool) (ctx : context) : res go_error unit :=
  try _ <- check_context ctx ;;
  rmap_err (wrapf "ping ForgeFlow PostgreSQL store") (ping pool).
End Opening.

(** ** Conversions *)

Definition nullablePostgresTime (value : Z) : option Z := if time_is_zero value then None else Some value.

(** [if column.Valid { field = column.Time }]. *)
Definition read_time (column : option Z) : Z := default zero_time column.

(** [errors.As] with a [*pgconn.PgError]: the code of the first one in the chain. *)
Fixpoint as_pg_error (err : go_error) : option string :=
  match err with
  | PgError code _ => Some code
  | ErrWrap _ cause => as_pg_error cause
  | ErrJoin errs =>
      (fix first (l : list go_error) : option string :=
         match l with
         | [] => None
         | e :: rest => match as_pg_error e with Some code => Some code | None => first rest end
         end) errs
  | RetryableTaskError (Some cause)
  | TaskExecutionError _ _ (Some cause)
  | RunCanceledError _ (Some cause)
  | PersistenceError _ _ (Some cause)
  | BrokerOperationError _ _ _ (Some cause) => as_pg_error cause
  | _ => None
  end.

Definition postgresErrorCode (err : go_error) (code : string) : bool :=
  match as_pg_error err with Some c => String.eqb c code | None => false end.

Definition run_status_of (status : string) : WorkflowRunStatus :=
  if String.eqb status "pending" then WorkflowRunPending
  else if String.eqb status "running" then WorkflowRunRunning
  else if String.eqb status "succeeded" then WorkflowRunSucceeded
  else if String.eqb status "failed" then WorkflowRunFailed
  else if String.eqb status "canceled" then WorkflowRunCanceled
  else WorkflowRunOther status.

Definition task_status_of (status : string) : TaskRunStatus :=
  if String.eqb status "pending" then TaskRunPending
  else if String.eqb status "ready" then TaskRunReady
  else if String.eqb status "running" then TaskRunRunning
  else if String.eqb status "retry_wait" then TaskRunRetryWaiting
  else if String.eqb status "succeeded" then TaskRunSucceeded
  else if String.eqb status "failed" then TaskRunFailed
  else if String.eqb status "canceled" then TaskRunCanceled
  else TaskRunOther status.

(** The arguments of the statements, from the fields of the domain. *)
Definition definition_row (position : Z) (task : TaskDefinition) : task_definition_row :=
  mkTaskDefinitionRow position (td_Name task) (td_Handler task) (td_Input task)
    (MaxAttempts (td_Retry task)) (InitialBackoff (td_Retry task)) (MaxBackoff (td_Retry task)).

Definition run_row (snapshot : WorkflowRunSnapshot) : workflow_run_row :=
  mkWorkflowRunRow (snap_WorkflowID snapshot) (snap_Version snapshot) (workflow_status_string (snap_Status snapshot))
    (snap_CreatedAt snapshot) (snap_UpdatedAt snapshot).

Definition task_columns (task : TaskRun) : task_run_columns :=
  mkTaskRunColumns (task_status_string (tr_Status task)) (tr_Output task) (tr_Error task) (tr_AttemptCount task)
    (tr_CurrentAttemptID task) (nullablePostgresTime (tr_NextAttemptAt task)) (tr_UpdatedAt task)
    (nullablePostgresTime (tr_StartedAt task)) (nullablePostgresTime (tr_FinishedAt task)).

Definition lease_row (lease : TaskLease) : task_lease_row :=
  mkTaskLeaseRow (lease_TaskRunID lease) (lease_WorkerID lease) (lease_AttemptID lease) (lease_ExpiresAt lease).

(** The domain values of the rows that are read. *)
Definition read_definition (row : string * task_definition_row) : TaskDefinition :=
  let '(task_id, r) := row in
  mkTaskDefinition task_id (tdr_task_name r) None (tdr_handler_name r) (tdr_task_input r)
    (mkRetryPolicy (tdr_max_attempts r) (tdr_initial_backoff_ns r) (tdr_max_backoff_ns r)).

Definition read_task (row : string * task_run_row) : TaskRun :=
  let '(task_id, r) := row in
  let c := trr_columns r in
  {| tr_TaskID := task_id; tr_TaskRunID := trr_task_run_id r; tr_Status := task_status_of (trc_status c);
     tr_Output := trc_output c; tr_Error := trc_error_message c; tr_AttemptCount := trc_attempt_count c;
     tr_CurrentAttemptID := trc_current_attempt_id c; tr_NextAttemptAt := read_time (trc_next_attempt_at c);
     tr_Lease := None; tr_UpdatedAt := trc_updated_at c; tr_StartedAt := read_time (trc_started_at c);
     tr_FinishedAt := read_time (trc_finished_at c) |}.

Definition read_lease (r : task_lease_row) : TaskLease :=
  mkTaskLease (tlr_worker_id r) (tlr_task_run_id r) (tlr_attempt_id r) (tlr_expires_at r).

(** [taskIndexes]: the position of every task of a slice. *)
Definition index_tasks (ids : list string) : gmap string nat :=
  foldl (fun (m : gmap string nat) '(i, id) => <[id := i]> m) ∅ (imap (fun i id => (i, id)) ids).

Definition append_dependency (dependencyID : string) (task : TaskDefinition) : TaskDefinition :=
  mkTaskDefinition (td_ID task) (td_Name task) (Some (deps task ++ [dependencyID])) (td_Handler task)
    (td_Input task) (td_Retry task).

Definition set_lease (lease : TaskLease) (task : TaskRun) : TaskRun :=
  {| tr_TaskID := tr_TaskID task; tr_TaskRunID := tr_TaskRunID task; tr_Status := tr_Status task;
     tr_Output := tr_Output task; tr_Error := tr_Error task; tr_AttemptCount := tr_AttemptCount task;
     tr_CurrentAttemptID := tr_CurrentAttemptID task; tr_NextAttemptAt := tr_NextAttemptAt task;
     tr_Lease := Some lease; tr_UpdatedAt := tr_UpdatedAt task; tr_StartedAt := tr_StartedAt task;
     tr_FinishedAt := tr_FinishedAt task |}.

Section Transactions.
Context `{Unicode}.

(** ** Workflow definitions *)

Definition add_dependency (workflowID : string) (indexes : gmap string nat) (tasks : list TaskDefinition)
    (row : string * string) : res go_error (list TaskDefinition) :=
  let '(taskID, dependencyID) := row in
  match indexes !! taskID with
  | None => Err (ErrText ("load workflow definition " +:+ quote workflowID +:+ ": dependency references missing task "
                          +:+ quote taskID))
  | Some index => Ok (alter (append_dependency dependencyID) index tasks)
  end.

Definition loadPostgresWorkflowTx (workflowID : string) : tx (option WorkflowDefinition) :=
  let name := quote workflowID in
  sql stored <- stmt (wrapf ("load workflow definition " +:+ name)) (SelectWorkflowDefinition workflowID) ;;
  match stored with
  | None => tx_ret None
  | Some storedWorkflowID =>
      sql rows <- stmt (wrapf ("load tasks for workflow definition " +:+ name)) (SelectTaskDefinitions workflowID) ;;
      let tasks := read_definition <$> rows in
      sql dependencies <- stmt (wrapf ("load dependencies for workflow definition " +:+ name))
                            (SelectTaskDependencies workflowID) ;;
      let taskIndexes := index_tasks (td_ID <$> tasks) in
      sql tasks <- tx_lift (foldM (add_dependency workflowID taskIndexes) tasks dependencies) ;;
      let definition := mkWorkflowDefinition storedWorkflowID tasks in
      sql _ <- tx_lift (rmap_err (fun e => wrapf ("validate loaded workflow definition " +:+ name) (ErrValidation e))
                          (Validate definition)) ;;
      tx_ret (Some definition)
  end.

Definition savePostgresWorkflowTx (definition : WorkflowDefinition) : tx unit :=
  let id := wd_ID definition in
  sql affected <- stmt (wrapf ("insert workflow definition " +:+ quote id)) (InsertWorkflowDefinition id) ;;
  if affected =? 0 then
    sql existing <- loadPostgresWorkflowTx id ;;
    match existing with
    | Some existing => if bool_decide (existing = definition) then tx_ret tt else tx_fail (WorkflowConflictError id)
    | None => tx_fail (WorkflowConflictError id)
    end
  else
    sql _ <- tx_each (fun taskPosition task =>
               stmt (wrapf ("insert task definition " +:+ quote (td_ID task) +:+ " for workflow " +:+ quote id))
                 (InsertTaskDefinition id (td_ID task) (definition_row taskPosition task)))
               0 (wd_Tasks definition) ;;
    tx_each (fun _ task =>
      tx_each (fun dependencyPosition dependencyID =>
        stmt (wrapf ("insert dependency " +:+ quote dependencyID +:+ " for task " +:+ quote (td_ID task)
                     +:+ " in workflow " +:+ quote id))
          (InsertTaskDependency id (td_ID task) dependencyID dependencyPosition))
        0 (deps task))
      0 (wd_Tasks definition).

(** ** Runs *)

Definition insertPostgresWorkersAndLeases (snapshot : WorkflowRunSnapshot) : tx unit :=
  let name := quote (snap_ID snapshot) in
  sql _ <- tx_each (fun _ worker =>
             stmt (wrapf ("insert worker " +:+ quote (hb_WorkerID worker) +:+ " for workflow run " +:+ name))
               (InsertWorker (snap_ID snapshot) (hb_WorkerID worker) (hb_LastHeartbeatAt worker)))
             0 (snap_Workers snapshot) ;;
  tx_each (fun _ task =>
    match tr_Lease task with
    | None => tx_ret tt
    | Some lease =>
        stmt (wrapf ("insert lease for task " +:+ quote (tr_TaskID task) +:+ " in workflow run " +:+ name))
          (InsertTaskLease (snap_ID snapshot) (tr_TaskID task) (lease_row lease))
    end) 0 (snap_Tasks snapshot).

Definition writePostgresRunChildren (snapshot : WorkflowRunSnapshot) : tx unit :=
  sql _ <- tx_each (fun _ task =>
             stmt (wrapf ("insert task run " +:+ quote (tr_TaskID task) +:+ " in workflow run "
                          +:+ quote (snap_ID snapshot)))
               (InsertTaskRun (snap_ID snapshot) (tr_TaskID task)
                  (mkTaskRunRow (snap_WorkflowID snapshot) (tr_TaskRunID task) (task_columns task))))
             0 (snap_Tasks snapshot) ;;
  insertPostgresWorkersAndLeases snapshot.

Definition replacePostgresWorkersAndLeases (snapshot : WorkflowRunSnapshot) : tx unit :=
  let name := quote (snap_ID snapshot) in
  sql _ <- stmt (wrapf ("delete leases for workflow run " +:+ name)) (DeleteTaskLeases (snap_ID snapshot)) ;;
  sql _ <- stmt (wrapf ("delete workers for workflow run " +:+ name)) (DeleteWorkers (snap_ID snapshot)) ;;
  insertPostgresWorkersAndLeases snapshot.

(** The definition of the run, and the run as the aggregate normalises it. *)
Definition restorePostgresRunTx (snapshot : WorkflowRunSnapshot) : tx WorkflowRunSnapshot :=
  sql definition <- loadPostgresWorkflowTx (snap_WorkflowID snapshot) ;;
  match definition with
  | None => tx_fail (WorkflowNotFoundError (snap_WorkflowID snapshot))
  | Some definition =>
      sql run <- tx_lift (rmap_err (wrapf "validate workflow run against definition")
                            (restoreWorkflowRun snapshot definition)) ;;
      tx_ret (Snapshot run)
  end.

Definition createRunTx (snapshot : WorkflowRunSnapshot) : tx WorkflowRunSnapshot :=
  sql restored <- restorePostgresRunTx snapshot ;;
  let created := snapshot_with_version restored 1 in
  sql _ <- stmt (fun err => if postgresErrorCode err "23505" then RunAlreadyExistsError (snap_ID created)
                            else wrapf ("insert workflow run " +:+ quote (snap_ID created)) err)
             (InsertWorkflowRun (snap_ID created) (run_row created)) ;;
  sql _ <- writePostgresRunChildren created ;;
  tx_ret created.

Definition update_task (snapshot : WorkflowRunSnapshot) (task : TaskRun) : tx unit :=
  let prefix := "update task run " +:+ quote (tr_TaskID task) +:+ " in workflow run " +:+ quote (snap_ID snapshot) in
  sql affected <- stmt (wrapf prefix)
                    (UpdateTaskRun (task_columns task) (snap_ID snapshot) (tr_TaskID task) (tr_TaskRunID task)) ;;
  if negb (affected =? 1) then tx_fail (ErrText (prefix +:+ ": persisted task identity is missing")) else tx_ret tt.

Definition saveRunTx (snapshot : WorkflowRunSnapshot) : tx WorkflowRunSnapshot :=
  sql snapshot <- restorePostgresRunTx snapshot ;;
  let name := quote (snap_ID snapshot) in
  sql nextVersion <- stmt (wrapf ("conditionally update workflow run " +:+ name))
                       (UpdateWorkflowRun (workflow_status_string (snap_Status snapshot)) (snap_UpdatedAt snapshot)
                          (snap_ID snapshot) (snap_WorkflowID snapshot) (snap_Version snapshot)) ;;
  match nextVersion with
  | None =>
      sql actualVersion <- stmt (wrapf ("read current version for workflow run " +:+ name))
                             (SelectRunVersion (snap_ID snapshot)) ;;
      match actualVersion with
      | None => tx_fail (RunNotFoundError (snap_ID snapshot))
      | Some actual => tx_fail (RunVersionConflictError (snap_ID snapshot) (snap_Version snapshot) (wrap_uint64 actual))
      end
  | Some nextVersion =>
      sql _ <- tx_each (fun _ task => update_task snapshot task) 0 (snap_Tasks snapshot) ;;
      sql _ <- replacePostgresWorkersAndLeases snapshot ;;
      tx_ret (snapshot_with_version snapshot (wrap_uint64 nextVersion))
  end.

Definition add_lease (runID : string) (indexes : gmap string nat) (tasks : list TaskRun)
    (row : string * task_lease_row) : res go_error (list TaskRun) :=
  let '(taskID, r) := row in
  match indexes !! taskID with
  | None => Err (ErrText ("load workflow run " +:+ quote runID +:+ ": lease references missing task " +:+ quote taskID))
  | Some index => Ok (alter (set_lease (read_lease r)) index tasks)
  end.

Definition loadPostgresRunTx (runID : string) : tx (option WorkflowRunSnapshot) :=
  let name := quote runID in
  sql row <- stmt (wrapf ("load workflow run " +:+ name)) (SelectWorkflowRun runID) ;;
  match row with
  | None => tx_ret None
  | Some row =>
      if wrr_version row <? 1 then
        tx_fail (ErrText ("load workflow run " +:+ name +:+ ": invalid version " +:+ fmt_d (wrr_version row)))
      else
        sql rows <- stmt (wrapf ("load tasks for workflow run " +:+ name)) (SelectTaskRuns runID) ;;
        let tasks := read_task <$> rows in
        sql workers <- stmt (wrapf ("load workers for workflow run " +:+ name)) (SelectWorkers runID) ;;
        sql leases <- stmt (wrapf ("load leases for workflow run " +:+ name)) (SelectTaskLeases runID) ;;
        sql tasks <- tx_lift (foldM (add_lease runID (index_tasks (tr_TaskID <$> tasks))) tasks leases) ;;
        let snapshot := mkSnapshot runID (wrr_workflow_id row) (wrap_uint64 (wrr_version row))
                          (run_status_of (wrr_status row)) (wrr_created_at row) (wrr_updated_at row) tasks
                          ((fun '(workerID, at_) => mkWorkerHeartbeat workerID at_) <$> workers) in
        sql _ <- tx_lift (rmap_err (wrapf ("validate loaded workflow run " +:+ name)) (validateSnapshot snapshot)) ;;
        tx_ret (Some snapshot)
  end.
End Transactions.

(** ** The methods *)

Section Methods.
Context `{Unicode} `{Postgres}.

(** The checks before a transaction. *)
Definition after_checks {A : Type} (checks : res go_error unit) (db : database)
    (rest : database * res go_error A) : database * res go_error A :=
  match checks with
  | Err err => (db, Err err)
  | Ok _ => rest
  end.

Definition PostgresStore_SaveWorkflow (calls : nat -> call_answer) (db : database) (ctx : context)
    (definition : WorkflowDefinition) : database * res go_error unit :=
  let name := quote (wd_ID definition) in
  after_checks
    (try _ <- check_context ctx ;;
     try _ <- rmap_err (fun e => wrapf "save workflow definition" (ErrValidation e)) (Validate definition) ;; Ok tt)
    db
    (transaction calls (wrapf ("begin save workflow definition " +:+ name))
       (fun _ => wrapf ("commit workflow definition " +:+ name)) (savePostgresWorkflowTx definition) db).

Definition PostgresStore_LoadWorkflow (calls : nat -> call_answer) (db : database) (ctx : context)
    (workflowID : string) : res go_error (option WorkflowDefinition) :=
  let name := quote workflowID in
  try _ <- check_context ctx ;;
  snd (transaction calls (wrapf ("begin load workflow definition " +:+ name))
         (fun _ => wrapf ("commit load workflow definition " +:+ name)) (loadPostgresWorkflowTx workflowID) db).

Definition PostgresStore_CreateRun (calls : nat -> call_answer) (db : database) (ctx : context)
    (snapshot : WorkflowRunSnapshot) : database * res go_error WorkflowRunSnapshot :=
  let name := quote (snap_ID snapshot) in
  after_checks
    (try _ <- check_context ctx ;;
     try _ <- rmap_err (wrapf "create workflow run") (validateSnapshot snapshot) ;;
     fail_if negb (snap_Version snapshot =? 0)
       with ErrText ("create workflow run " +:+ name +:+ ": initial version must be zero") ;; Ok tt)
    db
    (transaction calls (wrapf ("begin create workflow run " +:+ name))
       (fun _ => wrapf ("commit workflow run " +:+ name)) (createRunTx snapshot) db).

Definition PostgresStore_SaveRun (calls : nat -> call_answer) (db : database) (ctx : context)
    (snapshot : WorkflowRunSnapshot) : database * res go_error WorkflowRunSnapshot :=
  let name := quote (snap_ID snapshot) in
  after_checks
    (try _ <- check_context ctx ;;
     try _ <- rmap_err (wrapf "save workflow run") (validateSnapshot snapshot) ;;
     fail_if (snap_Version snapshot =? 0) || (max_int64 <=? snap_Version snapshot)
       with ErrText ("save workflow run " +:+ name +:+ ": version " +:+ fmt_d (snap_Version snapshot)
                     +:+ " is outside PostgreSQL bigint range") ;; Ok tt)
    db
    (transaction calls (wrapf ("begin save workflow run " +:+ name))
       (fun stored => wrapf ("commit workflow run " +:+ name +:+ " at version " +:+ fmt_d (snap_Version stored)))
       (saveRunTx snapshot) db).

Definition PostgresStore_LoadRun (calls : nat -> call_answer) (db : database) (ctx : context) (runID : string)
  : res go_error (option WorkflowRunSnapshot) :=
  let name := quote runID in
  try _ <- check_context ctx ;;
  snd (transaction calls (wrapf ("begin load workflow run " +:+ name))
         (fun _ => wrapf ("commit load workflow run " +:+ name)) (loadPostgresRunTx runID) db).
End Methods.
