(* ===== verification/SqlFacts.v ===== *)
(** * Facts about rows and statements

    Ordered results of [SELECT], tables filled row by row, slices updated through an
    index of their keys, and what a successful statement says of its arguments. *)
From S2P Require Import Prelude Workflow Heap Graph GraphBuild Errors Run Ids Snapshot SnapshotValid RunStep RunInv RunDurable Security Sql Tx FileStore Postgres.

(** ** Sorted results *)

(** Two sorted permutations whose keys decide the order are equal. *)
Lemma sorted_unique {A K : Type} (R : relation A) (key : A -> K) (l k : list A) :
  (forall x y, R x y -> R y x -> key x = key y) -> NoDup (key <$> l) -> k ≡ₚ l ->
  StronglySorted R l -> StronglySorted R k -> k = l.
Proof.
  intros Hanti Hnd Hp Hl Hk. apply (StronglySorted_unique_strong R); [|done|done|done].
  intros x y Hx Hy Hxy Hyx. rewrite Hp in Hx. pose proof (Hanti x y Hxy Hyx) as Heq. clear -Hnd Hx Hy Heq.
  induction l as [|z l IH]; [by apply elem_of_nil in Hx|].
  cbn in Hnd. apply NoDup_cons in Hnd as [Hz Hnd]. apply elem_of_cons in Hx, Hy.
  rewrite list_elem_of_fmap in Hz. naive_solver.
Qed.

Lemma sorted_fmap {A B : Type} (R : relation A) (R' : relation B) (f : A -> B) (l : list A) :
  (forall x y, R x y -> R' (f x) (f y)) -> StronglySorted R l -> StronglySorted R' (f <$> l).
Proof.
  intros Hf. induction 1 as [|x l Hl IH Hx]; cbn; constructor; [done|].
  apply Forall_fmap. eapply Forall_impl; [exact Hx|]. intros y. apply Hf.
Qed.

Section Order.
Context `{PostgresLaws}.

#[export] Instance text_le_trans {A : Type} (key : A -> string) : Transitive (text_le key).
Proof. intros x y z. apply pg_le_trans. Qed.
#[export] Instance text_le_total {A : Type} (key : A -> string) : Total (text_le key).
Proof. intros x y. apply pg_le_total. Qed.

Lemma order_by_perm {A : Type} (key : A -> string) (l : list A) : order_by key l ≡ₚ l.
Proof. apply merge_sort_Permutation. Qed.

Lemma order_by_sorted {A : Type} (key : A -> string) (l : list A) : StronglySorted (text_le key) (order_by key l).
Proof. apply StronglySorted_merge_sort; apply _. Qed.

Lemma order_by_unique {A : Type} (key : A -> string) (l k : list A) :
  NoDup (key <$> l) -> k ≡ₚ l -> StronglySorted (text_le key) k -> k = order_by key l.
Proof.
  intros Hnd Hp Hs. apply (sorted_unique (text_le key) key); [|by rewrite order_by_perm| |apply order_by_sorted|done].
  - intros x y. apply pg_le_antisymm.
  - by rewrite order_by_perm.
Qed.

Lemma order_by_proper {A : Type} (key : A -> string) (l k : list A) :
  NoDup (key <$> l) -> k ≡ₚ l -> order_by key k = order_by key l.
Proof. intros Hnd Hp. apply order_by_unique; [done|by rewrite order_by_perm|apply order_by_sorted]. Qed.

Lemma order_by_fmap {A B : Type} (key : A -> string) (key' : B -> string) (f : A -> B) (l : list A) :
  (forall x, key' (f x) = key x) -> NoDup (key <$> l) -> f <$> order_by key l = order_by key' (f <$> l).
Proof.
  intros Hk Hnd. apply order_by_unique.
  - rewrite <- list_fmap_compose. erewrite list_fmap_ext; [exact Hnd|]. intros i x _. apply Hk.
  - by rewrite order_by_perm.
  - apply (sorted_fmap (text_le key)); [|apply order_by_sorted]. intros x y. unfold text_le. by rewrite !Hk.
Qed.

Lemma order_by_idem {A : Type} (key : A -> string) (l : list A) :
  NoDup (key <$> l) -> order_by key (order_by key l) = order_by key l.
Proof. intros Hnd. apply order_by_proper; [done|apply order_by_perm]. Qed.
End Order.

(** ** Tables *)

Lemma rows_of_put {K A : Type} `{Countable K} (table : gmap string (gmap K A)) owner k row owner' :
  rows_of (put_row table owner k row) owner' =
  if decide (owner = owner') then <[k := row]> (rows_of table owner') else rows_of table owner'.
Proof. unfold rows_of, put_row. rewrite lookup_insert. case_decide; by subst. Qed.

Lemma rows_of_delete {K A : Type} `{Countable K} (table : gmap string (gmap K A)) owner :
  rows_of (delete owner table) owner = ∅.
Proof. unfold rows_of. by rewrite lookup_delete_eq. Qed.

Lemma taken_true {K A : Type} `{Countable K} (rows : gmap K A) k : taken rows k = true <-> is_Some (rows !! k).
Proof. apply bool_decide_eq_true. Qed.

Lemma taken_false {K A : Type} `{Countable K} (rows : gmap K A) k : taken rows k = false <-> rows !! k = None.
Proof. unfold taken. by rewrite bool_decide_eq_false, eq_None_not_Some. Qed.

Lemma value_taken_true {K A : Type} `{Countable K} (p : K -> A -> bool) (rows : gmap K A) :
  value_taken p rows = true <-> exists k row, rows !! k = Some row /\ p k row = true.
Proof.
  unfold value_taken. rewrite existsb_exists. split.
  - intros ([k row] & Hin%list_elem_of_In%elem_of_map_to_list & Hp). by exists k, row.
  - intros (k & row & Hk & Hp). exists (k, row). by rewrite <- list_elem_of_In, elem_of_map_to_list.
Qed.

Lemma value_taken_false {K A : Type} `{Countable K} (p : K -> A -> bool) (rows : gmap K A) :
  value_taken p rows = false <-> forall k row, rows !! k = Some row -> p k row = false.
Proof.
  rewrite <- Bool.not_true_iff_false, value_taken_true. split.
  - intros Hn k row Hk. apply Bool.not_true_iff_false. intros Hp. apply Hn. by exists k, row.
  - intros Hall (k & row & Hk & Hp). rewrite (Hall k row Hk) in Hp. done.
Qed.

(** A table filled from a slice. *)
Definition fill {A R : Type} (key : A -> string) (row : A -> R) (m : gmap string R) (l : list A) : gmap string R :=
  foldl (fun m x => <[key x := row x]> m) m l.

Lemma fill_lookup {A R : Type} (key : A -> string) (row : A -> R) (l : list A) (m : gmap string R) k r :
  NoDup (key <$> l) ->
  fill key row m l !! k = Some r <->
  (exists x, x ∈ l /\ key x = k /\ r = row x) \/ (k ∉ key <$> l /\ m !! k = Some r).
Proof.
  revert m. induction l as [|x l IH]; intros m Hnd; cbn.
  - split; [intros Hk; right; split; [apply not_elem_of_nil|done]|]. intros [(x & Hx%elem_of_nil & _)|[_ Hk]]; done.
  - cbn in Hnd. apply NoDup_cons in Hnd as [Hx Hnd]. fold (fill key row (<[key x := row x]> m) l). rewrite IH by done.
    rewrite lookup_insert. split.
    + intros [(y & Hy & Hk & ->)|[Hn Hk]]; [left; exists y; by rewrite elem_of_cons; auto|].
      case_decide as E; [left; exists x; rewrite elem_of_cons; naive_solver|].
      right. split; [|done]. rewrite elem_of_cons. naive_solver.
    + intros [(y & [-> |Hy]%elem_of_cons & Hk & ->)|[Hn Hk]].
      * right. subst k. split; [done|]. by rewrite decide_True.
      * left. by exists y.
      * rewrite elem_of_cons in Hn. right. split; [naive_solver|]. rewrite decide_False by naive_solver. done.
Qed.

Lemma fill_elements {A R : Type} (key : A -> string) (row : A -> R) (l : list A) :
  NoDup (key <$> l) -> map_to_list (fill key row ∅ l) ≡ₚ (fun x => (key x, row x)) <$> l.
Proof.
  intros Hnd. apply NoDup_Permutation.
  - apply NoDup_map_to_list.
  - apply (NoDup_fmap_1 fst). by rewrite <- list_fmap_compose.
  - intros [k r]. rewrite elem_of_map_to_list, fill_lookup, (list_elem_of_fmap (fun x => (key x, row x))) by done. split.
    + intros [(x & Hx & <- & ->)|[_ Hk]]; [by exists x|by rewrite lookup_empty in Hk].
    + intros (x & [= -> ->] & Hx). left. by exists x.
Qed.

(** Overwriting every row of a table. *)
Lemma fill_all {A R : Type} (key : A -> string) (row : A -> R) (l : list A) (m : gmap string R) :
  NoDup (key <$> l) -> (forall k, is_Some (m !! k) -> k ∈ key <$> l) -> fill key row m l = fill key row ∅ l.
Proof.
  intros Hnd Hdom. apply map_eq. intros k. apply option_eq. intros r. rewrite !fill_lookup by done.
  rewrite lookup_empty. split; [|naive_solver]. intros [?|[Hn Hk]]; [by left|]. destruct Hn. by apply Hdom.
Qed.

(** ** Slices with an index of their keys *)

Lemma index_tasks_snoc (ids : list string) (id : string) :
  index_tasks (ids ++ [id]) = <[id := length ids]> (index_tasks ids).
Proof.
  unfold index_tasks. rewrite imap_app, foldl_app. cbn. by rewrite Nat.add_0_r.
Qed.

Lemma index_tasks_lookup (ids : list string) (id : string) (i : nat) :
  NoDup ids -> index_tasks ids !! id = Some i <-> ids !! i = Some id.
Proof.
  induction ids as [|x ids IH] using rev_ind; intros Hnd.
  { cbn. by rewrite lookup_nil. }
  apply NoDup_app in Hnd as (Hnd & Hx & _). specialize (IH Hnd). rewrite index_tasks_snoc, lookup_insert. case_decide as E.
  - subst x. split.
    + intros [= <-]. by rewrite list_lookup_middle.
    + intros [Hi|[Hi Heq]]%lookup_app_Some; [|].
      * apply list_elem_of_lookup_2, Hx in Hi. destruct Hi. by apply list_elem_of_singleton.
      * apply list_lookup_singleton_Some in Heq as [Heq _]. f_equal. lia.
  - rewrite IH. split; [by apply lookup_app_l_Some|]. intros [Hi|[Hi Heq]]%lookup_app_Some; [done|].
    by apply list_lookup_singleton_Some in Heq as [_ ?].
Qed.

Section Alter.
Context {T R : Type} (key : T -> string) (g : R -> T -> T) (Hkey : forall r t, key (g r t) = key t).

Definition apply_row (t : T) (row : string * R) : T := if String.eqb (fst row) (key t) then g (snd row) t else t.

Lemma apply_row_key t row : key (apply_row t row) = key t.
Proof. unfold apply_row. by destruct (String.eqb _ _). Qed.

Lemma apply_rows_key t rows : key (foldl apply_row t rows) = key t.
Proof. revert t. induction rows as [|row rows IH]; intros t; cbn; [done|]. by rewrite IH, apply_row_key. Qed.

Lemma alter_keyed (tasks : list T) i id r :
  NoDup (key <$> tasks) -> (key <$> tasks) !! i = Some id ->
  alter (g r) i tasks = (fun t => apply_row t (id, r)) <$> tasks.
Proof.
  intros Hnd Hi. apply list_eq. intros j. rewrite list_lookup_fmap. destruct (decide (i = j)) as [<-|Hne].
  - rewrite list_lookup_alter_eq. rewrite list_lookup_fmap in Hi. destruct (tasks !! i) as [t|]; [|done].
    cbn in *. injection Hi as Hi. unfold apply_row. cbn. by rewrite Hi, String.eqb_refl.
  - rewrite list_lookup_alter_ne by done. destruct (tasks !! j) as [t|] eqn:Ej; [|done]. cbn. f_equal.
    unfold apply_row. cbn. destruct (String.eqb_spec id (key t)) as [->|]; [|done]. exfalso. apply Hne.
    eapply (NoDup_lookup (key <$> tasks)); [done|exact Hi|]. by rewrite list_lookup_fmap, Ej.
Qed.

(** The loop that distributes rows over the slice. *)
Lemma distribute (F : list T -> string * R -> res go_error (list T)) (tasks : list T) (rows : list (string * R)) :
  (forall ts id r, F ts (id, r) =
     match index_tasks (key <$> tasks) !! id with
     | None => Err (match F ts (id, r) with Err e => e | Ok _ => ErrText "" end)
     | Some i => Ok (alter (g r) i ts)
     end) ->
  NoDup (key <$> tasks) -> Forall (fun row => fst row ∈ key <$> tasks) rows ->
  foldM F tasks rows = Ok ((fun t => foldl apply_row t rows) <$> tasks).
Proof.
  intros HF Hnd Hrows.
  assert (Hgen : forall ts, key <$> ts = key <$> tasks ->
            foldM F ts rows = Ok ((fun t => foldl apply_row t rows) <$> ts)).
  2: by apply Hgen.
  induction rows as [|[id r] rows IH]; intros ts Hts; cbn [foldM].
  { cbn [foldl]. by rewrite list_fmap_id. }
  apply Forall_cons in Hrows as [Hid Hrows]. rewrite HF. cbn in Hid.
  apply list_elem_of_lookup_1 in Hid as [i Hi]. rewrite (proj2 (index_tasks_lookup _ _ _ Hnd) Hi). cbn [rbind].
  rewrite (alter_keyed ts i id r) by (by rewrite Hts). rewrite IH; [|done|].
  - by rewrite <- list_fmap_compose.
  - rewrite <- Hts, <- list_fmap_compose. apply list_fmap_ext. intros j t _. apply apply_row_key.
Qed.
End Alter.

(** ** Statements that succeed *)

Lemma checked_ok `{Postgres} {A : Type} encodes texts check unique references (result a : A) :
  checked encodes texts check unique references result = Ok a <->
  a = result /\ encodes = true /\ Forall (fun s => pg_text s = true) texts /\ check = true /\ unique = true /\
  references = true.
Proof.
  unfold checked. rewrite !guard_err_ok, !Bool.negb_false_iff, forallb_forall.
  setoid_rewrite <- list_elem_of_In. rewrite Forall_forall. naive_solver.
Qed.
