(* ===== verification/PostgresRuns.v ===== *)
(** * Runs in the database

    What the statements of a run change, what a database holds of a snapshot, and
    that loading it gives the snapshot back with the times and the order of the
    database. *)
From S2P Require Import Prelude Workflow Heap Graph GraphBuild GraphOrder Errors Run Ids Snapshot SnapshotValid RunStep RunInv RunDurable Security Sql Tx FileStore Postgres SqlFacts.

(** ** The rows of one run *)

Record run_part := mkRunPart {
  rp_run : option workflow_run_row;
  rp_tasks : gmap string task_run_row;
  rp_workers : gmap string Z;
  rp_leases : gmap string task_lease_row
}.

Definition part (db : database) (r : string) : run_part :=
  mkRunPart (db_workflow_runs db !! r) (rows_of (db_task_runs db) r) (rows_of (db_workers db) r)
    (rows_of (db_task_leases db) r).

(** Nothing but the rows of run [r] changes. *)
Record only_run (r : string) (db db' : database) : Prop := {
  or_definitions : db_workflow_definitions db' = db_workflow_definitions db;
  or_tasks : db_task_definitions db' = db_task_definitions db;
  or_dependencies : db_task_dependencies db' = db_task_dependencies db;
  or_security : with_security db (db_users db') (db_projects db') (db_project_memberships db')
                  (db_workflow_ownership db') (db_audit_events db') = db;
  or_parts : forall r', r' <> r -> part db' r' = part db r'
}.

Lemma only_run_refl r db : only_run r db db.
Proof. split; try done. by destruct db. Qed.

Lemma only_run_trans r db1 db2 db3 : only_run r db1 db2 -> only_run r db2 db3 -> only_run r db1 db3.
Proof.
  intros [A1 A2 A3 A4 A5] [B1 B2 B3 B4 B5]. split; try congruence.
  - destruct db1, db2, db3. unfold with_security in *. cbn in *. congruence.
  - intros r' Hr. by rewrite B5, A5.
Qed.

(** A change of the run tables at the key [r]. *)
Lemma only_run_tables r db runs tasks ws leases :
  (forall r', r' <> r -> runs !! r' = db_workflow_runs db !! r') ->
  (forall r', r' <> r -> rows_of tasks r' = rows_of (db_task_runs db) r') ->
  (forall r', r' <> r -> rows_of ws r' = rows_of (db_workers db) r') ->
  (forall r', r' <> r -> rows_of leases r' = rows_of (db_task_leases db) r') ->
  only_run r db (with_runs db runs tasks ws leases).
Proof.
  intros H1 H2 H3 H4. split; cbn; try done; [by destruct db|].
  intros r' Hr. unfold part. cbn. by rewrite H1, H2, H3, H4.
Qed.

Lemma rows_of_put_ne {K A : Type} `{Countable K} (table : gmap string (gmap K A)) owner k row owner' :
  owner' <> owner -> rows_of (put_row table owner k row) owner' = rows_of table owner'.
Proof. intros Hne. rewrite rows_of_put. by rewrite decide_False by done. Qed.

Lemma rows_of_put_eq {K A : Type} `{Countable K} (table : gmap string (gmap K A)) owner k row :
  rows_of (put_row table owner k row) owner = <[k := row]> (rows_of table owner).
Proof. rewrite rows_of_put. by rewrite decide_True by done. Qed.

Lemma rows_of_delete_ne {K A : Type} `{Countable K} (table : gmap string (gmap K A)) owner owner' :
  owner' <> owner -> rows_of (delete owner table) owner' = rows_of table owner'.
Proof. intros Hne. unfold rows_of. by rewrite lookup_delete_ne. Qed.

Create HintDb rows.
#[export] Hint Resolve rows_of_put_ne rows_of_delete_ne : rows.

Ltac only_run_tac :=
  apply only_run_tables; intros; auto with rows; try (apply lookup_insert_ne; congruence).

(** ** Statements of a run *)

Section Statements.
Context `{Postgres}.

Definition stored_lease (row : task_lease_row) : task_lease_row :=
  mkTaskLeaseRow (tlr_task_run_id row) (tlr_worker_id row) (tlr_attempt_id row) (pg_time (tlr_expires_at row)).

Definition stored_task (row : task_run_row) : task_run_row :=
  mkTaskRunRow (trr_workflow_id row) (trr_task_run_id row) (stored_columns (trr_columns row)).

Lemma InsertWorkflowRun_ok r row db db' u :
  execute (InsertWorkflowRun r row) db = Ok (db', u) ->
  only_run r db db' /\ db_workflow_runs db !! r = None /\ pg_text r = true /\
  wrr_workflow_id row ∈ db_workflow_definitions db /\
  part db' r = mkRunPart (Some (stored_run row)) (rp_tasks (part db r)) (rp_workers (part db r)) (rp_leases (part db r)).
Proof.
  cbn [execute]. unfold insert_workflow_run. intros (Heq & _ & Ht & _ & Hu & Hw)%checked_ok. simplify_eq.
  apply Bool.negb_true_iff, taken_false in Hu. apply bool_decide_eq_true in Hw.
  split_and!; [only_run_tac|done|by inv Ht|done|]. unfold part. cbn. by rewrite lookup_insert_eq.
Qed.

Lemma UpdateWorkflowRun_ok status updated r w version db db' answer :
  execute (UpdateWorkflowRun status updated r w version) db = Ok (db', answer) ->
  (exists row, db_workflow_runs db !! r = Some row /\ wrr_workflow_id row = w /\ wrr_version row = version /\
     answer = Some (version + 1) /\ only_run r db db' /\ pg_text r = true /\
     part db' r = mkRunPart (Some (mkWorkflowRunRow w (version + 1) status (wrr_created_at row) (pg_time updated)))
                    (rp_tasks (part db r)) (rp_workers (part db r)) (rp_leases (part db r))) \/
  (answer = None /\ db' = db /\
   forall row, db_workflow_runs db !! r = Some row -> ~ (wrr_workflow_id row = w /\ wrr_version row = version)).
Proof.
  cbn [execute]. unfold update_workflow_run. intros [Ht Hu]%guard_err_ok. rewrite Bool.negb_false_iff in Ht. cbn in Ht.
  apply andb_true_iff in Ht as [_ [Ht _]%andb_true_iff].
  destruct (db_workflow_runs db !! r) as [row|] eqn:Er; [|simplify_eq; by right].
  destruct (String.eqb_spec (wrr_workflow_id row) w) as [Ew|Ew]; cbn in Hu;
    [|simplify_eq; right; split_and!; try done; intros row' [= <-]; tauto].
  destruct (Z.eqb_spec (wrr_version row) version) as [Ev|Ev]; cbn in Hu;
    [|simplify_eq; right; split_and!; try done; intros row' [= <-]; tauto].
  apply checked_ok in Hu as (Heq & _). simplify_eq. left. exists row. split_and!; try done; [only_run_tac|].
  unfold part. cbn. by rewrite lookup_insert_eq.
Qed.

Lemma InsertTaskRun_ok r t row db db' u :
  execute (InsertTaskRun r t row) db = Ok (db', u) ->
  only_run r db db' /\ is_Some (db_workflow_runs db !! r) /\
  part db' r = mkRunPart (rp_run (part db r)) (<[t := stored_task row]> (rp_tasks (part db r)))
                 (rp_workers (part db r)) (rp_leases (part db r)).
Proof.
  cbn [execute]. unfold insert_task_run. intros (Heq & _ & _ & _ & _ & Hf)%checked_ok. simplify_eq.
  apply andb_true_iff in Hf as [Hf%bool_decide_eq_true _].
  split_and!; [only_run_tac| |unfold part; cbn; by rewrite rows_of_put_eq].
  destruct (db_workflow_runs db !! r); [by eexists|done].
Qed.

Lemma UpdateTaskRun_ok columns r t trid db db' n :
  execute (UpdateTaskRun columns r t trid) db = Ok (db', n) -> n = 1 ->
  only_run r db db' /\
  exists row, rp_tasks (part db r) !! t = Some row /\ trr_task_run_id row = trid /\
  part db' r = mkRunPart (rp_run (part db r))
                 (<[t := mkTaskRunRow (trr_workflow_id row) trid (stored_columns columns)]> (rp_tasks (part db r)))
                 (rp_workers (part db r)) (rp_leases (part db r)).
Proof.
  cbn [execute]. unfold update_task_run. intros [_ [_ Hu]%guard_err_ok]%guard_err_ok ->.
  destruct (rows_of (db_task_runs db) r !! t) as [row|] eqn:Er; [|done].
  destruct (String.eqb_spec (trr_task_run_id row) trid) as [<-|]; cbn in Hu; [|done].
  apply checked_ok in Hu as (Heq & _). simplify_eq. split; [only_run_tac|]. exists row.
  split_and!; try done. unfold part. cbn. by rewrite rows_of_put_eq.
Qed.

Lemma DeleteTaskLeases_ok r db db' u :
  execute (DeleteTaskLeases r) db = Ok (db', u) ->
  only_run r db db' /\ part db' r = mkRunPart (rp_run (part db r)) (rp_tasks (part db r)) (rp_workers (part db r)) ∅.
Proof.
  cbn [execute]. intros (Heq & _)%checked_ok. simplify_eq. split; [only_run_tac|]. unfold part. cbn. by rewrite rows_of_delete.
Qed.

Lemma DeleteWorkers_ok r db db' u :
  execute (DeleteWorkers r) db = Ok (db', u) ->
  only_run r db db' /\ part db' r = mkRunPart (rp_run (part db r)) (rp_tasks (part db r)) ∅ ∅.
Proof.
  cbn [execute]. intros (Heq & _)%checked_ok. simplify_eq. split; [only_run_tac|]. unfold part. cbn. by rewrite !rows_of_delete.
Qed.

Lemma InsertWorker_ok r w heartbeat db db' u :
  execute (InsertWorker r w heartbeat) db = Ok (db', u) ->
  only_run r db db' /\ is_Some (db_workflow_runs db !! r) /\
  part db' r = mkRunPart (rp_run (part db r)) (rp_tasks (part db r))
                 (<[w := pg_time heartbeat]> (rp_workers (part db r))) (rp_leases (part db r)).
Proof.
  cbn [execute]. unfold insert_worker. intros (Heq & _ & _ & _ & _ & Hf%taken_true)%checked_ok. simplify_eq.
  split_and!; [only_run_tac|done|]. unfold part. cbn. by rewrite rows_of_put_eq.
Qed.

Lemma InsertTaskLease_ok r t row db db' u :
  execute (InsertTaskLease r t row) db = Ok (db', u) ->
  only_run r db db' /\ is_Some (rp_tasks (part db r) !! t) /\
  part db' r = mkRunPart (rp_run (part db r)) (rp_tasks (part db r)) (rp_workers (part db r))
                 (<[t := stored_lease row]> (rp_leases (part db r))).
Proof.
  cbn [execute]. unfold insert_task_lease. intros (Heq & _ & _ & _ & _ & Hf)%checked_ok. simplify_eq.
  rewrite !andb_true_iff, taken_true in Hf. split_and!; [only_run_tac|tauto|]. unfold part. cbn. by rewrite rows_of_put_eq.
Qed.
End Statements.

(** ** What the database holds of a snapshot *)

Section Held.
Context `{Unicode} `{Postgres}.

Definition task_entry (task : TaskRun) : string * task_run_columns :=
  (tr_TaskRunID task, stored_columns (task_columns task)).
(** A task row without its workflow, which loading does not read. *)
Definition entry_of (row : task_run_row) : string * task_run_columns := (trr_task_run_id row, trr_columns row).

Definition leases_of (tasks : list TaskRun) : list (string * TaskLease) :=
  omap (fun t => (fun lease => (tr_TaskID t, lease)) <$> tr_Lease t) tasks.

Record held (p : run_part) (s : WorkflowRunSnapshot) : Prop := {
  he_run : rp_run p = Some (stored_run (run_row s));
  he_tasks : entry_of <$> rp_tasks p = fill tr_TaskID task_entry ∅ (snap_Tasks s);
  he_workers : rp_workers p = fill hb_WorkerID (fun w => pg_time (hb_LastHeartbeatAt w)) ∅ (snap_Workers s);
  he_leases : rp_leases p = fill fst (fun l => stored_lease (lease_row (snd l))) ∅ (leases_of (snap_Tasks s))
}.

(** ** The loops *)

Lemma insert_tasks_effect (s : WorkflowRunSnapshot) wrap l i db db' :
  evals (tx_each (fun _ task => stmt (wrap task) (InsertTaskRun (snap_ID s) (tr_TaskID task)
           (mkTaskRunRow (snap_WorkflowID s) (tr_TaskRunID task) (task_columns task)))) i l) db db' tt ->
  only_run (snap_ID s) db db' /\
  rp_run (part db' (snap_ID s)) = rp_run (part db (snap_ID s)) /\
  entry_of <$> rp_tasks (part db' (snap_ID s)) =
    fill tr_TaskID task_entry (entry_of <$> rp_tasks (part db (snap_ID s))) l /\
  rp_workers (part db' (snap_ID s)) = rp_workers (part db (snap_ID s)) /\
  rp_leases (part db' (snap_ID s)) = rp_leases (part db (snap_ID s)).
Proof.
  revert i db. induction l as [|t l IH]; intros i db; cbn [tx_each].
  - intros [-> _]%evals_ret. split_and!; try done. apply only_run_refl.
  - intros (db1 & [] & (Hf & _ & Hp)%evals_stmt%InsertTaskRun_ok & (IH1 & IH2 & IH3 & IH4 & IH5)%IH)%evals_bind.
    rewrite Hp in IH2, IH3, IH4, IH5. cbn [rp_run rp_tasks rp_workers rp_leases] in *.
    split_and!; [by eapply only_run_trans|done| |done|done]. rewrite IH3, fmap_insert. done.
Qed.

Lemma insert_workers_effect (r : string) wrap l i db db' :
  evals (tx_each (fun _ worker => stmt (wrap worker) (InsertWorker r (hb_WorkerID worker) (hb_LastHeartbeatAt worker)))
           i l) db db' tt ->
  only_run r db db' /\
  part db' r = mkRunPart (rp_run (part db r)) (rp_tasks (part db r))
    (fill hb_WorkerID (fun w => pg_time (hb_LastHeartbeatAt w)) (rp_workers (part db r)) l) (rp_leases (part db r)).
Proof.
  revert i db. induction l as [|w l IH]; intros i db; cbn [tx_each].
  - intros [-> _]%evals_ret. split; [apply only_run_refl|by destruct (part db r)].
  - intros (db1 & [] & (Hf & _ & Hp)%evals_stmt%InsertWorker_ok & (IH1 & IH2)%IH)%evals_bind.
    rewrite Hp in IH2. cbn in IH2. split; [by eapply only_run_trans|exact IH2].
Qed.

Lemma insert_leases_effect (r : string) wrap l i db db' :
  evals (tx_each (fun _ task => match tr_Lease task with
                                | None => tx_ret tt
                                | Some lease => stmt (wrap task) (InsertTaskLease r (tr_TaskID task) (lease_row lease))
                                end) i l) db db' tt ->
  only_run r db db' /\
  part db' r = mkRunPart (rp_run (part db r)) (rp_tasks (part db r)) (rp_workers (part db r))
    (fill fst (fun l => stored_lease (lease_row (snd l))) (rp_leases (part db r)) (leases_of l)).
Proof.
  revert i db. induction l as [|t l IH]; intros i db; cbn [tx_each].
  - intros [-> _]%evals_ret. split; [apply only_run_refl|by destruct (part db r)].
  - intros (db1 & [] & H1 & (IH1 & IH2)%IH)%evals_bind. unfold leases_of. cbn [omap list_omap].
    destruct (tr_Lease t) as [lease|]; cbn.
    + apply evals_stmt, InsertTaskLease_ok in H1 as (Hf & _ & Hp). rewrite Hp in IH2. cbn in IH2.
      split; [by eapply only_run_trans|exact IH2].
    + apply evals_ret in H1 as [-> _]. split; [done|exact IH2].
Qed.

Lemma update_tasks_effect (s : WorkflowRunSnapshot) l i db db' :
  evals (tx_each (fun _ task => update_task s task) i l) db db' tt ->
  only_run (snap_ID s) db db' /\
  rp_run (part db' (snap_ID s)) = rp_run (part db (snap_ID s)) /\
  entry_of <$> rp_tasks (part db' (snap_ID s)) =
    fill tr_TaskID task_entry (entry_of <$> rp_tasks (part db (snap_ID s))) l /\
  rp_workers (part db' (snap_ID s)) = rp_workers (part db (snap_ID s)) /\
  rp_leases (part db' (snap_ID s)) = rp_leases (part db (snap_ID s)).
Proof.
  revert i db. induction l as [|t l IH]; intros i db; cbn [tx_each].
  - intros [-> _]%evals_ret. split_and!; try done. apply only_run_refl.
  - intros (db1 & [] & H1 & (IH1 & IH2 & IH3 & IH4 & IH5)%IH)%evals_bind.
    apply evals_bind in H1 as (db2 & n & H1%evals_stmt & H2).
    destruct (Z.eqb_spec n 1) as [->|]; cbn [negb] in H2; [|by apply evals_fail in H2].
    apply evals_ret in H2 as [-> _]. apply UpdateTaskRun_ok in H1 as (Hf & row & Hrow & Htrid & Hp); [|done].
    rewrite Hp in IH2, IH3, IH4, IH5. cbn [rp_run rp_tasks rp_workers rp_leases] in *.
    split_and!; [by eapply only_run_trans|done| |done|done]. rewrite IH3, fmap_insert. done.
Qed.

(** ** The bodies of the transactions *)

Lemma evals_load_workflow w db db' (o : option WorkflowDefinition) :
  evals (loadPostgresWorkflowTx w) db db' o -> db' = db.
Proof.
  unfold loadPostgresWorkflowTx. intros (db1 & stored & [H1 _]%evals_stmt%checked_ok & H2)%evals_bind. simplify_eq.
  destruct (bool_decide (w ∈ _)); [|by apply evals_ret in H2 as [-> _]].
  apply evals_bind in H2 as (db2 & rows & [H2 _]%evals_stmt%checked_ok & H3). simplify_eq.
  apply evals_bind in H3 as (db3 & dependencies & [H3 _]%evals_stmt%checked_ok & H4). simplify_eq.
  apply evals_bind in H4 as (db4 & tasks & [-> _]%evals_lift & H5).
  apply evals_bind in H5 as (db5 & [] & [-> _]%evals_lift & H6). by apply evals_ret in H6 as [-> _].
Qed.

Lemma evals_restore r db db' s :
  shaped r -> evals (restorePostgresRunTx (Snapshot r)) db db' s ->
  db' = db /\ s = Snapshot r /\ validateSnapshot (Snapshot r) = Ok tt.
Proof.
  intros Hr (db1 & [d|] & <-%evals_load_workflow & H2)%evals_bind; [|by apply evals_fail in H2].
  apply evals_bind in H2 as (db2 & run & [-> Hrun%rmap_err_ok]%evals_lift & [-> ->]%evals_ret).
  split_and!; [done|by eapply restore_shaped|]. by apply restore_ok in Hrun as [? _].
Qed.

Lemma evals_children (s : WorkflowRunSnapshot) db db' :
  evals (insertPostgresWorkersAndLeases s) db db' tt ->
  only_run (snap_ID s) db db' /\
  part db' (snap_ID s) = mkRunPart (rp_run (part db (snap_ID s))) (rp_tasks (part db (snap_ID s)))
    (fill hb_WorkerID (fun w => pg_time (hb_LastHeartbeatAt w)) (rp_workers (part db (snap_ID s))) (snap_Workers s))
    (fill fst (fun l => stored_lease (lease_row (snd l))) (rp_leases (part db (snap_ID s))) (leases_of (snap_Tasks s))).
Proof.
  intros (db1 & [] & [F1 P1]%insert_workers_effect & [F2 P2]%insert_leases_effect)%evals_bind.
  rewrite P1 in P2. split; [by eapply only_run_trans|exact P2].
Qed.

(** A run row that the conditional update has advanced, with every task, worker and
    lease replaced. *)
Lemma evals_saveRun r db db' stored :
  shaped r -> evals (saveRunTx (Snapshot r)) db db' stored ->
  exists row, db_workflow_runs db !! run_id r = Some row /\ wrr_workflow_id row = wd_ID (run_definition r) /\
  wrr_version row = run_version r /\ validateSnapshot (Snapshot r) = Ok tt /\ pg_text (run_id r) = true /\
  stored = snapshot_with_version (Snapshot r) (wrap_uint64 (run_version r + 1)) /\ only_run (run_id r) db db' /\
  rp_run (part db' (run_id r)) =
    Some (mkWorkflowRunRow (wd_ID (run_definition r)) (run_version r + 1) (workflow_status_string (run_status r))
            (wrr_created_at row) (pg_time (run_updatedAt r))) /\
  entry_of <$> rp_tasks (part db' (run_id r)) =
    fill tr_TaskID task_entry (entry_of <$> rp_tasks (part db (run_id r))) (sortedTasks r) /\
  rp_workers (part db' (run_id r)) =
    fill hb_WorkerID (fun w => pg_time (hb_LastHeartbeatAt w)) ∅ (sortedWorkers r) /\
  rp_leases (part db' (run_id r)) =
    fill fst (fun l => stored_lease (lease_row (snd l))) ∅ (leases_of (sortedTasks r)).
Proof.
  intros Hr (db1 & s & (-> & -> & Hv)%evals_restore & H2)%evals_bind; [|done].
  apply evals_bind in H2 as (db1 & answer & H2%evals_stmt & H3).
  apply UpdateWorkflowRun_ok in H2 as [(row & Hrow & Hw & Hver & -> & F1 & Ht & P1)|(-> & -> & _)].
  2: { apply evals_bind in H3 as (db2 & [v|] & _ & H3); by apply evals_fail in H3. }
  apply evals_bind in H3 as (db2 & [] & (F2 & R2 & T2 & W2 & L2)%update_tasks_effect & H3).
  apply evals_bind in H3 as (db3 & [] & H3 & [-> ->]%evals_ret).
  apply evals_bind in H3 as (db4 & [] & [F4 P4]%evals_stmt%DeleteTaskLeases_ok & H3).
  apply evals_bind in H3 as (db5 & [] & [F5 P5]%evals_stmt%DeleteWorkers_ok & [F6 P6]%evals_children).
  cbn [snap_ID snap_WorkflowID snap_Version snap_Status snap_UpdatedAt snap_Tasks snap_Workers Snapshot] in *.
  rewrite P1 in R2, T2, W2, L2. cbn in R2, T2, W2, L2. rewrite P6, P5, P4. cbn. rewrite R2, T2.
  exists row. split_and!; try done; [].
  eapply only_run_trans; [exact F1|]. eapply only_run_trans; [exact F2|]. eapply only_run_trans; [exact F4|].
  by eapply only_run_trans.
Qed.

Lemma evals_createRun r db db' stored :
  shaped r -> evals (createRunTx (Snapshot r)) db db' stored ->
  db_workflow_runs db !! run_id r = None /\ validateSnapshot (Snapshot r) = Ok tt /\ pg_text (run_id r) = true /\
  stored = snapshot_with_version (Snapshot r) 1 /\ only_run (run_id r) db db' /\
  rp_run (part db' (run_id r)) = Some (stored_run (run_row stored)) /\
  entry_of <$> rp_tasks (part db' (run_id r)) =
    fill tr_TaskID task_entry (entry_of <$> rp_tasks (part db (run_id r))) (sortedTasks r) /\
  rp_workers (part db' (run_id r)) =
    fill hb_WorkerID (fun w => pg_time (hb_LastHeartbeatAt w)) (rp_workers (part db (run_id r))) (sortedWorkers r) /\
  rp_leases (part db' (run_id r)) =
    fill fst (fun l => stored_lease (lease_row (snd l))) (rp_leases (part db (run_id r))) (leases_of (sortedTasks r)).
Proof.
  intros Hr (db1 & s & (-> & -> & Hv)%evals_restore & H2)%evals_bind; [|done].
  apply evals_bind in H2 as (db1 & [] & (F1 & Hn & Ht & _ & P1)%evals_stmt%InsertWorkflowRun_ok & H3).
  apply evals_bind in H3 as (db2 & [] & H3 & [-> ->]%evals_ret).
  apply evals_bind in H3 as (db3 & [] & (F2 & R2 & T2 & W2 & L2)%insert_tasks_effect & [F3 P3]%evals_children).
  cbn [snapshot_with_version snap_ID snap_WorkflowID snap_Tasks snap_Workers Snapshot] in *.
  rewrite P1 in R2, T2, W2, L2. cbn [rp_run rp_tasks rp_workers rp_leases] in R2, T2, W2, L2. rewrite P3.
  cbn [rp_run rp_tasks rp_workers rp_leases]. rewrite R2, T2, W2, L2. split_and!; try done.
  eapply only_run_trans; [exact F1|]. by eapply only_run_trans.
Qed.
End Held.
