(* ===== verification/PostgresLoad.v ===== *)
(** * Loading a run from the database

    [pg_view] is a snapshot with the times and the order of the database. A valid
    snapshot has a valid view, and loading a run of which the database holds a valid
    snapshot gives its view. *)
From S2P Require Import Prelude Workflow Heap Graph GraphBuild GraphOrder Errors Run Ids Snapshot SnapshotValid RunStep RunInv RunDurable Security Sql Tx FileStore Postgres SqlFacts PostgresRuns.

Section View.
Context `{Postgres}.

Definition view_lease (l : TaskLease) : TaskLease :=
  mkTaskLease (lease_WorkerID l) (lease_TaskRunID l) (lease_AttemptID l) (pg_time (lease_ExpiresAt l)).

Definition view_task (t : TaskRun) : TaskRun :=
  {| tr_TaskID := tr_TaskID t; tr_TaskRunID := tr_TaskRunID t; tr_Status := tr_Status t; tr_Output := tr_Output t;
     tr_Error := tr_Error t; tr_AttemptCount := tr_AttemptCount t; tr_CurrentAttemptID := tr_CurrentAttemptID t;
     tr_NextAttemptAt := pg_time (tr_NextAttemptAt t); tr_Lease := view_lease <$> tr_Lease t;
     tr_UpdatedAt := pg_time (tr_UpdatedAt t); tr_StartedAt := pg_time (tr_StartedAt t);
     tr_FinishedAt := pg_time (tr_FinishedAt t) |}.

Definition view_worker (w : WorkerHeartbeat) : WorkerHeartbeat :=
  mkWorkerHeartbeat (hb_WorkerID w) (pg_time (hb_LastHeartbeatAt w)).

Definition pg_view (s : WorkflowRunSnapshot) : WorkflowRunSnapshot :=
  mkSnapshot (snap_ID s) (snap_WorkflowID s) (snap_Version s) (snap_Status s) (pg_time (snap_CreatedAt s))
    (pg_time (snap_UpdatedAt s)) (order_by tr_TaskID (view_task <$> snap_Tasks s))
    (order_by hb_WorkerID (view_worker <$> snap_Workers s)).

(** The database keeps the times of a snapshot apart from the zero time. *)
Definition lease_kept (l : TaskLease) : Prop := time_kept (lease_ExpiresAt l).
Definition task_kept (t : TaskRun) : Prop :=
  time_kept (tr_NextAttemptAt t) /\ time_kept (tr_UpdatedAt t) /\ time_kept (tr_StartedAt t) /\
  time_kept (tr_FinishedAt t) /\ forall l, tr_Lease t = Some l -> lease_kept l.
Definition worker_kept (w : WorkerHeartbeat) : Prop := time_kept (hb_LastHeartbeatAt w).
Definition times_kept (s : WorkflowRunSnapshot) : Prop :=
  time_kept (snap_CreatedAt s) /\ time_kept (snap_UpdatedAt s) /\ Forall task_kept (snap_Tasks s) /\
  Forall worker_kept (snap_Workers s).
End View.

(** ** The view of a valid snapshot *)

Section Valid.
Context `{PostgresLaws}.

Lemma pg_time_nonzero t : time_kept t -> t <> zero_time -> pg_time t <> zero_time.
Proof. unfold time_kept. naive_solver. Qed.

Lemma view_task_idem t : view_task (view_task t) = view_task t.
Proof.
  unfold view_task. cbn. rewrite !pg_time_idem. f_equal. destruct (tr_Lease t) as [l|]; [|done]. cbn.
  unfold view_lease. cbn. by rewrite pg_time_idem.
Qed.

Lemma lease_valid_view runID t l : lease_kept l -> lease_valid runID t l -> lease_valid runID (view_task t) (view_lease l).
Proof. intros Hk []. split; cbn; try done. by apply pg_time_nonzero. Qed.

Lemma task_valid_view runID createdAt t :
  task_kept t -> task_valid runID createdAt t -> task_valid runID (pg_time createdAt) (view_task t).
Proof.
  intros (? & ? & ? & ? & Hk) []. split; cbn; try done.
  - destruct tv_updated. split; [by apply pg_time_nonzero|by apply pg_time_mono].
  - intros Hs. destruct (tv_running Hs). split; [done|by apply pg_time_nonzero].
  - intros Hs. destruct (tv_completed Hs). split; [done|by apply pg_time_nonzero].
  - intros Hs. apply pg_time_nonzero; [done|by apply tv_canceled].
  - intros Hs. destruct (tv_waiting Hs) as (? & ? & ?). split_and!; try done. by apply pg_time_nonzero.
  - intros Hs. by rewrite (tv_not_waiting Hs), pg_time_zero.
  - intros lease. destruct (tr_Lease t) as [l|] eqn:El; [|done]. intros [= <-]. apply lease_valid_view; [by apply Hk|by apply tv_lease].
Qed.

Lemma worker_valid_view createdAt w : worker_kept w -> worker_valid createdAt w -> worker_valid (pg_time createdAt) (view_worker w).
Proof.
  intros Hk (? & ? & ?). split_and!; cbn; [done|by apply pg_time_nonzero|by apply pg_time_mono].
Qed.

Lemma view_task_ids (tasks : list TaskRun) : tr_TaskID <$> (view_task <$> tasks) = tr_TaskID <$> tasks.
Proof. by rewrite <- list_fmap_compose. Qed.

Lemma view_worker_ids (ws : list WorkerHeartbeat) : hb_WorkerID <$> (view_worker <$> ws) = hb_WorkerID <$> ws.
Proof. by rewrite <- list_fmap_compose. Qed.

Lemma lease_workers_view (tasks : list TaskRun) : lease_workers (view_task <$> tasks) = lease_workers tasks.
Proof.
  unfold lease_workers. induction tasks as [|t tasks IH]; [done|]. cbn. destruct (tr_Lease t); cbn; by rewrite IH.
Qed.

Lemma lease_workers_perm l k : l ≡ₚ k -> lease_workers l ≡ₚ lease_workers k.
Proof. intros Hp. unfold lease_workers. by apply omap_Permutation. Qed.

Lemma aggregate_valid_view status (tasks tasks' : list TaskRun) :
  tasks' ≡ₚ view_task <$> tasks -> aggregate_valid status tasks -> aggregate_valid status tasks'.
Proof.
  intros Hp Hagg. destruct status; cbn in *; rewrite ?Hp, ?Forall_fmap, ?Exists_fmap; try done.
Qed.

Lemma snapshot_valid_view s : times_kept s -> snapshot_valid s -> snapshot_valid (pg_view s).
Proof.
  intros (? & ? & Htasks & Hworkers) Hv. destruct Hv. split; cbn; try done.
  - by apply pg_time_nonzero.
  - destruct sn_updated. split; [by apply pg_time_nonzero|by apply pg_time_mono].
  - intros Hn. apply sn_nonempty. assert (Hp : view_task <$> snap_Tasks s ≡ₚ []) by by rewrite <- Hn, order_by_perm.
    by apply Permutation_nil_r, fmap_nil_inv in Hp.
  - rewrite order_by_perm, Forall_fmap. eapply Forall_impl; [exact (proj2 (Forall_and _ _) (conj Htasks sn_tasks))|].
    intros t []. by apply task_valid_view.
  - by rewrite order_by_perm, view_task_ids.
  - rewrite (lease_workers_perm _ (view_task <$> snap_Tasks s)) by apply order_by_perm. by rewrite lease_workers_view.
  - rewrite order_by_perm, Forall_fmap. eapply Forall_impl; [exact (proj2 (Forall_and _ _) (conj Hworkers sn_workers))|].
    intros w []. by apply worker_valid_view.
  - by rewrite order_by_perm, view_worker_ids.
  - intros w. rewrite (lease_workers_perm _ (view_task <$> snap_Tasks s)) by apply order_by_perm.
    rewrite lease_workers_view. intros Hw%sn_lease_heartbeat. by rewrite order_by_perm, view_worker_ids.
  - eapply aggregate_valid_view; [apply order_by_perm|done].
Qed.

Lemma pg_view_idem s : snapshot_valid s -> pg_view (pg_view s) = pg_view s.
Proof.
  intros Hv. assert (Ht : NoDup (tr_TaskID <$> (view_task <$> snap_Tasks s))) by (rewrite view_task_ids; apply Hv).
  assert (Hw : NoDup (hb_WorkerID <$> (view_worker <$> snap_Workers s))) by (rewrite view_worker_ids; apply Hv).
  unfold pg_view. cbn. rewrite !pg_time_idem. f_equal.
  - rewrite (order_by_fmap tr_TaskID tr_TaskID) by done. rewrite <- list_fmap_compose.
    rewrite (list_fmap_ext (view_task ∘ view_task) view_task) by (intros; apply view_task_idem).
    by apply order_by_idem.
  - rewrite (order_by_fmap hb_WorkerID hb_WorkerID) by done. rewrite <- list_fmap_compose.
    rewrite (list_fmap_ext (view_worker ∘ view_worker) view_worker)
      by (intros i [] _; unfold view_worker; cbn; by rewrite pg_time_idem).
    by apply order_by_idem.
Qed.
End Valid.

(** ** Reading the rows *)

Lemma run_status_of_string status : workflow_status_valid status = true -> run_status_of (workflow_status_string status) = status.
Proof. by destruct status. Qed.

Lemma task_status_of_string status : task_status_valid status = true -> task_status_of (task_status_string status) = status.
Proof. by destruct status. Qed.

Lemma apply_rows_absent {T R : Type} (key : T -> string) (g : R -> T -> T) x (rows : list (string * R)) :
  key x ∉ fst <$> rows -> foldl (apply_row key g) x rows = x.
Proof.
  induction rows as [|[id r] rows IH]; cbn; [done|]. intros [Hne Hn]%not_elem_of_cons. unfold apply_row at 2. cbn.
  rewrite (proj2 (String.eqb_neq id (key x))) by congruence. by apply IH.
Qed.

Lemma apply_rows_present {T R : Type} (key : T -> string) (g : R -> T -> T) x (rows : list (string * R)) r :
  (forall r t, key (g r t) = key t) -> NoDup (fst <$> rows) -> (key x, r) ∈ rows ->
  foldl (apply_row key g) x rows = g r x.
Proof.
  intros Hk. induction rows as [|[id r'] rows IH]; cbn; [by intros _ ?%elem_of_nil|].
  intros [Hn Hnd]%NoDup_cons [[= <- <-]|Hin]%elem_of_cons.
  - unfold apply_row at 2. cbn. rewrite String.eqb_refl. apply apply_rows_absent. by rewrite Hk.
  - unfold apply_row at 2. cbn. destruct (String.eqb_spec id (key x)) as [->|].
    + destruct Hn. apply list_elem_of_fmap. by exists (key x, r).
    + by apply IH.
Qed.

Lemma NoDup_fmap_inj_elem {A B : Type} (f : A -> B) (l : list A) (x y : A) :
  NoDup (f <$> l) -> x ∈ l -> y ∈ l -> f x = f y -> x = y.
Proof.
  induction l as [|z l IH]; cbn; [by intros _ ?%elem_of_nil|]. rewrite NoDup_cons, list_elem_of_fmap, !elem_of_cons.
  naive_solver.
Qed.

Section Load.
Context `{Unicode} `{PostgresLaws}.

Definition read_entry (row : string * (string * task_run_columns)) : TaskRun :=
  let '(task_id, (task_run_id, columns)) := row in read_task (task_id, mkTaskRunRow "" task_run_id columns).

(** A task as its row has it, without its lease. *)
Definition plain_task (t : TaskRun) : TaskRun := read_entry (tr_TaskID t, task_entry t).

Lemma read_time_nullable t : read_time (pg_time <$> nullablePostgresTime t) = pg_time t.
Proof.
  unfold nullablePostgresTime, time_is_zero. destruct (Z.eqb_spec t zero_time) as [->|]; [|done]. cbn. by rewrite pg_time_zero.
Qed.

Lemma plain_task_view t l :
  task_status_valid (tr_Status t) = true ->
  (forall lease, tr_Lease t = Some lease -> l = view_lease lease) ->
  view_task t = match tr_Lease t with Some _ => set_lease l (plain_task t) | None => plain_task t end.
Proof.
  intros Hs Hl. unfold plain_task, read_entry, read_task, task_entry, view_task, set_lease. cbn.
  rewrite task_status_of_string, !read_time_nullable by done.
  destruct (tr_Lease t) as [lease|]; [|done]. cbn. by rewrite (Hl lease eq_refl).
Qed.

(** A [SELECT] of the rows that a slice has filled in. *)
Lemma ordered_fill {A R : Type} (key : A -> string) (row : A -> R) (l : list A) :
  NoDup (key <$> l) -> order_by fst (map_to_list (fill key row ∅ l)) = (fun x => (key x, row x)) <$> order_by key l.
Proof.
  intros Hnd. rewrite (order_by_fmap key fst (fun x => (key x, row x))) by done. apply order_by_proper.
  - by rewrite <- list_fmap_compose.
  - by apply fill_elements.
Qed.

Lemma loaded_tasks (rows : gmap string task_run_row) (tasks : list TaskRun) :
  NoDup (tr_TaskID <$> tasks) -> entry_of <$> rows = fill tr_TaskID task_entry ∅ tasks ->
  read_task <$> order_by fst (map_to_list rows) = plain_task <$> order_by tr_TaskID tasks.
Proof.
  intros Hnd Hrows.
  rewrite (list_fmap_ext read_task (read_entry ∘ prod_map id entry_of)) by (by intros i [k [? ? ?]] _).
  rewrite list_fmap_compose, (order_by_fmap fst fst (prod_map id entry_of)) by (by intros [] || apply NoDup_fst_map_to_list).
  rewrite <- map_to_list_fmap, Hrows, ordered_fill by done. by rewrite <- list_fmap_compose.
Qed.

Lemma leases_of_elem tasks id lease :
  (id, lease) ∈ leases_of tasks <-> exists t, t ∈ tasks /\ tr_TaskID t = id /\ tr_Lease t = Some lease.
Proof.
  unfold leases_of. rewrite list_elem_of_omap. split.
  - intros (t & Ht & Hl). exists t. destruct (tr_Lease t); by simplify_eq/=.
  - intros (t & Ht & <- & Hl). exists t. by rewrite Hl.
Qed.

Lemma leases_of_nodup tasks : NoDup (tr_TaskID <$> tasks) -> NoDup (fst <$> leases_of tasks).
Proof.
  unfold leases_of. induction tasks as [|t tasks IH]; cbn; [done|]. intros [Hn Hnd]%NoDup_cons.
  destruct (tr_Lease t) as [l|]; cbn; [|by apply IH]. apply NoDup_cons. split; [|by apply IH].
  rewrite list_elem_of_fmap. intros ([id lease] & Heq & (t' & Ht' & Hid & _)%leases_of_elem).
  apply Hn, list_elem_of_fmap. exists t'. by rewrite Hid.
Qed.

(** The lease rows, distributed over the tasks. *)
Lemma loaded_leases runID tasks :
  NoDup (tr_TaskID <$> tasks) -> Forall (fun t => task_status_valid (tr_Status t) = true) tasks ->
  let tasks0 := plain_task <$> order_by tr_TaskID tasks in
  foldM (add_lease runID (index_tasks (tr_TaskID <$> tasks0))) tasks0
    (order_by fst (map_to_list (fill fst (fun l => stored_lease (lease_row (snd l))) ∅ (leases_of tasks)))) =
  Ok (order_by tr_TaskID (view_task <$> tasks)).
Proof.
  intros Hnd Hst tasks0. pose proof (leases_of_nodup tasks Hnd) as Hl.
  assert (Hids : tr_TaskID <$> tasks0 ≡ₚ tr_TaskID <$> tasks).
  { unfold tasks0. rewrite <- list_fmap_compose. by rewrite (order_by_perm tr_TaskID tasks). }
  rewrite (ordered_fill fst) by done. set (rows := _ <$> order_by fst (leases_of tasks)).
  rewrite (distribute tr_TaskID (fun r => set_lease (read_lease r)) (fun _ _ => eq_refl)).
  - f_equal. unfold tasks0. rewrite <- list_fmap_compose, <- (order_by_fmap tr_TaskID tr_TaskID view_task) by done.
    apply list_fmap_ext. intros i t Ht%list_elem_of_lookup_2. rewrite order_by_perm in Ht. cbn.
    rewrite Forall_forall in Hst. specialize (Hst t Ht).
    assert (Hrows : NoDup (fst <$> rows)).
    { unfold rows. rewrite <- list_fmap_compose. cbn. rewrite (list_fmap_ext _ fst) by done. by rewrite order_by_perm. }
    destruct (tr_Lease t) as [lease|] eqn:El.
    + rewrite (apply_rows_present _ _ _ _ (stored_lease (lease_row lease))); [|done|done|].
      * rewrite (plain_task_view t (view_lease lease)); [by rewrite El|done|]. intros l ?. by simplify_eq.
      * unfold rows. apply list_elem_of_fmap. exists (tr_TaskID t, lease). split; [done|]. rewrite order_by_perm.
        apply leases_of_elem. by exists t.
    + rewrite apply_rows_absent.
      * rewrite (plain_task_view t (mkTaskLease "" "" "" 0)); [by rewrite El|done|]. intros l ?. congruence.
      * unfold rows. rewrite <- list_fmap_compose, list_elem_of_fmap. intros ([id l] & Heq & Hin).
        rewrite order_by_perm, leases_of_elem in Hin. destruct Hin as (t' & Ht' & Hid & Hl'). cbn in Heq.
        assert (t' = t) as -> by (eapply (NoDup_fmap_inj_elem tr_TaskID tasks); [done|done|done|congruence]).
        congruence.
  - intros ts id r. cbn. by destruct (index_tasks _ !! id).
  - by rewrite Hids.
  - apply Forall_forall. intros row Hrow. rewrite Hids. unfold rows in Hrow. apply list_elem_of_fmap in Hrow as ([id l] & -> & Hin).
    rewrite order_by_perm, leases_of_elem in Hin. destruct Hin as (t & Ht & <- & _). cbn.
    by apply (list_elem_of_fmap_2 tr_TaskID).
Qed.

Lemma execute_select {A : Type} texts db (answer : A) :
  Forall (fun s => pg_text s = true) texts -> select texts db answer = Ok (db, answer).
Proof. intros Ht. unfold select. apply checked_ok. by split_and!. Qed.

(** A run that the database holds is loaded as its view. *)
Lemma load_held db s :
  held (part db (snap_ID s)) s -> snapshot_valid s -> times_kept s -> 1 <= snap_Version s < 2 ^ 64 -> pg_text (snap_ID s) = true ->
  evals (loadPostgresRunTx (snap_ID s)) db db (Some (pg_view s)).
Proof.
  intros [Hrun Htasks Hworkers Hleases] Hv Hkept Hver Ht. cbn in Hrun, Htasks, Hworkers, Hleases.
  assert (Htexts : Forall (fun s => pg_text s = true) [snap_ID s]) by by constructor.
  assert (Hst : Forall (fun t => task_status_valid (tr_Status t) = true) (snap_Tasks s)).
  { eapply Forall_impl; [apply (sn_tasks s Hv)|]. by intros t []. }
  unfold loadPostgresRunTx. apply evals_bind. eexists db, _. split; [by apply evals_stmt, execute_select|].
  rewrite Hrun. cbn [stored_run run_row wrr_version wrr_workflow_id wrr_status wrr_created_at wrr_updated_at].
  rewrite (proj2 (Z.ltb_ge _ _)) by lia.
  apply evals_bind. eexists db, _. split; [by apply evals_stmt, execute_select|]. cbv zeta.
  apply evals_bind. eexists db, _. split; [by apply evals_stmt, execute_select|].
  apply evals_bind. eexists db, _. split; [by apply evals_stmt, execute_select|].
  rewrite (loaded_tasks _ (snap_Tasks s)), Hleases by (done || apply (sn_unique s Hv)).
  apply evals_bind. eexists db, _. split; [by apply evals_lift; split; [|apply loaded_leases, Hst; apply (sn_unique s Hv)]|].
  rewrite Hworkers, ordered_fill, <- list_fmap_compose by apply (sn_workers_unique s Hv).
  rewrite (list_fmap_ext _ view_worker) by done.
  rewrite (order_by_fmap hb_WorkerID hb_WorkerID view_worker) by (done || apply (sn_workers_unique s Hv)).
  rewrite run_status_of_string by (destruct (snap_Status s) eqn:E; try done; destruct Hv; by rewrite E in *).
  rewrite wrap_uint64_id by (unfold in_uint64; lia). fold (pg_view s).
  apply evals_bind. exists db, tt. split; [|by apply evals_ret]. apply evals_lift. split; [done|].
  apply rmap_err_ok, validateSnapshot_ok. by apply (snapshot_valid_view s).
Qed.
End Load.
