(* ===== verification/PostgresProps.v ===== *)
(** * Guarantees of the PostgreSQL store

    The foreign keys that hold in every database a transaction leaves, and what
    [SaveRun] and [CreateRun] make of a run: versions advance by one, a conflict
    changes nothing, and the run that is loaded is the run that was saved. *)
From S2P Require Import Prelude Workflow Heap Graph GraphBuild GraphOrder Errors Run Ids Snapshot SnapshotValid RunStep RunInv RunProps RunDurable Security Sql Tx FileStore Postgres SqlFacts PostgresRuns PostgresLoad.

(** ** Invariants of the database *)

(** Takes a statement that succeeded apart. *)
Ltac stmt_ok He :=
  cbn [execute] in He; unfold select, insert_task_definition, insert_task_dependency, insert_user, insert_project,
    update_project, upsert_membership, insert_workflow_ownership, insert_audit_event in He;
  repeat first
    [ apply guard_err_ok in He as [_ He]
    | apply rbind_ok in He as (? & _ & He)
    | apply checked_ok in He as [He _]
    | case_match
    | progress simplify_eq ].

Section Preserved.
Context `{Postgres}.

(** What every statement preserves, every transaction preserves. *)
Definition preserved (I : database -> Prop) : Prop :=
  forall A (q : query A) db db' a, execute q db = Ok (db', a) -> I db -> I db'.

Lemma evals_preserves {A : Type} I (t : tx A) : preserved I -> forall db db' a, evals t db db' a -> I db -> I db'.
Proof.
  intros Hp. unfold evals. induction t as [r|B q k IH]; intros db db' a; cbn; [by intros [= -> _]|].
  destruct (execute q db) as [[db1 b]|e] eqn:E; [|done]. intros He HI. eapply IH; [exact He|]. by eapply Hp.
Qed.

Lemma transaction_preserves {A : Type} I calls bf cf (t : tx A) db :
  preserved I -> I db -> I (fst (transaction calls bf cf t db)).
Proof.
  intros Hp HI. destruct (transaction_state calls bf cf t db) as [->|[a He]]; [done|]. by eapply evals_preserves.
Qed.

Lemma after_checks_preserves {A : Type} (I : database -> Prop) checks db (rest : database * res go_error A) :
  I db -> I (fst rest) -> I (fst (after_checks checks db rest)).
Proof. by destruct checks. Qed.

(** Tasks, workers and leases belong to a run that exists, and a lease to a task. *)
Definition orphan_free (db : database) : Prop :=
  forall r, db_workflow_runs db !! r = None ->
  rows_of (db_task_runs db) r = ∅ /\ rows_of (db_workers db) r = ∅ /\ rows_of (db_task_leases db) r = ∅.

Lemma orphan_free_part db r p :
  orphan_free db -> part db r = p -> rp_run p = None -> p = mkRunPart None ∅ ∅ ∅.
Proof. intros Hf <- Hn. unfold part in *. cbn in Hn. destruct (Hf r Hn) as (-> & -> & ->). by rewrite Hn. Qed.

(** A statement of one run. *)
Lemma orphan_free_run r db db' :
  only_run r db db' -> (rp_run (part db' r) = None -> part db' r = mkRunPart None ∅ ∅ ∅) ->
  orphan_free db -> orphan_free db'.
Proof.
  intros [_ _ _ _ Hp] Hs Hf r' Hr'. destruct (decide (r' = r)) as [->|Hne].
  - specialize (Hs Hr'). unfold part in Hs. by injection Hs.
  - specialize (Hp r' Hne). unfold part in Hp. injection Hp as P1 P2 P3 P4. rewrite P2, P3, P4. apply Hf. congruence.
Qed.

Lemma orphan_free_preserved : preserved orphan_free.
Proof.
  intros A q db db' a He Hf. destruct q; try (stmt_ok He; done).
  - apply InsertWorkflowRun_ok in He as (Ho & _ & _ & _ & Hp). eapply orphan_free_run; [exact Ho|by rewrite Hp|done].
  - apply UpdateWorkflowRun_ok in He as [(row & _ & _ & _ & _ & Ho & _ & Hp)|(_ & -> & _)]; [|done].
    eapply orphan_free_run; [exact Ho|by rewrite Hp|done].
  - apply InsertTaskRun_ok in He as (Ho & [? Hrow] & Hp). eapply orphan_free_run; [exact Ho| |done].
    rewrite Hp. cbn. by rewrite Hrow.
  - cbn [execute] in He. unfold update_task_run in He. apply guard_err_ok in He as [_ [_ He]%guard_err_ok].
    destruct (rows_of (db_task_runs db) run_id !! task_id) as [row|] eqn:Er; [|by simplify_eq].
    destruct (negb _); [by simplify_eq|]. apply checked_ok in He as (Heq & _). simplify_eq.
    eapply (orphan_free_run run_id); [only_run_tac| |done]. cbn. intros Hn. destruct (Hf _ Hn) as (He & _).
    by rewrite He, lookup_empty in Er.
  - apply DeleteTaskLeases_ok in He as [Ho Hp]. eapply orphan_free_run; [exact Ho| |done].
    rewrite Hp. cbn. intros Hn. destruct (Hf _ Hn) as (-> & -> & _). by rewrite Hn.
  - apply DeleteWorkers_ok in He as [Ho Hp]. eapply orphan_free_run; [exact Ho| |done].
    rewrite Hp. cbn. intros Hn. destruct (Hf _ Hn) as (-> & _). by rewrite Hn.
  - apply InsertWorker_ok in He as (Ho & [? Hrow] & Hp). eapply orphan_free_run; [exact Ho| |done].
    rewrite Hp. cbn. by rewrite Hrow.
  - apply InsertTaskLease_ok in He as (Ho & [? Hrow] & Hp). eapply orphan_free_run; [exact Ho| |done].
    rewrite Hp. cbn. intros Hn. destruct (Hf _ Hn) as (He & _). cbn in Hrow. by rewrite He, lookup_empty in Hrow.
Qed.

Lemma orphan_free_empty : orphan_free empty_database.
Proof. intros r _. unfold rows_of. cbn. by rewrite !lookup_empty. Qed.
End Preserved.

(** ** Saving and creating a run *)

Section Runs.
Context `{Unicode} `{PostgresLaws}.

Definition answered : nat -> call_answer := fun _ => Answered.

Lemma evals_load_run runID db db' o : evals (loadPostgresRunTx runID) db db' o -> db' = db.
Proof.
  unfold loadPostgresRunTx. intros (db1 & row & [H2 _]%evals_stmt%checked_ok & H3)%evals_bind. simplify_eq.
  destruct (db_workflow_runs db !! runID) as [row|]; [|by apply evals_ret in H3 as [-> _]].
  destruct (wrr_version row <? 1); [by apply evals_fail in H3|].
  apply evals_bind in H3 as (db2 & rows & [H4 _]%evals_stmt%checked_ok & H5). simplify_eq.
  apply evals_bind in H5 as (db3 & ws & [H6 _]%evals_stmt%checked_ok & H7). simplify_eq.
  apply evals_bind in H7 as (db4 & leases & [H8 _]%evals_stmt%checked_ok & H9). simplify_eq.
  apply evals_bind in H9 as (db5 & tasks & [-> _]%evals_lift & H10).
  apply evals_bind in H10 as (db6 & [] & [-> _]%evals_lift & [-> _]%evals_ret). done.
Qed.

(** Loading a run reads the rows of the run only. *)
Lemma load_run_frame r db db' o :
  part db' r = part db r -> evals (loadPostgresRunTx r) db db o -> evals (loadPostgresRunTx r) db' db' o.
Proof.
  unfold part. intros Hp. injection Hp as P1 P2 P3 P4. unfold loadPostgresRunTx.
  intros (db1 & row & [Heq Hs]%evals_stmt%checked_ok & H2)%evals_bind. injection Heq as -> ->.
  apply evals_bind. exists db'. eexists. split; [apply evals_stmt, checked_ok; split; [done|exact Hs]|].
  rewrite P1. destruct (db_workflow_runs db !! r) as [row|]; [|apply evals_ret in H2 as [_ ->]; by apply evals_ret].
  destruct (wrr_version row <? 1); [by apply evals_fail in H2|].
  apply evals_bind in H2 as (db1 & rows & [Heq _]%evals_stmt%checked_ok & H3). injection Heq as -> ->.
  apply evals_bind. exists db'. eexists. split; [apply evals_stmt, checked_ok; split; [done|exact Hs]|]. rewrite P2.
  apply evals_bind in H3 as (db1 & ws & [Heq _]%evals_stmt%checked_ok & H4). injection Heq as -> ->.
  apply evals_bind. exists db'. eexists. split; [apply evals_stmt, checked_ok; split; [done|exact Hs]|]. rewrite P3.
  apply evals_bind in H4 as (db1 & leases & [Heq _]%evals_stmt%checked_ok & H5). injection Heq as -> ->.
  apply evals_bind. exists db'. eexists. split; [apply evals_stmt, checked_ok; split; [done|exact Hs]|]. rewrite P4.
  apply evals_bind in H5 as (db1 & tasks & [-> Ht]%evals_lift & H6). apply evals_bind. exists db', tasks.
  split; [by apply evals_lift|]. apply evals_bind in H6 as (db1 & u & [-> Hu]%evals_lift & [_ ->]%evals_ret).
  apply evals_bind. exists db', u. by rewrite evals_lift, evals_ret.
Qed.

Lemma LoadRun_evals db runID o :
  PostgresStore_LoadRun answered db CtxLive runID = Ok o <-> evals (loadPostgresRunTx runID) db db o.
Proof.
  unfold PostgresStore_LoadRun. cbn [check_context storeContextError rbind]. rewrite transaction_answered by done.
  pose proof (evals_load_run runID db) as Hro. unfold evals in *.
  destruct (eval _ _) as [[db'|] [a|e]]; cbn; split; try done; [|naive_solver].
  intros [= ->]. by rewrite (Hro _ _ eq_refl).
Qed.

Lemma add_lease_ids runID indexes rows ts ts' :
  foldM (add_lease runID indexes) ts rows = Ok ts' -> tr_TaskID <$> ts' = tr_TaskID <$> ts.
Proof.
  revert ts. induction rows as [|[id r] rows IH]; intros ts; cbn; [by intros [= ->]|].
  destruct (indexes !! id) as [i|]; [|done]. cbn. intros ->%IH. apply list_eq. intros j.
  rewrite !list_lookup_fmap. destruct (decide (i = j)) as [->|Hne].
  - rewrite list_lookup_alter_eq. by destruct (ts !! j).
  - by rewrite list_lookup_alter_ne.
Qed.

(** What a loaded run says of the rows. *)
Lemma loaded_rows db db' runID s :
  evals (loadPostgresRunTx runID) db db' (Some s) ->
  exists row, db_workflow_runs db !! runID = Some row /\ 1 <= wrr_version row /\
  wrr_created_at row = snap_CreatedAt s /\ snap_Version s = wrap_uint64 (wrr_version row) /\
  forall k, k ∈ tr_TaskID <$> snap_Tasks s <-> is_Some (rp_tasks (part db runID) !! k).
Proof.
  unfold loadPostgresRunTx. intros (db1 & row & [H2 _]%evals_stmt%checked_ok & H3)%evals_bind. simplify_eq.
  destruct (db_workflow_runs db !! runID) as [row|]; [|by apply evals_ret in H3 as [_ ?]].
  destruct (Z.ltb_spec (wrr_version row) 1); [by apply evals_fail in H3|].
  apply evals_bind in H3 as (db2 & rows & [H4 _]%evals_stmt%checked_ok & H5). simplify_eq.
  apply evals_bind in H5 as (db3 & ws & [H6 _]%evals_stmt%checked_ok & H7). simplify_eq.
  apply evals_bind in H7 as (db4 & leases & [H8 _]%evals_stmt%checked_ok & H9). simplify_eq.
  apply evals_bind in H9 as (db5 & tasks & [-> Hfold]%evals_lift & H10).
  apply evals_bind in H10 as (db6 & [] & _ & [_ [= ->]]%evals_ret). exists row. split_and!; [done|lia|done|done|].
  intros k. cbn [snap_Tasks]. rewrite (add_lease_ids _ _ _ _ _ Hfold), <- list_fmap_compose. rewrite (list_fmap_ext _ fst) by (by intros i [? ?] _).
  rewrite order_by_perm. cbn. rewrite list_elem_of_fmap. split.
  - intros ([k' row'] & -> & Hin%elem_of_map_to_list). by exists row'.
  - intros [row' Hk]. exists (k, row'). by rewrite elem_of_map_to_list.
Qed.

(** The rows from which the next save of the run starts. *)
Definition run_rows (db : database) (r : WorkflowRun) : Prop :=
  exists row, db_workflow_runs db !! run_id r = Some row /\ 1 <= wrr_version row /\
    wrr_created_at row = pg_time (run_createdAt r) /\ run_version r = wrap_uint64 (wrr_version row) /\
    forall k, is_Some (run_tasks r !! k) <-> is_Some (rp_tasks (part db (run_id r)) !! k).

Lemma loaded_run_rows db db' r :
  keyed_by tr_TaskID (run_tasks r) -> evals (loadPostgresRunTx (run_id r)) db db' (Some (pg_view (Snapshot r))) ->
  run_rows db r.
Proof.
  intros Hkey (row & Hrow & Hpos & Hcreated & Hsv & Hkeys)%loaded_rows. exists row. split_and!; try done.
  intros k. rewrite <- Hkeys. cbn [snap_Tasks pg_view]. rewrite order_by_perm, view_task_ids.
  cbn [snap_Tasks Snapshot]. by rewrite sorted_task_ids.
Qed.

Lemma fill_keys {B R : Type} (key : B -> string) (row : B -> R) (l : list B) k :
  NoDup (key <$> l) -> is_Some (fill key row ∅ l !! k) <-> k ∈ key <$> l.
Proof.
  intros Hnd. rewrite list_elem_of_fmap. split.
  - intros [x Hx]. rewrite fill_lookup, lookup_empty in Hx by done. naive_solver.
  - intros (x & -> & Hx). exists (row x). rewrite fill_lookup by done. eauto.
Qed.

Lemma held_run_rows db r v :
  shaped r -> 1 <= v < 2 ^ 64 -> held (part db (run_id r)) (snapshot_with_version (Snapshot r) v) ->
  run_rows db (setPersistedVersion r v).
Proof.
  intros Hsh Hv [Hr Htasks _ _]. pose proof (sh_tasks _ Hsh) as Hkey. cbn in Hr. eexists. split; [exact Hr|]. cbn.
  split_and!; [lia|done|by rewrite wrap_uint64_id by (unfold in_uint64; lia)|]. intros k.
  rewrite <- (sorted_task_ids r), <- (fill_keys tr_TaskID task_entry) by (done || by apply sorted_values_nodup).
  cbn [snapshot_with_version Snapshot snap_Tasks] in Htasks. by rewrite <- Htasks, lookup_fmap, fmap_is_Some.
Qed.

Lemma evals_save_held db db' r0 r stored :
  run_rows db r0 -> same_run r0 r -> run_version r < max_int64 -> evals (saveRunTx (Snapshot r)) db db' stored ->
  run_version r0 = run_version r /\ validateSnapshot (Snapshot r) = Ok tt /\
  stored = snapshot_with_version (Snapshot r) (wrap_uint64 (run_version r + 1)) /\
  held (part db' (run_id r)) stored /\ only_run (run_id r) db db' /\ pg_text (run_id r) = true /\ 1 <= run_version r.
Proof.
  intros (row' & Hrow' & Hpos & Hcreated & Hsv & Hkeys) [Hid _ Hcr Hdom Hk0 Hsh] Hver Hs. rewrite <- Hid in *.
  apply evals_saveRun in Hs as (row & Hrow & Hw & Hrv & Hv & Ht & -> & Ho & Hr & Htasks & Hws & Hls); [|done].
  simplify_eq. split_and!; try done.
  - rewrite Hsv, wrap_uint64_id; [done|]. unfold in_uint64, max_int64 in *. lia.
  - rewrite wrap_uint64_id by (unfold in_uint64, max_int64 in *; lia).
    split; cbn [snapshot_with_version snap_Tasks snap_Workers Snapshot]; [|rewrite Htasks|done|done].
    + rewrite Hr. unfold stored_run, run_row. cbn. by rewrite Hcreated, Hcr.
    + pose proof (sh_tasks _ Hsh) as Hkt. apply fill_all; [by apply sorted_values_nodup|].
      intros k. rewrite lookup_fmap, fmap_is_Some, <- Hkeys, sorted_task_ids by done. apply Hdom.
  - lia.
Qed.

(** A run that [SaveRun] has stored is loaded as it was saved, with the times and
    the order of the database. *)
Lemma evals_save_load db db' r0 r stored :
  run_rows db r0 -> same_run r0 r -> run_version r < max_int64 -> evals (saveRunTx (Snapshot r)) db db' stored ->
  run_version r0 = run_version r /\ validateSnapshot (Snapshot r) = Ok tt /\
  stored = snapshot_with_version (Snapshot r) (wrap_uint64 (run_version r + 1)) /\ only_run (run_id r) db db' /\
  run_rows db' (setPersistedVersion r (wrap_uint64 (run_version r + 1))) /\
  (times_kept (Snapshot r) -> evals (loadPostgresRunTx (run_id r)) db' db' (Some (pg_view stored))).
Proof.
  intros Hl Hs Hver Hsave. destruct (evals_save_held _ _ _ _ _ Hl Hs Hver Hsave) as (Heq & Hv & -> & Hheld & Ho & Ht & Hpos).
  assert (Hrange : 1 <= wrap_uint64 (run_version r + 1) < 2 ^ 64) by (rewrite wrap_uint64_id; unfold in_uint64, max_int64 in *; lia).
  split_and!; try done; [by apply held_run_rows; [apply Hs|..]|]. intros Hk.
  apply (load_held db' (snapshot_with_version (Snapshot r) _)); try done. apply validateSnapshot_ok in Hv. by destruct Hv.
Qed.

Lemma evals_create_load db db' r stored :
  orphan_free db -> shaped r -> run_version r = 0 -> evals (createRunTx (Snapshot r)) db db' stored ->
  validateSnapshot (Snapshot r) = Ok tt /\ stored = snapshot_with_version (Snapshot r) 1 /\
  db_workflow_runs db !! run_id r = None /\ only_run (run_id r) db db' /\ run_rows db' (setPersistedVersion r 1) /\
  (times_kept (Snapshot r) -> evals (loadPostgresRunTx (run_id r)) db' db' (Some (pg_view stored))).
Proof.
  intros Hf Hsh Hver Hs.
  apply evals_createRun in Hs as (Hn & Hv & Ht & -> & Ho & Hr & Htasks & Hws & Hls); [|done].
  destruct (Hf _ Hn) as (E1 & E2 & E3). unfold part in Htasks, Hws, Hls. cbn in Htasks, Hws, Hls.
  rewrite E1, fmap_empty in Htasks. rewrite E2 in Hws. rewrite E3 in Hls.
  assert (Hheld : held (part db' (run_id r)) (snapshot_with_version (Snapshot r) 1)) by by split.
  split_and!; try done; [by apply held_run_rows|]. intros Hk.
  apply (load_held db' (snapshot_with_version (Snapshot r) _)); try done. apply validateSnapshot_ok in Hv. by destruct Hv.
Qed.

(** The checks before the transactions. *)
Lemma CreateRun_transaction calls db ctx s db' result :
  PostgresStore_CreateRun calls db ctx s = (db', result) ->
  (db' = db /\ is_ok result = false) \/
  (ctx = CtxLive /\ snap_Version s = 0 /\
   exists bf cf, transaction calls bf cf (createRunTx s) db = (db', result)).
Proof.
  unfold PostgresStore_CreateRun, after_checks. destruct (rbind _ _) as [[]|] eqn:Ec; [|intros [= <- <-]; by left].
  intros Hs. right. apply rbind_ok in Ec as (u & Hc & Ec).
  apply rbind_ok in Ec as (_ & _ & [Ec%Bool.negb_false_iff%Z.eqb_eq _]%guard_err_ok). split_and!; [by destruct ctx|done|eauto].
Qed.

Lemma SaveRun_transaction calls db ctx s db' result :
  PostgresStore_SaveRun calls db ctx s = (db', result) ->
  (db' = db /\ is_ok result = false) \/
  (ctx = CtxLive /\ snap_Version s <> 0 /\ snap_Version s < max_int64 /\
   exists bf cf, transaction calls bf cf (saveRunTx s) db = (db', result)).
Proof.
  unfold PostgresStore_SaveRun, after_checks. destruct (rbind _ _) as [[]|] eqn:Ec; [|intros [= <- <-]; by left].
  intros Hs. right. apply rbind_ok in Ec as (u & Hc & Ec).
  apply rbind_ok in Ec as (_ & _ & [Ec _]%guard_err_ok). apply orb_false_iff in Ec as [E1%Z.eqb_neq E2%Z.leb_gt].
  split_and!; [by destruct ctx|done|done|eauto].
Qed.
End Runs.

(** ** The run that the database gives back, with the times of the database *)

Section ViewRun.
Context `{Unicode} `{PostgresLaws}.

Definition view_run (r : WorkflowRun) : WorkflowRun :=
  mkWorkflowRun (run_id r) (run_definition r) (run_version r) (run_status r) (view_task <$> run_tasks r)
    (view_worker <$> run_workers r) (pg_time (run_createdAt r)) (pg_time (run_updatedAt r)).

Lemma pg_time_positive t : time_kept t -> 0 < t -> 0 < pg_time t.
Proof.
  intros Hk Ht. pose proof (pg_time_mono zero_time t) as Hm. rewrite pg_time_zero in Hm.
  pose proof (pg_time_nonzero t Hk). unfold zero_time in *. lia.
Qed.

Lemma task_inv_view runID policy createdAt updatedAt k t :
  task_kept t -> task_inv runID policy createdAt updatedAt k t ->
  task_inv runID policy (pg_time createdAt) (pg_time updatedAt) k (view_task t).
Proof. intros Hk []. split; cbn; try done; [by apply task_valid_view|by apply pg_time_mono]. Qed.

Lemma lookup_view_task r k t :
  run_tasks (view_run r) !! k = Some t <-> exists t0, run_tasks r !! k = Some t0 /\ t = view_task t0.
Proof. cbn. rewrite lookup_fmap, fmap_Some. naive_solver. Qed.

Lemma lookup_view_worker r k w :
  run_workers (view_run r) !! k = Some w <-> exists w0, run_workers r !! k = Some w0 /\ w = view_worker w0.
Proof. cbn. rewrite lookup_fmap, fmap_Some. naive_solver. Qed.

Lemma view_lease_some t lease :
  tr_Lease (view_task t) = Some lease -> exists l, tr_Lease t = Some l /\ lease_WorkerID lease = lease_WorkerID l.
Proof. cbn. intros (l & Hl & ->)%fmap_Some. by exists l. Qed.

(** The times of a run are those of its snapshot. *)
Lemma run_times_kept r : times_kept (Snapshot r) ->
  time_kept (run_createdAt r) /\ (forall k t, run_tasks r !! k = Some t -> task_kept t) /\
  (forall k w, run_workers r !! k = Some w -> worker_kept w).
Proof.
  intros (Hc & _ & Ht & Hw). cbn in Ht, Hw. unfold sortedTasks, sortedWorkers in *. rewrite sort_by_perm, Forall_forall in Ht.
  rewrite sort_by_perm, Forall_forall in Hw.
  split_and!; [done|intros k t Hk; apply Ht|intros k w Hk; apply Hw];
    apply list_elem_of_fmap; eexists (k, _); by rewrite elem_of_map_to_list.
Qed.

Lemma run_inv_view r : times_kept (Snapshot r) -> run_inv r -> run_inv (view_run r).
Proof.
  intros (Kc & Kt & Kw)%run_times_kept Hi. pose proof (ri_created r Hi) as [Hc Hu]. split; try apply Hi.
  - intros k. rewrite <- (ri_dom r Hi k). cbn. rewrite lookup_fmap. apply fmap_is_Some.
  - split; [by apply pg_time_positive|by apply pg_time_mono].
  - intros k t (t0 & Hk & ->)%lookup_view_task. apply task_inv_view; [by eapply Kt|apply (ri_tasks r Hi k t0 Hk)].
  - intros k w (w0 & Hk & ->)%lookup_view_worker. destruct (ri_workers r Hi k w0 Hk) as (? & ? & ?).
    split_and!; [done|by apply worker_valid_view; [eapply Kw|]|by apply pg_time_mono].
  - intros k t lease (t0 & Hk & ->)%lookup_view_task (l & Hl & ->)%view_lease_some. cbn. rewrite lookup_fmap, fmap_is_Some.
    by eapply (ri_lease_worker r Hi).
  - intros k1 k2 t1 t2 l1 l2 (u1 & Hk1 & ->)%lookup_view_task (u2 & Hk2 & ->)%lookup_view_task
      (m1 & Hm1 & ->)%view_lease_some (m2 & Hm2 & ->)%view_lease_some. by eapply (ri_lease_unique r Hi).
Qed.

Lemma view_sortedTasks r : sortedTasks (view_run r) ≡ₚ view_task <$> sortedTasks r.
Proof.
  unfold sortedTasks. rewrite !sort_by_perm. cbn. unfold map_values. rewrite map_to_list_fmap, <- !list_fmap_compose.
  apply reflexive_eq, list_fmap_ext. by intros i [] _.
Qed.

Lemma view_sortedWorkers r : sortedWorkers (view_run r) ≡ₚ view_worker <$> sortedWorkers r.
Proof.
  unfold sortedWorkers. rewrite !sort_by_perm. cbn. unfold map_values. rewrite map_to_list_fmap, <- !list_fmap_compose.
  apply reflexive_eq, list_fmap_ext. by intros i [] _.
Qed.

(** The view of a run that has been loaded is what the database has. *)
Lemma pg_view_run r : run_inv r -> pg_view (Snapshot (view_run r)) = pg_view (Snapshot r).
Proof.
  intros Hi. unfold pg_view. cbn. rewrite !pg_time_idem. f_equal.
  - apply order_by_proper; [rewrite view_task_ids; by apply sorted_values_nodup, run_tasks_keyed|].
    rewrite view_sortedTasks, <- list_fmap_compose.
    rewrite (list_fmap_ext (view_task ∘ view_task) view_task); [done|]. intros; apply view_task_idem.
  - apply order_by_proper; [rewrite view_worker_ids; by apply sorted_values_nodup, run_workers_keyed|].
    rewrite view_sortedWorkers, <- list_fmap_compose. rewrite (list_fmap_ext (view_worker ∘ view_worker) view_worker); [done|].
    intros i [] _. unfold view_worker. cbn. by rewrite pg_time_idem.
Qed.

(** Filling a map does not depend on the order of the slice. *)
Lemma fill_perm {A R : Type} (key : A -> string) (row : A -> R) (l k : list A) :
  NoDup (key <$> l) -> l ≡ₚ k -> fill key row ∅ l = fill key row ∅ k.
Proof.
  intros Hnd Hp. apply map_eq. intros i. apply option_eq. intros r.
  rewrite !fill_lookup by (done || by rewrite <- Hp). by setoid_rewrite Hp.
Qed.

(** Reconstruction does not depend on the order of the tasks and the workers. *)
Lemma restore_perm (s s' : WorkflowRunSnapshot) (d : WorkflowDefinition) :
  snapshot_valid s -> snapshot_valid s' ->
  mkSnapshot (snap_ID s) (snap_WorkflowID s) (snap_Version s) (snap_Status s) (snap_CreatedAt s) (snap_UpdatedAt s)
    (snap_Tasks s') (snap_Workers s') = s' ->
  snap_Tasks s ≡ₚ snap_Tasks s' -> snap_Workers s ≡ₚ snap_Workers s' ->
  restoreWorkflowRun s d = restoreWorkflowRun s' d.
Proof.
  intros Hv Hv' Heq Ht Hw. destruct s as [i w v st c u ts ws], s' as [i' w' v' st' c' u' ts' ws'].
  cbn in Heq, Ht, Hw. injection Heq as <- <- <- <- <- <-. unfold restoreWorkflowRun.
  rewrite (proj2 (validateSnapshot_ok _) Hv), (proj2 (validateSnapshot_ok _) Hv').
  cbn [rbind snap_ID snap_WorkflowID snap_Version snap_Status snap_CreatedAt snap_UpdatedAt snap_Tasks snap_Workers].
  rewrite (Permutation_length Ht).
  pose proof (fill_perm tr_TaskID (restore_task (mkSnapshot i w v st c u ts ws)) _ _ (sn_unique _ Hv) Ht) as Et.
  pose proof (fill_perm hb_WorkerID (fun w => w) _ _ (sn_workers_unique _ Hv) Hw) as Ew.
  unfold fill in Et, Ew. cbn [snap_Tasks snap_Workers] in Et, Ew. by rewrite Et, Ew.
Qed.

(** What the database gives back of a run is restored to the run with the times of
    the database. *)
Lemma restore_view r :
  times_kept (Snapshot r) -> run_inv r -> aggregate_valid (run_status r) (sortedTasks r) ->
  restoreWorkflowRun (pg_view (Snapshot r)) (run_definition r) = Ok (view_run r).
Proof.
  intros Hk Hi Hagg. pose proof (run_inv_view r Hk Hi) as Hi'.
  assert (Hagg' : aggregate_valid (run_status (view_run r)) (sortedTasks (view_run r))).
  { by eapply aggregate_valid_view; [apply view_sortedTasks|]. }
  rewrite <- (restore_snapshot (view_run r) Hi' Hagg'). apply restore_perm.
  - by apply snapshot_valid_view, snapshot_valid_inv.
  - by apply snapshot_valid_inv.
  - done.
  - cbn [pg_view Snapshot snap_Tasks]. by rewrite order_by_perm, view_sortedTasks.
  - cbn [pg_view Snapshot snap_Workers]. by rewrite order_by_perm, view_sortedWorkers.
Qed.
End ViewRun.
