(* ===== verification/PostgresWorkflows.v ===== *)
(** * Workflow definitions in the database

    What [SaveWorkflow] writes and [LoadWorkflow] reads: a definition comes back as
    it was saved, its tasks by their positions and the dependencies of a task by
    theirs. *)
From S2P Require Import Prelude Workflow Heap Graph GraphBuild GraphOrder Errors Run Ids Snapshot SnapshotValid RunStep RunInv RunDurable Security Sql Tx FileStore FileStoreOps FileStoreInv Postgres SqlFacts PostgresRuns PostgresLoad PostgresProps.

(** ** The rows of a definition *)

Definition task_rows (tasks : list TaskDefinition) : list (string * task_definition_row) :=
  imap (fun i task => (td_ID task, definition_row (Z.of_nat i) task)) tasks.

Definition dependency_rows (task : TaskDefinition) : list (string * string * Z) :=
  imap (fun i dependency => (td_ID task, dependency, Z.of_nat i)) (deps task).

Record definition_held (db : database) (d : WorkflowDefinition) : Prop := {
  dh_row : wd_ID d ∈ db_workflow_definitions db;
  dh_tasks : map_to_list (rows_of (db_task_definitions db) (wd_ID d)) ≡ₚ task_rows (wd_Tasks d);
  dh_dependencies :
    map_to_list (rows_of (db_task_dependencies db) (wd_ID d)) ≡ₚ wd_Tasks d ≫= dependency_rows
}.

(** Tasks and dependencies belong to a definition that exists. *)
Definition definition_free (db : database) : Prop :=
  forall w, w ∉ db_workflow_definitions db ->
  rows_of (db_task_definitions db) w = ∅ /\ rows_of (db_task_dependencies db) w = ∅.

(** The rows of the definition [w] are the same. *)
Record same_definition (w : string) (db db' : database) : Prop := {
  sd_row : w ∈ db_workflow_definitions db' <-> w ∈ db_workflow_definitions db;
  sd_tasks : rows_of (db_task_definitions db') w = rows_of (db_task_definitions db) w;
  sd_dependencies : rows_of (db_task_dependencies db') w = rows_of (db_task_dependencies db) w
}.

(** Nothing but the rows of the definition [w] changes. *)
Record only_definition (w : string) (db db' : database) : Prop := {
  od_rest : with_definitions db (db_workflow_definitions db') (db_task_definitions db') (db_task_dependencies db') = db';
  od_others : forall w', w' <> w -> same_definition w' db db'
}.

Lemma only_run_same r w db db' : only_run r db db' -> same_definition w db db'.
Proof. intros [E1 E2 E3 _ _]. split; by rewrite ?E1, ?E2, ?E3. Qed.

Lemma only_definition_refl w db : only_definition w db db.
Proof. split; [by destruct db|done]. Qed.

Lemma only_definition_trans w db1 db2 db3 :
  only_definition w db1 db2 -> only_definition w db2 db3 -> only_definition w db1 db3.
Proof.
  intros [A1 A2] [B1 B2]. split.
  - rewrite <- B1, <- A1. by destruct db1.
  - intros w' Hw. destruct (A2 w' Hw) as [C1 C2 C3], (B2 w' Hw) as [D1 D2 D3].
    split; [by rewrite D1|by rewrite D2|by rewrite D3].
Qed.

Section Save.
Context `{Unicode} `{PostgresLaws}.

Lemma InsertTaskDefinition_ok w id row db db' u :
  execute (InsertTaskDefinition w id row) db = Ok (db', u) ->
  only_definition w db db' /\
  db_workflow_definitions db' = db_workflow_definitions db /\ db_task_dependencies db' = db_task_dependencies db /\
  map_to_list (rows_of (db_task_definitions db') w) ≡ₚ (id, row) :: map_to_list (rows_of (db_task_definitions db) w).
Proof.
  cbn [execute]. unfold insert_task_definition. intros (Heq & _ & _ & _ & [Hn _]%andb_prop & _)%checked_ok.
  apply Bool.negb_true_iff, taken_false in Hn. injection Heq as -> _. cbn. split_and!; try done.
  { split; [done|]. intros w' Hw. split; cbn; by rewrite ?rows_of_put_ne. }
  rewrite rows_of_put_eq. by apply map_to_list_insert.
Qed.

Lemma InsertTaskDependency_ok w id dependency position db db' u :
  execute (InsertTaskDependency w id dependency position) db = Ok (db', u) ->
  only_definition w db db' /\
  db_workflow_definitions db' = db_workflow_definitions db /\ db_task_definitions db' = db_task_definitions db /\
  map_to_list (rows_of (db_task_dependencies db') w) ≡ₚ
    (id, dependency, position) :: map_to_list (rows_of (db_task_dependencies db) w).
Proof.
  cbn [execute]. unfold insert_task_dependency. intros (Heq & _ & _ & _ & [Hn _]%andb_prop & _)%checked_ok.
  apply Bool.negb_true_iff, taken_false in Hn. injection Heq as -> _. cbn. split_and!; try done.
  { split; [done|]. intros w' Hw. split; cbn; by rewrite ?rows_of_put_ne. }
  rewrite rows_of_put_eq. by apply map_to_list_insert.
Qed.

Lemma insert_definitions_effect w wrap l i db db' :
  evals (tx_each (fun position task => stmt (wrap task) (InsertTaskDefinition w (td_ID task) (definition_row position task)))
           (Z.of_nat i) l) db db' tt ->
  only_definition w db db' /\
  db_workflow_definitions db' = db_workflow_definitions db /\ db_task_dependencies db' = db_task_dependencies db /\
  map_to_list (rows_of (db_task_definitions db') w) ≡ₚ
    imap (fun j task => (td_ID task, definition_row (Z.of_nat (i + j)) task)) l
      ++ map_to_list (rows_of (db_task_definitions db) w).
Proof.
  revert i db. induction l as [|t l IH]; intros i db; cbn [tx_each].
  - intros [-> _]%evals_ret. split_and!; try done. apply only_definition_refl.
  - intros (db1 & [] & (Ho & E1 & E2 & Hp)%evals_stmt%InsertTaskDefinition_ok & H2)%evals_bind.
    replace (Z.of_nat i + 1) with (Z.of_nat (S i)) in H2 by lia. apply IH in H2 as (Hu & F1 & F2 & Hq).
    split_and!; [by eapply only_definition_trans|congruence..|]. rewrite Hq, Hp. cbn [imap]. rewrite Nat.add_0_r. cbn.
    rewrite <- Permutation_middle. constructor.
    erewrite imap_ext; [done|]. intros j x _. cbn. by rewrite Nat.add_succ_r.
Qed.

Lemma insert_dependencies_effect w id wrap l i db db' :
  evals (tx_each (fun position dependency => stmt (wrap dependency) (InsertTaskDependency w id dependency position))
           (Z.of_nat i) l) db db' tt ->
  only_definition w db db' /\
  db_workflow_definitions db' = db_workflow_definitions db /\ db_task_definitions db' = db_task_definitions db /\
  map_to_list (rows_of (db_task_dependencies db') w) ≡ₚ
    imap (fun j dependency => (id, dependency, Z.of_nat (i + j))) l
      ++ map_to_list (rows_of (db_task_dependencies db) w).
Proof.
  revert i db. induction l as [|t l IH]; intros i db; cbn [tx_each].
  - intros [-> _]%evals_ret. split_and!; try done. apply only_definition_refl.
  - intros (db1 & [] & (Ho & E1 & E2 & Hp)%evals_stmt%InsertTaskDependency_ok & H2)%evals_bind.
    replace (Z.of_nat i + 1) with (Z.of_nat (S i)) in H2 by lia. apply IH in H2 as (Hu & F1 & F2 & Hq).
    split_and!; [by eapply only_definition_trans|congruence..|]. rewrite Hq, Hp. cbn [imap]. rewrite Nat.add_0_r. cbn.
    rewrite <- Permutation_middle. constructor.
    erewrite imap_ext; [done|]. intros j x _. cbn. by rewrite Nat.add_succ_r.
Qed.

Lemma insert_all_dependencies_effect w wrap l i db db' :
  evals (tx_each (fun _ task => tx_each (fun position dependency =>
           stmt (wrap task dependency) (InsertTaskDependency w (td_ID task) dependency position)) 0 (deps task)) i l)
    db db' tt ->
  only_definition w db db' /\
  db_workflow_definitions db' = db_workflow_definitions db /\ db_task_definitions db' = db_task_definitions db /\
  map_to_list (rows_of (db_task_dependencies db') w) ≡ₚ
    (l ≫= dependency_rows) ++ map_to_list (rows_of (db_task_dependencies db) w).
Proof.
  revert i db. induction l as [|t l IH]; intros i db; cbn [tx_each].
  - intros [-> _]%evals_ret. split_and!; try done. apply only_definition_refl.
  - intros (db1 & [] & (Ho & E1 & E2 & Hp)%(insert_dependencies_effect w (td_ID t) _ _ 0) & (Hu & F1 & F2 & Hq)%IH)%evals_bind.
    split_and!; [by eapply only_definition_trans|congruence..|]. rewrite Hq, Hp. cbn [mbind list_bind]. unfold dependency_rows at 2. cbn [Nat.add].
    rewrite (assoc_L app). by rewrite (Permutation_app_comm (l ≫= dependency_rows)).
Qed.

(** What a successful save has done: the definition is loaded as it is, or its rows
    have been written. *)
Lemma evals_save_workflow d db db' u :
  definition_free db -> evals (savePostgresWorkflowTx d) db db' u ->
  pg_text (wd_ID d) = true /\
  ((wd_ID d ∈ db_workflow_definitions db /\ db' = db /\ evals (loadPostgresWorkflowTx (wd_ID d)) db db (Some d)) \/
   (wd_ID d ∉ db_workflow_definitions db /\ definition_held db' d /\ only_definition (wd_ID d) db db')).
Proof.
  intros Hf (db1 & n & (Heq & _ & Ht & _)%evals_stmt%checked_ok & H2)%evals_bind.
  split; [by rewrite Forall_singleton in Ht|]. case_bool_decide as Hin; injection Heq as -> ->; cbn [Z.eqb] in H2.
  - left. split; [done|]. apply evals_bind in H2 as (db2 & [d'|] & H2 & H3); [|by apply evals_fail in H3].
    pose proof (evals_load_workflow _ _ _ _ H2) as ->. case_bool_decide; [|by apply evals_fail in H3].
    apply evals_ret in H3 as [-> _]. by subst d'.
  - right. split; [done|]. apply evals_bind in H2 as (db2 & [] & H2 & H3). destruct u.
    apply (insert_definitions_effect _ _ _ 0) in H2 as (Ho & E1 & E2 & Hp).
    apply insert_all_dependencies_effect in H3 as (Hu & F1 & F2 & Hq). destruct (Hf _ Hin) as [D1 D2]. cbn in E1, E2, Hp.
    split; [split|].
    + rewrite F1, E1. set_solver.
    + rewrite F2, Hp, D1, map_to_list_empty. by rewrite app_nil_r.
    + rewrite Hq, E2, D2, map_to_list_empty. by rewrite app_nil_r.
    + eapply only_definition_trans; [|eapply only_definition_trans; [exact Ho|exact Hu]].
      split; [done|]. intros w' Hw. split; cbn; [set_solver|done|done].
Qed.

(** ** Reading *)

(** A task before its dependencies are added. *)
Definition bare (task : TaskDefinition) : TaskDefinition :=
  mkTaskDefinition (td_ID task) (td_Name task) None (td_Handler task) (td_Input task) (td_Retry task).

Lemma append_dependencies task l :
  foldl (flip append_dependency) (bare task) l =
  mkTaskDefinition (td_ID task) (td_Name task) (clone_dependencies (Some l)) (td_Handler task) (td_Input task) (td_Retry task).
Proof.
  induction l as [|x l IH] using rev_ind; [done|]. rewrite foldl_snoc, IH. unfold flip, append_dependency. cbn. f_equal.
  unfold deps. cbn. by destruct l.
Qed.

Lemma apply_dependencies rows task :
  foldl (apply_row td_ID append_dependency) task rows =
  foldl (flip append_dependency) task (snd <$> filter (fun row => fst row = td_ID task) rows).
Proof.
  revert task. induction rows as [|[id x] rows IH]; intros task; cbn [foldl]; [done|].
  rewrite IH, apply_row_key by done. unfold apply_row. cbn [fst snd]. rewrite filter_cons. cbn [fst].
  destruct (String.eqb_spec id (td_ID task)); [by rewrite decide_True|by rewrite decide_False].
Qed.

#[local] Instance dependency_le_total : Total dependency_le.
Proof.
  intros [[t1 ?] p1] [[t2 ?] p2]. cbn. rewrite (String.eqb_sym t2). destruct (String.eqb t1 t2); [lia|]. apply pg_le_total.
Qed.

#[local] Instance dependency_le_trans : Transitive dependency_le.
Proof.
  intros [[t1 ?] p1] [[t2 ?] p2] [[t3 ?] p3]. cbn.
  destruct (String.eqb_spec t1 t2) as [E12|H12], (String.eqb_spec t2 t3) as [E23|H23], (String.eqb_spec t1 t3) as [E13|H13];
    try congruence; [lia| |].
  - intros Ha Hb. rewrite <- E13 in Hb. by destruct H12, (pg_le_antisymm _ _ Ha Hb).
  - apply pg_le_trans.
Qed.

Lemma sorted_filter {A : Type} (R : relation A) (P : A -> Prop) `{!forall x, Decision (P x)} (l : list A) :
  StronglySorted R l -> StronglySorted R (filter P l).
Proof.
  induction 1 as [|x l Hl IH Hx]; [constructor|]. rewrite filter_cons. case_decide; [|done]. constructor; [done|].
  rewrite Forall_forall in *. intros y [_ Hy]%list_elem_of_filter. by apply Hx.
Qed.

Lemma imap_sorted {A B : Type} (R : relation B) (f : nat -> A -> B) (l : list A) :
  (forall i j x y, (i < j)%nat -> R (f i x) (f j y)) -> StronglySorted R (imap f l).
Proof.
  revert f. induction l as [|x l IH]; intros f Hf; cbn; constructor.
  - apply IH. intros i j y z Hij. apply Hf. lia.
  - rewrite Forall_forall. intros y (j & z & -> & _)%elem_of_lookup_imap_1. apply Hf. lia.
Qed.

Lemma imap_nodup {A B K : Type} (key : B -> K) (f : nat -> A -> B) (l : list A) :
  (forall i j x y, key (f i x) = key (f j y) -> i = j) -> NoDup (key <$> imap f l).
Proof.
  intros Hf. apply NoDup_alt. intros i j k. rewrite !list_lookup_fmap, !list_lookup_imap.
  destruct (l !! i) as [x|], (l !! j) as [y|]; try done. cbn. intros [= <-] [= Hk]. by eapply Hf.
Qed.

Lemma rows_by_position rows tasks :
  rows ≡ₚ task_rows tasks -> order_by_position (fun r => tdr_position (snd r)) rows = task_rows tasks.
Proof.
  intros Hp. unfold order_by_position. apply (sorted_unique (position_le (fun r => tdr_position (snd r)))
    (fun r => tdr_position (snd r))).
  - intros x y. unfold position_le. lia.
  - apply imap_nodup. intros i j x y. cbn. lia.
  - by rewrite merge_sort_Permutation.
  - apply imap_sorted. intros i j x y Hij. unfold position_le. cbn. lia.
  - apply StronglySorted_merge_sort; [intros x y z; unfold position_le; lia|intros x y; unfold position_le; lia].
Qed.

Lemma filter_none {A : Type} (P : A -> Prop) `{!forall x, Decision (P x)} (l : list A) :
  (forall x, x ∈ l -> ~ P x) -> filter P l = [].
Proof.
  induction l as [|x l IH]; intros Hn; [done|].
  rewrite filter_cons, decide_False by (apply Hn; constructor). apply IH. intros y Hy. apply Hn. by constructor.
Qed.

Lemma filter_every {A : Type} (P : A -> Prop) `{!forall x, Decision (P x)} (l : list A) :
  (forall x, x ∈ l -> P x) -> filter P l = l.
Proof.
  induction l as [|x l IH]; intros Hn; [done|].
  rewrite filter_cons, decide_True by (apply Hn; constructor). f_equal. apply IH. intros y Hy. apply Hn. by constructor.
Qed.

Lemma filter_rows tasks task :
  NoDup (td_ID <$> tasks) -> task ∈ tasks ->
  filter (fun row => fst (fst row) = td_ID task) (tasks ≫= dependency_rows) = dependency_rows task.
Proof.
  assert (Hother : forall t, td_ID t <> td_ID task ->
            filter (fun row => fst (fst row) = td_ID task) (dependency_rows t) = []).
  { intros t Hne. apply filter_none. by intros y (j & z & -> & _)%elem_of_lookup_imap_1. }
  assert (Hown : filter (fun row => fst (fst row) = td_ID task) (dependency_rows task) = dependency_rows task).
  { apply filter_every. by intros y (j & z & -> & _)%elem_of_lookup_imap_1. }
  induction tasks as [|t tasks IH]; intros Hnd Hin; [by apply elem_of_nil in Hin|].
  cbn [mbind list_bind]. rewrite filter_app. cbn in Hnd. apply NoDup_cons in Hnd as [Ht Hnd].
  apply elem_of_cons in Hin as [<-|Hin].
  - rewrite Hown, (filter_none _ (tasks ≫= _)); [apply app_nil_r|].
    intros [[x y] z] (t & Hxt & Ht')%list_elem_of_bind. apply elem_of_lookup_imap_1 in Hxt as (j & p & [= -> -> ->] & _).
    cbn. intros Heq. apply Ht. rewrite <- Heq. by apply list_elem_of_fmap_2.
  - rewrite Hother; [by apply IH|]. intros Heq. apply Ht. rewrite Heq. by apply list_elem_of_fmap_2.
Qed.

Lemma filter_keys (rows : list (string * string * Z)) id :
  snd <$> filter (fun row => fst row = id) (fst <$> rows) = (snd ∘ fst) <$> filter (fun row => fst (fst row) = id) rows.
Proof.
  induction rows as [|row rows IH]; [done|]. rewrite fmap_cons, !filter_cons. case_decide; cbn; by rewrite IH.
Qed.

(** The dependencies of a task, in the order of their positions. *)
Lemma own_dependencies db d task :
  definition_held db d -> NoDup (td_ID <$> wd_Tasks d) -> task ∈ wd_Tasks d ->
  snd <$> filter (fun row => fst row = td_ID task) (select_dependencies (wd_ID d) db) = deps task.
Proof.
  intros [_ _ Hp] Hnd Hin. unfold select_dependencies.
  assert (Hrows : filter (fun row => fst (fst row) = td_ID task)
            (merge_sort dependency_le (map_to_list (rows_of (db_task_dependencies db) (wd_ID d)))) = dependency_rows task).
  { apply (sorted_unique dependency_le (fun row => (fst (fst row), snd row))).
    - intros [[t1 ?] p1] [[t2 ?] p2]. cbn. rewrite (String.eqb_sym t2).
      destruct (String.eqb_spec t1 t2) as [->|Hne]; [intros; f_equal; lia|].
      intros Ha Hb. by destruct Hne, (pg_le_antisymm _ _ Ha Hb).
    - apply imap_nodup. intros i j x y. cbn. intros [= Hij]. lia.
    - rewrite <- (filter_rows _ _ Hnd Hin). apply filter_Permutation. by rewrite merge_sort_Permutation.
    - apply imap_sorted. intros i j x y Hij. cbn. rewrite String.eqb_refl. lia.
    - apply sorted_filter, StronglySorted_merge_sort; apply _. }
  rewrite filter_keys, Hrows.
  unfold dependency_rows. rewrite fmap_imap. rewrite <- (list_fmap_id (deps task)) at 2.
  by rewrite <- (imap_const id).
Qed.

(** A definition that is held is loaded. *)
Lemma load_definition db d :
  definition_held db d -> pg_text (wd_ID d) = true -> Validate d = Ok tt ->
  evals (loadPostgresWorkflowTx (wd_ID d)) db db (Some (cloneDefinition d)).
Proof.
  intros Hh Ht Hv. pose proof Hv as [Hs _]%Validate_ok_iff. pose proof (sv_unique _ Hs) as Hnd.
  assert (Hsel : forall A (a : A), select [wd_ID d] db a = Ok (db, a)).
  { intros A a. apply checked_ok. by rewrite Forall_singleton. }
  unfold loadPostgresWorkflowTx. rewrite evals_bind. exists db, (Some (wd_ID d)). split.
  { apply evals_stmt. cbn [execute]. rewrite bool_decide_eq_true_2 by apply (dh_row _ _ Hh). apply Hsel. }
  rewrite evals_bind. eexists db, _. split; [apply evals_stmt, Hsel|].
  rewrite evals_bind. eexists db, _. split; [apply evals_stmt, Hsel|].
  rewrite (rows_by_position _ _ (dh_tasks _ _ Hh)).
  assert (Hbare : read_definition <$> task_rows (wd_Tasks d) = bare <$> wd_Tasks d).
  { unfold task_rows. rewrite fmap_imap, <- (imap_const bare). apply imap_ext. by intros i [? ? ? ? ? []] _. }
  rewrite Hbare. assert (Hids : td_ID <$> (bare <$> wd_Tasks d) = td_ID <$> wd_Tasks d).
  { rewrite <- list_fmap_compose. by apply list_fmap_ext. }
  rewrite evals_bind. exists db, (cloneTask <$> wd_Tasks d). rewrite evals_lift. split; [split; [done|]|].
  - rewrite (distribute td_ID append_dependency).
    + f_equal. rewrite <- list_fmap_compose. apply list_fmap_ext. intros i task Htask%list_elem_of_lookup_2. cbn.
      rewrite apply_dependencies. cbn [bare td_ID]. rewrite (own_dependencies db d task Hh Hnd Htask), append_dependencies.
      unfold cloneTask, deps. by destruct (td_Dependencies task).
    + done.
    + intros ts id r. cbn. by destruct (_ !! id).
    + by rewrite Hids.
    + rewrite Hids. unfold select_dependencies. rewrite Forall_fmap, merge_sort_Permutation, (dh_dependencies _ _ Hh).
      rewrite Forall_forall. intros row (task & Hrow & Htask)%list_elem_of_bind.
      apply elem_of_lookup_imap_1 in Hrow as (j & p & -> & _). cbn. by apply list_elem_of_fmap_2.
  - rewrite evals_bind. exists db, tt. rewrite evals_lift. split; [|by apply evals_ret].
    change (mkWorkflowDefinition _ _) with (cloneDefinition d). by rewrite Validate_clone.
Qed.

(** ** The methods *)

(** Loading a definition reads the rows of the definitions only. *)
Lemma load_workflow_frame w db db' o :
  same_definition w db db' -> evals (loadPostgresWorkflowTx w) db db o -> evals (loadPostgresWorkflowTx w) db' db' o.
Proof.
  intros [E1 E2 E3]. unfold loadPostgresWorkflowTx. intros (db1 & stored & [Heq Hs]%evals_stmt%checked_ok & H2)%evals_bind.
  injection Heq as -> ->. apply evals_bind. exists db'. eexists. split.
  { apply evals_stmt, checked_ok. split; [done|exact Hs]. }
  rewrite (bool_decide_ext _ _ E1). destruct (bool_decide _); [|apply evals_ret in H2 as [_ ->]; by apply evals_ret].
  apply evals_bind in H2 as (db1 & rows & [Heq _]%evals_stmt%checked_ok & H3). injection Heq as -> ->.
  apply evals_bind. exists db'. eexists. split; [apply evals_stmt, checked_ok; split; [done|exact Hs]|]. rewrite E2.
  apply evals_bind in H3 as (db1 & dependencies & [Heq _]%evals_stmt%checked_ok & H4). injection Heq as -> ->.
  apply evals_bind. exists db'. eexists. split; [apply evals_stmt, checked_ok; split; [done|exact Hs]|].
  unfold select_dependencies in *. rewrite E3.
  apply evals_bind in H4 as (db1 & tasks & [-> Ht]%evals_lift & H5). apply evals_bind. exists db', tasks.
  split; [by apply evals_lift|]. apply evals_bind in H5 as (db1 & u & [-> Hu]%evals_lift & [_ ->]%evals_ret).
  apply evals_bind. exists db', u. by rewrite evals_lift, evals_ret.
Qed.

Lemma LoadWorkflow_evals db w o :
  PostgresStore_LoadWorkflow answered db CtxLive w = Ok o <-> evals (loadPostgresWorkflowTx w) db db o.
Proof.
  unfold PostgresStore_LoadWorkflow. cbn [check_context storeContextError rbind]. rewrite transaction_answered by done.
  pose proof (evals_load_workflow w db) as Hro. unfold evals in *.
  destruct (eval _ _) as [[db'|] [a|e]]; cbn; split; try done; [|naive_solver].
  intros [= ->]. by rewrite (Hro _ _ eq_refl).
Qed.

Lemma LoadWorkflow_frame r w db db' o :
  only_run r db db' -> PostgresStore_LoadWorkflow answered db CtxLive w = Ok o ->
  PostgresStore_LoadWorkflow answered db' CtxLive w = Ok o.
Proof. rewrite !LoadWorkflow_evals. intros Ho%(only_run_same r w). by apply load_workflow_frame. Qed.

(** A definition that has been saved is loaded as it was saved. *)
Lemma save_load_workflow calls db db' d u :
  definition_free db -> PostgresStore_SaveWorkflow calls db CtxLive d = (db', Ok u) ->
  PostgresStore_LoadWorkflow answered db' CtxLive (wd_ID d) = Ok (Some (cloneDefinition d)) \/
  (db' = db /\ PostgresStore_LoadWorkflow answered db CtxLive (wd_ID d) = Ok (Some d)).
Proof.
  intros Hf Hs. unfold PostgresStore_SaveWorkflow, after_checks in Hs. rewrite !LoadWorkflow_evals.
  destruct (rbind _ _) as [[]|] eqn:Ec; [|done]. apply rbind_ok in Ec as (_ & _ & ([] & Hv%rmap_err_ok & _)%rbind_ok).
  apply transaction_ok, evals_save_workflow in Hs as (Ht & [(_ & -> & Hl)|(_ & Hh & _)]); [by right| |done].
  left. by apply load_definition.
Qed.
End Save.

(** ** The invariant *)

Section Invariant.
Context `{Postgres}.

Definition rows_owned (db : database) : Prop := orphan_free db /\ definition_free db.

Lemma definition_free_preserved : preserved definition_free.
Proof.
  intros A q db db' a He Hf.
  destruct q; try (stmt_ok He; done).
  - cbn [execute] in He. apply checked_ok in He as [Heq _]. case_bool_decide; injection Heq as -> _; [done|].
    intros w Hw. apply Hf. set_solver.
  - cbn [execute] in He. apply checked_ok in He as (Heq & _ & _ & _ & _ & Hin%bool_decide_eq_true). injection Heq as -> _.
    intros w Hw. cbn in *. rewrite rows_of_put_ne by (intros ->; done). by apply Hf.
  - cbn [execute] in He. apply checked_ok in He as (Heq & _ & _ & _ & _ & [Ht _]%andb_prop). injection Heq as -> _.
    intros w Hw. cbn in *. apply taken_true in Ht as [? Ht]. destruct (Hf w Hw) as [D1 D2]. split; [done|].
    rewrite rows_of_put_ne; [done|]. intros ->. by rewrite D1, lookup_empty in Ht.
Qed.

Lemma rows_owned_preserved : preserved rows_owned.
Proof.
  intros A q db db' a He [H1 H2]. split; [by eapply orphan_free_preserved|by eapply definition_free_preserved].
Qed.

Lemma rows_owned_empty : rows_owned empty_database.
Proof. split; [apply orphan_free_empty|]. intros w _. unfold rows_of. cbn. by rewrite !lookup_empty. Qed.
End Invariant.
