(* ===== verification/PostgresSecurity.v ===== *)
(** * The PostgreSQL store: projects, memberships and the audit log

    Models [src/internal/persistence/postgres_security.go]. The mutating methods
    are single transactions like those of [Postgres.v]; the loads are single
    statements. *)
From S2P Require Import Prelude Workflow Heap Graph GraphBuild GraphOrder Errors Run Ids Snapshot SnapshotValid RunStep RunInv RunDurable Security Sql Tx FileStore FileStoreOps FileStoreInv FileStoreJournal FileStoreProps Postgres SqlFacts PostgresRuns PostgresLoad PostgresProps PostgresWorkflows.

(** [json.Marshal] and [json.Unmarshal] of the metadata of an audit event. *)
Class MetadataCodec := {
  marshal_metadata : option (gmap string string) -> res go_error string;
  unmarshal_metadata : string -> res go_error (option (gmap string string))
}.

(** [pgx.ErrNoRows]. *)
Definition ErrNoRows : go_error := ErrText "no rows in result set".

Section Security.
Context `{Unicode} `{Postgres} `{MetadataCodec}.

(** ** Parts of the transactions *)

Definition insertPostgresUser (user : User) : tx unit :=
  let name := quote (user_ID user) in
  sql _ <- stmt (wrapf ("insert user " +:+ name)) (InsertUser user) ;;
  sql disabled <- stmt (wrapf ("verify user " +:+ name +:+ " state")) (SelectUserDisabled (user_ID user)) ;;
  match disabled with
  | None => tx_fail (wrapf ("verify user " +:+ name +:+ " state") ErrNoRows)
  | Some true => tx_fail (UserDisabledError (user_ID user))
  | Some false => tx_ret tt
  end.

Definition moved_backwards : go_error := ErrText "put membership: update timestamp moved backwards".

Definition upsertPostgresMembership (membership : Membership) : tx unit :=
  let name := quote (mem_UserID membership) in
  sql existing <- stmt (wrapf ("lock membership for user " +:+ name))
                    (SelectMembershipForUpdate (mem_ProjectID membership) (mem_UserID membership)) ;;
  sql membership <- match existing with
                    | Some (existingCreatedAt, existingUpdatedAt) =>
                        if time_before (mem_UpdatedAt membership) existingUpdatedAt then tx_fail moved_backwards
                        else tx_ret (mkMembership (mem_ProjectID membership) (mem_UserID membership)
                                       (mem_Role membership) existingCreatedAt (mem_UpdatedAt membership))
                    | None => tx_ret membership
                    end ;;
  sql affected <- stmt (wrapf ("upsert membership for user " +:+ name)) (UpsertMembership membership) ;;
  if negb (affected =? 1) then tx_fail moved_backwards else tx_ret tt.

Definition audit_row (event : AuditEvent) (metadata : string) : audit_event_row :=
  mkAuditEventRow (ev_ProjectID event) (ev_ActorUserID event) (ev_Action event) (ev_ResourceType event)
    (ev_ResourceID event) (ev_OccurredAt event) metadata.

Definition insertPostgresAuditEvent (event : AuditEvent) : tx unit :=
  let name := quote (ev_ID event) in
  sql metadata <- tx_lift (rmap_err (wrapf ("encode audit event " +:+ name +:+ " metadata"))
                             (marshal_metadata (ev_Metadata event))) ;;
  stmt (fun err => if postgresErrorCode err unique_violation then AuditEventAlreadyExistsError (ev_ID event)
                   else wrapf ("insert audit event " +:+ name) err)
    (InsertAuditEvent (ev_ID event) (audit_row event metadata)).

(** ** Methods that change the database *)

Definition createProjectTx (user : User) (project : Project) (membership : Membership) (event : AuditEvent)
  : tx unit :=
  sql _ <- insertPostgresUser user ;;
  sql _ <- stmt (fun err => if postgresErrorCode err unique_violation then ProjectAlreadyExistsError (proj_ID project)
                            else wrapf ("insert project " +:+ quote (proj_ID project)) err)
             (InsertProject project) ;;
  sql _ <- upsertPostgresMembership membership ;;
  insertPostgresAuditEvent event.

Definition PostgresStore_CreateProject (calls : nat -> call_answer) (db : database) (ctx : context) (user : User)
    (project : Project) (membership : Membership) (event : AuditEvent) : database * res go_error unit :=
  let name := quote (proj_ID project) in
  after_checks (validateProjectCreation ctx user project membership event) db
    (transaction calls (wrapf ("begin create project " +:+ name)) (fun _ => wrapf ("commit project " +:+ name))
       (createProjectTx user project membership event) db).

Definition saveProjectTx (project : Project) (event : AuditEvent) : tx unit :=
  sql affected <- stmt (wrapf ("update project " +:+ quote (proj_ID project))) (UpdateProject project) ;;
  if negb (affected =? 1) then tx_fail (ProjectNotFoundError (proj_ID project))
  else insertPostgresAuditEvent event.

Definition PostgresStore_SaveProject (calls : nat -> call_answer) (db : database) (ctx : context)
    (project : Project) (event : AuditEvent) : database * res go_error unit :=
  let name := quote (proj_ID project) in
  after_checks
    (try _ <- check_context ctx ;;
     try _ <- rmap_err (wrapf "save project") (validateProject project) ;;
     try _ <- rmap_err (wrapf "save project audit event") (validateAuditEvent event) ;;
     fail_if negb (String.eqb (ev_ProjectID event) (proj_ID project))
       with ErrText "save project: audit event belongs to another project" ;; Ok tt)
    db
    (transaction calls (wrapf ("begin save project " +:+ name))
       (fun _ => wrapf ("commit project " +:+ name +:+ " update")) (saveProjectTx project event) db).

(** The membership's failure is inspected before it is returned. *)
Definition putMembershipTx (user : User) (membership : Membership) (event : AuditEvent) : tx unit :=
  sql _ <- insertPostgresUser user ;;
  sql _ <- tx_map_err (fun err => if postgresErrorCode err foreign_key_violation
                                  then ProjectNotFoundError (mem_ProjectID membership) else err)
             (upsertPostgresMembership membership) ;;
  insertPostgresAuditEvent event.

Definition PostgresStore_PutMembership (calls : nat -> call_answer) (db : database) (ctx : context) (user : User)
    (membership : Membership) (event : AuditEvent) : database * res go_error unit :=
  after_checks
    (try _ <- check_context ctx ;;
     try _ <- rmap_err (wrapf "put membership user") (validateUser user) ;;
     try _ <- rmap_err (wrapf "put membership") (validateMembership membership) ;;
     try _ <- rmap_err (wrapf "put membership audit event") (validateAuditEvent event) ;;
     fail_if negb (String.eqb (mem_UserID membership) (user_ID user))
             || negb (String.eqb (ev_ProjectID event) (mem_ProjectID membership))
       with ErrText "put membership: user or audit project does not match membership" ;; Ok tt)
    db
    (transaction calls (wrapf "begin put membership")
       (fun _ => wrapf ("commit membership for user " +:+ quote (user_ID user)))
       (putMembershipTx user membership event) db).

(** [existing != ownership] also compares the locations of the two times:
    [same_location] says whether the driver scans a time into the location of
    [ownership.CreatedAt]. *)
Definition saveOwnedWorkflowTx (same_location : bool) (definition : WorkflowDefinition)
    (ownership : WorkflowOwnership) : tx unit :=
  let id := wd_ID definition in
  sql _ <- savePostgresWorkflowTx definition ;;
  sql affected <- stmt (wrapf ("insert ownership for workflow " +:+ quote id)) (InsertWorkflowOwnership ownership) ;;
  if affected =? 0 then
    sql existing <- stmt (fun _ => WorkflowOwnershipConflictError id) (SelectWorkflowOwnership id) ;;
    match existing with
    | Some existing =>
        if same_location && bool_decide (existing = ownership) then tx_ret tt
        else tx_fail (WorkflowOwnershipConflictError id)
    | None => tx_fail (WorkflowOwnershipConflictError id)
    end
  else tx_ret tt.

Definition PostgresStore_SaveWorkflowForProject (same_location : bool) (calls : nat -> call_answer) (db : database)
    (ctx : context) (definition : WorkflowDefinition) (ownership : WorkflowOwnership)
  : database * res go_error unit :=
  let name := quote (wd_ID definition) in
  after_checks
    (try _ <- check_context ctx ;;
     try _ <- rmap_err (fun e => wrapf "save owned workflow" (ErrValidation e)) (Validate definition) ;;
     try _ <- rmap_err (wrapf "save workflow ownership") (validateOwnership ownership) ;;
     fail_if negb (String.eqb (own_WorkflowID ownership) (wd_ID definition))
       with ErrText "save workflow ownership: definition identity does not match" ;; Ok tt)
    db
    (transaction calls (wrapf ("begin save owned workflow " +:+ name))
       (fun _ => wrapf ("commit owned workflow " +:+ name)) (saveOwnedWorkflowTx same_location definition ownership) db).

(** ** Methods that read *)

Definition PostgresStore_LoadUser (calls : nat -> call_answer) (db : database) (ctx : context) (userID : string)
  : res go_error (option User) :=
  try _ <- check_context ctx ;;
  rmap_err (wrapf ("load user " +:+ quote userID)) (pool_query calls (SelectUser userID) db).

Definition PostgresStore_LoadProject (calls : nat -> call_answer) (db : database) (ctx : context) (projectID : string)
  : res go_error (option Project) :=
  try _ <- check_context ctx ;;
  rmap_err (wrapf ("load project " +:+ quote projectID)) (pool_query calls (SelectProject projectID) db).

Definition PostgresStore_LoadMembership (calls : nat -> call_answer) (db : database) (ctx : context)
    (projectID userID : string) : res go_error (option Membership) :=
  try _ <- check_context ctx ;;
  rmap_err (wrapf "load membership") (pool_query calls (SelectMembership projectID userID) db).

Definition PostgresStore_ListMemberships (calls : nat -> call_answer) (db : database) (ctx : context)
    (projectID : string) : res go_error (list Membership) :=
  try _ <- check_context ctx ;;
  rmap_err (wrapf ("list memberships for project " +:+ quote projectID))
    (pool_query calls (SelectMemberships projectID) db).

Definition PostgresStore_LoadWorkflowOwnership (calls : nat -> call_answer) (db : database) (ctx : context)
    (workflowID : string) : res go_error (option WorkflowOwnership) :=
  try _ <- check_context ctx ;;
  rmap_err (wrapf ("load workflow " +:+ quote workflowID +:+ " ownership"))
    (pool_query calls (SelectWorkflowOwnership workflowID) db).

Definition read_event (row : string * audit_event_row) : res go_error AuditEvent :=
  let '(event_id, r) := row in
  try metadata <- rmap_err (wrapf ("decode audit event " +:+ quote event_id +:+ " metadata"))
                    (unmarshal_metadata (aer_metadata r)) ;;
  Ok (mkAuditEvent event_id (aer_project_id r) (aer_actor_user_id r) (aer_action r) (aer_resource_type r)
        (aer_resource_id r) (aer_occurred_at r) metadata).

(** The loop over the rows. *)
Definition append_events (rows : list (string * audit_event_row)) : res go_error (list AuditEvent) :=
  foldM (fun events row => try event <- read_event row ;; Ok (events ++ [event])) [] rows.

Definition PostgresStore_ListAuditEvents (calls : nat -> call_answer) (db : database) (ctx : context)
    (projectID : string) (limit : Z) : res go_error (list AuditEvent) :=
  try _ <- check_context ctx ;;
  fail_if (limit <=? 0) || (1000 <? limit)
    with ErrText "list audit events: limit must be between 1 and 1000" ;;
  try rows <- rmap_err (wrapf ("list audit events for project " +:+ quote projectID))
                (pool_query calls (SelectAuditEvents projectID limit) db) ;;
  append_events rows.
End Security.

(** ** The changes of the two stores are the same, with the times that the database keeps *)

Section Rounding.
Context `{Unicode} `{PostgresLaws}.

(** ** Rounded arguments *)

Definition stored_event (event : AuditEvent) : AuditEvent :=
  mkAuditEvent (ev_ID event) (ev_ProjectID event) (ev_ActorUserID event) (ev_Action event) (ev_ResourceType event)
    (ev_ResourceID event) (pg_time (ev_OccurredAt event)) (ev_Metadata event).

Lemma pg_time_is_zero t : time_kept t -> time_is_zero (pg_time t) = time_is_zero t.
Proof.
  intros Hk. unfold time_is_zero. destruct (Z.eqb_spec t zero_time) as [->|Hne].
  - apply Z.eqb_eq, pg_time_zero.
  - apply Z.eqb_neq. by intros ?%Hk.
Qed.

Lemma pg_time_before t u : time_before t u = false -> time_before (pg_time t) (pg_time u) = false.
Proof. unfold time_before. rewrite !Z.ltb_ge. apply pg_time_mono. Qed.

Lemma validateUser_stored u : time_kept (user_CreatedAt u) -> validateUser u = Ok tt -> validateUser (stored_user u) = Ok tt.
Proof. intros Hk. unfold validateUser. cbn. by rewrite pg_time_is_zero. Qed.

Lemma validateProject_stored p :
  time_kept (proj_CreatedAt p) -> validateProject p = Ok tt -> validateProject (stored_project p) = Ok tt.
Proof.
  intros Hk. unfold validateProject. cbn. rewrite pg_time_is_zero by done. rewrite !guard_err_ok, !orb_false_iff.
  intros (? & ? & ? & [? ?] & ?). split_and!; try done. by apply pg_time_before.
Qed.

Lemma validateMembership_stored m :
  time_kept (mem_CreatedAt m) -> validateMembership m = Ok tt -> validateMembership (stored_membership m) = Ok tt.
Proof.
  intros Hk. unfold validateMembership. cbn. rewrite pg_time_is_zero, !guard_err_ok by done. intros [Hi (r & Hr & Ht)%rbind_ok].
  split; [done|]. rewrite Hr. cbn. revert Ht. rewrite !guard_err_ok, !orb_false_iff. intros [[? ?] ?].
  split_and!; try done. by apply pg_time_before.
Qed.

Lemma validateOwnership_stored o :
  time_kept (own_CreatedAt o) -> validateOwnership o = Ok tt -> validateOwnership (stored_ownership o) = Ok tt.
Proof. intros Hk. unfold validateOwnership. cbn. by rewrite pg_time_is_zero. Qed.

Lemma validateAuditEvent_stored e :
  time_kept (ev_OccurredAt e) -> validateAuditEvent e = Ok tt -> validateAuditEvent (stored_event e) = Ok tt.
Proof. intros Hk. unfold validateAuditEvent. cbn. by rewrite pg_time_is_zero. Qed.

Lemma validateProjectCreation_stored ctx u p m e :
  time_kept (user_CreatedAt u) -> time_kept (proj_CreatedAt p) -> time_kept (mem_CreatedAt m) ->
  time_kept (ev_OccurredAt e) -> validateProjectCreation ctx u p m e = Ok tt ->
  validateProjectCreation ctx (stored_user u) (stored_project p) (stored_membership m) (stored_event e) = Ok tt.
Proof.
  intros Ku Kp Km Ke. unfold validateProjectCreation. intros (x1 & -> & (x2 & Hu%rmap_err_ok & (x3 & Hp%rmap_err_ok & (x4 & Hm%rmap_err_ok
    & (x5 & He%rmap_err_ok & Hrest)%rbind_ok)%rbind_ok)%rbind_ok)%rbind_ok)%rbind_ok.
  destruct x2, x3, x4, x5. cbn [rbind].
  by rewrite validateUser_stored, validateProject_stored, validateMembership_stored, validateAuditEvent_stored.
Qed.
End Rounding.

(** ** What the parts of the transactions change *)

Section Effects.
Context `{Unicode} `{PostgresLaws} `{MetadataCodec}.

Definition with_users (db : database) (us : gmap string User) : database :=
  with_security db us (db_projects db) (db_project_memberships db) (db_workflow_ownership db) (db_audit_events db).
Definition with_projects (db : database) (ps : gmap string Project) : database :=
  with_security db (db_users db) ps (db_project_memberships db) (db_workflow_ownership db) (db_audit_events db).
Definition with_member (db : database) (p u : string) (m : Membership) : database :=
  with_security db (db_users db) (db_projects db) (put_row (db_project_memberships db) p u m)
    (db_workflow_ownership db) (db_audit_events db).
Definition with_ownership (db : database) (o : WorkflowOwnership) : database :=
  with_security db (db_users db) (db_projects db) (db_project_memberships db)
    (<[own_WorkflowID o := o]> (db_workflow_ownership db)) (db_audit_events db).
Definition with_event (db : database) (id : string) (row : audit_event_row) : database :=
  with_security db (db_users db) (db_projects db) (db_project_memberships db) (db_workflow_ownership db)
    (<[id := row]> (db_audit_events db)).

(** The stored user, if there is one, is kept. *)
Definition users_with (us : gmap string User) (u : User) : gmap string User :=
  if taken us (user_ID u) then us else <[user_ID u := stored_user u]> us.

Lemma evals_insertUser u db db' :
  evals (insertPostgresUser u) db db' tt ->
  db' = with_users db (users_with (db_users db) u) /\
  exists u0, users_with (db_users db) u !! user_ID u = Some u0 /\ user_Disabled u0 = false.
Proof.
  intros (db1 & n & [E1 _]%evals_stmt%checked_ok & E2)%evals_bind. cbn in E1.
  assert (db1 = with_users db (users_with (db_users db) u)) as ->.
  { unfold users_with. cbn in E1. destruct (taken _ _); injection E1 as -> _; [by destruct db|done]. }
  apply evals_bind in E2 as (db2 & d & [E3 _]%evals_stmt%checked_ok & E4). injection E3 as -> ->. cbn in E4.
  destruct (users_with _ _ !! user_ID u) as [u0|]; [|by apply evals_fail in E4]. cbn in E4.
  destruct (user_Disabled u0) eqn:Ed; [by apply evals_fail in E4|]. apply evals_ret in E4 as [-> _]. eauto.
Qed.

(** The row that the upsert leaves. *)
Definition upserted (row : option Membership) (m : Membership) : Membership :=
  match row with
  | None => stored_membership m
  | Some row => mkMembership (mem_ProjectID m) (mem_UserID m) (mem_Role m) (mem_CreatedAt row) (pg_time (mem_UpdatedAt m))
  end.

Lemma evals_upsert m db db' :
  evals (upsertPostgresMembership m) db db' tt ->
  let row := rows_of (db_project_memberships db) (mem_ProjectID m) !! mem_UserID m in
  db' = with_member db (mem_ProjectID m) (mem_UserID m) (upserted row m) /\
  match row with
  | None => is_Some (db_projects db !! mem_ProjectID m) /\ is_Some (db_users db !! mem_UserID m)
  | Some row => mem_UpdatedAt row <= pg_time (mem_UpdatedAt m)
  end.
Proof.
  intros (db1 & ex & [E1 _]%evals_stmt%checked_ok & E2)%evals_bind. injection E1 as -> ->.
  destruct (rows_of _ _ !! _) as [row|] eqn:Er; cbn [fmap option_fmap option_map] in E2.
  - destruct (time_before _ _); [by apply evals_bind in E2 as (? & ? & ?%evals_fail & _)|].
    apply evals_bind in E2 as (db2 & m' & [-> ->]%evals_ret & E3). apply evals_bind in E3 as (db3 & n & E4%evals_stmt & E5).
    cbn [execute] in E4. unfold upsert_membership in E4. cbn in E4. rewrite Er in E4.
    destruct (Z.ltb_spec (pg_time (mem_UpdatedAt m)) (mem_UpdatedAt row)); apply checked_ok in E4 as [Heq _];
      injection Heq as -> ->; cbn in E5; [by apply evals_fail in E5|]. by apply evals_ret in E5 as [-> _].
  - apply evals_bind in E2 as (db2 & m' & [-> ->]%evals_ret & E3). apply evals_bind in E3 as (db3 & n & E4%evals_stmt & E5).
    cbn [execute] in E4. unfold upsert_membership in E4. cbn in E4. rewrite Er in E4.
    apply checked_ok in E4 as (Heq & _ & _ & _ & _ & [Hp%taken_true Hu%taken_true]%andb_prop).
    injection Heq as -> ->. cbn in E5. by apply evals_ret in E5 as [-> _].
Qed.

Definition event_row (e : AuditEvent) (metadata : string) : audit_event_row :=
  mkAuditEventRow (ev_ProjectID e) (ev_ActorUserID e) (ev_Action e) (ev_ResourceType e) (ev_ResourceID e)
    (pg_time (ev_OccurredAt e)) metadata.

Lemma evals_insertEvent e db db' :
  evals (insertPostgresAuditEvent e) db db' tt ->
  exists text metadata, marshal_metadata (ev_Metadata e) = Ok text /\ pg_jsonb text = Ok metadata /\
  db_audit_events db !! ev_ID e = None /\ db' = with_event db (ev_ID e) (event_row e metadata).
Proof.
  intros (db1 & text & [-> Ht%rmap_err_ok]%evals_lift & E2%evals_stmt)%evals_bind.
  cbn [execute] in E2. unfold insert_audit_event in E2. apply rbind_ok in E2 as (metadata & Hj & E3).
  apply checked_ok in E3 as (Heq & _ & _ & _ & Hn%Bool.negb_true_iff%taken_false & _). injection Heq as ->.
  exists text, metadata. by split_and!.
Qed.
End Effects.
