(* ===== verification/PostgresRefines.v ===== *)
(** * The two stores are one abstract store

    A simulation between the PostgreSQL store and the journal store: whatever the
    connection does, an operation leaves the database as it was or changes it as the
    journal store's memory is changed by the same operation with the times that the
    database keeps. *)
From S2P Require Import Prelude Workflow Heap Graph GraphBuild GraphOrder Errors Run Ids Snapshot SnapshotValid RunStep RunInv RunProps RunDurable Security Sql Tx FileStore FileStoreOps FileStoreInv FileStoreJournal FileStoreProps Postgres SqlFacts PostgresRuns PostgresLoad PostgresProps PostgresWorkflows PostgresSecurity.

Section Refines.
Context `{Unicode} `{PostgresLaws} `{MetadataCodec}.

(** ** The relation *)

(** Definitions and runs: the journal store has what the database gives back. *)
Record core_match (db : database) (m : FileStore) : Prop := {
  cm_owned : rows_owned db;
  cm_definitions : forall w d, fs_workflows m !! w = Some d <-> evals (loadPostgresWorkflowTx w) db db (Some d);
  cm_runs : forall r s, fs_runs m !! r = Some s <-> evals (loadPostgresRunTx r) db db (Some s)
}.

(** The audit events of a project. *)
Definition project_rows (db : database) (p : string) : list (string * audit_event_row) :=
  filter (fun '(_, row) => aer_project_id row = p) (map_to_list (db_audit_events db)).

Record security_match (db : database) (m : FileStore) : Prop := {
  sm_users : db_users db = fs_users m;
  sm_projects : db_projects db = fs_projects m;
  sm_memberships : forall p u, rows_of (db_project_memberships db) p !! u = lookup_membership m p u;
  sm_ownerships : db_workflow_ownership db = fs_ownerships m;
  sm_rounded : forall w o, fs_ownerships m !! w = Some o -> stored_ownership o = o;
  sm_ids : forall id, id ∈ fs_auditIDs m <-> is_Some (db_audit_events db !! id);
  sm_events : forall p, read_event <$> project_rows db p ≡ₚ Ok <$> default [] (fs_auditEvents m !! p)
}.

Definition store_match (db : database) (m : FileStore) : Prop := core_match db m /\ security_match db m.

Lemma evals_functional {A : Type} (t : tx A) db db1 db2 a b : evals t db db1 a -> evals t db db2 b -> a = b.
Proof. unfold evals. congruence. Qed.

Lemma core_match_security db m us ps ms os es m' :
  core_match db m -> fs_workflows m' = fs_workflows m -> fs_runs m' = fs_runs m ->
  core_match (with_security db us ps ms os es) m'.
Proof.
  intros [[Ho Hf] Hd Hr] E1 E2. split.
  - split; [exact Ho|exact Hf].
  - intros w d. rewrite E1, Hd. split; by apply load_workflow_frame.
  - intros r s. rewrite E2, Hr. split; by apply load_run_frame.
Qed.

(** ** Definitions *)

Lemma match_no_definition db m w :
  core_match db m -> w ∉ db_workflow_definitions db -> fs_workflows m !! w = None.
Proof.
  intros Hm Hn. destruct (fs_workflows m !! w) as [d|] eqn:E; [|done]. apply (cm_definitions _ _ Hm) in E.
  apply evals_bind in E as (db1 & stored & [E _]%evals_stmt%checked_ok & E2). injection E as -> ->.
  rewrite bool_decide_eq_false_2 in E2 by done. by apply evals_ret in E2 as [_ ?].
Qed.

(** Saving a definition, in either store. *)
Lemma save_workflow_match d db db' m u :
  Validate d = Ok tt -> core_match db m -> evals (savePostgresWorkflowTx d) db db' u ->
  (fs_workflows m !! wd_ID d = Some d /\ db' = db) \/
  (fs_workflows m !! wd_ID d = None /\ core_match db' (with_workflow m (cloneDefinition d)) /\
   only_definition (wd_ID d) db db' /\ wd_ID d ∈ db_workflow_definitions db').
Proof.
  intros Hv Hm He. pose proof (cm_owned _ _ Hm) as [Hof Hdf].
  assert (Hown : rows_owned db') by (eapply evals_preserves; [apply rows_owned_preserved|exact He|apply Hm]).
  apply evals_save_workflow in He as (Ht & [(Hin & -> & Hl)|(Hn & Hh & Ho)]); [| |done].
  - left. split; [by apply (cm_definitions _ _ Hm)|done].
  - right. split; [by apply (match_no_definition db)|]. split; [|split; [done|apply Hh]]. split; [done| |].
    + intros w d'. cbn. rewrite lookup_insert. case_decide as E.
      * subst w. pose proof (load_definition _ _ Hh Ht Hv) as Hl.
        split; [intros [= <-]; done|]. intros Hl'. by apply (evals_functional _ _ _ _ _ _ Hl) in Hl'.
      * rewrite (cm_definitions _ _ Hm). pose proof (od_others _ _ _ Ho w (not_eq_sym E)) as [S1 S2 S3].
        split; apply load_workflow_frame; by split.
    + intros r s. cbn. rewrite (cm_runs _ _ Hm). rewrite <- (od_rest _ _ _ Ho). split; by apply load_run_frame.
Qed.

(** ** Runs *)

Lemma match_no_run db m r : core_match db m -> db_workflow_runs db !! r = None -> fs_runs m !! r = None.
Proof.
  intros Hm Hn. destruct (fs_runs m !! r) as [s|] eqn:E; [|done]. apply (cm_runs _ _ Hm) in E.
  apply evals_bind in E as (db1 & row & [E _]%evals_stmt%checked_ok & E2). injection E as -> ->.
  rewrite Hn in E2. by apply evals_ret in E2 as [_ ?].
Qed.

(** A run that is stored, in either store. *)
Lemma run_stored db db' m r s :
  core_match db m -> rows_owned db' -> only_run r db db' -> snap_ID s = r ->
  evals (loadPostgresRunTx r) db' db' (Some s) -> core_match db' (with_run m s).
Proof.
  intros Hm Hown Ho <- Hl. split; [done| |].
  - intros w d. cbn. rewrite (cm_definitions _ _ Hm). pose proof (only_run_same _ w _ _ Ho) as [S1 S2 S3].
    split; apply load_workflow_frame; by split.
  - intros r' s'. cbn. rewrite lookup_insert. case_decide as E.
    + subst r'. split; [intros [= <-]; done|]. intros Hl'. by apply (evals_functional _ _ _ _ _ _ Hl) in Hl'.
    + rewrite (cm_runs _ _ Hm). pose proof (or_parts _ _ _ Ho r' (not_eq_sym E)) as Hp. split; by apply load_run_frame.
Qed.

Lemma run_security_match db db' m s r : only_run r db db' -> security_match db m -> security_match db' (with_run m s).
Proof.
  intros Ho [S1 S2 S3 S4 S5 S6 S7]. pose proof (or_security _ _ _ Ho) as Hsec.
  destruct db, db'. unfold with_security in Hsec. cbn in *. injection Hsec as -> -> -> -> ->. by split.
Qed.

(** The run of a stored definition is accepted by the journal store as the database
    will give it back. *)
Lemma validate_view m r :
  times_kept (Snapshot r) -> run_inv r -> aggregate_valid (run_status r) (sortedTasks r) ->
  fs_workflows m !! wd_ID (run_definition r) = Some (run_definition r) ->
  validateSnapshot (pg_view (Snapshot r)) = Ok tt /\ validateRunDefinition m (pg_view (Snapshot r)) = Ok tt.
Proof.
  intros Hk Hi Hagg Hd. split.
  - by apply validateSnapshot_ok, snapshot_valid_view, snapshot_valid_inv.
  - unfold validateRunDefinition. cbn. by rewrite Hd, restore_view.
Qed.

Lemma create_run_match db db' m r stored :
  store_match db m -> times_kept (Snapshot r) -> run_inv r -> aggregate_valid (run_status r) (sortedTasks r) ->
  evals (loadPostgresWorkflowTx (wd_ID (run_definition r))) db db (Some (run_definition r)) ->
  run_version r = 0 -> evals (createRunTx (Snapshot r)) db db' stored ->
  exists record, plan_CreateRun m CtxLive CtxLive (pg_view (Snapshot r)) =
    Ok (Commit record (with_run m (pg_view stored)) (pg_view stored)) /\ store_match db' (with_run m (pg_view stored)).
Proof.
  intros [Hm Hs] Hk Hi Hagg Hd Hv He.
  assert (Hown : rows_owned db') by (eapply evals_preserves; [apply rows_owned_preserved|exact He|apply Hm]).
  destruct (evals_create_load _ _ _ _ (proj1 (cm_owned _ _ Hm)) (inv_shaped _ Hi) Hv He) as (_ & -> & Hn & Ho & _ & Hl). specialize (Hl Hk).
  apply (cm_definitions _ _ Hm) in Hd. destruct (validate_view m r Hk Hi Hagg Hd) as [V1 V2].
  unfold plan_CreateRun. cbn [check_context storeContextError rbind]. rewrite V1, V2.
  rewrite bool_decide_eq_false_2 by (cbn; rewrite (match_no_run db m) by done; by intros [? ?]).
  cbn. rewrite Hv. cbn. eexists. split; [done|]. split; [by apply (run_stored db _ _ (run_id r))|].
  by apply (run_security_match db db' m _ (run_id r)).
Qed.

Lemma save_run_match db db' m r0 r stored :
  store_match db m -> times_kept (Snapshot r) -> run_inv r -> aggregate_valid (run_status r) (sortedTasks r) -> same_run r0 r ->
  evals (loadPostgresWorkflowTx (wd_ID (run_definition r))) db db (Some (run_definition r)) ->
  evals (loadPostgresRunTx (run_id r)) db db (Some (pg_view (Snapshot r0))) ->
  run_version r < max_int64 -> evals (saveRunTx (Snapshot r)) db db' stored ->
  exists record, plan_SaveRun m CtxLive CtxLive (pg_view (Snapshot r)) =
    Ok (Commit record (with_run m (pg_view stored)) (pg_view stored)) /\ store_match db' (with_run m (pg_view stored)).
Proof.
  intros [Hm Hs] Hk Hi Hagg Hr Hd Hl0 Hmax He.
  assert (Hown : rows_owned db') by (eapply evals_preserves; [apply rows_owned_preserved|exact He|apply Hm]).
  destruct (evals_save_load db db' r0 r stored) as (Hver & _ & -> & Ho & _ & Hl); [|done..|].
  { apply (loaded_run_rows db db); [apply Hr|]. by rewrite <- (sr_id _ _ Hr). }
  specialize (Hl Hk).
  apply (cm_definitions _ _ Hm) in Hd. apply (cm_runs _ _ Hm) in Hl0. destruct (validate_view m r Hk Hi Hagg Hd) as [V1 V2].
  unfold plan_SaveRun. cbn [check_context storeContextError rbind]. rewrite V1, V2.
  cbn. rewrite Hl0. cbn. rewrite Hver, Z.eqb_refl. cbn. eexists. split; [done|]. split; [by apply (run_stored db _ _ (run_id r))|].
  by apply (run_security_match db db' m _ (run_id r)).
Qed.

(** ** Users, memberships and audit events *)

(** The metadata of the event survive the encoding and the [jsonb] column. *)
Definition metadata_kept (e : AuditEvent) : Prop :=
  forall text stored, marshal_metadata (ev_Metadata e) = Ok text -> pg_jsonb text = Ok stored ->
  unmarshal_metadata stored = Ok (ev_Metadata e).

Lemma user_match m u u0 :
  memory_inv m -> users_with (fs_users m) u !! user_ID u = Some u0 -> user_Disabled u0 = false ->
  exists known, resolve_user m (stored_user u) = Ok known /\
    apply_user (fs_users m) (Some known) = Ok (users_with (fs_users m) u).
Proof.
  intros Hm. unfold users_with, resolve_user, apply_user, taken. cbn [stored_user user_ID].
  destruct (fs_users m !! user_ID u) as [known|] eqn:E.
  - rewrite bool_decide_eq_true_2 by eauto. rewrite E. intros [= ->] ->. cbn. exists u0. split; [done|].
    destruct (mi_users _ Hm _ _ E) as [-> _]. rewrite E. by rewrite Bool.eqb_reflx.
  - rewrite bool_decide_eq_false_2 by (by intros [? ?]). intros _ _. exists (stored_user u). cbn. by rewrite E.
Qed.

Lemma event_ids_match db m e row :
  security_match db m -> forall id, id ∈ {[ev_ID e]} ∪ fs_auditIDs m <-> is_Some (<[ev_ID e := row]> (db_audit_events db) !! id).
Proof.
  intros Hs id. rewrite elem_of_union, elem_of_singleton, (sm_ids _ _ Hs), lookup_insert. case_decide; naive_solver.
Qed.

Lemma event_rows_match db m e metadata p :
  security_match db m -> db_audit_events db !! ev_ID e = None -> unmarshal_metadata metadata = Ok (ev_Metadata e) ->
  read_event <$> project_rows (with_event db (ev_ID e) (event_row e metadata)) p ≡ₚ
  Ok <$> default [] (append_event (fs_auditEvents m) (stored_event e) !! p).
Proof.
  intros Hs Hn Hu. unfold project_rows. cbn [with_event with_security db_audit_events].
  rewrite map_to_list_insert, filter_cons by done. cbn [event_row aer_project_id].
  unfold append_event. cbn [stored_event ev_ProjectID]. rewrite lookup_insert.
  destruct (decide (ev_ProjectID e = p)) as [<-|Hne]; [|apply (sm_events _ _ Hs)].
  rewrite fmap_cons. cbn [from_option]. unfold id. rewrite fmap_app. cbn. rewrite Hu. cbn. fold (stored_event e).
  pose proof (sm_events _ _ Hs (ev_ProjectID e)) as Hp. unfold project_rows in Hp. rewrite Hp. apply Permutation_cons_append.
Qed.

Lemma event_checked db m e :
  security_match db m -> db_audit_events db !! ev_ID e = None -> time_kept (ev_OccurredAt e) -> validateAuditEvent e = Ok tt ->
  bool_decide (ev_ID e ∈ fs_auditIDs m) = false /\ check_audit m (Some (stored_event e)) = Ok tt.
Proof.
  intros Hs Hn Hk Hv. assert (Hf : bool_decide (ev_ID e ∈ fs_auditIDs m) = false).
  { apply bool_decide_eq_false_2. rewrite (sm_ids _ _ Hs), Hn. by intros [? ?]. }
  split; [done|]. unfold check_audit. rewrite validateAuditEvent_stored by done. cbn. by rewrite Hf.
Qed.

(** Writing a membership, in either store. *)
Lemma put_member_match ms db m (x : Membership) :
  (forall p u, rows_of (db_project_memberships db) p !! u = lookup_membership m p u) ->
  ms = put_row (db_project_memberships db) (mem_ProjectID x) (mem_UserID x) x ->
  forall p u, rows_of ms p !! u = put_membership (fs_memberships m) x !! p ≫= (.!! u).
Proof.
  intros Hs -> p u. rewrite lookup_put_membership, rows_of_put. destruct (decide (mem_ProjectID x = p)) as [<-|Hne].
  - rewrite lookup_insert, Hs. destruct (decide (mem_UserID x = u)) as [<-|Hu].
    + by rewrite decide_True by done.
    + by rewrite decide_False by naive_solver.
  - rewrite decide_False by naive_solver. apply Hs.
Qed.

(** ** The methods on projects *)

Definition plan_memory {A : Type} (m : FileStore) (p : plan A) : FileStore :=
  match p with Skip _ => m | Commit _ m' _ => m' end.

Lemma commit_security_memory m record m' :
  applySecurityRecord m record = Ok m' -> plan_memory m (commit_security m record) = m'.
Proof. intros Ha. cbn. by rewrite Ha. Qed.

Lemma create_project_match db db' m ctx u p x e :
  time_kept (user_CreatedAt u) -> time_kept (proj_CreatedAt p) -> time_kept (mem_CreatedAt x) -> time_kept (ev_OccurredAt e) ->
  memory_inv m -> integrity m -> store_match db m -> metadata_kept e ->
  validateProjectCreation ctx u p x e = Ok tt -> evals (createProjectTx u p x e) db db' tt ->
  exists planned, plan_CreateProject m ctx (stored_user u) (stored_project p) (stored_membership x) (stored_event e) = Ok planned /\
    store_match db' (plan_memory m planned).
Proof.
  intros Ku Kp Kx Ke Hmi Hin [Hm Hs] Hk Hv (db1 & [] & [-> (u0 & Hu0 & Hd)]%evals_insertUser & E2)%evals_bind.
  apply evals_bind in E2 as (db2 & [] & (Heq & _ & _ & _ & Hn%Bool.negb_true_iff%taken_false & _)%evals_stmt%checked_ok & E3).
  cbn in Heq, Hn. injection Heq as ->.
  apply evals_bind in E3 as (db3 & [] & [-> _]%evals_upsert & (text & metadata & Ht & Hj & He & ->)%evals_insertEvent).
  cbn in He. rewrite (sm_users _ _ Hs) in Hu0. rewrite (sm_projects _ _ Hs) in Hn.
  pose proof (validateProjectCreation_stored _ _ _ _ _ Ku Kp Kx Ke Hv) as Hv'. unfold plan_CreateProject. rewrite Hv'. cbn [rbind].
  unfold validateProjectCreation in Hv. apply rbind_ok in Hv as (_ & _ & (_ & _ & (_ & _ & (_ & _ & ([] & Hve%rmap_err_ok & Hids)%rbind_ok)%rbind_ok)%rbind_ok)%rbind_ok).
  apply guard_err_ok in Hids as [Hids _]. rewrite !orb_false_iff, !Bool.negb_false_iff, !String.eqb_eq in Hids.
  destruct Hids as [[[[[_ Hxp] _] _] _] _].
  destruct (user_match m u u0 Hmi Hu0 Hd) as (known & Hr & Hau). destruct (event_checked db m e Hs He Ke Hve) as [Hf Hca].
  assert (Hrow : rows_of (db_project_memberships db) (mem_ProjectID x) !! mem_UserID x = None).
  { rewrite (sm_memberships _ _ Hs). destruct (lookup_membership m _ _) eqn:El; [|done].
    destruct (in_member _ Hin (mem_ProjectID x) (mem_UserID x)) as [[? Hp] _]; [by eexists|]. rewrite Hxp in Hp. congruence. }
  cbn [stored_project proj_ID stored_event ev_ID]. rewrite bool_decide_eq_false_2 by (rewrite Hn; by intros [? ?]).
  rewrite Hr. cbn [rbind]. rewrite Hf. eexists. split; [done|].
  erewrite commit_security_memory; [|unfold applySecurityRecord; cbn [create_project_record jr_AuditEvent jr_User];
    rewrite Hca, Hau; reflexivity].
  split; [by apply (core_match_security db m)|]. cbn. rewrite Hrow. cbn [upserted].
  split; cbn [db_users db_projects db_project_memberships db_workflow_ownership db_audit_events with_event with_member
              with_users with_security fs_users fs_projects fs_ownerships fs_auditIDs fs_auditEvents].
  - by rewrite (sm_users _ _ Hs).
  - by rewrite (sm_projects _ _ Hs).
  - intros p' u'. by apply (put_member_match _ db m (stored_membership x) (sm_memberships _ _ Hs)).
  - apply (sm_ownerships _ _ Hs).
  - apply (sm_rounded _ _ Hs).
  - apply (event_ids_match db m e _ Hs).
  - intros p'. apply (event_rows_match db m e metadata p' Hs He), (Hk text); done.
Qed.

Lemma save_project_match db db' m p e :
  time_kept (proj_CreatedAt p) -> time_kept (ev_OccurredAt e) ->
  store_match db m -> metadata_kept e -> validateProject p = Ok tt -> validateAuditEvent e = Ok tt ->
  ev_ProjectID e = proj_ID p -> evals (saveProjectTx p e) db db' tt ->
  exists planned, plan_SaveProject m CtxLive (stored_project p) (stored_event e) = Ok planned /\
    store_match db' (plan_memory m planned).
Proof.
  intros Kp Ke [Hm Hs] Hk Hvp Hve Hid (db1 & n & E1%evals_stmt & E2)%evals_bind.
  cbn [execute] in E1. unfold update_project in E1. apply guard_err_ok in E1 as [_ E1]. cbn [stored_project proj_ID] in E1.
  rewrite (sm_projects _ _ Hs) in E1.
  destruct (fs_projects m !! proj_ID p) as [row|] eqn:Er; [|injection E1 as -> <-; by apply evals_fail in E2].
  destruct (negb _) eqn:Ec; [injection E1 as -> <-; by apply evals_fail in E2|].
  apply checked_ok in E1 as [Heq _]. injection Heq as -> ->. cbn [Z.eqb Pos.eqb negb] in E2.
  apply evals_insertEvent in E2 as (text & metadata & Ht & Hj & He & ->). cbn in He.
  destruct (event_checked db m e Hs He Ke Hve) as [Hf Hca].
  apply Bool.negb_false_iff, andb_prop in Ec as [Ec1 Ec2]. cbn in Ec1, Ec2.
  unfold plan_SaveProject. cbn [check_context storeContextError rbind].
  rewrite validateProject_stored, validateAuditEvent_stored by done. cbn [rmap_err rbind stored_project stored_event ev_ID
    ev_ProjectID proj_ID proj_CreatedAt proj_CreatedBy]. rewrite Hid, String.eqb_refl, Er, Ec1, Ec2. cbn [negb orb].
  rewrite Hf. eexists. split; [done|].
  erewrite commit_security_memory; [|unfold applySecurityRecord; cbn [save_project_record jr_AuditEvent jr_User];
    fold (stored_event e); rewrite Hca; reflexivity].
  split; [by apply (core_match_security db m)|]. cbn.
  split; cbn [db_users db_projects db_project_memberships db_workflow_ownership db_audit_events with_event with_member
              with_users with_security fs_users fs_projects fs_ownerships fs_auditIDs fs_auditEvents].
  - apply (sm_users _ _ Hs).
  - done.
  - apply (sm_memberships _ _ Hs).
  - apply (sm_ownerships _ _ Hs).
  - apply (sm_rounded _ _ Hs).
  - apply (event_ids_match db m e _ Hs).
  - intros p'. apply (event_rows_match db m e metadata p' Hs He), (Hk text); done.
Qed.

(** The membership that both stores write. *)
Lemma membership_match db m x :
  memory_inv m -> security_match db m ->
  let row := rows_of (db_project_memberships db) (mem_ProjectID x) !! mem_UserID x in
  match row with
  | None => is_Some (db_projects db !! mem_ProjectID x)
  | Some row => mem_UpdatedAt row <= pg_time (mem_UpdatedAt x)
  end ->
  resolve_membership m (stored_membership x) = Ok (upserted row x).
Proof.
  intros Hmi Hs. cbn zeta. rewrite (sm_memberships _ _ Hs). unfold resolve_membership. cbn [stored_membership mem_ProjectID mem_UserID].
  destruct (lookup_membership m _ _) as [row|] eqn:El; [|done]. intros Hle. cbn.
  unfold time_before. by rewrite (proj2 (Z.ltb_ge _ _)) by done.
Qed.

Lemma put_membership_match db db' m u x e :
  time_kept (user_CreatedAt u) -> time_kept (mem_CreatedAt x) -> time_kept (ev_OccurredAt e) ->
  memory_inv m -> integrity m -> store_match db m -> metadata_kept e ->
  validateUser u = Ok tt -> validateMembership x = Ok tt -> validateAuditEvent e = Ok tt ->
  mem_UserID x = user_ID u -> ev_ProjectID e = mem_ProjectID x -> evals (putMembershipTx u x e) db db' tt ->
  exists planned, plan_PutMembership m CtxLive (stored_user u) (stored_membership x) (stored_event e) = Ok planned /\
    store_match db' (plan_memory m planned).
Proof.
  intros Ku Kx Ke Hmi Hin [Hm Hs] Hk Hvu Hvx Hve Hux Hep (db1 & [] & [-> (u0 & Hu0 & Hd)]%evals_insertUser & E2)%evals_bind.
  apply evals_bind in E2 as (db2 & [] & [-> Hrow]%evals_map_err%evals_upsert & (text & metadata & Ht & Hj & He & ->)%evals_insertEvent).
  cbn in He, Hrow. rewrite (sm_users _ _ Hs) in Hu0.
  destruct (user_match m u u0 Hmi Hu0 Hd) as (known & Hr & Hau). destruct (event_checked db m e Hs He Ke Hve) as [Hf Hca].
  pose proof (membership_match db m x Hmi Hs) as Hres. cbn zeta in Hres.
  assert (Hproj : is_Some (fs_projects m !! mem_ProjectID x)).
  { rewrite <- (sm_projects _ _ Hs). destruct (rows_of _ _ !! _) as [row|] eqn:Er; [|by destruct Hrow].
    rewrite (sm_memberships _ _ Hs) in Er. rewrite (sm_projects _ _ Hs).
    by destruct (in_member _ Hin (mem_ProjectID x) (mem_UserID x)) as [? _]; [exists row|]. }
  assert (Hresolved : resolve_membership m (stored_membership x) =
    Ok (upserted (rows_of (db_project_memberships db) (mem_ProjectID x) !! mem_UserID x) x)).
  { apply Hres. destruct (rows_of _ _ !! _); [done|]. by destruct Hrow. }
  unfold plan_PutMembership. cbn [check_context storeContextError rbind].
  rewrite validateUser_stored, validateMembership_stored, validateAuditEvent_stored by done.
  cbn [rmap_err rbind].
  assert (Hsame : String.eqb (mem_UserID (stored_membership x)) (user_ID (stored_user u)) = true) by (cbn; by apply String.eqb_eq).
  assert (Hpsame : String.eqb (ev_ProjectID (stored_event e)) (mem_ProjectID (stored_membership x)) = true) by (cbn; by apply String.eqb_eq).
  rewrite Hsame, Hpsame, bool_decide_eq_true_2, Hr, Hresolved by done. cbn [negb orb rbind].
  change (ev_ID (stored_event e)) with (ev_ID e). rewrite Hf. eexists. split; [done|].
  erewrite commit_security_memory; [|unfold applySecurityRecord; cbn [put_membership_record jr_AuditEvent jr_User];
    rewrite Hca, Hau; reflexivity].
  split; [by apply (core_match_security db m)|]. cbn.
  split; cbn [db_users db_projects db_project_memberships db_workflow_ownership db_audit_events with_event with_member
              with_users with_security fs_users fs_projects fs_ownerships fs_auditIDs fs_auditEvents].
  - by rewrite (sm_users _ _ Hs).
  - apply (sm_projects _ _ Hs).
  - intros p' u'. apply (put_member_match _ db m _ (sm_memberships _ _ Hs)). by destruct (rows_of _ _ !! _).
  - apply (sm_ownerships _ _ Hs).
  - apply (sm_rounded _ _ Hs).
  - apply (event_ids_match db m e _ Hs).
  - intros p'. apply (event_rows_match db m e metadata p' Hs He), (Hk text); done.
Qed.

Lemma definition_security_match w db db' m m' :
  only_definition w db db' -> security_match db m -> fs_users m' = fs_users m -> fs_projects m' = fs_projects m ->
  fs_memberships m' = fs_memberships m -> fs_ownerships m' = fs_ownerships m -> fs_auditEvents m' = fs_auditEvents m ->
  fs_auditIDs m' = fs_auditIDs m -> security_match db' m'.
Proof.
  intros Ho [S1 S2 S3 S4 S5 S6 S7] E1 E2 E3 E4 E5 E6. rewrite <- (od_rest _ _ _ Ho).
  unfold lookup_membership in *. split; unfold lookup_membership; by rewrite ?E1, ?E2, ?E3, ?E4, ?E5, ?E6.
Qed.

Lemma save_workflow_plan db db' m d u :
  store_match db m -> Validate d = Ok tt -> evals (savePostgresWorkflowTx d) db db' u ->
  exists planned, plan_SaveWorkflow m CtxLive CtxLive d = Ok planned /\ store_match db' (plan_memory m planned).
Proof.
  intros [Hm Hs] Hv He. unfold plan_SaveWorkflow. rewrite Hv. cbn [check_context storeContextError rbind rmap_err].
  apply (save_workflow_match d db db' m) in He as [[Hd ->]|(Hd & Hm1 & Ho & _)]; [| |done|done]; rewrite Hd.
  - rewrite bool_decide_eq_true_2 by done. by eexists.
  - eexists. split; [done|]. split; [done|]. by eapply definition_security_match.
Qed.

(** The definition, in either store: the second component is the journal's check. *)
Lemma definition_match d db db1 m u :
  memory_inv m -> Validate d = Ok tt -> store_match db m -> evals (savePostgresWorkflowTx d) db db1 u ->
  match fs_workflows m !! wd_ID d with Some existing => negb (bool_decide (existing = d)) | None => false end = false /\
  security_match db1 m /\
  forall os es, core_match (with_security db1 (db_users db1) (db_projects db1) (db_project_memberships db1) os es)
    (mkFileStore (<[wd_ID d := cloneDefinition (cloneDefinition d)]> (fs_workflows m)) (fs_runs m) (fs_users m) (fs_projects m)
       (fs_memberships m) os (fs_auditEvents m) (fs_auditIDs m)).
Proof.
  intros Hmi Hv [Hm Hs] He. apply (save_workflow_match d db db1 m) in He as [[Hd ->]|(Hd & Hm1 & Ho & _)]; [| |done|done]; rewrite Hd.
  - split_and!; [by rewrite bool_decide_eq_true_2|done|]. intros os es.
    destruct (mi_workflows _ Hmi _ _ Hd) as [_ Hc]. rewrite !Hc. apply (core_match_security db m); [done| |done].
    cbn. by rewrite insert_id.
  - split_and!; [done| |].
    + by eapply definition_security_match.
    + intros os es. apply (core_match_security db1 (with_workflow m (cloneDefinition d))); [done| |done].
      cbn. by rewrite cloneDefinition_idemp.
Qed.

Lemma save_owned_match same_location db db' m d o :
  time_kept (own_CreatedAt o) -> memory_inv m -> integrity m -> store_match db m -> Validate d = Ok tt -> validateOwnership o = Ok tt ->
  own_WorkflowID o = wd_ID d -> (forall u, db_users db !! own_OwnerUserID o = Some u -> user_Disabled u = false) ->
  evals (saveOwnedWorkflowTx same_location d o) db db' tt ->
  exists planned, plan_SaveWorkflowForProject m CtxLive d (stored_ownership o) = Ok planned /\
    store_match db' (plan_memory m planned).
Proof.
  intros Ko Hmi Hin Hmatch Hvd Hvo Hid Hen (db1 & u & E1 & E2)%evals_bind.
  destruct (definition_match d db db1 m u Hmi Hvd Hmatch E1) as (Hcheck & Hs & Hcore).
  assert (Hdis : default false (user_Disabled <$> fs_users m !! own_OwnerUserID o) = false).
  { rewrite <- (sm_users _ _ (proj2 Hmatch)). destruct (db_users db !! _) as [v|] eqn:Eu; [|done]. cbn. by apply Hen. }
  unfold plan_SaveWorkflowForProject. cbn [check_context storeContextError rbind]. rewrite Hvd, validateOwnership_stored by done.
  cbn [rmap_err rbind]. change (own_WorkflowID (stored_ownership o)) with (own_WorkflowID o).
  change (own_ProjectID (stored_ownership o)) with (own_ProjectID o).
  change (own_OwnerUserID (stored_ownership o)) with (own_OwnerUserID o).
  rewrite Hid, String.eqb_refl, Hdis, Hcheck. cbn [negb].
  apply evals_bind in E2 as (db2 & n & E3%evals_stmt & E4). cbn [execute] in E3. unfold insert_workflow_ownership in E3.
  change (own_WorkflowID (stored_ownership o)) with (own_WorkflowID o) in E3. rewrite Hid, (sm_ownerships _ _ Hs) in E3.
  destruct (fs_ownerships m !! wd_ID d) as [o'|] eqn:Eo.
  - unfold taken at 1 in E3. rewrite Eo, bool_decide_eq_true_2 in E3 by eauto. apply checked_ok in E3 as [Heq _].
    injection Heq as -> ->. cbn [Z.eqb] in E4.
    apply evals_bind in E4 as (db3 & existing & [Heq _]%evals_stmt%checked_ok & E5). injection Heq as -> ->.
    rewrite (sm_ownerships _ _ Hs), Eo in E5. destruct (same_location && _) eqn:Eb; [|by apply evals_fail in E5].
    apply andb_prop in Eb as [_ Heq%bool_decide_eq_true]. apply evals_ret in E5 as [-> _]. subst o'.
    destruct (in_owner _ Hin _ _ Eo) as (_ & Hw & Hp & Hmem). rewrite (sm_rounded _ _ Hs _ _ Eo), !bool_decide_eq_true_2 by done.
    eexists. split; [done|]. cbn. destruct Hw as [d0 Hd0]. rewrite Hd0 in Hcheck.
    apply Bool.negb_false_iff, bool_decide_eq_true in Hcheck as ->. split; [|done].
    specialize (Hcore (db_workflow_ownership db1) (db_audit_events db1)). destruct (mi_workflows _ Hmi _ _ Hd0) as [_ Hc].
    rewrite !Hc, insert_id in Hcore by done. destruct Hcore. split; [by destruct db1|by destruct db1|by destruct db1].
  - unfold taken at 1 in E3. rewrite Eo, bool_decide_eq_false_2 in E3 by (by intros [? ?]).
    apply checked_ok in E3 as (Heq & _ & _ & _ & _ & [_ Hmem%taken_true]%andb_prop). injection Heq as -> ->.
    cbn [Z.eqb Pos.eqb] in E4. apply evals_ret in E4 as [-> _]. cbn in Hmem. rewrite (sm_memberships _ _ Hs) in Hmem.
    destruct (in_member _ Hin _ _ Hmem) as [Hp _]. rewrite !bool_decide_eq_true_2 by done. eexists. split; [done|].
    cbn. rewrite Hid. split; [apply Hcore|].
    destruct Hs as [S1 S2 S3 S4 S5 S6 S7]. split; cbn; try done.
    intros w o'. rewrite lookup_insert. case_decide; [|apply S5]. intros [= <-]. unfold stored_ownership. cbn.
    by rewrite pg_time_idem.
Qed.

(** ** Every operation *)

Definition forget_result {A : Type} (x : database * res go_error A) : database * res go_error unit :=
  (fst x, match snd x with Ok _ => Ok tt | Err e => Err e end).

(** An operation of the stores, on the database. *)
Definition postgres_op (same_location : bool) (calls : nat -> call_answer) (db : database) (op : store_op)
  : database * res go_error unit :=
  match op with
  | OpSaveWorkflow ctx _ d => PostgresStore_SaveWorkflow calls db ctx d
  | OpCreateRun ctx _ s => forget_result (PostgresStore_CreateRun calls db ctx s)
  | OpSaveRun ctx _ s => forget_result (PostgresStore_SaveRun calls db ctx s)
  | OpCreateProject ctx u p x e => PostgresStore_CreateProject calls db ctx u p x e
  | OpSaveProject ctx p e => PostgresStore_SaveProject calls db ctx p e
  | OpPutMembership ctx u x e => PostgresStore_PutMembership calls db ctx u x e
  | OpSaveWorkflowForProject ctx d o => PostgresStore_SaveWorkflowForProject same_location calls db ctx d o
  end.

(** The operation with what the database keeps of its arguments. *)
Definition rounded_op (op : store_op) : store_op :=
  match op with
  | OpSaveWorkflow ctx _ d => OpSaveWorkflow ctx ctx d
  | OpCreateRun ctx _ s => OpCreateRun ctx ctx (pg_view s)
  | OpSaveRun ctx _ s => OpSaveRun ctx ctx (pg_view s)
  | OpCreateProject ctx u p x e => OpCreateProject ctx (stored_user u) (stored_project p) (stored_membership x) (stored_event e)
  | OpSaveProject ctx p e => OpSaveProject ctx (stored_project p) (stored_event e)
  | OpPutMembership ctx u x e => OpPutMembership ctx (stored_user u) (stored_membership x) (stored_event e)
  | OpSaveWorkflowForProject ctx d o => OpSaveWorkflowForProject ctx d (stored_ownership o)
  end.

(** The times of an operation that must not be the zero time. *)
Definition op_times_kept (op : store_op) : Prop :=
  match op with
  | OpSaveWorkflow _ _ _ => True
  | OpCreateRun _ _ s | OpSaveRun _ _ s => times_kept s
  | OpCreateProject _ u p x e => time_kept (user_CreatedAt u) /\ time_kept (proj_CreatedAt p) /\
      time_kept (mem_CreatedAt x) /\ time_kept (ev_OccurredAt e)
  | OpSaveProject _ p e => time_kept (proj_CreatedAt p) /\ time_kept (ev_OccurredAt e)
  | OpPutMembership _ u x e => time_kept (user_CreatedAt u) /\ time_kept (mem_CreatedAt x) /\ time_kept (ev_OccurredAt e)
  | OpSaveWorkflowForProject _ _ o => time_kept (own_CreatedAt o)
  end.

(** What the application gives the store. A snapshot is that of a run of the
    aggregate, of a stored definition, and a saved one continues the stored run. The
    audit metadata survive [jsonb]. The owner of a workflow is not disabled, which
    the PostgreSQL store does not check. No time is within the microsecond after the
    zero time. *)
Definition admissible (db : database) (op : store_op) : Prop :=
  let stored d := PostgresStore_LoadWorkflow answered db CtxLive (wd_ID d) = Ok (Some d) in
  op_times_kept op /\
  match op with
  | OpSaveWorkflow _ _ _ => True
  | OpCreateRun _ _ s => exists r, s = Snapshot r /\ run_inv r /\ aggregate_valid (run_status r) (sortedTasks r) /\
      stored (run_definition r)
  | OpSaveRun _ _ s => exists r0 r, s = Snapshot r /\ run_inv r /\ aggregate_valid (run_status r) (sortedTasks r) /\
      stored (run_definition r) /\ same_run r0 r /\
      PostgresStore_LoadRun answered db CtxLive (run_id r) = Ok (Some (pg_view (Snapshot r0)))
  | OpCreateProject _ _ _ _ e | OpSaveProject _ _ e | OpPutMembership _ _ _ e => metadata_kept e
  | OpSaveWorkflowForProject _ _ o =>
      forall u, db_users db !! own_OwnerUserID o = Some u -> user_Disabled u = false
  end.

Lemma method_state {A : Type} checks calls bf cf (t : tx A) db db' result :
  after_checks checks db (transaction calls bf cf t db) = (db', result) ->
  (db' = db /\ is_ok result = false) \/ (checks = Ok tt /\ exists a, evals t db db' a).
Proof.
  destruct checks as [[]|e]; cbn; [|intros [= <- <-]; by left]. destruct result as [a|e]; intros Ht.
  - right. split; [done|]. exists a. by eapply transaction_ok.
  - apply transaction_err in Ht as [->|(n & cause & a & _ & He & _)]; [by left|]. right. eauto.
Qed.

Lemma check_context_ok ctx u : check_context ctx = Ok u -> ctx = CtxLive.
Proof. by destruct ctx. Qed.

Lemma operation_refines same_location calls db db' m op result :
  memory_inv m -> integrity m -> store_match db m -> admissible db op ->
  postgres_op same_location calls db op = (db', result) ->
  (db' = db /\ is_ok result = false) \/
  exists planned, plan_of m (rounded_op op) = Ok planned /\ store_match db' (plan_memory m planned).
Proof.
  intros Hmi Hin Hm [Hk Ha] Hop. destruct op as [ctx c2 d|ctx c2 s|ctx c2 s|ctx u p x e|ctx p e|ctx u x e|ctx d o]; cbn [postgres_op] in Hop.
  - apply method_state in Hop as [?|(Hc & [] & He)]; [by left|right].
    apply rbind_ok in Hc as (? & ->%check_context_ok & ([] & Hv%rmap_err_ok & _)%rbind_ok). by eapply save_workflow_plan.
  - destruct (PostgresStore_CreateRun calls db ctx s) as [db1 r1] eqn:E. injection Hop as <- <-.
    destruct Ha as (r & -> & Hi & Hagg & Hd%LoadWorkflow_evals). cbn [snd].
    apply method_state in E as [[-> ?]|(Hc & stored & He)]; [left; by destruct r1|right].
    apply rbind_ok in Hc as (? & ->%check_context_ok & (? & _ & [Hv%Bool.negb_false_iff%Z.eqb_eq _]%guard_err_ok)%rbind_ok).
    destruct (create_run_match db db1 m r stored) as (record & Hp & Hm'); [done..|]. cbn [rounded_op plan_of]. rewrite Hp. cbn. eauto.
  - destruct (PostgresStore_SaveRun calls db ctx s) as [db1 r1] eqn:E. injection Hop as <- <-.
    destruct Ha as (r0 & r & -> & Hi & Hagg & Hd%LoadWorkflow_evals & Hr & Hl%LoadRun_evals). cbn [snd].
    apply method_state in E as [[-> ?]|(Hc & stored & He)]; [left; by destruct r1|right].
    apply rbind_ok in Hc as (? & ->%check_context_ok & (? & _ & [[_ Hmax%Z.leb_gt]%orb_false_iff _]%guard_err_ok)%rbind_ok).
    destruct (save_run_match db db1 m r0 r stored) as (record & Hp & Hm'); [done..|]. cbn [rounded_op plan_of]. rewrite Hp. cbn. eauto.
  - apply method_state in Hop as [?|(Hc & [] & He)]; [by left|right]. destruct_and! Hk. by eapply create_project_match.
  - apply method_state in Hop as [?|(Hc & [] & He)]; [by left|right].
    apply rbind_ok in Hc as (? & ->%check_context_ok & ([] & Hp%rmap_err_ok & ([] & Hv%rmap_err_ok & Hid)%rbind_ok)%rbind_ok).
    apply guard_err_ok in Hid as [Hid%Bool.negb_false_iff%String.eqb_eq _]. destruct_and! Hk. by eapply save_project_match.
  - apply method_state in Hop as [?|(Hc & [] & He)]; [by left|right].
    apply rbind_ok in Hc as (? & ->%check_context_ok & ([] & Hu%rmap_err_ok & ([] & Hx%rmap_err_ok & ([] & Hv%rmap_err_ok & Hid)%rbind_ok)%rbind_ok)%rbind_ok).
    apply guard_err_ok in Hid as [[Hi1%Bool.negb_false_iff%String.eqb_eq Hi2%Bool.negb_false_iff%String.eqb_eq]%orb_false_iff _].
    destruct_and! Hk. by eapply put_membership_match.
  - apply method_state in Hop as [?|(Hc & [] & He)]; [by left|right].
    apply rbind_ok in Hc as (? & ->%check_context_ok & ([] & Hd%rmap_err_ok & ([] & Hv%rmap_err_ok & Hid)%rbind_ok)%rbind_ok).
    apply guard_err_ok in Hid as [Hid%Bool.negb_false_iff%String.eqb_eq _]. by eapply save_owned_match.
Qed.

(** ** Every sequence of operations *)

Definition postgres_step (db db' : database) : Prop :=
  exists same_location calls op, admissible db op /\ db' = fst (postgres_op same_location calls db op).

Definition memory_step (m m' : FileStore) : Prop :=
  exists op planned, plan_of m op = Ok planned /\ m' = plan_memory m planned.

Lemma memory_step_inv m m' : memory_step m m' -> memory_inv m -> integrity m -> memory_inv m' /\ integrity m'.
Proof.
  intros (op & planned & Hp & ->) Hmi Hin. pose proof (plan_of_replays _ _ _ Hmi Hp) as Hr.
  pose proof (plan_of_integrity _ _ _ Hmi Hin Hp) as Hi. destruct planned as [v|record m' v]; [done|]. cbn in *.
  by destruct Hr as (_ & ? & _).
Qed.

Lemma store_match_empty : store_match empty_database empty_store.
Proof.
  split; split.
  - apply rows_owned_empty.
  - intros w d. split; [done|].
    intros (db1 & stored & [Heq _]%evals_stmt%checked_ok & E2)%evals_bind. injection Heq as -> ->.
    rewrite bool_decide_eq_false_2 in E2 by (cbn; set_solver). by apply evals_ret in E2 as [_ ?].
  - intros r s. split; [done|].
    intros (db1 & row & [Heq _]%evals_stmt%checked_ok & E2)%evals_bind. injection Heq as -> ->.
    cbn in E2. rewrite lookup_empty in E2. by apply evals_ret in E2 as [_ ?].
  - done.
  - done.
  - intros p u. unfold rows_of, lookup_membership. cbn. by rewrite !lookup_empty.
  - done.
  - intros w o. cbn. by rewrite lookup_empty.
  - intros id. cbn. rewrite lookup_empty. split; [set_solver|by intros [? ?]].
  - intros p. unfold project_rows. cbn. by rewrite lookup_empty.
Qed.

Lemma steps_refine (db : database) :
  rtc postgres_step empty_database db ->
  exists m, rtc memory_step empty_store m /\ store_match db m /\ memory_inv m /\ integrity m.
Proof.
  revert db. apply rtc_ind_r.
  - exists empty_store. split_and!; [done|apply store_match_empty|apply memory_inv_empty|apply integrity_empty].
  - intros db1 db2 _ (same & calls & op & Ha & ->) (m & Hm & Hmatch & Hmi & Hin).
    destruct (postgres_op same calls db1 op) as [db' result] eqn:E. cbn.
    destruct (operation_refines same calls db1 db' m op result) as [[-> _]|(planned & Hp & Hmatch')]; [done..|by exists m|].
    assert (Hstep : memory_step m (plan_memory m planned)) by (by exists (rounded_op op), planned).
    exists (plan_memory m planned). split; [by eapply rtc_r|]. split; [done|]. by apply (memory_step_inv m).
Qed.

(** C6: the two stores are one abstract store. Whatever admissible operations are run
    on the PostgreSQL store, and whatever fails on the way (a statement, the
    connection, a commit whose answer is lost), what the database gives back is what
    the memory of a journal store gives back after operations it has accepted; so the
    references between the rows lead to rows, and every stored run can be restored
    from its stored definition. An operation is admissible if the snapshot it stores
    is that of a well-formed run of a stored definition, a saved one continuing the
    stored run, if its audit metadata survive [jsonb], if the owner it gives a workflow
    is not disabled, and if none of its times is in the microsecond after the zero
    time. *)
Theorem postgres_refines_journal (db : database) :
  rtc postgres_step empty_database db ->
  exists m, rtc memory_step empty_store m /\ store_match db m /\ integrity m.
Proof. intros (m & ? & ? & _ & ?)%steps_refine. by exists m. Qed.

(** ** Reading *)

(** [occurred_at DESC, event_id DESC]. *)
Definition newest_first (x y : AuditEvent) : Prop :=
  ev_OccurredAt y < ev_OccurredAt x \/
  (ev_OccurredAt y = ev_OccurredAt x /\ pg_leb (ev_ID y) (ev_ID x) = true).

Lemma append_events_ok rows events :
  read_event <$> rows = Ok <$> events -> append_events rows = Ok events.
Proof.
  intros Hr. cut (forall read, foldM (fun events row => try event <- read_event row ;; Ok (events ++ [event])) read rows =
    Ok (read ++ events)); [by intros Hc; apply (Hc [])|].
  revert events Hr. induction rows as [|row rows IH]; intros [|e events]; try done; intros Hr read; [by rewrite app_nil_r|].
  cbn in *. injection Hr as Hrow Hrows. rewrite Hrow. cbn. rewrite (IH events) by done. by rewrite <- (assoc_L app).
Qed.

Lemma events_of_rows rows events :
  read_event <$> rows ≡ₚ Ok <$> events -> exists l, read_event <$> rows = Ok <$> l /\ l ≡ₚ events.
Proof.
  intros Hp.
  assert (Hall : exists l, read_event <$> rows = Ok <$> l).
  { assert (Hok : Forall (fun r => exists e, r = Ok e) (read_event <$> rows)).
    { rewrite Hp. apply Forall_fmap, Forall_forall. intros e _. by exists e. }
    induction rows as [|row rows IH] in Hok |- *; [by exists []|]. cbn in Hok.
    apply Forall_cons in Hok as [[e He] [l Hl]%IH]. exists (e :: l). cbn. by rewrite He, Hl. }
  destruct Hall as [l Hl]. exists l. split; [done|]. rewrite Hl in Hp.
  pose proof (omap_Permutation (fun r : res go_error AuditEvent => match r with Ok e => Some e | Err _ => None end) _ _ Hp) as Hq.
  assert (Hid : forall k : list AuditEvent,
            omap (fun r : res go_error AuditEvent => match r with Ok e => Some e | Err _ => None end) (Ok <$> k) = k).
  { induction k as [|e k IH]; cbn; [done|]. by f_equal. }
  by rewrite !Hid in Hq.
Qed.

Lemma read_event_order x y ex ey :
  read_event x = Ok ex -> read_event y = Ok ey -> audit_le x y -> newest_first ex ey.
Proof.
  destruct x as [i rx], y as [j ry]. cbn. intros (mx & _ & [= <-])%rbind_ok (my & _ & [= <-])%rbind_ok. done.
Qed.

Lemma events_sorted rows events :
  read_event <$> rows = Ok <$> events -> StronglySorted audit_le rows -> StronglySorted newest_first events.
Proof.
  revert events. induction rows as [|row rows IH]; intros [|e events]; try done; [constructor|].
  cbn. intros [= He Hl] [Hs Hf]%StronglySorted_inv. constructor; [by apply IH|].
  rewrite Forall_forall. intros e' He'.
  assert (Hin : Ok e' ∈ read_event <$> rows) by (rewrite Hl; by apply list_elem_of_fmap_2).
  apply list_elem_of_fmap in Hin as (row' & Hr' & Hin). apply (read_event_order row row'); [done|done|]. rewrite Forall_forall in Hf. by apply Hf.
Qed.

#[local] Instance audit_le_total : Total audit_le.
Proof.
  intros [i x] [j y]. unfold audit_le. cbn. destruct (Z.lt_total (aer_occurred_at x) (aer_occurred_at y)) as [?|[Heq|?]];
    [right; by left| |left; by left]. rewrite Heq. destruct (pg_le_total i j); [right|left]; right; done.
Qed.

#[local] Instance audit_le_trans : Transitive audit_le.
Proof.
  intros [i x] [j y] [k z]. unfold audit_le. cbn. intros [?|[E1 L1]] [?|[E2 L2]]; [left; lia|left; lia|left; lia|right].
  split; [lia|]. by eapply pg_le_trans.
Qed.

Lemma pool_select {A : Type} (q : query A) texts answer db :
  execute q db = select texts db answer -> Forall (fun s => pg_text s = true) texts -> pool_query answered q db = Ok answer.
Proof. intros Hq Ht. unfold pool_query, answered. by rewrite Hq, execute_select. Qed.

(** Reads of the two stores agree. A user, a project, a membership or an
    ownership is the same; memberships are listed in the order of the database, and
    audit events newest first by their times, whatever the order in which they were
    written. *)
Theorem postgres_reads_agree (db : database) (m : FileStore) (p u w : string) (limit : Z) :
  store_match db m -> Forall (fun s => pg_text s = true) [p; u; w] -> 1 <= limit <= 1000 ->
  PostgresStore_LoadUser answered db CtxLive u = Ok (fs_users m !! u) /\
  PostgresStore_LoadProject answered db CtxLive p = Ok (fs_projects m !! p) /\
  PostgresStore_LoadMembership answered db CtxLive p u = Ok (lookup_membership m p u) /\
  PostgresStore_LoadWorkflowOwnership answered db CtxLive w = Ok (fs_ownerships m !! w) /\
  PostgresStore_ListMemberships answered db CtxLive p =
    Ok (order_by mem_UserID (map_values (default ∅ (fs_memberships m !! p)))) /\
  exists events, PostgresStore_ListAuditEvents answered db CtxLive p limit = Ok (take (Z.to_nat limit) events) /\
    events ≡ₚ default [] (fs_auditEvents m !! p) /\ StronglySorted newest_first events.
Proof.
  intros [_ Hs] Ht Hlimit. rewrite !Forall_cons in Ht. destruct Ht as (Hp & Hu & Hw & _).
  assert (Hrows : rows_of (db_project_memberships db) p = default ∅ (fs_memberships m !! p)).
  { apply map_eq. intros k. rewrite (sm_memberships _ _ Hs). unfold lookup_membership. by destruct (fs_memberships m !! p). }
  unfold PostgresStore_LoadUser, PostgresStore_LoadProject, PostgresStore_LoadMembership,
    PostgresStore_LoadWorkflowOwnership, PostgresStore_ListMemberships, PostgresStore_ListAuditEvents.
  cbn [check_context storeContextError rbind].
  split_and!; [erewrite pool_select by (done || by repeat constructor); cbn..|].
  - by rewrite (sm_users _ _ Hs).
  - by rewrite (sm_projects _ _ Hs).
  - by rewrite (sm_memberships _ _ Hs).
  - by rewrite (sm_ownerships _ _ Hs).
  - by rewrite Hrows.
  - rewrite (proj2 (Z.leb_gt _ _)), (proj2 (Z.ltb_ge _ _)) by lia. cbn [orb].
    erewrite pool_select by (done || by repeat constructor). cbn [rmap_err rbind].
    pose proof (sm_events _ _ Hs p) as He. unfold select_audit_events. fold (project_rows db p).
    rewrite <- (merge_sort_Permutation audit_le (project_rows db p)) in He.
    apply events_of_rows in He as (events & Hread & Hperm). exists events. split_and!; [|done|].
    + apply append_events_ok. by rewrite !fmap_take, Hread.
    + eapply events_sorted; [exact Hread|]. apply StronglySorted_merge_sort; apply _.
Qed.
End Refines.
