(* ===== verification/PostgresConcurrent.v ===== *)
(** * Concurrent transactions

    Several processes share one database. A transaction of the isolation level READ
    COMMITTED, which [BeginTx] with empty options asks for, executes each statement on
    what is committed at that moment and its own writes; a write to a row, the
    insertion of a key and [FOR UPDATE] take a lock that is held until the transaction
    ends. This file has what the statements of the store's transactions depend on and
    change; the interleavings are in [PostgresSerial]. *)
From S2P Require Import Prelude Workflow Heap Graph GraphBuild GraphOrder Errors Run Ids Snapshot SnapshotValid RunStep RunInv RunDurable Security Sql Tx FileStore FileStoreOps Postgres SqlFacts PostgresRuns PostgresLoad PostgresProps PostgresWorkflows PostgresSecurity.

(** ** Resources *)

Inductive lock :=
| RunRow (run_id : string)
| DefinitionRow (workflow_id : string)
| UserRow (user_id : string)
| ProjectRow (project_id : string)
| MembershipRow (project_id user_id : string)
| OwnershipRow (workflow_id : string)
| EventRow (event_id : string).

#[export] Instance lock_eq_dec : EqDecision lock.
Proof. solve_decision. Defined.

(** [D'] is like [D] in the rows that [l] protects. *)
Definition agree (l : lock) (D D' : database) : Prop :=
  match l with
  | RunRow r => part D' r = part D r
  | DefinitionRow w => same_definition w D D'
  | UserRow u => db_users D' !! u = db_users D !! u
  | ProjectRow p => db_projects D' !! p = db_projects D !! p
  | MembershipRow p u => rows_of (db_project_memberships D') p !! u = rows_of (db_project_memberships D) p !! u
  | OwnershipRow w => db_workflow_ownership D' !! w = db_workflow_ownership D !! w
  | EventRow e => db_audit_events D' !! e = db_audit_events D !! e
  end.

#[export] Instance agree_equivalence l : Equivalence (agree l).
Proof.
  assert (Heq : forall (B : Type) (f : database -> B), Equivalence (fun D D' => f D' = f D)).
  { intros B f. split; [done|by intros D D' ->|intros D1 D2 D3 Ha Hb; congruence]. }
  destruct l; try apply Heq. split.
  - by intros D.
  - intros D D' [A1 A2 A3]. by split.
  - intros D1 D2 D3 [A1 A2 A3] [B1 B2 B3]. split; [by rewrite B1|by rewrite B2|by rewrite B3].
Qed.

(** The row is there. No statement of the store deletes one of these rows. *)
Definition present (l : lock) (D : database) : Prop :=
  match l with
  | DefinitionRow w => w ∈ db_workflow_definitions D
  | UserRow u => is_Some (db_users D !! u)
  | ProjectRow p => is_Some (db_projects D !! p)
  | MembershipRow p u => is_Some (rows_of (db_project_memberships D) p !! u)
  | OwnershipRow w => is_Some (db_workflow_ownership D !! w)
  | RunRow _ | EventRow _ => False
  end.

(** Once such a row is committed, no transaction changes it. *)
Definition fixed (l : lock) : bool :=
  match l with DefinitionRow _ | UserRow _ | OwnershipRow _ => true | _ => false end.

(** Every row that a foreign key can refer to is still there. *)
Definition grows (D D' : database) : Prop := forall l, present l D -> present l D'.

Lemma agree_present l D D' : agree l D D' -> present l D -> present l D'.
Proof. destruct l; cbn; try done; try (by intros ->). intros [H1 _ _]. apply H1. Qed.

(** What a statement with the answer [a] depends on, apart from the rows that its
    foreign keys refer to. *)
Definition touched {A : Type} (q : query A) : A -> list lock :=
  match q in query A return A -> list lock with
  | InsertWorkflowDefinition w => fun _ => [DefinitionRow w]
  | InsertTaskDefinition w _ _ => fun _ => [DefinitionRow w]
  | InsertTaskDependency w _ _ _ => fun _ => [DefinitionRow w]
  | SelectWorkflowDefinition w => fun _ => [DefinitionRow w]
  | SelectTaskDefinitions w => fun _ => [DefinitionRow w]
  | SelectTaskDependencies w => fun _ => [DefinitionRow w]
  | InsertWorkflowRun r row => fun _ => [RunRow r; DefinitionRow (wrr_workflow_id row)]
  | InsertTaskRun r _ row => fun _ => [RunRow r; DefinitionRow (trr_workflow_id row)]
  | UpdateWorkflowRun _ _ r _ _ => fun _ => [RunRow r]
  | SelectRunVersion r => fun _ => [RunRow r]
  | UpdateTaskRun _ r _ _ => fun _ => [RunRow r]
  | DeleteTaskLeases r => fun _ => [RunRow r]
  | DeleteWorkers r => fun _ => [RunRow r]
  | InsertWorker r _ _ => fun _ => [RunRow r]
  | InsertTaskLease r _ _ => fun _ => [RunRow r]
  | InsertUser u => fun _ => [UserRow (user_ID u)]
  | SelectUserDisabled u => fun _ => [UserRow u]
  | InsertProject p => fun _ => [ProjectRow (proj_ID p)]
  | UpdateProject p => fun _ => [ProjectRow (proj_ID p)]
  | SelectMembershipForUpdate p u => fun row => match row with Some _ => [MembershipRow p u] | None => [] end
  | UpsertMembership m => fun _ => [MembershipRow (mem_ProjectID m) (mem_UserID m)]
  | InsertWorkflowOwnership o => fun _ => [OwnershipRow (own_WorkflowID o)]
  | SelectWorkflowOwnership w => fun _ => [OwnershipRow w]
  | InsertAuditEvent e _ => fun _ => [EventRow e]
  | _ => fun _ => []
  end.

(** The statements of the transactions; the others are those of single reads. *)
Definition in_transaction {A : Type} (q : query A) : bool :=
  match q with
  | SelectWorkflowRun _ | SelectTaskRuns _ | SelectWorkers _ | SelectTaskLeases _ | SelectUser _ | SelectProject _
  | SelectMembership _ _ | SelectMemberships _ | SelectAuditEvents _ _ => false
  | _ => true
  end.

Definition if_some {A : Type} (l : lock) : option A -> option lock := fun a => match a with Some _ => Some l | None => None end.
Definition if_written (l : lock) : Z -> option lock := fun n => if n =? 0 then None else Some l.

(** What a statement with the answer [a] has changed. *)
Definition changed {A : Type} (q : query A) : A -> option lock :=
  match q in query A return A -> option lock with
  | InsertWorkflowDefinition w => if_written (DefinitionRow w)
  | InsertTaskDefinition w _ _ => fun _ => Some (DefinitionRow w)
  | InsertTaskDependency w _ _ _ => fun _ => Some (DefinitionRow w)
  | InsertWorkflowRun r _ => fun _ => Some (RunRow r)
  | UpdateWorkflowRun _ _ r _ _ => if_some (RunRow r)
  | InsertTaskRun r _ _ => fun _ => Some (RunRow r)
  | UpdateTaskRun _ r _ _ => fun _ => Some (RunRow r)
  | DeleteTaskLeases r => fun _ => Some (RunRow r)
  | DeleteWorkers r => fun _ => Some (RunRow r)
  | InsertWorker r _ _ => fun _ => Some (RunRow r)
  | InsertTaskLease r _ _ => fun _ => Some (RunRow r)
  | InsertUser u => if_written (UserRow (user_ID u))
  | InsertProject p => fun _ => Some (ProjectRow (proj_ID p))
  | UpdateProject p => if_written (ProjectRow (proj_ID p))
  | UpsertMembership m => if_written (MembershipRow (mem_ProjectID m) (mem_UserID m))
  | InsertWorkflowOwnership o => if_written (OwnershipRow (own_WorkflowID o))
  | InsertAuditEvent e _ => fun _ => Some (EventRow e)
  | _ => fun _ => None
  end.

(** The lock that a statement has to wait for: the key of a new row, or the row that
    an update or a [FOR UPDATE] has found. The other writes are to the rows of a run
    or a definition whose lock the transaction has. *)
Definition acquired {A : Type} (q : query A) : A -> option lock :=
  match q in query A return A -> option lock with
  | InsertWorkflowDefinition w => if_written (DefinitionRow w)
  | InsertWorkflowRun r _ => fun _ => Some (RunRow r)
  | UpdateWorkflowRun _ _ r _ _ => if_some (RunRow r)
  | InsertUser u => if_written (UserRow (user_ID u))
  | InsertProject p => fun _ => Some (ProjectRow (proj_ID p))
  | UpdateProject p => if_written (ProjectRow (proj_ID p))
  | SelectMembershipForUpdate p u => if_some (MembershipRow p u)
  | UpsertMembership m => if_written (MembershipRow (mem_ProjectID m) (mem_UserID m))
  | InsertWorkflowOwnership o => if_written (OwnershipRow (own_WorkflowID o))
  | InsertAuditEvent e _ => fun _ => Some (EventRow e)
  | _ => fun _ => None
  end.

Section Statements.
Context `{Unicode} `{PostgresLaws}.

Lemma agree_run r D D' :
  agree (RunRow r) D D' ->
  db_workflow_runs D' !! r = db_workflow_runs D !! r /\ rows_of (db_task_runs D') r = rows_of (db_task_runs D) r /\
  rows_of (db_workers D') r = rows_of (db_workers D) r /\ rows_of (db_task_leases D') r = rows_of (db_task_leases D) r.
Proof. cbn. unfold part. intros Ha. by injection Ha. Qed.

(** Two changes of the rows of [l0], to like databases. *)
Lemma agree_after l0 D D' D1 D1' :
  (forall l, l <> l0 -> agree l D D1) -> (forall l, l <> l0 -> agree l D' D1') -> agree l0 D1 D1' ->
  forall l, agree l D D' -> agree l D1 D1'.
Proof.
  intros Hc Hc' Hl0 l Ha. destruct (decide (l = l0)) as [->|Hne]; [done|].
  transitivity D; [symmetry; auto|]. transitivity D'; auto.
Qed.

Lemma only_run_agree r D D1 l : only_run r D D1 -> l <> RunRow r -> agree l D D1.
Proof.
  intros Ho Hne. pose proof (or_security _ _ _ Ho) as Hs. destruct D, D1. unfold with_security in Hs. cbn in Hs.
  injection Hs as -> -> -> -> ->. destruct l; cbn in *; try done.
  - apply (or_parts _ _ _ Ho). congruence.
  - by eapply only_run_same.
Qed.

Lemma only_definition_agree w D D1 l : only_definition w D D1 -> l <> DefinitionRow w -> agree l D D1.
Proof.
  intros Ho Hne. pose proof (od_rest _ _ _ Ho) as Hr.
  destruct l; cbn; try (by rewrite <- Hr). apply (od_others _ _ _ Ho). congruence.
Qed.

(** Two changes of the run [r], of the definition [w]. *)
Lemma agree_after_run r D D' D1 D1' :
  only_run r D D1 -> only_run r D' D1' -> part D1' r = part D1 r -> forall l, agree l D D' -> agree l D1 D1'.
Proof. intros Ho Ho' Hp. apply (agree_after (RunRow r)); [intros; by eapply only_run_agree..|done]. Qed.

Lemma agree_after_definition w D D' D1 D1' :
  only_definition w D D1 -> only_definition w D' D1' -> same_definition w D1 D1' ->
  forall l, agree l D D' -> agree l D1 D1'.
Proof. intros Ho Ho' Hs. apply (agree_after (DefinitionRow w)); [intros; by eapply only_definition_agree..|done]. Qed.

(** A change of one row of the other tables. *)
Lemma agree_users D u x l : l <> UserRow u -> agree l D (with_users D (<[u := x]> (db_users D))).
Proof. intros Hl. destruct l; cbn; try done. rewrite lookup_insert_ne by congruence. done. Qed.
Lemma agree_projects D p x l : l <> ProjectRow p -> agree l D (with_projects D (<[p := x]> (db_projects D))).
Proof. intros Hl. destruct l; cbn; try done. rewrite lookup_insert_ne by congruence. done. Qed.
Lemma agree_member D p u x l : l <> MembershipRow p u -> agree l D (with_member D p u x).
Proof.
  intros Hl. destruct l as [| | | |p' u'| |]; cbn; try done. rewrite rows_of_put. destruct (decide (p = p')) as [<-|]; [|done].
  rewrite lookup_insert_ne by congruence. done.
Qed.
Lemma agree_ownership D o l : l <> OwnershipRow (own_WorkflowID o) -> agree l D (with_ownership D o).
Proof. intros Hl. destruct l; cbn; try done. rewrite lookup_insert_ne by congruence. done. Qed.
Lemma agree_event D id row l : l <> EventRow id -> agree l D (with_event D id row).
Proof. intros Hl. destruct l; cbn; try done. rewrite lookup_insert_ne by congruence. done. Qed.

Lemma changed_only {A : Type} (q : query A) D D1 a l :
  execute q D = Ok (D1, a) -> changed q a <> Some l -> agree l D D1.
Proof.
  intros He Hl.
  destruct q; cbn [changed] in Hl.
  all: try (stmt_ok He; first [reflexivity | cbn in Hl; first [apply agree_users|apply agree_projects|apply agree_member|
    apply agree_ownership|apply agree_event]; cbn; congruence]).
  - cbn [execute] in He. apply checked_ok in He as [Heq _]. case_bool_decide; injection Heq as -> ->; [done|].
    cbn in Hl. apply (only_definition_agree workflow_id); [|congruence]. split; [done|]. intros w' Hw. split; cbn; [set_solver|done|done].
  - apply InsertTaskDefinition_ok in He as (Ho & _). apply (only_definition_agree _ _ _ _ Ho). congruence.
  - apply InsertTaskDependency_ok in He as (Ho & _). apply (only_definition_agree _ _ _ _ Ho). congruence.
  - apply InsertWorkflowRun_ok in He as (Ho & _). apply (only_run_agree _ _ _ _ Ho). congruence.
  - apply UpdateWorkflowRun_ok in He as [(row & _ & _ & _ & -> & Ho & _)|(_ & -> & _)]; [|done].
    apply (only_run_agree _ _ _ _ Ho). cbn in Hl. congruence.
  - apply InsertTaskRun_ok in He as (Ho & _). apply (only_run_agree _ _ _ _ Ho). congruence.
  - cbn [execute] in He. unfold update_task_run in He. apply guard_err_ok in He as [_ [_ He]%guard_err_ok].
    destruct (_ !! _); [|by injection He as ->]. destruct (negb _); [by injection He as ->|].
    apply checked_ok in He as [Heq _]. injection Heq as -> _. apply (only_run_agree run_id); [only_run_tac|congruence].
  - apply DeleteTaskLeases_ok in He as (Ho & _). apply (only_run_agree _ _ _ _ Ho). congruence.
  - apply DeleteWorkers_ok in He as (Ho & _). apply (only_run_agree _ _ _ _ Ho). congruence.
  - apply InsertWorker_ok in He as (Ho & _). apply (only_run_agree _ _ _ _ Ho). congruence.
  - apply InsertTaskLease_ok in He as (Ho & _). apply (only_run_agree _ _ _ _ Ho). congruence.
  - stmt_ok He; [done|]. cbn in Hl. apply (agree_ownership _ (stored_ownership ownership)). cbn. congruence.
Qed.

(** *** Rows that are there *)

Lemma present_kept {A : Type} (q : query A) D D1 a : execute q D = Ok (D1, a) -> grows D D1.
Proof.
  intros He l Hp. destruct (decide (changed q a = Some l)) as [Hc|Hc]; [|by eapply agree_present; [eapply changed_only|]].
  destruct q; cbn [changed] in Hc; unfold if_written, if_some in Hc; repeat case_match; simplify_eq; cbn in Hp |- *; try done;
    stmt_ok He; cbn; try done; try set_solver; rewrite ?rows_of_put_eq, ?lookup_insert_eq; done.
Qed.

Lemma acquired_present {A : Type} (q : query A) D D1 a l :
  execute q D = Ok (D1, a) -> acquired q a = Some l ->
  match l with RunRow _ | EventRow _ => True | _ => present l D1 end.
Proof.
  intros He Hc. destruct q; cbn [acquired] in Hc; unfold if_written, if_some in Hc; repeat case_match; simplify_eq; try done;
    stmt_ok He; cbn; rewrite ?rows_of_put_eq, ?lookup_insert_eq; try done; try set_solver; by eapply fmap_is_Some; eexists.
Qed.

Lemma present_new {A : Type} (q : query A) D D1 a l :
  execute q D = Ok (D1, a) -> present l D1 -> present l D \/ acquired q a = Some l.
Proof.
  intros He Hp. destruct (decide (changed q a = Some l)) as [Hc|Hc].
  - destruct q; cbn [changed] in Hc; unfold if_written, if_some in Hc; repeat case_match; simplify_eq; cbn in Hp |- *; try done;
      try (right; unfold if_written; by repeat case_match; simplify_eq); left; stmt_ok He; done.
  - left. eapply agree_present; [symmetry; by eapply changed_only|done].
Qed.

(** The same statement with the same answer. *)
Lemma grows_after {A : Type} (q : query A) D D' D1 D1' a :
  execute q D = Ok (D1, a) -> execute q D' = Ok (D1', a) -> grows D D' -> grows D1 D1'.
Proof.
  intros He He' Hg l Hp. destruct (present_new q _ _ _ l He Hp) as [Hl|Hl]; [by eapply present_kept, Hg|].
  apply (acquired_present q _ _ _ l He') in Hl. by destruct l.
Qed.

(** A [SELECT] of rows that are alike. *)
Lemma select_agree {A : Type} (q : query A) texts (answer : database -> A) D D' D1 a :
  (forall db, execute q db = select texts db (answer db)) -> answer D' = answer D -> execute q D = Ok (D1, a) ->
  exists D1', execute q D' = Ok (D1', a) /\ forall l, agree l D D' -> agree l D1 D1'.
Proof.
  intros Hq Ha. rewrite !Hq. intros [Heq Hs]%checked_ok. injection Heq as -> ->. exists D'. split; [|done].
  rewrite <- Ha. by apply checked_ok.
Qed.

(** A statement that changes the run [r], on like databases. *)
Lemma write_agree {A : Type} (q : query A) r (f : run_part -> run_part) D D' D1 a :
  (forall db db', execute q db = Ok (db', a) -> only_run r db db' /\ part db' r = f (part db r)) ->
  agree (RunRow r) D D' -> execute q D = Ok (D1, a) -> (exists D1', execute q D' = Ok (D1', a)) ->
  exists D1', execute q D' = Ok (D1', a) /\ forall l, agree l D D' -> agree l D1 D1'.
Proof.
  intros Hq Ha He [D1' He']. exists D1'. split; [done|].
  destruct (Hq _ _ He) as [Ho Hp], (Hq _ _ He') as [Ho' Hp']. cbn in Ha.
  apply (agree_after_run r); [done|done|]. by rewrite Hp, Hp', Ha.
Qed.

Lemma InsertWorkflowRun_agree r row D D' D1 a :
  agree (RunRow r) D D' -> agree (DefinitionRow (wrr_workflow_id row)) D D' ->
  execute (InsertWorkflowRun r row) D = Ok (D1, a) ->
  exists D1', execute (InsertWorkflowRun r row) D' = Ok (D1', a) /\ forall l, agree l D D' -> agree l D1 D1'.
Proof.
  intros Ha [Hd _ _] He. pose proof (agree_run _ _ _ Ha) as (P1 & _). destruct a.
  apply (write_agree _ r (fun p => mkRunPart (Some (stored_run row)) (rp_tasks p) (rp_workers p) (rp_leases p))); [|done|done|].
  { by intros db db' (? & _ & _ & _ & ?)%InsertWorkflowRun_ok. }
  cbn [execute] in *. unfold insert_workflow_run in *. apply checked_ok in He as [_ Hc]. eexists. apply checked_ok.
  split; [done|]. cbn [stored_run wrr_workflow_id] in *. unfold taken in *. by rewrite P1, (bool_decide_ext _ _ Hd).
Qed.

Lemma UpdateWorkflowRun_agree status updated r w version D D' D1 a :
  agree (RunRow r) D D' -> execute (UpdateWorkflowRun status updated r w version) D = Ok (D1, a) ->
  exists D1', execute (UpdateWorkflowRun status updated r w version) D' = Ok (D1', a) /\
    forall l, agree l D D' -> agree l D1 D1'.
Proof.
  intros Ha He. pose proof (agree_run _ _ _ Ha) as (P1 & _).
  assert (He' : exists D1', execute (UpdateWorkflowRun status updated r w version) D' = Ok (D1', a)).
  { cbn [execute] in *. unfold update_workflow_run in *. apply guard_err_ok in He as [Hc He].
    rewrite Hc, P1. destruct (db_workflow_runs D !! r) as [row|]; [|injection He as _ <-; by eexists].
    destruct (negb (String.eqb _ _ && _)); [injection He as _ <-; by eexists|]. apply checked_ok in He as [Heq Hk]. injection Heq as _ ->.
    eexists. by apply checked_ok. }
  destruct He' as [D1' He']. exists D1'. split; [done|].
  apply UpdateWorkflowRun_ok in He as [(row & Hrow & _ & _ & -> & Ho & _ & Hp)|(-> & -> & _)].
  - apply UpdateWorkflowRun_ok in He' as [(row' & Hrow' & _ & _ & _ & Ho' & _ & Hp')|(? & _)]; [|done].
    apply (agree_after_run r); [done|done|]. rewrite Hp, Hp', Ha. rewrite P1, Hrow in Hrow'. by injection Hrow' as ->.
  - by apply UpdateWorkflowRun_ok in He' as [(? & _ & _ & _ & ? & _)|(_ & -> & _)].
Qed.

Lemma InsertTaskRun_agree r t row D D' D1 a :
  agree (RunRow r) D D' -> agree (DefinitionRow (trr_workflow_id row)) D D' ->
  execute (InsertTaskRun r t row) D = Ok (D1, a) ->
  exists D1', execute (InsertTaskRun r t row) D' = Ok (D1', a) /\ forall l, agree l D D' -> agree l D1 D1'.
Proof.
  intros Ha [_ Hd _] He. pose proof (agree_run _ _ _ Ha) as (P1 & P2 & _).
  apply (write_agree _ r (fun p => mkRunPart (rp_run p) (<[t := stored_task row]> (rp_tasks p)) (rp_workers p) (rp_leases p)));
    [|done|done|].
  { by intros db db' (? & _ & ?)%InsertTaskRun_ok. }
  cbn [execute] in *. unfold insert_task_run in *. apply checked_ok in He as [_ Hc]. destruct a. eexists. apply checked_ok.
  split; [done|]. cbn [trr_workflow_id] in *. by rewrite P1, P2, Hd.
Qed.

Lemma UpdateTaskRun_agree columns r t trid D D' D1 a :
  agree (RunRow r) D D' -> execute (UpdateTaskRun columns r t trid) D = Ok (D1, a) ->
  exists D1', execute (UpdateTaskRun columns r t trid) D' = Ok (D1', a) /\ forall l, agree l D D' -> agree l D1 D1'.
Proof.
  intros Ha He. pose proof (agree_run _ _ _ Ha) as (_ & P2 & _). cbn [execute] in *. unfold update_task_run in *.
  apply guard_err_ok in He as [C1 [C2 He]%guard_err_ok]. rewrite C1, C2, P2.
  destruct (rows_of (db_task_runs D) r !! t) as [row|] eqn:Er; [|injection He as -> <-; by exists D'].
  destruct (negb (String.eqb _ _)); [injection He as -> <-; by exists D'|]. apply checked_ok in He as [Heq Hk]. injection Heq as -> ->.
  eexists. split; [by apply checked_ok|]. apply (agree_after_run r); [only_run_tac|only_run_tac|].
  unfold agree in Ha. revert Ha. unfold part. cbn. rewrite !rows_of_put_eq. intros Ha. injection Ha as -> -> -> ->. done.
Qed.

Lemma DeleteTaskLeases_agree r D D' D1 a :
  agree (RunRow r) D D' -> execute (DeleteTaskLeases r) D = Ok (D1, a) ->
  exists D1', execute (DeleteTaskLeases r) D' = Ok (D1', a) /\ forall l, agree l D D' -> agree l D1 D1'.
Proof.
  intros Ha He. apply (write_agree _ r (fun p => mkRunPart (rp_run p) (rp_tasks p) (rp_workers p) ∅)); [|done|done|].
  { intros db db'. apply DeleteTaskLeases_ok. }
  cbn [execute] in *. apply checked_ok in He as [_ Hc]. destruct a. eexists. by apply checked_ok.
Qed.

Lemma DeleteWorkers_agree r D D' D1 a :
  agree (RunRow r) D D' -> execute (DeleteWorkers r) D = Ok (D1, a) ->
  exists D1', execute (DeleteWorkers r) D' = Ok (D1', a) /\ forall l, agree l D D' -> agree l D1 D1'.
Proof.
  intros Ha He. apply (write_agree _ r (fun p => mkRunPart (rp_run p) (rp_tasks p) ∅ ∅)); [|done|done|].
  { intros db db'. apply DeleteWorkers_ok. }
  cbn [execute] in *. apply checked_ok in He as [_ Hc]. destruct a. eexists. by apply checked_ok.
Qed.

Lemma InsertWorker_agree r w heartbeat D D' D1 a :
  agree (RunRow r) D D' -> execute (InsertWorker r w heartbeat) D = Ok (D1, a) ->
  exists D1', execute (InsertWorker r w heartbeat) D' = Ok (D1', a) /\ forall l, agree l D D' -> agree l D1 D1'.
Proof.
  intros Ha He. pose proof (agree_run _ _ _ Ha) as (P1 & _ & P3 & _).
  apply (write_agree _ r (fun p => mkRunPart (rp_run p) (rp_tasks p) (<[w := pg_time heartbeat]> (rp_workers p)) (rp_leases p)));
    [|done|done|].
  { by intros db db' (? & _ & ?)%InsertWorker_ok. }
  cbn [execute] in *. unfold insert_worker, taken in *. apply checked_ok in He as [_ Hc]. destruct a. eexists.
  apply checked_ok. split; [done|]. by rewrite P1, P3.
Qed.

Lemma InsertTaskLease_agree r t row D D' D1 a :
  agree (RunRow r) D D' -> execute (InsertTaskLease r t row) D = Ok (D1, a) ->
  exists D1', execute (InsertTaskLease r t row) D' = Ok (D1', a) /\ forall l, agree l D D' -> agree l D1 D1'.
Proof.
  intros Ha He. pose proof (agree_run _ _ _ Ha) as (_ & P2 & P3 & P4).
  apply (write_agree _ r (fun p => mkRunPart (rp_run p) (rp_tasks p) (rp_workers p) (<[t := stored_lease row]> (rp_leases p))));
    [|done|done|].
  { by intros db db' (? & _ & ?)%InsertTaskLease_ok. }
  cbn [execute] in *. unfold insert_task_lease in *. apply checked_ok in He as [_ Hc]. destruct a. eexists.
  apply checked_ok. split; [done|]. by rewrite P2, P3, P4.
Qed.

Lemma InsertWorkflowDefinition_agree w D D' D1 a :
  agree (DefinitionRow w) D D' -> execute (InsertWorkflowDefinition w) D = Ok (D1, a) ->
  exists D1', execute (InsertWorkflowDefinition w) D' = Ok (D1', a) /\ forall l, agree l D D' -> agree l D1 D1'.
Proof.
  intros [Hd Ht Hp] He. cbn [execute] in *. apply checked_ok in He as [Heq Hc].
  case_bool_decide as Hin; injection Heq as -> ->.
  - exists D'. split; [|done]. rewrite bool_decide_eq_true_2 by (by apply Hd). by apply checked_ok.
  - eexists. rewrite bool_decide_eq_false_2 by (by rewrite Hd). split; [by apply checked_ok|].
    apply (agree_after_definition w); [split; [done|]; intros w' Hw; split; cbn; [set_solver|done|done]..|].
    split; cbn; [set_solver|done|done].
Qed.

Lemma InsertTaskDefinition_agree w t row D D' D1 a :
  agree (DefinitionRow w) D D' -> execute (InsertTaskDefinition w t row) D = Ok (D1, a) ->
  exists D1', execute (InsertTaskDefinition w t row) D' = Ok (D1', a) /\ forall l, agree l D D' -> agree l D1 D1'.
Proof.
  intros [Hd Ht Hp] He. pose proof (InsertTaskDefinition_ok _ _ _ _ _ _ He) as [Ho _].
  assert (He' : execute (InsertTaskDefinition w t row) D' = Ok (with_definitions D' (db_workflow_definitions D')
    (put_row (db_task_definitions D') w t row) (db_task_dependencies D'), a)).
  { cbn [execute] in *. unfold insert_task_definition in *. apply checked_ok in He as [Heq Hc]. injection Heq as _. destruct a.
    apply checked_ok. split; [done|]. by rewrite Ht, (bool_decide_ext _ _ Hd). }
  eexists. split; [exact He'|]. pose proof (InsertTaskDefinition_ok _ _ _ _ _ _ He') as [Ho' _].
  apply (agree_after_definition w); [done|done|]. cbn [execute] in He. unfold insert_task_definition in He.
  apply checked_ok in He as [Heq _]. injection Heq as ->. split; cbn; [done|by rewrite !rows_of_put_eq, Ht|done].
Qed.

Lemma InsertTaskDependency_agree w t d position D D' D1 a :
  agree (DefinitionRow w) D D' -> execute (InsertTaskDependency w t d position) D = Ok (D1, a) ->
  exists D1', execute (InsertTaskDependency w t d position) D' = Ok (D1', a) /\ forall l, agree l D D' -> agree l D1 D1'.
Proof.
  intros [Hd Ht Hp] He. pose proof (InsertTaskDependency_ok _ _ _ _ _ _ _ He) as [Ho _].
  assert (He' : execute (InsertTaskDependency w t d position) D' = Ok (with_definitions D' (db_workflow_definitions D')
    (db_task_definitions D') (put_row (db_task_dependencies D') w (t, d) position), a)).
  { cbn [execute] in *. unfold insert_task_dependency in *. apply checked_ok in He as [Heq Hc]. injection Heq as _. destruct a.
    apply checked_ok. split; [done|]. by rewrite Ht, Hp. }
  eexists. split; [exact He'|]. pose proof (InsertTaskDependency_ok _ _ _ _ _ _ _ He') as [Ho' _].
  apply (agree_after_definition w); [done|done|]. cbn [execute] in He. unfold insert_task_dependency in He.
  apply checked_ok in He as [Heq _]. injection Heq as ->. split; cbn; [done|done|by rewrite !rows_of_put_eq, Hp].
Qed.

(** *** Users, projects, memberships, ownership and events *)

(** Two executions with the same answer, which change no more than the rows of [l0]. *)
Lemma same_change {A : Type} (q : query A) l0 D D' D1 D1' a :
  execute q D = Ok (D1, a) -> execute q D' = Ok (D1', a) -> (forall l, changed q a = Some l -> l = l0) ->
  (changed q a = Some l0 -> agree l0 D1 D1') -> forall l, agree l D D' -> agree l D1 D1'.
Proof.
  intros He He' Hl Hsame l Ha. destruct (decide (changed q a = Some l)) as [Hc|Hc].
  - pose proof (Hl l Hc) as ->. by apply Hsame.
  - transitivity D; [symmetry; by eapply changed_only|]. transitivity D'; [done|by eapply changed_only].
Qed.

(** [q] depends on the rows of [l0], and gives the same answer where they are alike. *)
Definition determined {A : Type} (q : query A) (l0 : lock) : Prop :=
  forall D D' D1 a, agree l0 D D' -> grows D D' -> execute q D = Ok (D1, a) ->
  exists D1', execute q D' = Ok (D1', a) /\ (changed q a = Some l0 -> agree l0 D1 D1').

Lemma InsertUser_determined u : determined (InsertUser u) (UserRow (user_ID u)).
Proof.
  intros D D' D1 a Ha _ He. cbn [execute] in *. unfold insert_user, taken in *. cbn in *. rewrite Ha.
  apply checked_ok in He as [Heq Hc]. case_bool_decide; injection Heq as -> ->; eexists; (split; [by apply checked_ok|]); cbn; [done|].
  intros _. by rewrite !lookup_insert_eq.
Qed.

Lemma InsertProject_determined p : determined (InsertProject p) (ProjectRow (proj_ID p)).
Proof.
  intros D D' D1 a Ha Hg He. cbn [execute] in *. unfold insert_project, taken in *. cbn in *. rewrite Ha.
  apply checked_ok in He as (Heq & C1 & C2 & C3 & C4 & Hu%bool_decide_eq_true). injection Heq as -> ->. eexists. split.
  - apply checked_ok. split_and!; [done..|]. apply bool_decide_eq_true. by apply (Hg (UserRow (proj_CreatedBy p))).
  - intros _. cbn. by rewrite !lookup_insert_eq.
Qed.

Lemma UpdateProject_determined p : determined (UpdateProject p) (ProjectRow (proj_ID p)).
Proof.
  intros D D' D1 a Ha _ He. cbn [execute] in *. unfold update_project in *. cbn in *.
  apply guard_err_ok in He as [Ht He]. rewrite Ht, Ha. cbn [guard_err].
  destruct (db_projects D !! proj_ID p) as [row|]; [|injection He as -> <-; by eexists].
  destruct (negb (String.eqb _ _ && _)); [injection He as -> <-; by eexists|]. apply checked_ok in He as [Heq Hc]. injection Heq as -> ->.
  eexists. split; [by apply checked_ok|]. intros _. cbn. by rewrite !lookup_insert_eq.
Qed.

Lemma member_put D D' p u m : agree (MembershipRow p u) (with_member D p u m) (with_member D' p u m).
Proof. cbn [agree with_member with_security db_project_memberships]. by rewrite !rows_of_put_eq, !lookup_insert_eq. Qed.

Lemma UpsertMembership_determined m :
  determined (UpsertMembership m) (MembershipRow (mem_ProjectID m) (mem_UserID m)).
Proof.
  intros D D' D1 a Ha Hg He. cbn [execute] in *. unfold upsert_membership in *. cbn in *. rewrite Ha.
  destruct (rows_of (db_project_memberships D) _ !! _) as [row|].
  - destruct (_ <? _); apply checked_ok in He as [Heq Hc]; injection Heq as -> ->; eexists; (split; [by apply checked_ok|]); [done|].
    intros _. apply member_put.
  - apply checked_ok in He as (Heq & C1 & C2 & C3 & C4 & [Hp%taken_true Hu%taken_true]%andb_prop).
    injection Heq as -> ->. eexists. split.
    + apply checked_ok. split_and!; [done..|]. apply andb_true_intro. split; apply taken_true.
      * by apply (Hg (ProjectRow (mem_ProjectID m))).
      * by apply (Hg (UserRow (mem_UserID m))).
    + intros _. apply member_put.
Qed.

Lemma InsertWorkflowOwnership_determined o : determined (InsertWorkflowOwnership o) (OwnershipRow (own_WorkflowID o)).
Proof.
  intros D D' D1 a Ha Hg He. cbn [execute] in *. unfold insert_workflow_ownership in *. cbn in *.
  assert (Ht : taken (db_workflow_ownership D') (own_WorkflowID o) = taken (db_workflow_ownership D) (own_WorkflowID o))
    by (unfold taken; by rewrite Ha).
  rewrite Ht. destruct (taken (db_workflow_ownership D) _).
  - apply checked_ok in He as [Heq Hc]. injection Heq as -> ->. eexists. by split; [apply checked_ok|].
  - apply checked_ok in He as (Heq & C1 & C2 & C3 & C4 & [Hw%bool_decide_eq_true Hu%taken_true]%andb_prop).
    injection Heq as -> ->. eexists. split.
    + apply checked_ok. split_and!; [done..|]. apply andb_true_intro. split.
      * apply bool_decide_eq_true. by apply (Hg (DefinitionRow (own_WorkflowID o))).
      * apply taken_true. by apply (Hg (MembershipRow (own_ProjectID o) (own_OwnerUserID o))).
    + intros _. cbn. by rewrite !lookup_insert_eq.
Qed.

Lemma InsertAuditEvent_determined id row : determined (InsertAuditEvent id row) (EventRow id).
Proof.
  intros D D' D1 a Ha Hg He. cbn [execute] in *. unfold insert_audit_event in *. apply rbind_ok in He as (metadata & Hj & He).
  rewrite Hj. cbn [rbind]. cbn in *.
  apply checked_ok in He as (Heq & C1 & C2 & C3 & C4 & [Hp%taken_true Hu%taken_true]%andb_prop).
  injection Heq as -> ->. eexists. split.
  - apply checked_ok. split_and!; [done..| |].
    + unfold taken in *. by rewrite Ha.
    + apply andb_true_intro. split; apply taken_true.
      * by apply (Hg (ProjectRow (aer_project_id row))).
      * by apply (Hg (UserRow (aer_actor_user_id row))).
  - intros _. cbn. by rewrite !lookup_insert_eq.
Qed.

Lemma determined_agree {A : Type} (q : query A) l0 D D' D1 a :
  determined q l0 -> (forall l, changed q a = Some l -> l = l0) -> agree l0 D D' -> grows D D' -> execute q D = Ok (D1, a) ->
  exists D1', execute q D' = Ok (D1', a) /\ forall l, agree l D D' -> agree l D1 D1'.
Proof.
  intros Hd Hl Ha Hg He. destruct (Hd D D' D1 a Ha Hg He) as (D1' & He' & Hsame). exists D1'. split; [done|].
  by apply (same_change q l0 D D' D1 D1' a).
Qed.

(** A [SELECT ... FOR UPDATE] that finds no row has locked nothing: it says nothing of
    the row that another transaction may insert. *)
Definition unlocked {A : Type} (q : query A) : A -> bool :=
  match q in query A return A -> bool with
  | SelectMembershipForUpdate _ _ => fun row => match row with Some _ => false | None => true end
  | _ => fun _ => false
  end.

(** A statement gives the same answer, and leaves like databases, on databases that
    are alike in what it depends on. *)
Lemma execute_agree {A : Type} (q : query A) D D' D1 a :
  in_transaction q = true -> unlocked q a = false -> (forall l, l ∈ touched q a -> agree l D D') -> grows D D' ->
  execute q D = Ok (D1, a) ->
  exists D1', execute q D' = Ok (D1', a) /\ forall l, agree l D D' -> agree l D1 D1'.
Proof.
  intros Hq Hn Ht Hg. destruct q; cbn [touched] in Ht; try done.
  - apply InsertWorkflowDefinition_agree, Ht; set_solver.
  - apply InsertTaskDefinition_agree, Ht; set_solver.
  - apply InsertTaskDependency_agree, Ht; set_solver.
  - destruct (Ht (DefinitionRow workflow_id)) as [Hd _ _]; [set_solver|].
    eapply (select_agree _ [workflow_id]); [done|]. cbn beta. by rewrite (bool_decide_ext _ _ Hd).
  - destruct (Ht (DefinitionRow workflow_id)) as [_ Hd _]; [set_solver|].
    eapply (select_agree _ [workflow_id]); [done|]. cbn beta. by rewrite Hd.
  - destruct (Ht (DefinitionRow workflow_id)) as [_ _ Hd]; [set_solver|].
    eapply (select_agree _ [workflow_id]); [done|]. unfold select_dependencies. by rewrite Hd.
  - apply InsertWorkflowRun_agree; apply Ht; set_solver.
  - apply UpdateWorkflowRun_agree, Ht; set_solver.
  - destruct (agree_run run_id D D') as (P1 & _); [apply Ht; set_solver|].
    eapply (select_agree _ [run_id]); [done|]. cbn beta. by rewrite P1.
  - apply InsertTaskRun_agree; apply Ht; set_solver.
  - apply UpdateTaskRun_agree, Ht; set_solver.
  - apply DeleteTaskLeases_agree, Ht; set_solver.
  - apply DeleteWorkers_agree, Ht; set_solver.
  - apply InsertWorker_agree, Ht; set_solver.
  - apply InsertTaskLease_agree, Ht; set_solver.
  - apply (determined_agree _ (UserRow (user_ID user))); [apply InsertUser_determined| |apply Ht; set_solver|done].
    cbn. unfold if_written. by case_match; intros l [= <-].
  - eapply (select_agree _ [user_id]); [done|]. cbn beta. by rewrite (Ht (UserRow user_id)) by set_solver.
  - apply (determined_agree _ (ProjectRow (proj_ID project))); [apply InsertProject_determined| |apply Ht; set_solver|done].
    by intros l [= <-].
  - apply (determined_agree _ (ProjectRow (proj_ID project))); [apply UpdateProject_determined| |apply Ht; set_solver|done].
    cbn. unfold if_written. by case_match; intros l [= <-].
  - destruct a as [row|]; [|done]. eapply (select_agree _ [project_id; user_id]); [done|]. cbn beta.
    by rewrite (Ht (MembershipRow project_id user_id)) by set_solver.
  - apply (determined_agree _ (MembershipRow (mem_ProjectID membership) (mem_UserID membership)));
      [apply UpsertMembership_determined| |apply Ht; set_solver|done].
    cbn. unfold if_written. by case_match; intros l [= <-].
  - apply (determined_agree _ (OwnershipRow (own_WorkflowID ownership))); [apply InsertWorkflowOwnership_determined| |apply Ht; set_solver|done].
    cbn. unfold if_written. by case_match; intros l [= <-].
  - eapply (select_agree _ [workflow_id]); [done|]. cbn beta. by rewrite (Ht (OwnershipRow workflow_id)) by set_solver.
  - apply (determined_agree _ (EventRow event_id)); [apply InsertAuditEvent_determined| |apply Ht; set_solver|done].
    by intros l [= <-].
Qed.
End Statements.
