(* ===== verification/PostgresSerial.v ===== *)
(** * Serializability

    The server with its open transactions, and the proof that every interleaving is
    equivalent to the committed transactions in the order of their commits. A
    transaction depends on a row only once it has its lock, or once the row is
    committed and nothing changes it any more, or as far as the row exists. The
    exception is a membership that was not there to be locked. *)
From S2P Require Import Prelude Workflow Heap Graph GraphBuild GraphOrder Errors Run Ids Snapshot SnapshotValid RunStep RunInv RunDurable Security Sql Tx FileStore FileStoreOps FileStoreInv FileStoreProps Postgres SqlFacts PostgresRuns PostgresLoad PostgresProps PostgresWorkflows PostgresSecurity PostgresRefines PostgresConcurrent.

(** ** The server *)

Inductive store_call :=
| CallSaveWorkflow (definition : WorkflowDefinition)
| CallCreateRun (snapshot : WorkflowRunSnapshot)
| CallSaveRun (snapshot : WorkflowRunSnapshot)
| CallCreateProject (user : User) (project : Project) (membership : Membership) (event : AuditEvent)
| CallSaveProject (project : Project) (event : AuditEvent)
| CallPutMembership (user : User) (membership : Membership) (event : AuditEvent)
| CallSaveWorkflowForProject (same_location : bool) (definition : WorkflowDefinition) (ownership : WorkflowOwnership).

(** A statement that has been executed, with its answer. *)
Inductive entry :=
| Entry {A : Type} (q : query A) (a : A).

(** An open transaction: what it has executed and what it still has to do. *)
Record session := mkSession {
  se_call : store_call;
  se_log : list entry;
  se_rest : tx (option WorkflowRunSnapshot)
}.

Record server := mkServer {
  srv_db : database;
  srv_sessions : gmap nat session
}.

Definition entry_lock (e : entry) : option lock := let '(Entry q a) := e in acquired q a.
Definition locks_of (log : list entry) : list lock := omap entry_lock log.

Section Server.
Context `{Unicode} `{Postgres} `{MetadataCodec}.

Definition program (c : store_call) : tx (option WorkflowRunSnapshot) :=
  match c with
  | CallSaveWorkflow d => sql _ <- savePostgresWorkflowTx d ;; tx_ret None
  | CallCreateRun s => sql stored <- createRunTx s ;; tx_ret (Some stored)
  | CallSaveRun s => sql stored <- saveRunTx s ;; tx_ret (Some stored)
  | CallCreateProject u p m e => sql _ <- createProjectTx u p m e ;; tx_ret None
  | CallSaveProject p e => sql _ <- saveProjectTx p e ;; tx_ret None
  | CallPutMembership u m e => sql _ <- putMembershipTx u m e ;; tx_ret None
  | CallSaveWorkflowForProject same d o => sql _ <- saveOwnedWorkflowTx same d o ;; tx_ret None
  end.

(** The call of a method with a live context, and what it checks before it begins its
    transaction. *)
Definition op_of (c : store_call) : store_op :=
  match c with
  | CallSaveWorkflow d => OpSaveWorkflow CtxLive CtxLive d
  | CallCreateRun s => OpCreateRun CtxLive CtxLive s
  | CallSaveRun s => OpSaveRun CtxLive CtxLive s
  | CallCreateProject u p m e => OpCreateProject CtxLive u p m e
  | CallSaveProject p e => OpSaveProject CtxLive p e
  | CallPutMembership u m e => OpPutMembership CtxLive u m e
  | CallSaveWorkflowForProject _ d o => OpSaveWorkflowForProject CtxLive d o
  end.

Definition call_checked (c : store_call) : bool :=
  match c with
  | CallSaveWorkflow d => is_ok (Validate d)
  | CallCreateRun s => is_ok (validateSnapshot s) && (snap_Version s =? 0)
  | CallSaveRun s => is_ok (validateSnapshot s) && negb (snap_Version s =? 0) && (snap_Version s <? max_int64)
  | CallCreateProject u p m e => is_ok (validateProjectCreation CtxLive u p m e)
  | CallSaveProject p e =>
      is_ok (validateProject p) && is_ok (validateAuditEvent e) && String.eqb (ev_ProjectID e) (proj_ID p)
  | CallPutMembership u m e =>
      is_ok (validateUser u) && is_ok (validateMembership m) && is_ok (validateAuditEvent e)
      && String.eqb (mem_UserID m) (user_ID u) && String.eqb (ev_ProjectID e) (mem_ProjectID m)
  | CallSaveWorkflowForProject _ d o =>
      is_ok (Validate d) && is_ok (validateOwnership o) && String.eqb (own_WorkflowID o) (wd_ID d)
  end.

Definition entry_apply (db : database) (e : entry) : database :=
  let '(Entry q a) := e in match execute q db with Ok (db', _) => db' | Err _ => db end.

(** What a transaction sees: what is committed, with its own writes. *)
Definition view (log : list entry) (db : database) : database := foldl entry_apply db log.

(** One step of the server, with the call that it commits. A statement that needs a
    lock waits until no other transaction has it; a transaction may end at any moment
    without a commit, because a statement failed or its connection was lost. *)
Inductive server_step : server -> option (store_call * option WorkflowRunSnapshot) -> server -> Prop :=
| step_begin db sessions i c :
    sessions !! i = None -> call_checked c = true ->
    server_step (mkServer db sessions) None (mkServer db (<[i := mkSession c [] (program c)]> sessions))
| step_statement db sessions i s {A : Type} (q : query A) k db' a :
    sessions !! i = Some s -> se_rest s = Call q k -> execute q (view (se_log s) db) = Ok (db', a) ->
    (forall l j s', acquired q a = Some l -> sessions !! j = Some s' -> j <> i -> l ∉ locks_of (se_log s')) ->
    server_step (mkServer db sessions) None
      (mkServer db (<[i := mkSession (se_call s) (se_log s ++ [Entry q a]) (k (Ok a))]> sessions))
| step_commit db sessions i s a :
    sessions !! i = Some s -> se_rest s = Done (Ok a) ->
    server_step (mkServer db sessions) (Some (se_call s, a)) (mkServer (view (se_log s) db) (delete i sessions))
| step_end db sessions i :
    server_step (mkServer db sessions) None (mkServer db (delete i sessions)).

(** The calls that have committed, in this order. *)
Inductive server_run : server -> list (store_call * option WorkflowRunSnapshot) -> server -> Prop :=
| run_nil srv : server_run srv [] srv
| run_step srv1 srv2 srv3 committed commits :
    server_run srv1 commits srv2 -> server_step srv2 committed srv3 ->
    server_run srv1 (commits ++ option_list committed) srv3.

(** One call after the other. *)
Inductive serial : database -> list (store_call * option WorkflowRunSnapshot) -> database -> Prop :=
| serial_nil db : serial db [] db
| serial_call db1 db2 db3 c a commits :
    serial db1 commits db2 -> evals (program c) db2 db3 a -> serial db1 (commits ++ [(c, a)]) db3.

(** ** Executing a part of a transaction *)

(** A statement with an answer that it can have, where a [FOR UPDATE] that finds
    nothing may have missed a row. *)
Definition runs {A : Type} (q : query A) (db db1 : database) (a : A) : Prop :=
  execute q db = Ok (db1, a) \/ (unlocked q a = true /\ db1 = db).

Inductive partial {A : Type} : tx A -> database -> list entry -> tx A -> database -> Prop :=
| partial_nil t db : partial t db [] t db
| partial_call {B : Type} (q : query B) k db db1 a log t V :
    runs q db db1 a -> partial (k (Ok a)) db1 log t V -> partial (Call q k) db (Entry q a :: log) t V.

Lemma partial_snoc {A B : Type} (t : tx A) db log (q : query B) k V V' a :
  partial t db log (Call q k) V -> runs q V V' a -> partial t db (log ++ [Entry q a]) (k (Ok a)) V'.
Proof.
  remember (Call q k) as rest eqn:Er. induction 1 as [t db|C q' k' db db1 b log t V He Hp IH]; intros Hq; cbn.
  - subst t. econstructor; [exact Hq|constructor].
  - econstructor; [exact He|by apply IH].
Qed.

Lemma runs_apply {A : Type} (q : query A) db db1 a : runs q db db1 a -> entry_apply db (Entry q a) = db1.
Proof.
  intros [He|[Hu ->]]; cbn; [by rewrite He|]. destruct q; try done. destruct (execute _ db) as [[db' b]|] eqn:He; [|done].
  cbn [execute] in He. unfold select in He. apply checked_ok in He as [Heq _]. by injection Heq.
Qed.

Lemma partial_view {A : Type} (t t' : tx A) db log V : partial t db log t' V -> V = view log db.
Proof.
  induction 1 as [t db|C q k db db1 a log t V He Hp IH]; [done|]. unfold view in *. cbn [foldl].
  by rewrite (runs_apply _ _ _ _ He).
Qed.

(** A whole transaction with such answers. *)
Fixpoint weakly {A : Type} (t : tx A) (db V : database) (b : A) : Prop :=
  match t with
  | Done r => V = db /\ r = Ok b
  | Call q k => exists db1 a, runs q db db1 a /\ weakly (k (Ok a)) db1 V b
  end.

Lemma partial_weakly {A : Type} (t : tx A) db log V a : partial t db log (Done (Ok a)) V -> weakly t db V a.
Proof.
  remember (Done (Ok a)) as rest eqn:Er. induction 1 as [t db|C q k db db1 b log t V He Hp IH]; [by subst t|].
  exists db1, b. auto.
Qed.

(** What such answers make of the transaction is what it is without them. *)
Definition exact {A : Type} (t : tx A) : Prop := forall db V b, weakly t db V b -> evals t db V b.

Lemma weakly_bind {A B : Type} (m : tx A) (f : A -> tx B) db V b :
  weakly (tx_bind m f) db V b -> exists db1 a, weakly m db db1 a /\ weakly (f a) db1 V b.
Proof.
  revert db. induction m as [[a|e]|C q k IH]; intros db; cbn.
  - intros Hw. by exists db, a.
  - by intros [_ ?].
  - intros (db1 & c & Hr & Hw). destruct (IH (Ok c) _ Hw) as (db2 & a & Hm & Hf). exists db2, a. split; [|done]. by exists db1, c.
Qed.

Lemma exact_bind {A B : Type} (m : tx A) (f : A -> tx B) : exact m -> (forall a, exact (f a)) -> exact (tx_bind m f).
Proof. intros Hm Hf db V b (db1 & a & Hw1 & Hw2)%weakly_bind. apply evals_bind. exists db1, a. split; [by apply Hm|by apply Hf]. Qed.

Lemma exact_done {A : Type} (r : res go_error A) : exact (Done r).
Proof. intros db V b [-> ->]. done. Qed.

Lemma exact_stmt {A : Type} wrap (q : query A) : (forall a, unlocked q a = false) -> exact (stmt wrap q).
Proof.
  intros Hu db V b (db1 & a & [He|[Hf _]] & Hd); [|by rewrite Hu in Hf]. cbn in Hd. destruct Hd as [-> [= ->]]. by apply evals_stmt.
Qed.

Lemma exact_each {A : Type} (f : Z -> A -> tx unit) i l : (forall j x, exact (f j x)) -> exact (tx_each f i l).
Proof.
  intros Hf. revert i. induction l as [|x l IH]; intros i; cbn; [apply exact_done|]. by apply exact_bind.
Qed.

Lemma exact_map_err {A : Type} f (m : tx A) : exact m -> exact (tx_map_err f m).
Proof.
  intros Hm db V b Hw. apply evals_map_err, Hm. clear Hm. revert db Hw. induction m as [[a|e]|C q k IH]; intros db; cbn; [done|by intros [_ ?]|].
  intros (db1 & a & Hr & Hw). exists db1, a. auto.
Qed.

(** ** What a transaction may depend on *)

(** The answer shows that a row is there that nothing changes any more. *)
Definition reveals {A : Type} (q : query A) : A -> option lock :=
  match q in query A return A -> option lock with
  | InsertWorkflowDefinition w => fun n => if n =? 0 then Some (DefinitionRow w) else None
  | SelectWorkflowDefinition w => if_some (DefinitionRow w)
  | InsertUser u => fun n => if n =? 0 then Some (UserRow (user_ID u)) else None
  | InsertWorkflowOwnership o => fun n => if n =? 0 then Some (OwnershipRow (own_WorkflowID o)) else None
  | _ => fun _ => None
  end.

Record permitted (known locks : list lock) {A : Type} (q : query A) (a : A) : Prop := {
  pe_query : in_transaction q = true;
  pe_touched : forall l, l ∈ touched q a -> l ∈ known \/ l ∈ locks;
  pe_changed : forall l, changed q a = Some l -> l ∈ locks
}.

Lemma permitted_mono known known' locks locks' {A : Type} (q : query A) (a : A) :
  known ⊆ known' -> locks ⊆ locks' -> permitted known locks q a -> permitted known' locks' q a.
Proof.
  intros Hk Hl [P1 P2 P3]. split; [done| |].
  - intros l Ht. destruct (P2 l Ht) as [?|?]; [left|right]; auto.
  - intros l Hc. by apply Hl, P3.
Qed.

(** Every successful result satisfies [D]. *)
Fixpoint leaves {A : Type} (D : A -> Prop) (t : tx A) : Prop :=
  match t with
  | Done (Ok a) => D a
  | Done (Err _) => True
  | Call q k => forall a, leaves D (k (Ok a))
  end.

(** Every statement is permitted when it is executed, with what is known and locked
    by then, or from then on the results satisfy [D]. *)
Fixpoint safe (known locks : list lock) {A : Type} (t : tx A)
    (Q : A -> list lock -> list lock -> Prop) (D : A -> Prop) : Prop :=
  match t with
  | Done (Ok a) => Q a known locks
  | Done (Err _) => True
  | Call q k => forall a, leaves D (k (Ok a)) \/
      (let known' := known ++ option_list (reveals q a) in
       let locks' := locks ++ option_list (acquired q a) in
       permitted known' locks' q a /\ safe known' locks' (k (Ok a)) Q D)
  end.

Lemma leaves_bind {A B : Type} (m : tx A) (f : A -> tx B) D :
  leaves (fun a => leaves D (f a)) m -> leaves D (tx_bind m f).
Proof. induction m as [[a|e]|C q k IH]; cbn; [done|done|]. auto. Qed.

Lemma safe_bind known locks {A B : Type} (m : tx A) (f : A -> tx B) Q D :
  safe known locks m (fun a known' locks' => safe known' locks' (f a) Q D) (fun a => leaves D (f a)) ->
  safe known locks (tx_bind m f) Q D.
Proof.
  revert known locks. induction m as [[a|e]|C q k IH]; intros known locks; cbn; [done|done|].
  intros Hs a. destruct (Hs a) as [?|[? ?]]; [left; by apply leaves_bind|right]. split; [done|]. by apply IH.
Qed.

Lemma safe_weaken known locks {A : Type} (t : tx A) (Q Q' : A -> list lock -> list lock -> Prop) D :
  (forall a known' locks', Q a known' locks' -> Q' a known' locks') -> safe known locks t Q D -> safe known locks t Q' D.
Proof.
  intros HQ. revert known locks. induction t as [[a|e]|C q k IH]; intros known locks; cbn; [apply HQ|done|].
  intros Hs a. destruct (Hs a) as [?|[? ?]]; [by left|right; auto].
Qed.

Lemma safe_map_err known locks {A : Type} f (t : tx A) Q D : safe known locks t Q D -> safe known locks (tx_map_err f t) Q D.
Proof.
  revert known locks. induction t as [[a|e]|C q k IH]; intros known locks; cbn; [done|done|].
  intros Hs a. destruct (Hs a) as [Hd|[? ?]]; [left|right; split; [done|by apply IH]].
  clear -Hd. revert Hd. generalize (k (Ok a)). intros t. induction t as [[b|e]|C' q' k' IH]; cbn; auto.
Qed.

Lemma safe_stmt known locks wrap {A : Type} (q : query A) Q D :
  (forall a, D a \/ (let known' := known ++ option_list (reveals q a) in let locks' := locks ++ option_list (acquired q a) in
     permitted known' locks' q a /\ Q a known' locks')) ->
  safe known locks (stmt wrap q) Q D.
Proof. intros Hs a. destruct (Hs a) as [?|[? ?]]; [by left|by right]. Qed.

(** A statement that reveals and acquires nothing. *)
Lemma safe_plain known locks wrap {A : Type} (q : query A) Q D :
  (forall a, reveals q a = None /\ acquired q a = None /\ permitted known locks q a /\ Q a known locks) ->
  safe known locks (stmt wrap q) Q D.
Proof.
  intros Hs. apply safe_stmt. intros a. right. destruct (Hs a) as (-> & -> & Hp & HQ). cbn. by rewrite !app_nil_r.
Qed.

(** A loop that keeps what is known and locked. *)
Lemma safe_each known locks {A : Type} (f : Z -> A -> tx unit) l i (Q : unit -> list lock -> list lock -> Prop) D :
  (forall j x (D' : unit -> Prop), safe known locks (f j x) (fun _ known' locks' => known' = known /\ locks' = locks) D') ->
  Q tt known locks -> safe known locks (tx_each f i l) Q D.
Proof.
  intros Hf HQ. revert i. induction l as [|x l IH]; intros i; cbn [tx_each]; [done|]. apply safe_bind.
  eapply safe_weaken; [|apply Hf]. by intros [] ? ? [-> ->].
Qed.

(** A statement on rows that are locked or known. *)
Ltac permit := split; [done|cbn; intros l; rewrite ?elem_of_cons, ?elem_of_nil; intros; destruct_or?; subst; auto; set_solver
                      |cbn; unfold if_written; intros l; intros; repeat case_match; simplify_eq; auto; set_solver].

(** *** Loading and saving a definition *)

Lemma safe_load w known locks Q D :
  D None -> (forall d known', DefinitionRow w ∈ known' -> Q d known' locks) -> safe known locks (loadPostgresWorkflowTx w) Q D.
Proof.
  intros HD HQ. unfold loadPostgresWorkflowTx. apply safe_bind, safe_stmt. intros [w'|]; [right|left; done].
  cbn [reveals acquired if_some option_list]. rewrite app_nil_r. set (known' := known ++ [DefinitionRow w]).
  assert (Hw : DefinitionRow w ∈ known') by set_solver. split; [permit|]. cbn beta iota.
  apply safe_bind, safe_plain. intros rows. split_and!; [done|done|permit|].
  apply safe_bind, safe_plain. intros dependencies. split_and!; [done|done|permit|].
  apply safe_bind. destruct (foldM _ _ _) as [tasks|e]; [|done]. cbn. destruct (Validate _); cbn; [by apply HQ|done].
Qed.

Lemma safe_save_workflow d known locks (Q : unit -> list lock -> list lock -> Prop) D :
  (forall known' locks', Q tt known' locks') -> safe known locks (savePostgresWorkflowTx d) Q D.
Proof.
  intros HQ. unfold savePostgresWorkflowTx. apply safe_bind, safe_stmt. intros n. right. cbn [reveals acquired]. unfold if_written.
  destruct (n =? 0) eqn:En; cbn [option_list].
  - split.
    { split; [done|set_solver|]. cbn. unfold if_written. by rewrite En. }
    apply safe_bind, safe_load; [done|]. intros [d'|] known' _; [|done]. by case_bool_decide; [apply HQ|].
  - assert (Hin : DefinitionRow (wd_ID d) ∈ locks ++ [DefinitionRow (wd_ID d)]) by set_solver. split.
    { split; [done|set_solver|]. cbn. unfold if_written. rewrite En. by intros l [= <-]. }
    apply safe_bind, safe_each; [|apply safe_each; [|apply HQ]].
    + intros j task D'. apply safe_plain. intros a. split_and!; [done|done|permit|done|done].
    + intros j task D'. apply safe_each; [|done]. intros j' dependency D''. apply safe_plain. intros a.
      split_and!; [done|done|permit|done|done].
Qed.

(** *** Runs *)

Lemma safe_restore s known locks Q D :
  (forall run known', run_id run = snap_ID s -> wd_ID (run_definition run) = snap_WorkflowID s ->
     run_version run = snap_Version s -> DefinitionRow (snap_WorkflowID s) ∈ known' -> Q (Snapshot run) known' locks) ->
  safe known locks (restorePostgresRunTx s) Q D.
Proof.
  intros HQ. unfold restorePostgresRunTx. apply safe_bind, safe_load; [done|]. intros [d|] known' Hk; [|done].
  apply safe_bind. destruct (restoreWorkflowRun s d) as [run|e] eqn:Er; [|done].
  apply restore_ok in Er as (_ & _ & Hw & Hdef & Hid & Hver & _). cbn. apply HQ; [done| |done|done]. by rewrite Hdef.
Qed.

Lemma safe_children s known locks Q D :
  RunRow (snap_ID s) ∈ locks -> Q tt known locks -> safe known locks (insertPostgresWorkersAndLeases s) Q D.
Proof.
  intros Hr HQ. unfold insertPostgresWorkersAndLeases. apply safe_bind, safe_each; [|apply safe_each; [|done]].
  - intros j x D'. apply safe_plain. intros a. split_and!; [done|done|permit|done|done].
  - intros j x D'. destruct (tr_Lease x); [|done]. apply safe_plain. intros a. split_and!; [done|done|permit|done|done].
Qed.

Lemma safe_create s Q D :
  (forall a known locks, Q a known locks) -> safe [] [] (createRunTx s) Q D.
Proof.
  intros HQ. unfold createRunTx. apply safe_bind, safe_restore. intros run known Hid Hw _ Hk.
  apply safe_bind, safe_stmt. intros a. right. cbn. rewrite Hid, app_nil_r.
  assert (Hin : RunRow (snap_ID s) ∈ [RunRow (snap_ID s)]) by set_solver.
  assert (Hperm : forall (B : Type) (q : query B) (b : B), in_transaction q = true ->
    touched q b = [RunRow (snap_ID s); DefinitionRow (snap_WorkflowID s)] -> changed q b = Some (RunRow (snap_ID s)) ->
    permitted known [RunRow (snap_ID s)] q b).
  { intros B q b Hq Ht Hc. split; [done| |rewrite Hc; by intros l [= <-]]. rewrite Ht. set_solver. }
  split; [apply Hperm; cbn; by rewrite ?Hid, ?Hw|].
  apply safe_bind. unfold writePostgresRunChildren. apply safe_bind, safe_each.
  - intros j x D'. apply safe_plain. intros b. split_and!; [done|done| |done|done]. apply Hperm; cbn; by rewrite ?Hid, ?Hw.
  - rewrite <- Hid. apply (safe_children (snapshot_with_version (Snapshot run) 1)); [cbn; set_solver|]. apply HQ.
Qed.

Lemma safe_save s Q :
  (forall a known locks, Q a known locks) -> safe [] [] (saveRunTx s) Q (fun _ => False).
Proof.
  intros HQ. unfold saveRunTx. apply safe_bind, safe_restore. intros run known Hid Hw _ Hk.
  apply safe_bind, safe_stmt. intros [version|]; [right|left].
  2: { cbn. intros [actual|]; done. }
  cbn [reveals acquired if_some option_list app snap_ID Snapshot]. rewrite Hid, app_nil_r.
  assert (Hin : RunRow (snap_ID s) ∈ [RunRow (snap_ID s)]) by set_solver. split; [permit|].
  apply safe_bind, safe_each.
  - intros j x D'. unfold update_task. apply safe_bind, safe_plain. intros n. split_and!; [done|done| |].
    + cbn [Snapshot snap_ID]. rewrite Hid. permit.
    + by destruct (negb _).
  - apply safe_bind. unfold replacePostgresWorkersAndLeases. cbn [Snapshot snap_ID]. rewrite Hid.
    apply safe_bind, safe_plain. intros u. split_and!; [done|done|permit|].
    apply safe_bind, safe_plain. intros u'. split_and!; [done|done|permit|].
    rewrite <- Hid. apply (safe_children (Snapshot run)); [cbn; set_solver|]. apply HQ.
Qed.

(** *** Projects *)

Lemma safe_user u known locks Q D :
  (forall known' locks', Q tt known' locks') -> safe known locks (insertPostgresUser u) Q D.
Proof.
  intros HQ. unfold insertPostgresUser. apply safe_bind, safe_stmt. intros n. right. cbn [reveals acquired]. unfold if_written.
  set (known' := known ++ _). set (locks' := locks ++ _).
  assert (Hu : UserRow (user_ID u) ∈ known' \/ UserRow (user_ID u) ∈ locks').
  { unfold known', locks'. destruct (n =? 0); cbn; set_solver. }
  split.
  { split; [done|by intros l ->%list_elem_of_singleton|]. cbn. unfold if_written, locks'. destruct (n =? 0); [done|]. intros l [= <-]. set_solver. }
  apply safe_bind, safe_plain. intros disabled. split_and!; [done|done| |by destruct disabled as [[]|]; [| |]; try apply HQ].
  split; [done|by intros l ->%list_elem_of_singleton|done].
Qed.

Lemma safe_upsert m known locks Q D :
  (forall known' locks', Q tt known' locks') -> safe known locks (upsertPostgresMembership m) Q D.
Proof.
  intros HQ. unfold upsertPostgresMembership.
  assert (Hput : forall m' known' locks' wrap D', mem_ProjectID m' = mem_ProjectID m -> mem_UserID m' = mem_UserID m ->
    safe known' locks' (sql affected <- stmt wrap (UpsertMembership m') ;;
                        if negb (affected =? 1) then tx_fail moved_backwards else tx_ret tt) Q D').
  { intros m' known' locks' wrap D' Hp Hu. apply safe_bind, safe_stmt. intros n. destruct (Z.eqb_spec n 1) as [->|Hn]; [right|left; done].
    cbn. rewrite Hp, Hu. split; [|apply HQ]. split; [done| |]; cbn; rewrite Hp, Hu; [set_solver|]. intros l [= <-]. set_solver. }
  apply safe_bind, safe_stmt. intros [[created updated]|]; right; cbn [reveals acquired if_some option_list].
  - split; [permit|]. apply safe_bind. destruct (time_before _ _); [done|]. by apply Hput.
  - split; [permit|]. apply safe_bind. by apply Hput.
Qed.

Lemma safe_event e known locks Q D :
  (forall known' locks', Q tt known' locks') -> safe known locks (insertPostgresAuditEvent e) Q D.
Proof.
  intros HQ. unfold insertPostgresAuditEvent. apply safe_bind. destruct (rmap_err _ _) as [metadata|]; [|done].
  refine (safe_stmt _ _ _ _ _ _ _). intros []. right. cbn. split; [permit|apply HQ].
Qed.

Lemma safe_create_project u p m e Q D :
  (forall known locks, Q tt known locks) -> safe [] [] (createProjectTx u p m e) Q D.
Proof.
  intros HQ. unfold createProjectTx. apply safe_bind, safe_user. intros known locks. apply safe_bind, safe_stmt. intros []. right.
  split; [permit|]. apply safe_bind, safe_upsert. intros known' locks'. by apply safe_event.
Qed.

Lemma safe_save_project p e Q D :
  (forall known locks, Q tt known locks) -> safe [] [] (saveProjectTx p e) Q D.
Proof.
  intros HQ. unfold saveProjectTx. apply safe_bind, safe_stmt. intros n. destruct (Z.eqb_spec n 1) as [->|Hn]; [right|left; done].
  split; [permit|]. by apply safe_event.
Qed.

Lemma safe_put_membership u m e Q D :
  (forall known locks, Q tt known locks) -> safe [] [] (putMembershipTx u m e) Q D.
Proof.
  intros HQ. unfold putMembershipTx. apply safe_bind, safe_user. intros known locks.
  apply safe_bind, safe_map_err, safe_upsert. intros known' locks'. by apply safe_event.
Qed.

Lemma safe_owned same d o Q D :
  own_WorkflowID o = wd_ID d -> (forall known locks, Q tt known locks) -> safe [] [] (saveOwnedWorkflowTx same d o) Q D.
Proof.
  intros Hw HQ. unfold saveOwnedWorkflowTx. apply safe_bind, safe_save_workflow. intros known locks.
  apply safe_bind, safe_stmt. intros n. right. cbn [reveals acquired]. unfold if_written. destruct (n =? 0) eqn:En; cbn [option_list].
  - split; [split; [done|set_solver|cbn; unfold if_written; by rewrite En]|].
    apply safe_bind, safe_plain. intros existing. split_and!; [done|done|rewrite <- Hw; permit|].
    destruct existing as [existing|]; [|done]. destruct (_ && _); [apply HQ|done].
  - split; [|apply HQ]. split; [done|set_solver|]. cbn. unfold if_written. rewrite En. intros l [= <-]. set_solver.
Qed.

(** *** The calls *)

Lemma safe_program c : call_checked c = true -> safe [] [] (program c) (fun _ _ _ => True) (fun _ => False).
Proof.
  intros Hc. destruct c; cbn [program]; apply safe_bind.
  - by apply safe_save_workflow.
  - by apply safe_create.
  - eapply (safe_weaken _ _ _ (fun _ _ _ => True)); [done|]. by apply safe_save.
  - by apply safe_create_project.
  - by apply safe_save_project.
  - by apply safe_put_membership.
  - apply safe_owned; [|done]. by apply andb_prop in Hc as [_ Hc%String.eqb_eq].
Qed.
End Server.

(** ** A membership that was not there *)

(** The driver sends a time cut to whole microseconds. *)
Class PostgresTruncates `{Postgres} : Prop := pg_time_down t : pg_time t <= t.

Section Exact.
Context `{Unicode} `{PostgresLaws} `{!PostgresTruncates} `{MetadataCodec}.

(** The parts of a transaction that do not look for a membership. *)
Ltac exact_parts := repeat first
  [ apply exact_done | apply exact_stmt; done | apply exact_bind; [|intros] | apply exact_each; intros | case_match ].

Lemma exact_load w : exact (loadPostgresWorkflowTx w).
Proof. unfold loadPostgresWorkflowTx. exact_parts. Qed.

Lemma exact_save_workflow d : exact (savePostgresWorkflowTx d).
Proof. unfold savePostgresWorkflowTx. repeat first [apply exact_load|progress exact_parts]. Qed.

Lemma exact_restore s : exact (restorePostgresRunTx s).
Proof. unfold restorePostgresRunTx. repeat first [apply exact_load|progress exact_parts]. Qed.

Lemma exact_create s : exact (createRunTx s).
Proof.
  unfold createRunTx, writePostgresRunChildren, insertPostgresWorkersAndLeases. repeat first [apply exact_restore|progress exact_parts].
Qed.

Lemma exact_save s : exact (saveRunTx s).
Proof.
  unfold saveRunTx, update_task, replacePostgresWorkersAndLeases, insertPostgresWorkersAndLeases.
  repeat first [apply exact_restore|progress exact_parts].
Qed.

Lemma exact_user u : exact (insertPostgresUser u).
Proof. unfold insertPostgresUser. exact_parts. Qed.

Lemma exact_event e : exact (insertPostgresAuditEvent e).
Proof. unfold insertPostgresAuditEvent. exact_parts. Qed.

(** The transaction has found no membership, and another one has committed one before
    the upsert: found, it would have been updated to the same row. *)
Lemma upsert_missed m db V :
  execute (UpsertMembership m) db = Ok (V, 1) -> evals (upsertPostgresMembership m) db V tt.
Proof.
  intros He. apply evals_bind. cbn [execute] in He. unfold upsert_membership in He. cbn in He.
  destruct (rows_of (db_project_memberships db) (mem_ProjectID m) !! mem_UserID m) as [row|] eqn:Er.
  all: assert (Ht : Forall (fun s => pg_text s = true) [mem_ProjectID m; mem_UserID m]) by
    (repeat case_match; apply checked_ok in He as (_ & _ & Ht & _); rewrite !Forall_cons in Ht |- *; naive_solver).
  - exists db, (Some (mem_CreatedAt row, mem_UpdatedAt row)). split; [apply evals_stmt, checked_ok; by rewrite Er|]. apply evals_bind.
    destruct (Z.ltb_spec (pg_time (mem_UpdatedAt m)) (mem_UpdatedAt row)) as [Hlt|Hge]; apply checked_ok in He as (Heq & _ & Htexts & Hc & _);
      [by injection Heq|]. injection Heq as ->. apply andb_prop in Hc as [Hc Hc'].
    pose proof (pg_time_down (mem_UpdatedAt m)) as Hd. unfold time_before. rewrite (proj2 (Z.ltb_ge _ _)) by lia.
    eexists _, _. split; [by apply evals_ret|]. apply evals_bind. eexists _, 1. split; [apply evals_stmt|by apply evals_ret].
    cbn [execute]. unfold upsert_membership. cbn. rewrite Er, (proj2 (Z.ltb_ge _ _)) by lia.
    apply checked_ok. split_and!; [done..| |done|done]. unfold membership_check in *. cbn in *.
    apply andb_prop in Hc' as [Hrole Hle%Z.leb_le]. pose proof (pg_time_down (mem_CreatedAt row)).
    rewrite Hrole. cbn. rewrite !(proj2 (Z.leb_le _ _)) by lia. done.
  - exists db, None. split; [apply evals_stmt, checked_ok; by rewrite Er|]. apply evals_bind.
    eexists _, _. split; [by apply evals_ret|]. apply evals_bind. eexists _, 1. split; [apply evals_stmt|by apply evals_ret].
    cbn [execute]. unfold upsert_membership. cbn. by rewrite Er.
Qed.

Lemma exact_upsert m : exact (upsertPostgresMembership m).
Proof.
  intros db V [] (db1 & ex & (db2 & ex' & Hr & Hd) & Hw)%weakly_bind. cbn in Hd. destruct Hd as [-> [= ->]].
  match type of Hw with weakly ?t _ _ _ => assert (Ht : exact t) by exact_parts end. apply Ht in Hw. clear Ht.
  destruct Hr as [He|[Hu ->]]; [apply evals_bind; exists db2, ex; split; [by apply evals_stmt|done]|].
  destruct ex; [done|]. apply evals_bind in Hw as (db1 & m' & [-> ->]%evals_ret & Hw).
  apply evals_bind in Hw as (db1 & n & He%evals_stmt & Hn). destruct (Z.eqb_spec n 1) as [->|?]; [|by apply evals_fail in Hn].
  apply evals_ret in Hn as [-> _]. by apply upsert_missed.
Qed.

Lemma exact_program c : exact (program c).
Proof.
  destruct c; cbn [program]; (apply exact_bind; [|intros; apply exact_done]).
  - apply exact_save_workflow.
  - apply exact_create.
  - apply exact_save.
  - apply exact_bind; [apply exact_user|intros _]. apply exact_bind; [by apply exact_stmt|intros _].
    apply exact_bind; [apply exact_upsert|intros _]. apply exact_event.
  - unfold saveProjectTx. repeat first [apply exact_event|progress exact_parts].
  - apply exact_bind; [apply exact_user|intros _].
    apply exact_bind; [apply exact_map_err, exact_upsert|intros _]. apply exact_event.
  - unfold saveOwnedWorkflowTx. repeat first [apply exact_save_workflow|progress exact_parts].
Qed.
End Exact.

(** ** The invariant *)

Section Serializable.
Context `{Unicode} `{PostgresLaws} `{!PostgresTruncates} `{MetadataCodec}.

Definition entry_permitted (known locks : list lock) (e : entry) : Prop := let '(Entry q a) := e in permitted known locks q a.
Definition entry_changed (e : entry) : option lock := let '(Entry q a) := e in changed q a.
Definition entry_touched (e : entry) : list lock := let '(Entry q a) := e in touched q a.
Definition entry_query (e : entry) : bool := let '(Entry q a) := e in in_transaction q.

Lemma partial_changes {A : Type} (t t' : tx A) db log V l :
  partial t db log t' V -> (forall e, e ∈ log -> entry_changed e <> Some l) -> agree l db V.
Proof.
  induction 1 as [t db|C q k db db1 a log t V He Hp IH]; intros Hl; [done|].
  transitivity db1; [destruct He as [He|[_ ->]]; [|done]; apply (changed_only q _ _ a); [done|by apply (Hl (Entry q a)); constructor]|].
  apply IH. intros e He'. apply Hl. by constructor.
Qed.

Lemma runs_grows {A : Type} (q : query A) db db1 a : runs q db db1 a -> grows db db1.
Proof. intros [He|[_ ->]]; [by eapply present_kept|by intros l]. Qed.

Lemma partial_grows {A : Type} (t t' : tx A) db log V : partial t db log t' V -> grows db V.
Proof. induction 1 as [t db|C q k db db1 a log t V He Hp IH]; intros l Hl; [done|]. by eapply IH, runs_grows. Qed.

Lemma runs_agree {A : Type} (q : query A) D D' D1 a :
  in_transaction q = true -> (forall l, l ∈ touched q a -> agree l D D') -> grows D D' -> runs q D D1 a ->
  exists D1', runs q D' D1' a /\ (forall l, agree l D D' -> agree l D1 D1') /\ grows D1 D1'.
Proof.
  intros Hq Ht Hg Hr. destruct (unlocked q a) eqn:Hu.
  - assert (D1 = D) as ->.
    { destruct Hr as [He|[_ ->]]; [|done]. destruct q; try done. cbn [execute] in He. unfold select in He.
      apply checked_ok in He as [Heq _]. by injection Heq. }
    exists D'. split; [by right|done].
  - destruct Hr as [He|[Hf _]]; [|congruence]. destruct (execute_agree q D D' D1 a Hq Hu Ht Hg He) as (D1' & He' & Ha).
    exists D1'. split_and!; [by left|done|by eapply grows_after].
Qed.

(** The same statements, with the same answers, on a database that is alike in what
    they depend on. *)
Lemma partial_agree {A : Type} (t t' : tx A) db log V :
  partial t db log t' V -> forall db', grows db db' ->
  (forall e, e ∈ log -> entry_query e = true /\ forall l, l ∈ entry_touched e -> agree l db db') ->
  exists V', partial t db' log t' V'.
Proof.
  induction 1 as [t db|C q k db db1 a log t V He Hp IH]; intros db' Hg Hl; [exists db'; constructor|].
  destruct (Hl (Entry q a)) as [Hq Ht]; [by constructor|].
  destruct (runs_agree q db db' db1 a Hq Ht Hg He) as (db1' & He' & Hag & Hg').
  destruct (IH db1' Hg') as [V' Hp'].
  - intros e Hin. destruct (Hl e) as [Hqe Hte]; [by constructor|]. split; [done|]. intros l Hin'. by apply Hag, Hte.
  - exists V'. by econstructor.
Qed.

(** The key of a row of these kinds that a transaction has locked is new. *)
Lemma acquired_fresh {A : Type} (q : query A) db db1 a l :
  runs q db db1 a -> acquired q a = Some l -> fixed l = true -> ~ present l db.
Proof.
  intros [He|[Hu _]] Hc Hf.
  - destruct q; cbn [acquired] in Hc; unfold if_written, if_some in Hc; repeat case_match; simplify_eq; try done;
      stmt_ok He; cbn in *; try done; unfold taken in *; by case_bool_decide.
  - destruct q; try done. by destruct a.
Qed.

Lemma partial_fresh {A : Type} (t t' : tx A) db log V l :
  partial t db log t' V -> l ∈ locks_of log -> fixed l = true -> ~ present l db.
Proof.
  intros Hp Hin Hf. revert Hin. induction Hp as [t db|C q k db db1 a log t V He Hp IH]; [intros Hin; by apply elem_of_nil in Hin|].
  unfold locks_of. rewrite list_elem_of_omap. intros (e & Hin & Hl). apply elem_of_cons in Hin as [->|Hin].
  - by eapply acquired_fresh.
  - intros Hpr. assert (Hn : ~ present l db1) by (apply IH, list_elem_of_omap; eauto). by apply Hn, (runs_grows _ _ _ _ He).
Qed.

Lemma revealed_present {A : Type} (q : query A) db db1 a l :
  execute q db = Ok (db1, a) -> reveals q a = Some l -> fixed l = true /\ present l db.
Proof.
  intros He Hr. destruct q; cbn [reveals] in Hr; unfold if_some in Hr; repeat case_match; simplify_eq; (split; [done|]);
    stmt_ok He; cbn in *; unfold taken in *; by case_bool_decide.
Qed.

(** What holds of an open transaction: it cannot commit any more, or executing its
    log on what is committed now gives the answers it has got. *)
Definition session_ok (db : database) (s : session) : Prop :=
  let locks := locks_of (se_log s) in
  leaves (fun _ => False) (se_rest s) \/
  exists known V, partial (program (se_call s)) db (se_log s) (se_rest s) V /\
    (forall l, l ∈ known -> fixed l = true /\ (present l db \/ l ∈ locks)) /\
    Forall (entry_permitted known locks) (se_log s) /\
    safe known locks (se_rest s) (fun _ _ _ => True) (fun _ => False).

Lemma session_begin db c : call_checked c = true -> session_ok db (mkSession c [] (program c)).
Proof. intros Hc. right. exists [], db. split_and!; [constructor|set_solver|constructor|by apply safe_program]. Qed.

Lemma locks_snoc log e : locks_of (log ++ [e]) = locks_of log ++ option_list (entry_lock e).
Proof. unfold locks_of. rewrite omap_app. cbn. by destruct (entry_lock e). Qed.

Lemma acquired_elem l e : l ∈ option_list (entry_lock e) <-> entry_lock e = Some l.
Proof. destruct (entry_lock e); cbn; set_solver. Qed.

Lemma session_statement db s {A : Type} (q : query A) k db' a :
  session_ok db s -> se_rest s = Call q k -> execute q (view (se_log s) db) = Ok (db', a) ->
  session_ok db (mkSession (se_call s) (se_log s ++ [Entry q a]) (k (Ok a))).
Proof.
  intros Hs Hr He. unfold session_ok in *. cbn [se_call se_log se_rest]. rewrite Hr in Hs.
  destruct Hs as [Hd|(known & V & Hp & Hk & Hlog & Hsafe)]; [left; apply Hd|].
  pose proof (partial_view _ _ _ _ _ Hp) as HV. rewrite <- HV in He.
  destruct (Hsafe a) as [Hd|[Hperm Hsafe']]; [by left|right]. set (locks' := locks_of (se_log s ++ [Entry q a])).
  assert (Hlocks : locks' = locks_of (se_log s) ++ option_list (acquired q a)) by apply locks_snoc.
  rewrite <- Hlocks in Hperm, Hsafe'. exists (known ++ option_list (reveals q a)), db'.
  split_and!; [by eapply partial_snoc; [|left]| | |done].
  - intros l [Hin|Hin]%elem_of_app.
    + destruct (Hk l Hin) as [Hf [?|?]]; (split; [done|]); [by left|right]. rewrite Hlocks. set_solver.
    + assert (Hrev : reveals q a = Some l) by (destruct (reveals q a); cbn in Hin; set_solver).
      destruct (revealed_present _ _ _ _ _ He Hrev) as [Hf Hpr]. split; [done|].
      destruct (decide (l ∈ locks_of (se_log s))); [right; rewrite Hlocks; set_solver|left].
      eapply agree_present; [|exact Hpr]. symmetry. apply (partial_changes _ _ _ _ _ l Hp).
      intros [B q' a'] Hin' Hc. rewrite Forall_forall in Hlog. by apply (pe_changed _ _ _ _ (Hlog _ Hin')) in Hc.
  - apply Forall_app. split; [|by constructor]. eapply Forall_impl; [exact Hlog|].
    intros [B q' a']. apply permitted_mono; [set_solver|]. rewrite Hlocks. set_solver.
Qed.

(** Another transaction commits. *)
Lemma session_other db s sj a :
  session_ok db s -> session_ok db sj -> se_rest sj = Done (Ok a) ->
  (forall l, l ∈ locks_of (se_log s) -> l ∉ locks_of (se_log sj)) -> session_ok (view (se_log sj) db) s.
Proof.
  intros [Hd|(known & V & Hp & Hk & Hlog & Hsafe)] Hj Hr Hdis; [by left|].
  destruct Hj as [Hd|(knownj & Vj & Hpj & _ & Hlogj & _)]; [by rewrite Hr in Hd|].
  rewrite <- (partial_view _ _ _ _ _ Hpj). pose proof (partial_grows _ _ _ _ _ Hpj) as Hg.
  assert (Hag : forall l, l ∉ locks_of (se_log sj) -> agree l db Vj).
  { intros l Hl. apply (partial_changes _ _ _ _ _ l Hpj). intros [B q b] Hin Hc. apply Hl.
    rewrite Forall_forall in Hlogj. by apply (pe_changed _ _ _ _ (Hlogj _ Hin)). }
  assert (Hknown : forall l, l ∈ known -> agree l db Vj).
  { intros l Hl. apply Hag. destruct (Hk l Hl) as [Hf [Hpr|?]]; [|auto]. intros Hin. by apply (partial_fresh _ _ _ _ _ _ Hpj Hin). }
  destruct (partial_agree _ _ _ _ _ Hp Vj Hg) as [V' Hp'].
  - intros [B q b] Hin. rewrite Forall_forall in Hlog. destruct (Hlog _ Hin) as [Hq Ht _]. split; [done|].
    intros l Hl. destruct (Ht l Hl) as [?|?]; [by apply Hknown|by apply Hag, Hdis].
  - right. exists known, V'. split_and!; [done| |done|done]. intros l Hl. destruct (Hk l Hl) as [Hf [Hpr|?]]; (split; [done|]); [left|by right].
    by apply Hg.
Qed.

Record server_ok (srv : server) : Prop := {
  so_sessions : forall i s, srv_sessions srv !! i = Some s -> session_ok (srv_db srv) s;
  so_locks : forall i j s s' l, srv_sessions srv !! i = Some s -> srv_sessions srv !! j = Some s' -> i <> j ->
    l ∈ locks_of (se_log s) -> l ∉ locks_of (se_log s')
}.

(** A step keeps the invariant, and commits a whole transaction or nothing. *)
Lemma server_step_ok srv committed srv' :
  server_step srv committed srv' -> server_ok srv ->
  server_ok srv' /\
  match committed with
  | None => srv_db srv' = srv_db srv
  | Some (c, a) => evals (program c) (srv_db srv) (srv_db srv') a
  end.
Proof.
  intros Hstep [Hs Hl]. destruct Hstep as [db ss i c Hi Hc|db ss i s A q k db' a Hi Hr He Hw|db ss i s a Hi Hr|db ss i]; cbn in *.
  - split; [|done]. split; cbn.
    + intros j s Hj. apply lookup_insert_Some in Hj as [[_ <-]|[_ Hj]]; [by apply session_begin|by eapply Hs].
    + intros j k s s' l Hj Hk Hne. apply lookup_insert_Some in Hj as [[<- <-]|[_ Hj]]; [intros Hin; by apply elem_of_nil in Hin|].
      apply lookup_insert_Some in Hk as [[<- <-]|[_ Hk]]; [intros _; apply not_elem_of_nil|by eapply Hl].
  - split; [|done]. split; cbn.
    + intros j s' Hj. apply lookup_insert_Some in Hj as [[_ <-]|[_ Hj]]; [|by eapply Hs].
      eapply session_statement; [by eapply Hs|done|done].
    + intros j j' s1 s2 l Hj Hj' Hne. rewrite lookup_insert in Hj, Hj'.
      case_decide as E1; case_decide as E2; simplify_eq; cbn [se_log]; rewrite ?locks_snoc, ?elem_of_app, ?acquired_elem.
      * intros Hin [Hin'|Hin']; [exact (Hl _ _ _ _ _ Hj Hi Hne Hin Hin')|exact (Hw _ _ _ Hin' Hj Hne Hin)].
      * intros [Hin|Hin]; [exact (Hl _ _ _ _ _ Hi Hj' Hne Hin)|exact (Hw _ _ _ Hin Hj' (not_eq_sym Hne))].
      * by eapply Hl.
  - assert (Hevals : evals (program (se_call s)) db (view (se_log s) db) a).
    { destruct (Hs i s Hi) as [Hd|(known & V & Hp & _)]; [by rewrite Hr in Hd|]. rewrite Hr in Hp.
      rewrite <- (partial_view _ _ _ _ _ Hp). by eapply exact_program, partial_weakly. }
    split; [|done]. split; cbn.
    + intros j s' Hj. apply lookup_delete_Some in Hj as [Hne Hj].
      eapply session_other; [by eapply Hs|by eapply Hs|done|]. intros l. by apply (Hl j i).
    + intros j j' s1 s2 l Hj Hj'. apply lookup_delete_Some in Hj as [_ Hj], Hj' as [_ Hj']. by eapply Hl.
  - split; [|done]. split; cbn.
    + intros j s' Hj. apply lookup_delete_Some in Hj as [_ Hj]. by eapply Hs.
    + intros j j' s1 s2 l Hj Hj'. apply lookup_delete_Some in Hj as [_ Hj], Hj' as [_ Hj']. by eapply Hl.
Qed.

Lemma run_serial db commits srv :
  server_run (mkServer db ∅) commits srv -> server_ok srv /\ serial db commits (srv_db srv).
Proof.
  remember (mkServer db ∅) as start eqn:Es.
  induction 1 as [srv|srv1 srv2 srv3 committed commits Hrun IH Hstep].
  - subst srv. split; [|constructor]. split; cbn; intros *; by rewrite lookup_empty.
  - destruct (IH Es) as [Hok Hser]. destruct (server_step_ok _ _ _ Hstep Hok) as [Hok' Hc]. split; [done|].
    destruct committed as [[c a]|]; cbn.
    + by econstructor.
    + rewrite app_nil_r. by rewrite Hc.
Qed.

(** ** The methods *)

(** The methods check their arguments and run the transactions. *)
Lemma answered_transaction {A : Type} bf cf (t : tx A) db db' a :
  evals t db db' a -> transaction answered bf cf t db = (db', Ok a).
Proof. unfold evals. intros He. by rewrite transaction_answered, He. Qed.

Lemma is_ok_true {E A : Type} (m : res E A) : is_ok m = true -> exists v, m = Ok v.
Proof. destruct m as [v|]; [by exists v|done]. Qed.

Lemma method_commits {A : Type} checks bf cf (t : tx A) db db' a :
  checks = Ok tt -> evals t db db' a -> after_checks checks db (transaction answered bf cf t db) = (db', Ok a).
Proof. intros -> He. by apply answered_transaction. Qed.

Lemma call_commits c db db' a :
  call_checked c = true -> evals (program c) db db' a ->
  exists same, postgres_op same answered db (op_of c) = (db', Ok tt).
Proof.
  intros Hc He. destruct c as [d|s|s|u p m e|p e|u m e|same d o]; cbn [program call_checked] in Hc, He;
    apply evals_bind in He as (db1 & x & He & [-> _]%evals_ret); try destruct x.
  - exists true. apply method_commits; [|done]. apply is_ok_true in Hc as [[] Hv]. cbn. by rewrite Hv.
  - exists true. cbn [op_of postgres_op]. unfold forget_result, PostgresStore_CreateRun.
    apply andb_prop in Hc as [[[] Hv]%is_ok_true Hz].
    erewrite (method_commits _ _ _ _ _ db1); [reflexivity| |done]. cbn. by rewrite Hv, Hz.
  - exists true. cbn [op_of postgres_op]. unfold forget_result, PostgresStore_SaveRun.
    apply andb_prop in Hc as [[[[] Hv]%is_ok_true Hz%Bool.negb_true_iff]%andb_prop Hm%Z.ltb_lt].
    erewrite (method_commits _ _ _ _ _ db1); [reflexivity| |done]. cbn. by rewrite Hv, Hz, (proj2 (Z.leb_gt _ _) Hm).
  - exists true. apply method_commits; [|done]. by apply is_ok_true in Hc as [[] Hv].
  - exists true. apply method_commits; [|done]. apply andb_prop in Hc as [[[[] Hp]%is_ok_true [[] Hv]%is_ok_true]%andb_prop Hi].
    cbn. by rewrite Hp, Hv, Hi.
  - exists true. apply method_commits; [|done].
    apply andb_prop in Hc as [[[[[[] Hu]%is_ok_true [[] Hm]%is_ok_true]%andb_prop [[] Hv]%is_ok_true]%andb_prop Hi]%andb_prop Hi'].
    cbn. by rewrite Hu, Hm, Hv, Hi, Hi'.
  - exists same. apply method_commits; [|done]. apply andb_prop in Hc as [[[[] Hd]%is_ok_true [[] Ho]%is_ok_true]%andb_prop Hi].
    cbn. by rewrite Hd, Ho, Hi.
Qed.


(** Only calls that pass the checks commit. *)
Lemma run_checked db commits srv :
  server_run (mkServer db ∅) commits srv ->
  (forall i s, srv_sessions srv !! i = Some s -> call_checked (se_call s) = true) /\
  Forall (fun x => call_checked (fst x) = true) commits.
Proof.
  remember (mkServer db ∅) as start eqn:Es. induction 1 as [srv|srv1 srv2 srv3 committed commits Hrun IH Hstep].
  - subst srv. split; [|constructor]. intros i s. cbn. by rewrite lookup_empty.
  - destruct (IH Es) as [Hs Hc]. clear IH Hrun. rewrite Forall_app.
    destruct Hstep as [db1 ss i c Hi Hok|db1 ss i s A q k db' a Hi Hr He Hw|db1 ss i s a Hi Hr|db1 ss i]; cbn in *;
      (split; [|split; [done|repeat constructor; by eapply Hs]]); intros j s'.
    + rewrite lookup_insert. case_decide; [by intros [= <-]|apply Hs].
    + rewrite lookup_insert. case_decide; [intros [= <-]; cbn; by eapply (Hs i s)|apply Hs].
    + intros [_ Hj]%lookup_delete_Some. by eapply Hs.
    + intros [_ Hj]%lookup_delete_Some. by eapply Hs.
Qed.

(** Each call was admissible in the database that the calls before it left. *)
Definition all_admissible (db : database) (commits : list (store_call * option WorkflowRunSnapshot)) : Prop :=
  forall before c a after db1, commits = before ++ (c, a) :: after -> serial db before db1 -> admissible db1 (op_of c).

Lemma serial_steps db commits db' :
  serial db commits db' -> Forall (fun x => call_checked (fst x) = true) commits -> all_admissible db commits ->
  rtc postgres_step db db'.
Proof.
  induction 1 as [db|db1 db2 db3 c a commits Hser IH He]; intros Hc Ha; [done|].
  apply Forall_app in Hc as [Hc [Hlast _]%Forall_cons]. cbn in Hlast.
  eapply rtc_r; [apply IH; [done|]|].
  - intros before c' a' after db' -> Hb. apply (Ha before c' a' (after ++ [(c, a)]) db'); [by rewrite <- (assoc_L app)|done].
  - destruct (call_commits _ _ _ _ Hlast He) as [same Hop]. exists same, answered, (op_of c).
    split; [by apply (Ha commits c a [] db2)|by rewrite Hop].
Qed.

(** ** Versions *)

(** The version of the run [r] is beyond [v]. *)
Definition beyond (r : string) (v : Z) (db : database) : Prop :=
  exists row, db_workflow_runs db !! r = Some row /\ v < wrr_version row.

Lemma beyond_preserved r v : preserved (beyond r v).
Proof.
  intros A q db db' a He (row & Hrow & Hv).
  destruct q; try (stmt_ok He; by exists row).
  - apply InsertWorkflowRun_ok in He as (Ho & Hn & _ & _ & _). destruct (decide (r = run_id)) as [->|Hne]; [congruence|].
    exists row. split; [|done]. pose proof (or_parts _ _ _ Ho r Hne) as Hp. unfold part in Hp. injection Hp as -> _ _ _. done.
  - apply UpdateWorkflowRun_ok in He as [(row' & Hrow' & _ & Hver & _ & Ho & _ & Hp)|(_ & -> & _)]; [|by exists row].
    destruct (decide (r = run_id)) as [->|Hne].
    + unfold part in Hp. injection Hp as Hr _ _ _. exists (mkWorkflowRunRow workflow_id (version + 1) status (wrr_created_at row') (pg_time updated_at)).
      split; [done|]. cbn. rewrite Hrow in Hrow'. simplify_eq. lia.
    + exists row. split; [|done]. pose proof (or_parts _ _ _ Ho r Hne) as Hp'. unfold part in Hp'. injection Hp' as -> _ _ _. done.
Qed.

Lemma serial_beyond r v db commits db' : serial db commits db' -> beyond r v db -> beyond r v db'.
Proof.
  induction 1 as [db|db1 db2 db3 c a commits Hser IH He]; [done|]. intros Hb.
  eapply evals_preserves; [apply beyond_preserved|exact He|by apply IH].
Qed.

(** A saved run had the expected version, and is beyond it. *)
Lemma save_advances s db db' a :
  evals (program (CallSaveRun s)) db db' a ->
  (exists row, db_workflow_runs db !! snap_ID s = Some row /\ wrr_version row = snap_Version s) /\
  beyond (snap_ID s) (snap_Version s) db'.
Proof.
  intros (db1 & stored & He & [-> _]%evals_ret)%evals_bind.
  unfold saveRunTx in He. apply evals_bind in He as (db2 & restored & He1 & He2).
  unfold restorePostgresRunTx in He1. apply evals_bind in He1 as (db3 & [d|] & <-%evals_load_workflow & He1); [|by apply evals_fail in He1].
  apply evals_bind in He1 as (db4 & run & [-> Hr%rmap_err_ok]%evals_lift & [-> ->]%evals_ret).
  apply restore_ok in Hr as (_ & _ & _ & _ & Hid & Hver & _). cbn [Snapshot snap_ID snap_Version] in He2.
  apply evals_bind in He2 as (db5 & next & Hu%evals_stmt & He3). rewrite Hid, Hver in Hu.
  apply UpdateWorkflowRun_ok in Hu as [(row & Hrow & _ & Hv & -> & _ & _ & Hp)|(-> & -> & _)].
  - split; [by exists row|]. eapply evals_preserves; [apply beyond_preserved|exact He3|].
    unfold part in Hp. injection Hp as Hp _ _ _. eexists. split; [exact Hp|]. cbn. lia.
  - apply evals_bind in He3 as (? & [v|] & _ & He3); by apply evals_fail in He3.
Qed.
End Serializable.

(** ** A scheduler

    The steps as a function, for concrete interleavings. *)
Inductive server_action :=
| ActBegin (i : nat) (c : store_call)
| ActStatement (i : nat)
| ActCommit (i : nat)
| ActEnd (i : nat).

Section Scheduler.
Context `{Unicode} `{Postgres} `{MetadataCodec}.

Definition lock_waits (sessions : gmap nat session) (i : nat) (needed : option lock) : bool :=
  match needed with
  | None => false
  | Some l => existsb (fun '(j, s) => negb (Nat.eqb j i) && bool_decide (l ∈ locks_of (se_log s))) (map_to_list sessions)
  end.

(** [None] is an action that is not possible now. *)
Definition server_do (srv : server) (act : server_action)
  : option (server * option (store_call * option WorkflowRunSnapshot)) :=
  let '(mkServer db sessions) := srv in
  match act with
  | ActBegin i c =>
      match sessions !! i with
      | Some _ => None
      | None =>
          if call_checked c then Some (mkServer db (<[i := mkSession c [] (program c)]> sessions), None) else None
      end
  | ActStatement i =>
      match sessions !! i with
      | Some (mkSession c log (Call q k)) =>
          match execute q (view log db) with
          | Err _ => Some (mkServer db (delete i sessions), None)
          | Ok (_, a) =>
              if lock_waits sessions i (acquired q a) then None
              else Some (mkServer db (<[i := mkSession c (log ++ [Entry q a]) (k (Ok a))]> sessions), None)
          end
      | _ => None
      end
  | ActCommit i =>
      match sessions !! i with
      | Some (mkSession c log (Done (Ok a))) => Some (mkServer (view log db) (delete i sessions), Some (c, a))
      | _ => None
      end
  | ActEnd i => Some (mkServer db (delete i sessions), None)
  end.

Fixpoint server_do_all (srv : server) (acts : list server_action)
  : option (server * list (store_call * option WorkflowRunSnapshot)) :=
  match acts with
  | [] => Some (srv, [])
  | act :: rest =>
      match server_do srv act with
      | None => None
      | Some (srv', committed) =>
          match server_do_all srv' rest with
          | None => None
          | Some (srv'', commits) => Some (srv'', option_list committed ++ commits)
          end
      end
  end.

Lemma server_do_step srv act srv' committed :
  server_do srv act = Some (srv', committed) -> server_step srv committed srv'.
Proof.
  destruct srv as [db ss], act as [i c|i|i|i]; cbn.
  - destruct (ss !! i) eqn:Ei; [done|]. destruct (call_checked c) eqn:Ec; [|done]. intros [= <- <-]. by constructor.
  - destruct (ss !! i) as [[c log [r|B q k]]|] eqn:Ei; [done| |done].
    destruct (execute q (view log db)) as [[db' a]|e] eqn:He; [|intros [= <- <-]; constructor].
    destruct (lock_waits _ _ _) eqn:Hw; [done|]. intros [= <- <-].
    apply (step_statement db ss i (mkSession c log (Call q k)) q k db' a); [done|done|done|].
    intros l j s' Hl Hj Hne Hin. cbn [se_log] in Hin. rewrite Hl in Hw. cbn in Hw. apply Bool.not_true_iff_false in Hw. apply Hw.
    apply existsb_exists. exists (j, s'). rewrite <- list_elem_of_In, elem_of_map_to_list. split; [done|].
    by rewrite (proj2 (Nat.eqb_neq _ _) Hne), bool_decide_eq_true_2.
  - destruct (ss !! i) as [[c log [[a|e]|B q k]]|] eqn:Ei; try done. intros [= <- <-].
    by apply (step_commit db ss i (mkSession c log (Done (Ok a)))).
  - intros [= <- <-]. constructor.
Qed.

Lemma server_run_app srv1 commits srv2 commits' srv3 :
  server_run srv1 commits srv2 -> server_run srv2 commits' srv3 -> server_run srv1 (commits ++ commits') srv3.
Proof.
  intros Hr. induction 1 as [srv|srv2 srv3 srv4 committed commits' Hr' IH Hstep]; [by rewrite app_nil_r|].
  rewrite (assoc_L app). econstructor; [by apply IH|done].
Qed.

Lemma server_do_all_run srv acts srv' commits :
  server_do_all srv acts = Some (srv', commits) -> server_run srv commits srv'.
Proof.
  revert srv commits. induction acts as [|act acts IH]; intros srv commits; cbn; [intros [= <- <-]; constructor|].
  destruct (server_do srv act) as [[srv1 committed]|] eqn:E1; [|done].
  destruct (server_do_all srv1 acts) as [[srv2 commits']|] eqn:E2; [|done]. intros [= <- <-].
  apply (server_run_app _ _ srv1); [|by apply IH].
  rewrite <- (app_nil_l (option_list committed)). econstructor; [constructor|by eapply server_do_step].
Qed.
End Scheduler.

(** ** The theorems *)

Section Theorems.
Context `{Unicode} `{PostgresLaws} `{!PostgresTruncates} `{MetadataCodec}.

(** C7: serializability. However the statements of concurrent transactions of
    the store interleave at READ COMMITTED, and whichever of them fail, the database is
    the one that the committed calls leave when each runs alone, in the order of the
    commits, with the result it returned. These are all the transactions that write:
    [SaveWorkflow], [CreateRun], [SaveRun], [CreateProject], [SaveProject],
    [PutMembership] and [SaveWorkflowForProject]. *)
Theorem postgres_serializable (db : database) (commits : list (store_call * option WorkflowRunSnapshot)) (srv : server) :
  server_run (mkServer db ∅) commits srv -> serial db commits (srv_db srv).
Proof. intros Hr. by apply run_serial. Qed.

(** C8: any number of processes use the database as one journal store. However their
    transactions interleave and whichever fail, what the database gives back is what
    the memory of a journal store gives back after operations it has accepted, if
    each committed call was admissible in the database that the calls committed before
    it left: its snapshot is that of a well-formed run of a stored definition, a saved
    one continuing the stored run, its audit metadata survive the encoding, the owner
    it gives a workflow is not disabled, and none of its times is in the microsecond
    after the zero time. *)
Theorem concurrent_refines_journal (commits : list (store_call * option WorkflowRunSnapshot)) (srv : server) :
  server_run (mkServer empty_database ∅) commits srv -> all_admissible empty_database commits ->
  exists m, rtc memory_step empty_store m /\ store_match (srv_db srv) m /\ integrity m.
Proof.
  intros Hr Ha. destruct (run_serial _ _ _ Hr) as [_ Hs]. destruct (run_checked _ _ _ Hr) as [_ Hc].
  destruct (steps_refine (srv_db srv)) as (m & ? & ? & _ & ?); [by eapply serial_steps|by exists m].
Qed.

Lemma serial_snoc db commits c a db' :
  serial db (commits ++ [(c, a)]) db' -> exists db1, serial db commits db1 /\ evals (program c) db1 db' a.
Proof.
  intros Hs. remember (commits ++ [(c, a)]) as l eqn:El. destruct Hs as [db|db1 db2 db3 c' a' commits' Hser He]; [by destruct commits|].
  apply app_inj_tail in El as [-> [= -> ->]]. eauto.
Qed.

Lemma serial_app db commits c a rest db' :
  serial db (commits ++ (c, a) :: rest) db' ->
  exists db1 db2, serial db commits db1 /\ evals (program c) db1 db2 a /\ serial db2 rest db'.
Proof.
  revert db'. induction rest as [|[c' a'] rest IH] using rev_ind; intros db' Hs.
  - apply serial_snoc in Hs as (db1 & Hser & He). exists db1, db'. split_and!; [done|done|constructor].
  - rewrite app_comm_cons, (assoc_L app) in Hs. apply serial_snoc in Hs as (db2 & Hser & He).
    destruct (IH _ Hser) as (db1 & db3 & ? & ? & ?). exists db1, db3. split_and!; [done|done|]. by econstructor.
Qed.

(** C19: one winner per version. Of all the [SaveRun] calls that any number of
    processes make on one run with the same expected version, at most one commits. *)
Theorem one_winner_per_version (db : database) (srv : server) before s1 a1 between s2 a2 after :
  server_run (mkServer db ∅) (before ++ (CallSaveRun s1, a1) :: between ++ (CallSaveRun s2, a2) :: after) srv ->
  snap_ID s1 = snap_ID s2 -> snap_Version s1 <> snap_Version s2.
Proof.
  intros [_ Hs]%run_serial Hid Hv. apply serial_app in Hs as (db1 & db2 & _ & He1 & Hs).
  apply serial_app in Hs as (db3 & db4 & Hs & He2 & _).
  apply save_advances in He1 as [_ Hb]. apply save_advances in He2 as [(row & Hrow & Hver) _].
  destruct (serial_beyond _ _ _ _ _ Hs Hb) as (row' & Hrow' & Hlt). rewrite Hid in Hrow'. simplify_eq. lia.
Qed.
End Theorems.
