(* ===== verification/PostgresExamples.v ===== *)
(** * Concrete databases

    A server that keeps microseconds and compares bytes: the instance at which the
    theorems on the PostgreSQL store are applied, a project with a workflow and a
    run, and processes that race for a version of the run and for a membership. *)
From S2P Require Import Prelude Workflow Heap Graph GraphBuild GraphOrder Errors Run Ids Snapshot SnapshotValid RunStep RunInv RunProps RunDurable RunExamples Security Sql Tx FileStore FileStoreOps FileStoreInv FileStoreJournal FileStoreProps Postgres SqlFacts PostgresRuns PostgresLoad PostgresProps PostgresWorkflows PostgresSecurity PostgresRefines PostgresConcurrent PostgresSerial.

#[local] Existing Instance ascii_unicode.

(** ** The server *)

(** Microseconds, as the driver sends them. *)
Definition micro_time (t : Z) : Z := 1000 * (t / 1000).

#[export] Instance micro_postgres : Postgres := {|
  pg_time := micro_time;
  pg_text s := negb (existsb (fun b => b =? 0) (bytes_of s));
  pg_leb s t := bool_decide (String.le s t);
  pg_jsonb document := Ok document;
  pg_message code := "SQLSTATE " +:+ code
|}.

#[export] Instance micro_postgres_laws : PostgresLaws.
Proof.
  split; cbn [pg_time pg_leb micro_postgres].
  - intros t. unfold micro_time. by rewrite (Z.mul_comm 1000 (t / 1000)), Z.div_mul, Z.mul_comm.
  - intros t u Htu. unfold micro_time. pose proof (Z.div_le_mono t u 1000). lia.
  - done.
  - intros s t. rewrite !bool_decide_eq_true. apply total, _.
  - intros s t u. rewrite !bool_decide_eq_true. apply transitivity.
  - intros s t. rewrite !bool_decide_eq_true. apply (anti_symm String.le).
Qed.

#[export] Instance micro_postgres_truncates : PostgresTruncates.
Proof. intros t. cbn [pg_time micro_postgres]. unfold micro_time. pose proof (Z.mul_div_le t 1000). lia. Qed.

Lemma micro_kept t : t = 0 \/ 1000 <= t -> time_kept t.
Proof.
  unfold time_kept. cbn [pg_time micro_postgres]. unfold micro_time, zero_time. pose proof (Z.div_le_mono 1000 t 1000).
  rewrite Z_div_same_full in * by done. lia.
Qed.

(** Audit events without metadata. *)
#[export] Instance null_codec : MetadataCodec := {|
  marshal_metadata m := match m with None => Ok "null" | Some _ => Err (ErrText "unsupported") end;
  unmarshal_metadata s := if String.eqb s "null" then Ok None else Err (ErrText "unsupported")
|}.

(** ** A project, a workflow and a run *)

Definition alice : User := mkUser "alice" "Alice" false 1500.
Definition team : Project := mkProject "team" "Team" "alice" 2500 2500.
Definition alice_admin : Membership := mkMembership "team" "alice" RoleAdmin 2500 2500.
Definition team_created : AuditEvent := mkAuditEvent "audit-1" "team" "alice" "project.create" "project" "team" 2500 None.
Definition demo_owned : WorkflowOwnership := mkWorkflowOwnership "demo" "team" "alice" 3500.

Definition op_project : store_op := OpCreateProject CtxLive alice team alice_admin team_created.
Definition op_workflow : store_op := OpSaveWorkflowForProject CtxLive demo demo_owned.
Definition op_run : store_op := OpCreateRun CtxLive CtxLive (Snapshot demo_new).
Definition run_v1 : WorkflowRun := setPersistedVersion demo_new 1.
Definition op_save : store_op := OpSaveRun CtxLive CtxLive (Snapshot run_v1).

Definition after_op (db : database) (op : store_op) : database := fst (postgres_op true answered db op).
Definition db_project : database := after_op empty_database op_project.
Definition db_workflow : database := after_op db_project op_workflow.
Definition db_run : database := after_op db_workflow op_run.
Definition db_saved : database := after_op db_run op_save.

(** All four succeed. *)
Example demo_ops_succeed :
  snd (postgres_op true answered empty_database op_project) = Ok tt /\
  snd (postgres_op true answered db_project op_workflow) = Ok tt /\
  snd (postgres_op true answered db_workflow op_run) = Ok tt /\
  snd (postgres_op true answered db_run op_save) = Ok tt.
Proof. vm_compute. done. Qed.

Lemma run_v1_inv : run_inv run_v1.
Proof. destruct demo_new_inv. by split. Qed.

Lemma demo_aggregate : aggregate_valid (run_status demo_new) (sortedTasks demo_new).
Proof. apply (sn_aggregate (Snapshot demo_new)), validateSnapshot_ok. by vm_compute. Qed.

Lemma demo_times (v : Z) : times_kept (Snapshot (setPersistedVersion demo_new v)).
Proof.
  assert (Ht : snap_Tasks (Snapshot (setPersistedVersion demo_new v)) = snap_Tasks (Snapshot demo_new)) by done.
  split_and!; [by apply micro_kept; right|by apply micro_kept; right| |constructor].
  rewrite Ht, Forall_forall. intros t Hin.
  assert (Hk : forallb (fun t => (tr_NextAttemptAt t =? 0) && (tr_UpdatedAt t =? 1000) && (tr_StartedAt t =? 0) &&
    (tr_FinishedAt t =? 0) && bool_decide (tr_Lease t = None)) (snap_Tasks (Snapshot demo_new)) = true) by (vm_compute; reflexivity).
  rewrite forallb_forall in Hk. apply list_elem_of_In, Hk in Hin. rewrite !andb_true_iff, !Z.eqb_eq, bool_decide_eq_true in Hin.
  destruct Hin as ((((? & ?) & ?) & ?) & Hl). split_and!; try (apply micro_kept; lia). intros l. by rewrite Hl.
Qed.

Lemma project_admissible db : admissible db op_project.
Proof. split; [split_and!; apply micro_kept; cbn; lia|]. by intros text stored [= <-] [= <-]. Qed.

Lemma demo_steps : rtc postgres_step empty_database db_saved.
Proof.
  eapply (rtc_l _ _ db_project); [exists true, answered, op_project; split; [apply project_admissible|reflexivity]|].
  eapply (rtc_l _ _ db_workflow).
  { exists true, answered, op_workflow. split; [|reflexivity]. split; [apply micro_kept; cbn; lia|]. intros u Hu. vm_compute in Hu. by injection Hu as <-. }
  eapply (rtc_l _ _ db_run).
  { exists true, answered, op_run. split; [|reflexivity]. split; [apply (demo_times 0)|]. exists demo_new.
    split_and!; [reflexivity|apply demo_new_inv|apply demo_aggregate|vm_compute; reflexivity]. }
  eapply (rtc_l _ _ db_saved); [|reflexivity]. exists true, answered, op_save. split; [|reflexivity].
  split; [apply (demo_times 1)|]. exists run_v1, run_v1. split_and!; [reflexivity|apply run_v1_inv|apply demo_aggregate|vm_compute; reflexivity| |vm_compute; reflexivity].
  apply same_run_refl, inv_shaped, run_v1_inv.
Qed.

Lemma postgres_refines_journal_witness :
  exists m, rtc memory_step empty_store m /\ store_match db_saved m /\ integrity m.
Proof. apply (postgres_refines_journal db_saved). exact demo_steps. Defined.

(** ** Reading *)

Definition memory_after (m : FileStore) (op : store_op) : FileStore :=
  match plan_of m (rounded_op op) with Ok planned => plan_memory m planned | Err _ => m end.
Definition memory_project : FileStore := memory_after empty_store op_project.

Lemma project_match : store_match db_project memory_project.
Proof.
  destruct (operation_refines true answered empty_database db_project empty_store op_project (Ok tt)) as [[_ ?]|(planned & Hp & Hm)];
    [apply memory_inv_empty|apply integrity_empty|apply store_match_empty|apply project_admissible|vm_compute; reflexivity|done|].
  unfold memory_project, memory_after. by rewrite Hp.
Qed.

Lemma postgres_reads_agree_witness :
  PostgresStore_LoadUser answered db_project CtxLive "alice" = Ok (Some (mkUser "alice" "Alice" false 1000)) /\
  PostgresStore_LoadProject answered db_project CtxLive "team" = Ok (Some (mkProject "team" "Team" "alice" 2000 2000)) /\
  PostgresStore_ListAuditEvents answered db_project CtxLive "team" 10 = Ok [stored_event team_created].
Proof.
  destruct (postgres_reads_agree db_project memory_project "team" "alice" "demo" 10) as (Hu & Hp & _ & _ & _ & events & He & Hperm & _).
  - exact project_match.
  - repeat constructor.
  - lia.
  - split; [exact Hu|]. split; [exact Hp|]. assert (events = [stored_event team_created]) as ->.
    { apply Permutation_singleton_r. exact Hperm. }
    exact He.
Defined.

(** ** A race

    Two processes save version 1 of the run at once. The second has read the
    definition when the first updates the run, and waits for the lock; after the
    commit it finds version 2 and fails. Then the first saves version 2. At last two
    processes make Bob a member: both find no membership, and the second updates the
    one that the first has committed in between. *)
Definition save_v1 : store_call := CallSaveRun (Snapshot run_v1).
Definition save_v2 : store_call := CallSaveRun (Snapshot (setPersistedVersion demo_new 2)).

Definition both_read : list server_action :=
  [ActBegin 0 save_v1; ActBegin 1 save_v1; ActStatement 0; ActStatement 0; ActStatement 0;
   ActStatement 1; ActStatement 1; ActStatement 1; ActStatement 0].
Definition first_commits : list server_action := replicate 4 (ActStatement 0) ++ [ActCommit 0].
Definition second_fails : list server_action := [ActStatement 1; ActStatement 1; ActEnd 1].
Definition next_version : list server_action := [ActBegin 2 save_v2] ++ replicate 8 (ActStatement 2) ++ [ActCommit 2].

Definition bob : User := mkUser "bob" "Bob" false 1500.
Definition create_ops : store_call :=
  CallCreateProject bob (mkProject "ops" "Ops" "bob" 4000 4000) (mkMembership "ops" "bob" RoleAdmin 4000 4000)
    (mkAuditEvent "audit-2" "ops" "bob" "project.create" "project" "ops" 4000 None).
Definition bob_joins (role : Role) (now : Z) (event : string) : store_call :=
  CallPutMembership bob (mkMembership "team" "bob" role now now)
    (mkAuditEvent event "team" "alice" "membership.put" "membership" "bob" now None).
Definition bob_first : store_call := bob_joins RoleMember 5000 "audit-3".
Definition bob_second : store_call := bob_joins RoleOperator 6000 "audit-4".
Definition both_join : list server_action :=
  [ActBegin 3 create_ops] ++ replicate 6 (ActStatement 3) ++ [ActCommit 3; ActBegin 4 bob_first; ActBegin 5 bob_second]
  ++ replicate 3 (ActStatement 4) ++ replicate 3 (ActStatement 5)
  ++ [ActStatement 4; ActStatement 4; ActCommit 4; ActStatement 5; ActStatement 5; ActCommit 5].

Definition race (acts : list server_action) : option (server * list (store_call * option WorkflowRunSnapshot)) :=
  server_do_all (mkServer db_run ∅) acts.
Definition race_result : server * list (store_call * option WorkflowRunSnapshot) :=
  default (mkServer db_run ∅, []) (race (both_read ++ first_commits ++ second_fails ++ next_version ++ both_join)).

Definition possible (acts : list server_action) : bool :=
  match race acts with Some _ => true | None => false end.

(** The second process cannot go on before the commit, and cannot commit after it. *)
Example second_waits :
  possible both_read = true /\ possible (both_read ++ [ActStatement 1]) = false /\
  possible (both_read ++ first_commits ++ second_fails) = true /\
  possible (both_read ++ first_commits ++ [ActStatement 1; ActStatement 1; ActCommit 1]) = false.
Proof. vm_compute. done. Qed.

Lemma race_run : server_run (mkServer db_run ∅) (snd race_result) (fst race_result).
Proof.
  apply (server_do_all_run _ (both_read ++ first_commits ++ second_fails ++ next_version ++ both_join)).
  vm_compute. reflexivity.
Qed.

Lemma postgres_serializable_witness :
  serial db_run (snd race_result) (srv_db (fst race_result)) /\
  fst <$> snd race_result = [save_v1; save_v2; create_ops; bob_first; bob_second] /\
  rows_of (db_project_memberships (srv_db (fst race_result))) "team" !! "bob" =
    Some (mkMembership "team" "bob" RoleOperator 5000 6000).
Proof.
  split; [|split; vm_compute; reflexivity]. apply (postgres_serializable db_run (snd race_result) (fst race_result)). exact race_run.
Defined.

(** ** Processes on an empty database

    Two projects are created at once, and then Bob joins the first one twice at
    once. *)
Definition create_team : store_call := CallCreateProject alice team alice_admin team_created.
Definition both_create : list server_action :=
  [ActBegin 1 create_team; ActBegin 2 create_ops] ++ mjoin (replicate 6 [ActStatement 1; ActStatement 2])
  ++ [ActCommit 2; ActCommit 1].
Definition members_result : server * list (store_call * option WorkflowRunSnapshot) :=
  default (mkServer empty_database ∅, [])
    (server_do_all (mkServer empty_database ∅) (both_create ++ drop 8 both_join)).

Lemma concurrent_refines_journal_witness :
  fst <$> snd members_result = [create_ops; create_team; bob_first; bob_second] /\
  exists m, rtc memory_step empty_store m /\ store_match (srv_db (fst members_result)) m /\ integrity m.
Proof.
  split; [vm_compute; reflexivity|].
  apply (concurrent_refines_journal (snd members_result) (fst members_result)).
  - apply (server_do_all_run _ (both_create ++ drop 8 both_join)). vm_compute. reflexivity.
  - intros before c a after db1 Heq _.
    assert (Hin : c ∈ [create_ops; create_team; bob_first; bob_second]).
    { assert (Hf : fst <$> snd members_result = [create_ops; create_team; bob_first; bob_second]) by (vm_compute; reflexivity).
      rewrite <- Hf, Heq, fmap_app. apply elem_of_app. right. left. }
    rewrite !elem_of_cons, elem_of_nil in Hin.
    destruct Hin as [->|[->|[->|[->|[]]]]]; (split; [split_and!; apply micro_kept; cbn; lia|]); intros text stored [= <-] [= <-]; reflexivity.
Defined.

(** The results of the two saves that commit. *)
Definition stored_as (n : Z) : option WorkflowRunSnapshot := Some (Snapshot (setPersistedVersion demo_new n)).

Lemma one_winner_per_version_witness :
  snap_Version (Snapshot run_v1) <> snap_Version (Snapshot (setPersistedVersion demo_new 2)).
Proof.
  apply (one_winner_per_version db_run (fst race_result) [] (Snapshot run_v1) (stored_as 2) []
    (Snapshot (setPersistedVersion demo_new 2)) (stored_as 3) [(create_ops, None); (bob_first, None); (bob_second, None)]); [|reflexivity].
  assert (Hc : snd race_result = [(save_v1, stored_as 2); (save_v2, stored_as 3); (create_ops, None); (bob_first, None); (bob_second, None)])
    by (vm_compute; reflexivity).
  exact (eq_rect _ (fun l => server_run (mkServer db_run ∅) l (fst race_result)) race_run _ Hc).
Defined.
