(* ===== verification/RateLimit.v ===== *)
(** * The fixed-window rate limiter

    Models [src/internal/security/rate_limit.go]. The limiter's mutex makes
    [Allow] a function on its state; [now] is the reading of the injected clock,
    taken before the lock. *)
From S2P Require Import Prelude Errors.

Record rateWindow := mkRateWindow {
  rw_startedAt : Z;
  rw_count : Z
}.

Record FixedWindowRateLimiter := mkLimiter {
  rl_limit : Z;
  rl_window : Z;
  rl_windows : gmap string rateWindow;
  rl_calls : Z
}.

Record RateLimitDecision := mkDecision {
  rd_Allowed : bool;
  rd_Limit : Z;
  rd_Remaining : Z;
  rd_RetryAfter : Z;
  rd_ResetAt : Z
}.

Definition NewFixedWindowRateLimiter (limit window : Z) : res go_error FixedWindowRateLimiter :=
  fail_if limit <? 1 with ErrText "rate limit must be at least one" ;;
  fail_if window <=? 0 with ErrText "rate-limit window must be positive" ;;
  Ok (mkLimiter limit window ∅ 0).

Definition maxDuration (left right : Z) : Z := if right <? left then left else right.

Definition window_end (limiter : FixedWindowRateLimiter) (w : rateWindow) : Z :=
  time_add (rw_startedAt w) (rl_window limiter).

(** [!now.Before(window.startedAt.Add(limiter.window))] *)
Definition window_over (limiter : FixedWindowRateLimiter) (now : Z) (w : rateWindow) : bool :=
  negb (time_before now (window_end limiter w)).

(** The loop that deletes finished windows, on every 1024th call. *)
Definition purge (limiter : FixedWindowRateLimiter) (now calls : Z) : gmap string rateWindow :=
  if calls mod 1024 =? 0
  then filter (fun kw => window_over limiter now (snd kw) = false) (rl_windows limiter)
  else rl_windows limiter.

(** The part of [Allow] after the cleanup, on the windows that are left. *)
Definition decide_call (limiter : FixedWindowRateLimiter) (now : Z) (key : string)
    (windows : gmap string rateWindow) : gmap string rateWindow * RateLimitDecision :=
  let fresh := mkRateWindow now 0 in
  let window :=
    match windows !! key with
    | Some w => if window_over limiter now w then fresh else w
    | None => fresh
    end in
  let limit := rl_limit limiter in
  if limit <=? rw_count window then
    (windows,
     mkDecision false limit 0 (maxDuration 0 (time_sub (window_end limiter window) now))
       (window_end limiter window))
  else
    let window := mkRateWindow (rw_startedAt window) (rw_count window + 1) in
    (<[key := window]> windows,
     mkDecision true limit (limit - rw_count window) 0 (window_end limiter window)).

Definition Allow (limiter : FixedWindowRateLimiter) (now : Z) (key : string)
  : FixedWindowRateLimiter * RateLimitDecision :=
  let calls := wrap_uint64 (rl_calls limiter + 1) in
  let '(windows, decision) := decide_call limiter now key (purge limiter now calls) in
  (mkLimiter (rl_limit limiter) (rl_window limiter) windows calls, decision).

(** ** Traces *)

(** The calls of a trace with their decisions. *)
Fixpoint allow_all (limiter : FixedWindowRateLimiter) (calls : list (Z * string))
  : FixedWindowRateLimiter * list (Z * string * RateLimitDecision) :=
  match calls with
  | [] => (limiter, [])
  | (now, key) :: rest =>
      let '(limiter', decision) := Allow limiter now key in
      let '(final, decisions) := allow_all limiter' rest in
      (final, (now, key, decision) :: decisions)
  end.

(** How many calls for [key] were allowed in the window that ends at [reset]. *)
Definition allowed_in (key : string) (reset : Z) (decisions : list (Z * string * RateLimitDecision)) : Z :=
  Z.of_nat (length (filter (fun e => e.1.2 = key /\ rd_Allowed e.2 = true /\ rd_ResetAt e.2 = reset) decisions)).

(** The clock does not go back. *)
Definition clock_monotone (calls : list (Z * string)) : Prop := Sorted Z.le (fst <$> calls).

Lemma allowed_in_cons key reset now k d decisions :
  allowed_in key reset ((now, k, d) :: decisions) =
  (if decide (k = key /\ rd_Allowed d = true /\ rd_ResetAt d = reset) then 1 else 0)
  + allowed_in key reset decisions.
Proof. unfold allowed_in. rewrite filter_cons. cbn. case_decide; cbn; lia. Qed.

Section Window.
Context (limit window : Z) (Hlimit : 1 <= limit) (Hwindow : 0 < window).

Definition same_policy (limiter : FixedWindowRateLimiter) : Prop :=
  rl_limit limiter = limit /\ rl_window limiter = window.

(** How many calls [key] may still make in the window that ends at [reset],
    when no earlier call was made after [last]. *)
Definition quota (limiter : FixedWindowRateLimiter) (last : Z) (key : string) (reset : Z) : Z :=
  match rl_windows limiter !! key with
  | Some w =>
      if decide (reset = window_end limiter w) then limit - rw_count w
      else if decide (window_end limiter w < reset) then limit else 0
  | None => if decide (last < reset) then limit else 0
  end.

Definition counts_ok (limiter : FixedWindowRateLimiter) (last : Z) : Prop :=
  forall key w, rl_windows limiter !! key = Some w ->
    0 <= rw_count w <= limit /\ rw_startedAt w <= last.

Lemma purge_lookup limiter now calls key :
  purge limiter now calls !! key = rl_windows limiter !! key \/
  (purge limiter now calls !! key = None /\
   exists w, rl_windows limiter !! key = Some w /\ window_over limiter now w = true).
Proof.
  unfold purge. destruct (calls mod 1024 =? 0); [|by left].
  destruct (rl_windows limiter !! key) as [w|] eqn:E.
  - destruct (window_over limiter now w) eqn:Eo.
    + right. split; [|eauto]. apply map_lookup_filter_None. right. intros w' Hw'. simplify_eq/=.
      by rewrite Eo.
    + left. by apply map_lookup_filter_Some.
  - left. apply map_lookup_filter_None. by left.
Qed.

(** The state after the cleanup. *)
Lemma purge_quota limiter last now calls :
  same_policy limiter -> counts_ok limiter last -> last <= now ->
  let purged := mkLimiter limit window (purge limiter now calls) calls in
  counts_ok purged now /\ forall k reset, quota purged now k reset <= quota limiter last k reset.
Proof.
  intros [Hl Hw] Hc Hlast purged. split.
  - intros k w Hk. cbn in Hk. destruct (purge_lookup limiter now calls k) as [E|[E _]]; rewrite E in Hk; [|done].
    destruct (Hc k w Hk). split; [done|lia].
  - intros k reset. unfold quota. cbn.
    destruct (purge_lookup limiter now calls k) as [E|(E & w & Ew & Ho)]; rewrite E.
    + destruct (rl_windows limiter !! k) as [w|]; [|repeat case_decide; lia].
      unfold window_end. cbn. rewrite Hw. lia.
    + rewrite Ew. destruct (Hc k w Ew). unfold window_over, window_end, time_before, time_add in *.
      rewrite Hw in *. repeat case_decide; lia.
Qed.

(** One call: the decision is charged to the quota of its window, and no quota
    grows. *)
Lemma decide_call_quota limiter now key :
  same_policy limiter -> counts_ok limiter now ->
  let '(windows, d) := decide_call limiter now key (rl_windows limiter) in
  let limiter' := mkLimiter limit window windows (rl_calls limiter) in
  counts_ok limiter' now /\
  forall k reset,
    (if decide (key = k /\ rd_Allowed d = true /\ rd_ResetAt d = reset) then 1 else 0)
    + quota limiter' now k reset <= quota limiter now k reset.
Proof.
  intros [Hl Hw] Hc. unfold decide_call. rewrite Hl.
  set (w := match rl_windows limiter !! key with Some w => _ | None => _ end).
  assert (Hsel : (w = mkRateWindow now 0 /\ forall reset, now + window <= reset -> quota limiter now key reset = limit) \/
                 rl_windows limiter !! key = Some w).
  { subst w. unfold quota. destruct (rl_windows limiter !! key) as [w|] eqn:E.
    - destruct (window_over limiter now w) eqn:Eo; [left|by right]. split; [done|]. intros reset Hr.
      unfold window_over, window_end, time_before, time_add in *. rewrite Hw in *. repeat case_decide; lia.
    - left. split; [done|]. intros reset Hr. case_decide; lia. }
  destruct (limit <=? rw_count w) eqn:Ec.
  { split; [exact Hc|]. cbn. intros k reset. rewrite decide_False by naive_solver.
    unfold quota, window_end. cbn. rewrite Hw. lia. }
  assert (Hcount : 0 <= rw_count w <= limit /\ rw_startedAt w <= now).
  { destruct Hsel as [[-> _]|E]; [cbn; lia|by apply (Hc key)]. }
  split.
  { intros k v. cbn. rewrite lookup_insert. case_decide; [|apply Hc]. intros [= <-]. cbn. lia. }
  intros k reset. unfold quota at 1. cbn. rewrite lookup_insert.
  destruct (decide (key = k)) as [<-|Hk].
  2: { rewrite decide_False by naive_solver. unfold quota, window_end. cbn. rewrite Hw. lia. }
  unfold window_end, time_add. cbn. rewrite Hw. destruct Hsel as [[Hw0 Hq]|E].
  - rewrite Hw0 in *. cbn in *. destruct (decide (reset = now + window)) as [->|Hr].
    + rewrite decide_True, Hq by (done || lia). lia.
    + rewrite decide_False by naive_solver. case_decide; [rewrite Hq; lia|].
      unfold quota. destruct (rl_windows limiter !! key) as [v|] eqn:Ev; repeat case_decide; try lia.
      destruct (Hc key v Ev). lia.
  - unfold quota. rewrite E. unfold window_end, time_add. rewrite Hw.
    destruct (decide (reset = rw_startedAt w + window)) as [->|Hr].
    + rewrite decide_True by done. lia.
    + rewrite decide_False by naive_solver. lia.
Qed.

Lemma Allow_quota limiter last now key :
  same_policy limiter -> counts_ok limiter last -> last <= now ->
  let '(limiter', d) := Allow limiter now key in
  same_policy limiter' /\ counts_ok limiter' now /\
  forall k reset,
    (if decide (key = k /\ rd_Allowed d = true /\ rd_ResetAt d = reset) then 1 else 0)
    + quota limiter' now k reset <= quota limiter last k reset.
Proof.
  intros [Hl Hw] Hc Hlast. unfold Allow. set (calls := wrap_uint64 _).
  pose proof (purge_quota limiter last now calls (conj Hl Hw) Hc Hlast) as [Hc1 Hq1].
  pose proof (decide_call_quota (mkLimiter limit window (purge limiter now calls) calls) now key
                ltac:(done) Hc1) as H2.
  unfold decide_call in *. cbn [rl_windows rl_calls] in H2.
  replace (window_over limiter) with (window_over (mkLimiter limit window (purge limiter now calls) calls))
    by (unfold window_over, window_end; cbn; by rewrite Hw).
  replace (window_end limiter) with (window_end (mkLimiter limit window (purge limiter now calls) calls))
    by (unfold window_end; cbn; by rewrite Hw).
  rewrite Hl, Hw. cbn [rl_limit] in *.
  destruct (limit <=? _); destruct H2 as [Hc2 Hq2]; (split; [done|]); (split; [done|]);
    intros k reset; specialize (Hq2 k reset); specialize (Hq1 k reset); lia.
Qed.

Lemma allow_all_quota limiter last calls :
  same_policy limiter -> counts_ok limiter last -> Sorted Z.le (last :: (fst <$> calls)) ->
  forall key reset, allowed_in key reset (snd (allow_all limiter calls)) <= quota limiter last key reset.
Proof.
  revert limiter last. induction calls as [|[now k] calls IH]; intros limiter last Hp Hc Hs key reset.
  - change (allowed_in key reset (snd (allow_all limiter []))) with 0. unfold quota. destruct (rl_windows limiter !! key) as [w|] eqn:E; repeat case_decide; try lia.
    destruct (Hc key w E). lia.
  - cbn in Hs. apply Sorted_inv in Hs as [Hs Hh]. apply HdRel_inv in Hh. cbn [allow_all].
    pose proof (Allow_quota limiter last now k Hp Hc Hh) as Hstep.
    destruct (Allow limiter now k) as [limiter' d]. destruct Hstep as (Hp' & Hc' & Hq).
    specialize (IH limiter' now Hp' Hc' Hs key reset).
    destruct (allow_all limiter' calls) as [final decisions]. cbn in IH. cbn [snd].
    rewrite allowed_in_cons. specialize (Hq key reset). lia.
Qed.
End Window.

(** The rate limit. With a clock that does not go back, no key gets more
    than [limit] allowed calls in one window, whatever calls the other keys make
    and whenever finished windows are cleaned up. *)
Theorem rate_limit_per_window (limit window : Z) (limiter : FixedWindowRateLimiter)
    (calls : list (Z * string)) (key : string) (reset : Z) :
  NewFixedWindowRateLimiter limit window = Ok limiter -> clock_monotone calls ->
  allowed_in key reset (snd (allow_all limiter calls)) <= limit.
Proof.
  unfold NewFixedWindowRateLimiter, clock_monotone. rewrite !guard_err_ok. intros (Hl & Hw & [= <-]) Hs.
  set (first := default 0 (fst <$> head calls)).
  etrans; [apply (allow_all_quota limit window ltac:(lia) ltac:(lia) _ first)|].
  - done.
  - intros k w. cbn. by rewrite lookup_empty.
  - constructor; [done|]. destruct calls as [|[t k] calls]; constructor. cbn. lia.
  - unfold quota. cbn. rewrite lookup_empty. case_decide; lia.
Qed.

Lemma rate_limit_per_window_witness :
  allowed_in "u" 10 (snd (allow_all (mkLimiter 2 10 ∅ 0) [(0, "u"); (1, "u"); (2, "u"); (3, "v"); (10, "u")])) <= 2 /\
  allowed_in "u" 10 (snd (allow_all (mkLimiter 2 10 ∅ 0) [(0, "u"); (1, "u"); (2, "u"); (3, "v"); (10, "u")])) = 2.
Proof.
  split; [|vm_compute; reflexivity].
  apply (rate_limit_per_window 2 10); [reflexivity|]. unfold clock_monotone. cbn.
  repeat (constructor; try lia).
Defined.

(** A refused caller is admitted again once the time it was told has passed. *)
Lemma allow_after_wait limiter now key limiter' d now' :
  1 <= rl_limit limiter -> Allow limiter now key = (limiter', d) -> rd_Allowed d = false ->
  rd_RetryAfter d < max_int64 -> now + rd_RetryAfter d <= now' ->
  rd_Allowed (snd (Allow limiter' now' key)) = true.
Proof.
  intros Hlimit Ha Hd Hsat Hwait. unfold Allow in Ha.
  set (calls := wrap_uint64 (rl_calls limiter + 1)) in Ha.
  destruct (decide_call limiter now key (purge limiter now calls)) as [windows d'] eqn:Hcall. simplify_eq.
  unfold decide_call in Hcall. set (w := match purge limiter now calls !! key with Some _ => _ | None => _ end) in Hcall.
  destruct (Z.leb_spec (rl_limit limiter) (rw_count w)) as [Hfull|]; [|by simplify_eq]. injection Hcall as <- <-.
  assert (Hkey : purge limiter now calls !! key = Some w).
  { unfold w in *. destruct (purge limiter now calls !! key) as [w0|]; [|cbn in Hfull; lia].
    destruct (window_over limiter now w0); [cbn in Hfull; lia|done]. }
  assert (Hover : window_end limiter w <= now').
  { cbn in Hsat, Hwait. unfold maxDuration, time_sub, max_int64, min_int64 in *.
    destruct (Z.ltb_spec (Z.max (-9223372036854775808) (Z.min 9223372036854775807 (window_end limiter w - now))) 0); lia. }
  clear Hfull Hd Hsat Hwait. clearbody w calls. unfold Allow, decide_call. cbn [rl_limit rl_calls].
  set (limiter' := mkLimiter _ _ _ _). set (calls' := wrap_uint64 _).
  destruct (purge_lookup limiter' now' calls' key) as [-> | [-> _]]; cbn [rl_windows limiter'].
  - rewrite Hkey. unfold window_over, time_before. change (window_end limiter' w) with (window_end limiter w).
    destruct (Z.ltb_spec now' (window_end limiter w)); [lia|]. cbn [negb rw_count].
    by destruct (Z.leb_spec (rl_limit limiter) 0); [lia|].
  - cbn [rw_count]. by destruct (Z.leb_spec (rl_limit limiter) 0); [lia|].
Qed.
