(* ===== verification/Engine.v ===== *)
(** * The execution engine

    Models [src/internal/execution/engine.go] and the scheduler of
    [src/internal/execution/engine_broker.go]: durable saving, failing and
    cancelling of runs, dependency release, dispatch through the broker, and one
    iteration of the scheduler loop, split into the part before the [select]
    ([loop_top]) and its cases ([handle_event]). The scheduler is one goroutine;
    what its workers send it are events. Logging, metrics and tracing are left
    out, apart from the trace headers of a message. *)
From S2P Require Import Prelude Workflow Heap Graph GraphBuild Errors Run Snapshot Broker.

(** ** The store interface *)

(** [execution.Store]; every call of the engine's scheduler passes a context
    detached from cancellation. *)
Class Store (St : Type) := {
  store_SaveWorkflow : St -> context -> WorkflowDefinition -> St * res go_error unit;
  store_LoadWorkflow : St -> context -> string -> res go_error (option WorkflowDefinition);
  store_CreateRun : St -> context -> WorkflowRunSnapshot -> St * res go_error WorkflowRunSnapshot;
  store_SaveRun : St -> context -> WorkflowRunSnapshot -> St * res go_error WorkflowRunSnapshot;
  store_LoadRun : St -> context -> string -> res go_error (option WorkflowRunSnapshot)
}.

(** ** Dispatch messages *)

Record taskDispatch := mkTaskDispatch {
  dis_RunID : string;
  dis_TaskID : string;
  dis_TaskRunID : string;
  dis_AttemptID : string
}.

(** JSON encoding of a dispatch, and the hexadecimal SHA-256 digest that names a
    run's topic. *)
Class DispatchCodec := {
  marshal_dispatch : taskDispatch -> res go_error string;
  unmarshal_dispatch : string -> res go_error taskDispatch;
  run_digest : string -> string
}.

Section Dispatch.
Context `{Unicode} `{DispatchCodec}.

Definition taskSubscription (runID : string) : Subscription :=
  let suffix := run_digest runID in
  mkSubscription ("forgeflow-run-" +:+ suffix) ("run-" +:+ suffix).

Definition taskTopic (runID : string) : string := sub_Topic (taskSubscription runID).

Definition decodeTaskDispatch (message : TaskMessage) : res go_error taskDispatch :=
  try _ <- validateMessage message ;;
  try dispatch <- rmap_err (wrapf "decode task dispatch") (unmarshal_dispatch (msg_Body message)) ;;
  fail_if negb (validIdentifier (dis_RunID dispatch)) || negb (validIdentifier (dis_TaskID dispatch))
          || negb (validIdentifier (dis_TaskRunID dispatch)) || negb (validIdentifier (dis_AttemptID dispatch))
    with ErrText "decode task dispatch: identity is invalid" ;;
  Ok dispatch.

Definition brokerOperationError (operation runID messageID : string) (cause : option go_error) : go_error :=
  BrokerOperationError operation runID messageID
    (Some (default (ErrText "unknown task broker failure") cause)).

Definition is_settled (err : go_error) : bool :=
  chain_contains (fun e => match e with ErrDeliverySettled => true | _ => false end) err.

Definition acknowledgeDelivery (b : InMemoryBroker) (ctx : context) (runID : string) (d : memoryDelivery)
  : InMemoryBroker * option go_error :=
  match Ack b ctx d with
  | Ok b => (b, None)
  | Err err =>
      let '(b, nackErr) :=
        match Nack b CtxLive d with
        | Ok b => (b, None)
        | Err nackErr => (b, if is_settled nackErr then None else Some nackErr)
        end in
      (b, Some (brokerOperationError "acknowledge task" runID (msg_ID (md_message d))
                  (errors_join [Some err; nackErr])))
  end.
End Dispatch.

(** ** Task definitions *)

Definition taskDefinitionsByID (definition : WorkflowDefinition) : gmap string TaskDefinition :=
  foldl (fun m task => <[td_ID task := task]> m) ∅ (wd_Tasks definition).

Definition requireDefinition (definitions : gmap string TaskDefinition) (taskID : string) : TaskDefinition :=
  default zeroTask (definitions !! taskID).

(** Task IDs are unique within a definition. *)
Definition sortTasks (tasks : list TaskDefinition) : list TaskDefinition := sort_by td_ID tasks.

Definition completedTaskIDs (run : WorkflowRun) : gset string :=
  list_to_set (tr_TaskID <$> filter (fun t => tr_Status t = TaskRunSucceeded) (sortedTasks run)).

Definition existingReadyTasks (run : WorkflowRun) (definition : WorkflowDefinition) : list TaskDefinition :=
  let definitions := taskDefinitionsByID definition in
  sortTasks ((fun t => requireDefinition definitions (tr_TaskID t))
             <$> filter (fun t => tr_Status t = TaskRunReady) (sortedTasks run)).

(** [resolveHandlers]: [handlers] is the content of the registry. *)
Definition resolveHandlers {A : Type} (handlers : gmap string A) (definition : WorkflowDefinition)
  : res go_error (gmap string A) :=
  foldM (fun resolved task =>
    match handlers !! td_Handler task with
    | None => Err (UnknownHandlerError (td_ID task) (td_Handler task))
    | Some handler => Ok (<[td_ID task := handler]> resolved)
    end) ∅ (sortTasks (wd_Tasks definition)).

(** ** Recovery of interrupted runs *)

Definition recoveredTerminalTaskState `{Unicode} (run : WorkflowRun)
  : option (WorkflowRunStatus * go_error) :=
  let tasks := sortedTasks run in
  match List.find (fun t => bool_decide (tr_Status t = TaskRunFailed)) tasks with
  | Some t =>
      Some (WorkflowRunFailed,
            ErrText ("recovered failed task " +:+ quote (tr_TaskID t) +:+ ": " +:+ tr_Error t))
  | None =>
      if existsb (fun t => bool_decide (tr_Status t = TaskRunCanceled)) tasks
      then Some (WorkflowRunCanceled, ErrText "recovered an interrupted workflow cancellation")
      else None
  end.

(** ** The worker pool *)

Record engine_config := mkEngineConfig {
  cfg_workerCount : Z;
  cfg_leaseDuration : Z;
  cfg_workerNamespace : string
}.

Record worker_pool := mkPool {
  wp_workers : gmap string Z;
  wp_currentBySlot : gmap Z string;
  wp_generations : gmap Z Z
}.

Definition worker_id (cfg : engine_config) (runID : string) (slot generation : Z) : string :=
  cfg_workerNamespace cfg +:+ "/" +:+ runID +:+ "/slot-" +:+ fmt_d slot +:+ "/generation-" +:+ fmt_d generation.

Definition spawnWorker (cfg : engine_config) (runID : string) (p : worker_pool) (slot : Z) : worker_pool :=
  let generation := default 0 (wp_generations p !! slot) + 1 in
  let workerID := worker_id cfg runID slot generation in
  mkPool (<[workerID := slot]> (wp_workers p)) (<[slot := workerID]> (wp_currentBySlot p))
    (<[slot := generation]> (wp_generations p)).

(** [currentBySlot[slot]], with Go's zero value. *)
Definition current_worker (p : worker_pool) (slot : Z) : string := default "" (wp_currentBySlot p !! slot).

(** The pool after [replaceWorker], and whether the worker was replaced. *)
Definition replaceWorker (cfg : engine_config) (runID : string) (p : worker_pool) (workerID : string)
  : worker_pool * bool :=
  match wp_workers p !! workerID with
  | None => (p, false)
  | Some slot =>
      if String.eqb (current_worker p slot) workerID
      then (spawnWorker cfg runID
              (mkPool (delete workerID (wp_workers p)) (delete slot (wp_currentBySlot p)) (wp_generations p))
              slot, true)
      else (p, false)
  end.

Definition initial_pool (cfg : engine_config) (runID : string) : worker_pool :=
  foldl (spawnWorker cfg runID) (mkPool ∅ ∅ ∅) (Z.of_nat <$> seq 1 (Z.to_nat (cfg_workerCount cfg))).

(** ** Events *)

(** [claim_response] names the claim's response channel. *)
Record workerClaimEvent := mkClaim {
  claim_workerID : string;
  claim_slot : Z;
  claim_delivery : memoryDelivery;
  claim_response : nat
}.

Record taskJob := mkTaskJob {
  job_RunID : string;
  job_TaskRunID : string;
  job_AttemptID : string;
  job_Task : TaskDefinition
}.

Record brokerTaskResult := mkTaskResult {
  res_taskID : string;
  res_taskRunID : string;
  res_workerID : string;
  res_attemptID : string;
  res_output : string;
  res_err : option go_error;
  res_delivery : memoryDelivery
}.

Inductive sched_event :=
| EvClaim (claim : workerClaimEvent)
| EvHeartbeat (workerID : string)
| EvLost (workerID : string) (slot : Z)
| EvBrokerError (workerID : string) (slot : Z) (err : go_error)
| EvResult (result : brokerTaskResult)
| EvTimer
| EvDone.

(** ** Scheduler state *)

(** The engine takes any [TaskBroker]; here it runs over the in-memory one, which a
    process without a NATS server uses. [sc_responses] logs the sends on response
    channels; [sc_stopped] is set by [shutdownWorkers]; [sc_tick] counts the readings of
    the clock. *)
Record scheduler (St : Type) := mkScheduler {
  sc_store : St;
  sc_broker : InMemoryBroker;
  sc_run : WorkflowRun;
  sc_completed : gset string;
  sc_ready : gmap string TaskDefinition;
  sc_pool : worker_pool;
  sc_inFlight : gset string;
  sc_activeDeliveries : gmap string memoryDelivery;
  sc_pendingClaims : gmap string (list workerClaimEvent);
  sc_published : gset string;
  sc_responses : list (nat * option taskJob);
  sc_stopped : bool;
  sc_tick : nat
}.
Arguments mkScheduler {St}.
Arguments sc_store {St}.
Arguments sc_broker {St}.
Arguments sc_run {St}.
Arguments sc_completed {St}.
Arguments sc_ready {St}.
Arguments sc_pool {St}.
Arguments sc_inFlight {St}.
Arguments sc_activeDeliveries {St}.
Arguments sc_pendingClaims {St}.
Arguments sc_published {St}.
Arguments sc_responses {St}.
Arguments sc_stopped {St}.
Arguments sc_tick {St}.

(** ** Early return *)

Inductive outcome (St A : Type) :=
| Next (st : scheduler St) (value : A)
| Exit (st : scheduler St) (err : option go_error).
Arguments Next {St A} st value.
Arguments Exit {St A} st err.

(** The body of [executeBrokerRun]: [Exit] is [return run, err]. *)
Definition sched (St A : Type) : Type := scheduler St -> outcome St A.

Definition sret {St A : Type} (a : A) : sched St A := fun st => Next st a.
Definition sbind {St A B : Type} (m : sched St A) (k : A -> sched St B) : sched St B :=
  fun st => match m st with
            | Next st a => k a st
            | Exit st err => Exit st err
            end.
Definition sget {St A : Type} (f : scheduler St -> A) : sched St A := fun st => Next st (f st).
Definition smodify {St : Type} (f : scheduler St -> scheduler St) : sched St unit := fun st => Next (f st) tt.
Definition sexit {St A : Type} (err : option go_error) : sched St A := fun st => Exit st err.

Notation "'await' x <- m ;; k" := (sbind m (fun x => k))
  (at level 200, x pattern, m at level 99, k at level 200, right associativity) : go_scope.

Section Setters.
Context {St : Type} (st : scheduler St).
Local Notation keep f := (f st) (only parsing).

Definition set_store (store : St) : scheduler St :=
  mkScheduler store (keep sc_broker) (keep sc_run) (keep sc_completed) (keep sc_ready) (keep sc_pool)
    (keep sc_inFlight) (keep sc_activeDeliveries) (keep sc_pendingClaims) (keep sc_published)
    (keep sc_responses) (keep sc_stopped) (keep sc_tick).
Definition set_broker (b : InMemoryBroker) : scheduler St :=
  mkScheduler (keep sc_store) b (keep sc_run) (keep sc_completed) (keep sc_ready) (keep sc_pool)
    (keep sc_inFlight) (keep sc_activeDeliveries) (keep sc_pendingClaims) (keep sc_published)
    (keep sc_responses) (keep sc_stopped) (keep sc_tick).
Definition set_run (r : WorkflowRun) : scheduler St :=
  mkScheduler (keep sc_store) (keep sc_broker) r (keep sc_completed) (keep sc_ready) (keep sc_pool)
    (keep sc_inFlight) (keep sc_activeDeliveries) (keep sc_pendingClaims) (keep sc_published)
    (keep sc_responses) (keep sc_stopped) (keep sc_tick).
Definition set_completed (c : gset string) : scheduler St :=
  mkScheduler (keep sc_store) (keep sc_broker) (keep sc_run) c (keep sc_ready) (keep sc_pool)
    (keep sc_inFlight) (keep sc_activeDeliveries) (keep sc_pendingClaims) (keep sc_published)
    (keep sc_responses) (keep sc_stopped) (keep sc_tick).
Definition set_ready (r : gmap string TaskDefinition) : scheduler St :=
  mkScheduler (keep sc_store) (keep sc_broker) (keep sc_run) (keep sc_completed) r (keep sc_pool)
    (keep sc_inFlight) (keep sc_activeDeliveries) (keep sc_pendingClaims) (keep sc_published)
    (keep sc_responses) (keep sc_stopped) (keep sc_tick).
Definition set_pool (p : worker_pool) : scheduler St :=
  mkScheduler (keep sc_store) (keep sc_broker) (keep sc_run) (keep sc_completed) (keep sc_ready) p
    (keep sc_inFlight) (keep sc_activeDeliveries) (keep sc_pendingClaims) (keep sc_published)
    (keep sc_responses) (keep sc_stopped) (keep sc_tick).
Definition set_inFlight (s : gset string) : scheduler St :=
  mkScheduler (keep sc_store) (keep sc_broker) (keep sc_run) (keep sc_completed) (keep sc_ready) (keep sc_pool)
    s (keep sc_activeDeliveries) (keep sc_pendingClaims) (keep sc_published)
    (keep sc_responses) (keep sc_stopped) (keep sc_tick).
Definition set_activeDeliveries (m : gmap string memoryDelivery) : scheduler St :=
  mkScheduler (keep sc_store) (keep sc_broker) (keep sc_run) (keep sc_completed) (keep sc_ready) (keep sc_pool)
    (keep sc_inFlight) m (keep sc_pendingClaims) (keep sc_published)
    (keep sc_responses) (keep sc_stopped) (keep sc_tick).
Definition set_pendingClaims (m : gmap string (list workerClaimEvent)) : scheduler St :=
  mkScheduler (keep sc_store) (keep sc_broker) (keep sc_run) (keep sc_completed) (keep sc_ready) (keep sc_pool)
    (keep sc_inFlight) (keep sc_activeDeliveries) m (keep sc_published)
    (keep sc_responses) (keep sc_stopped) (keep sc_tick).
Definition set_published (s : gset string) : scheduler St :=
  mkScheduler (keep sc_store) (keep sc_broker) (keep sc_run) (keep sc_completed) (keep sc_ready) (keep sc_pool)
    (keep sc_inFlight) (keep sc_activeDeliveries) (keep sc_pendingClaims) s
    (keep sc_responses) (keep sc_stopped) (keep sc_tick).
Definition respond (claim : workerClaimEvent) (job : option taskJob) : scheduler St :=
  mkScheduler (keep sc_store) (keep sc_broker) (keep sc_run) (keep sc_completed) (keep sc_ready) (keep sc_pool)
    (keep sc_inFlight) (keep sc_activeDeliveries) (keep sc_pendingClaims) (keep sc_published)
    (keep sc_responses ++ [(claim_response claim, job)]) (keep sc_stopped) (keep sc_tick).
Definition stop : scheduler St :=
  mkScheduler (keep sc_store) (keep sc_broker) (keep sc_run) (keep sc_completed) (keep sc_ready) (keep sc_pool)
    (keep sc_inFlight) (keep sc_activeDeliveries) (keep sc_pendingClaims) (keep sc_published)
    (keep sc_responses) true (keep sc_tick).
Definition tick : scheduler St :=
  mkScheduler (keep sc_store) (keep sc_broker) (keep sc_run) (keep sc_completed) (keep sc_ready) (keep sc_pool)
    (keep sc_inFlight) (keep sc_activeDeliveries) (keep sc_pendingClaims) (keep sc_published)
    (keep sc_responses) (keep sc_stopped) (S (keep sc_tick)).
End Setters.

Definition ctx_err (ctx : context) : option go_error :=
  match ctx with CtxDone err => Some err | _ => None end.

Section Engine.
Context `{Unicode} `{DispatchCodec} {St : Type} `{Store St}.
(** [clock n] is the [n]-th reading of the engine's clock; [trace_headers] are
    the headers the propagator injects into the message of an attempt. *)
Context (clock : nat -> Z) (cfg : engine_config) (trace_headers : string -> gmap string string).

(** A call of a method of the run, at the next reading of the clock. *)
Definition call {A : Type} (f : WorkflowRun -> Z -> res go_error (WorkflowRun * A)) : sched St (res go_error A) :=
  fun st =>
    let now := clock (sc_tick st) in
    let st := tick st in
    match f (sc_run st) now with
    | Ok (r, a) => Next (set_run st r) (Ok a)
    | Err err => Next st (Err err)
    end.

Definition with_unit (m : res go_error WorkflowRun) : res go_error (WorkflowRun * unit) :=
  try r <- m ;; Ok (r, tt).

(** ** Saving *)

Definition applyPersistedVersion (r : WorkflowRun) (candidate stored : WorkflowRunSnapshot)
  : res go_error WorkflowRun :=
  fail_if negb (String.eqb (snap_ID stored) (snap_ID candidate))
          || negb (String.eqb (snap_WorkflowID stored) (snap_WorkflowID candidate))
    with ErrText "store returned a different workflow run after persistence" ;;
  fail_if negb (snap_Version stored =? wrap_uint64 (snap_Version candidate + 1))
    with ErrText ("store returned workflow run version " +:+ fmt_d (snap_Version stored)
                  +:+ " after version " +:+ fmt_d (snap_Version candidate)) ;;
  Ok (setPersistedVersion r (snap_Version stored)).

Definition persistenceError (operation runID : string) (cause : go_error) : go_error :=
  PersistenceError operation runID (Some cause).

Definition saveRun (operation : string) : sched St (option go_error) := fun st =>
  let r := sc_run st in
  let candidate := Snapshot r in
  let '(store, result) := store_SaveRun (sc_store st) CtxLive candidate in
  let st := set_store st store in
  match rbind result (applyPersistedVersion r candidate) with
  | Err err => Next st (Some (persistenceError operation (run_id r) err))
  | Ok r => Next (set_run st r) None
  end.

(** [if err := saveRun(...); err != nil { return ... }] with the given return. *)
Definition saveRun_or (operation : string) (failed : go_error -> sched St unit) : sched St unit :=
  await err <- saveRun operation ;;
  match err with Some err => failed err | None => sret tt end.

Definition failRun {A : Type} (cause : go_error) : sched St A :=
  await _ <- call (fun r now => Ok (cancelUnfinished r now (Some cause), tt)) ;;
  await moved <- call (fun r now => with_unit (transitionWorkflow r now WorkflowRunFailed)) ;;
  match moved with
  | Err err => sexit (Some (ErrJoin [cause; wrapf "mark workflow failed" err]))
  | Ok _ =>
      await err <- saveRun "fail workflow run" ;;
      match err with
      | Some err => sexit (Some (ErrJoin [cause; err]))
      | None => sexit (Some cause)
      end
  end.

Definition cancelRun {A : Type} (cause : go_error) : sched St A :=
  await _ <- call (fun r now => Ok (cancelUnfinished r now (Some cause), tt)) ;;
  await moved <- call (fun r now => with_unit (transitionWorkflow r now WorkflowRunCanceled)) ;;
  match moved with
  | Err err => sexit (Some (wrapf "cancel workflow run" err))
  | Ok _ =>
      await runID <- sget (fun st => run_id (sc_run st)) ;;
      let canceledError := RunCanceledError runID (Some cause) in
      await err <- saveRun "cancel workflow run" ;;
      match err with
      | Some err => sexit (Some (ErrJoin [canceledError; err]))
      | None => sexit (Some canceledError)
      end
  end.

Definition shutdown {A : Type} (k : sched St A) : sched St A :=
  await _ <- smodify stop ;; k.

(** ** Dependency release *)

Fixpoint mark_ready (candidates ready : list TaskDefinition)
  : sched St (res go_error (list TaskDefinition)) :=
  match candidates with
  | [] => sret (Ok ready)
  | task :: rest =>
      await status <- sget (fun st => taskStatus (sc_run st) (td_ID task)) ;;
      match status with
      | Err err => sret (Err err)
      | Ok status =>
          if negb (bool_decide (status = TaskRunPending)) then mark_ready rest ready
          else
            await moved <- call (fun r now => with_unit (transitionTask r now (td_ID task) TaskRunReady "" None)) ;;
            match moved with
            | Err err => sret (Err err)
            | Ok _ => mark_ready rest (ready ++ [task])
            end
      end
  end.

Definition markNewReady : sched St (res go_error (list TaskDefinition)) :=
  await candidates <- sget (fun st => ReadyTasks (run_definition (sc_run st)) (sc_completed st)) ;;
  match candidates with
  | Err err => sret (Err (ErrValidation err))
  | Ok candidates => mark_ready candidates []
  end.

Definition add_ready (ready : gmap string TaskDefinition) (tasks : list TaskDefinition)
  : gmap string TaskDefinition :=
  foldl (fun m task => <[td_ID task := task]> m) ready tasks.

(** ** Publication *)

Definition publish_task (ctx : context) (taskID : string) : sched St (option go_error) := fun st =>
  let r := sc_run st in
  match run_tasks r !! taskID with
  | None => Next st (Some (ErrText ("publish ready task " +:+ quote taskID +:+ ": task run is missing")))
  | Some task =>
      let attemptID := AttemptIDFor (tr_TaskRunID task) (wrap_int64 (tr_AttemptCount task + 1)) in
      if bool_decide (attemptID ∈ sc_published st) then Next st None
      else
        match marshal_dispatch (mkTaskDispatch (run_id r) taskID (tr_TaskRunID task) attemptID) with
        | Err err => Next st (Some (brokerOperationError "encode task" (run_id r) attemptID (Some err)))
        | Ok body =>
            let message := mkTaskMessage attemptID (taskTopic (run_id r)) body (trace_headers attemptID) in
            match Publish (sc_broker st) ctx message with
            | Err err => Next st (Some (brokerOperationError "publish task" (run_id r) attemptID (Some err)))
            | Ok b => Next (set_published (set_broker st b) ({[attemptID]} ∪ sc_published st)) None
            end
        end
  end.

Fixpoint publish_tasks (ctx : context) (taskIDs : list string) : sched St (option go_error) :=
  match taskIDs with
  | [] => sret None
  | taskID :: rest =>
      await err <- publish_task ctx taskID ;;
      match err with Some err => sret (Some err) | None => publish_tasks ctx rest end
  end.

Definition publishReadyTasks (ctx : context) : sched St (option go_error) :=
  await taskIDs <- sget (fun st => sort_strings (fst <$> map_to_list (sc_ready st))) ;;
  publish_tasks ctx taskIDs.

(** ** Settling deliveries *)

Definition ack_delivery (d : memoryDelivery) : sched St (option go_error) := fun st =>
  let '(b, err) := acknowledgeDelivery (sc_broker st) CtxLive (run_id (sc_run st)) d in
  Next (set_broker st b) err.

Definition send_response (claim : workerClaimEvent) (job : option taskJob) : sched St unit :=
  smodify (fun st => respond st claim job).

Fixpoint acknowledgePendingClaims (claims : list workerClaimEvent) : sched St (option go_error) :=
  match claims with
  | [] => sret None
  | claim :: rest =>
      await err <- ack_delivery (claim_delivery claim) ;;
      match err with
      | Some err => sret (Some err)
      | None => await _ <- send_response claim None ;; acknowledgePendingClaims rest
      end
  end.

(** Acknowledge and forget the claims that wait for an attempt. *)
Definition release_claims (attemptID : string) : sched St unit :=
  await claims <- sget (fun st => default [] (sc_pendingClaims st !! attemptID)) ;;
  await err <- acknowledgePendingClaims claims ;;
  match err with
  | Some err => shutdown (sexit (Some err))
  | None => smodify (fun st => set_pendingClaims st (delete attemptID (sc_pendingClaims st)))
  end.

Fixpoint release_all (attemptIDs : list string) : sched St unit :=
  match attemptIDs with
  | [] => sret tt
  | attemptID :: rest => await _ <- release_claims attemptID ;; release_all rest
  end.

(** ** One iteration *)

(** The effects of one lease recovery on the scheduler's own state; the last
    recovery without a retry is the failure of the run. *)
Definition apply_recovery (recovery : LeaseRecovery) (st : scheduler St) : scheduler St :=
  let st := set_inFlight st (sc_inFlight st ∖ {[lr_AttemptID recovery]}) in
  let st :=
    if string_is_empty (lr_WorkerID recovery) then st
    else
      let '(p, replaced) := replaceWorker cfg (run_id (sc_run st)) (sc_pool st) (lr_WorkerID recovery) in
      let st := set_pool st p in
      if replaced
      then set_activeDeliveries st (delete (lr_WorkerID recovery) (sc_activeDeliveries st)) else st in
  if bool_decide (lr_Outcome recovery = CompletionRetryScheduled) then
    let task := requireDefinition (taskDefinitionsByID (run_definition (sc_run st))) (lr_TaskID recovery) in
    match run_tasks (sc_run st) !! lr_TaskID recovery with
    | Some current =>
        if bool_decide (tr_Status current = TaskRunReady)
        then set_ready st (<[td_ID task := task]> (sc_ready st)) else st
    | None => st
    end
  else st.

Definition lease_failure (runID : string) (recoveries : list LeaseRecovery) : option go_error :=
  foldl (fun failure recovery =>
    if bool_decide (lr_Outcome recovery = CompletionRetryScheduled) then failure
    else Some (TaskExecutionError runID (lr_TaskID recovery)
                 (Some (LeaseExpiredError runID (lr_TaskID recovery) (lr_AttemptID recovery)))))
    None recoveries.

(** Expired leases and due retries; nothing is saved when there are none. *)
Definition recover_and_promote : sched St unit :=
  await recovered <- call (fun r now => Ok (recoverExpiredLeases r now)) ;;
  let recoveries := match recovered with Ok l => l | Err _ => [] end in
  await due <- call (fun r now => Ok (promoteDueRetries r now)) ;;
  let promoted := match due with Ok l => l | Err _ => [] end in
  await _ <- smodify (fun st => foldl (fun st recovery => apply_recovery recovery st) st recoveries) ;;
  await _ <- smodify (fun st =>
    let definitions := taskDefinitionsByID (run_definition (sc_run st)) in
    set_ready st (foldl (fun m taskID => <[taskID := requireDefinition definitions taskID]> m)
                        (sc_ready st) promoted)) ;;
  await _ <-
    (if Nat.eqb (length recoveries) 0 && Nat.eqb (length promoted) 0 then sret tt
     else
       await _ <- saveRun_or "recover expired leases and due retries" (fun err => shutdown (failRun err)) ;;
       release_all (lr_AttemptID <$> recoveries)) ;;
  await runID <- sget (fun st => run_id (sc_run st)) ;;
  match lease_failure runID recoveries with
  | Some failure => shutdown (failRun failure)
  | None => sret tt
  end.

Definition finish_if_complete : sched St unit :=
  await complete <- sget (fun st =>
    Nat.eqb (size (sc_completed st)) (length (wd_Tasks (run_definition (sc_run st))))) ;;
  if complete then
    shutdown (
      await moved <- call (fun r now => with_unit (transitionWorkflow r now WorkflowRunSucceeded)) ;;
      match moved with
      | Err err => failRun (wrapf "complete workflow run" err)
      | Ok _ =>
          await _ <- saveRun_or "complete workflow run" (fun err => sexit (Some err)) ;;
          sexit None
      end)
  else sret tt.

Definition stalled_error (runID : string) : go_error :=
  ErrText ("workflow run " +:+ quote runID +:+ " stalled with unfinished tasks").

Definition check_stalled : sched St unit :=
  await stalled <- sget (fun st =>
    Nat.eqb (size (sc_ready st)) 0 && Nat.eqb (size (sc_inFlight st)) 0
    && negb (snd (nextReliabilityDeadline (sc_run st)))) ;;
  if stalled then
    await runID <- sget (fun st => run_id (sc_run st)) ;;
    shutdown (failRun (stalled_error runID))
  else sret tt.

(** The loop body before the [select]: [ctx] and [ctx_publish] are the context
    as it is read at the top and by the publications. *)
Definition loop_top (ctx ctx_publish : context) : sched St unit :=
  match ctx_err ctx with
  | Some err => shutdown (cancelRun err)
  | None =>
      await _ <- recover_and_promote ;;
      await _ <- finish_if_complete ;;
      await err <- publishReadyTasks ctx_publish ;;
      match err with
      | Some err => shutdown (sexit (Some err))
      | None => check_stalled
      end
  end.

(** ** The cases of the [select] *)

Definition exit_with {A : Type} (err : go_error) : sched St A := shutdown (sexit (Some err)).

(** Acknowledge a delivery that is not acceptable, and give up. *)
Definition reject_claim (claim : workerClaimEvent) (operation : string) (err : option go_error) : sched St unit :=
  await ackErr <- ack_delivery (claim_delivery claim) ;;
  await _ <- send_response claim None ;;
  await runID <- sget (fun st => run_id (sc_run st)) ;;
  exit_with (brokerOperationError operation runID (msg_ID (md_message (claim_delivery claim)))
               (errors_join [err; ackErr])).

Definition lease_claim (claim : workerClaimEvent) (dispatch : taskDispatch) (task : TaskRun) : sched St unit :=
  await started <- call (fun r now =>
    startTaskAttempt r now (dis_TaskID dispatch) (claim_workerID claim) (cfg_leaseDuration cfg)) ;;
  match started with
  | Err err => shutdown (failRun (wrapf "lease delivered task" err))
  | Ok attemptID =>
      await _ <- saveRun_or "lease delivered task" exit_with ;;
      smodify (fun st =>
        let definitions := taskDefinitionsByID (run_definition (sc_run st)) in
        let st := set_ready st (delete (dis_TaskID dispatch) (sc_ready st)) in
        let st := set_inFlight st ({[attemptID]} ∪ sc_inFlight st) in
        let st := set_activeDeliveries st
                    (<[claim_workerID claim := claim_delivery claim]> (sc_activeDeliveries st)) in
        respond st claim (Some (mkTaskJob (run_id (sc_run st)) (tr_TaskRunID task) attemptID
                                  (cloneTask (requireDefinition definitions (dis_TaskID dispatch))))))
  end.

Definition accept_claim (claim : workerClaimEvent) (dispatch : taskDispatch) (task : TaskRun) : sched St unit :=
  if bool_decide (tr_Status task = TaskRunReady)
     && String.eqb (dis_AttemptID dispatch)
          (AttemptIDFor (tr_TaskRunID task) (wrap_int64 (tr_AttemptCount task + 1)))
  then lease_claim claim dispatch task
  else if bool_decide (tr_Status task = TaskRunRunning)
          && String.eqb (dis_AttemptID dispatch) (tr_CurrentAttemptID task)
  then smodify (fun st =>
         let waiting := default [] (sc_pendingClaims st !! dis_AttemptID dispatch) in
         set_pendingClaims st (<[dis_AttemptID dispatch := waiting ++ [claim]]> (sc_pendingClaims st)))
  else
    await err <- ack_delivery (claim_delivery claim) ;;
    match err with
    | Some err => exit_with err
    | None => send_response claim None
    end.

(** A claim of a worker that has been replaced gives its delivery back. *)
Definition stale_claim (claim : workerClaimEvent) : sched St unit := fun st =>
  match Nack (sc_broker st) CtxLive (claim_delivery claim) with
  | Ok b => Next (respond (set_broker st b) claim None) tt
  | Err err =>
      if is_settled err then Next (respond st claim None) tt
      else exit_with (brokerOperationError "nack stale worker delivery" (run_id (sc_run st))
                        (msg_ID (md_message (claim_delivery claim))) (Some err)) st
  end.

Definition handle_claim (claim : workerClaimEvent) : sched St unit :=
  await current <- sget (fun st => current_worker (sc_pool st) (claim_slot claim)) ;;
  if negb (String.eqb current (claim_workerID claim)) then stale_claim claim
  else
    let message := md_message (claim_delivery claim) in
    await r <- sget sc_run ;;
    match decodeTaskDispatch message with
    | Err err => reject_claim claim "decode task delivery" (Some err)
    | Ok dispatch =>
        if negb (String.eqb (dis_RunID dispatch) (run_id r))
           || negb (String.eqb (msg_Topic message) (taskTopic (run_id r)))
           || negb (String.eqb (msg_ID message) (dis_AttemptID dispatch))
        then reject_claim claim "decode task delivery" None
        else
          match run_tasks r !! dis_TaskID dispatch with
          | Some task =>
              if negb (String.eqb (dis_TaskRunID dispatch) (TaskRunIDFor (run_id r) (dis_TaskID dispatch)))
              then reject_claim claim "validate task delivery"
                     (Some (ErrText "delivery references unknown task identity"))
              else accept_claim claim dispatch task
          | None => reject_claim claim "validate task delivery"
                      (Some (ErrText "delivery references unknown task identity"))
          end
    end.

Definition worker_current (workerID : string) (st : scheduler St) : bool :=
  match wp_workers (sc_pool st) !! workerID with
  | Some slot => String.eqb (current_worker (sc_pool st) slot) workerID
  | None => false
  end.

Definition handle_heartbeat (workerID : string) : sched St unit :=
  await alive <- sget (worker_current workerID) ;;
  if negb alive then sret tt
  else
    await recorded <- call (fun r now => with_unit (recordWorkerHeartbeat r now workerID (cfg_leaseDuration cfg))) ;;
    match recorded with
    | Err err => shutdown (failRun (wrapf "record worker heartbeat" err))
    | Ok _ =>
        await _ <- saveRun_or "record worker heartbeat" exit_with ;;
        await active <- sget (fun st => sc_activeDeliveries st !! workerID) ;;
        match active with
        | None => sret tt
        | Some delivery =>
            await progressed <- sget (fun st => Progress (sc_broker st) CtxLive delivery) ;;
            await runID <- sget (fun st => run_id (sc_run st)) ;;
            match progressed with
            | Err err => exit_with (brokerOperationError "extend task delivery" runID
                                      (msg_ID (md_message delivery)) (Some err))
            | Ok _ => sret tt
            end
        end
    end.

Definition handle_lost (workerID : string) (slot : Z) : sched St unit := smodify (fun st =>
  if String.eqb (current_worker (sc_pool st) slot) workerID then
    let '(p, _) := replaceWorker cfg (run_id (sc_run st)) (sc_pool st) workerID in
    set_pool (set_activeDeliveries st (delete workerID (sc_activeDeliveries st))) p
  else st).

Definition handle_broker_error (workerID : string) (slot : Z) (err : go_error) : sched St unit :=
  await current <- sget (fun st => current_worker (sc_pool st) slot) ;;
  await runID <- sget (fun st => run_id (sc_run st)) ;;
  if negb (String.eqb current workerID) then sret tt
  else exit_with (brokerOperationError "receive task" runID "" (Some err)).

(** What the outcome of a completion makes the scheduler do, up to the save; the
    result is the failure that ends the run. *)
Definition record_outcome (result : brokerTaskResult) (outcome : CompletionOutcome) : sched St (option go_error) :=
  match outcome with
  | CompletionIgnored => sret None
  | CompletionSucceeded =>
      await _ <- smodify (fun st => set_completed st ({[res_taskID result]} ∪ sc_completed st)) ;;
      await newReady <- markNewReady ;;
      match newReady with
      | Err err => shutdown (failRun (wrapf "unlock dependent tasks" err))
      | Ok newReady =>
          await _ <- smodify (fun st => set_ready st (add_ready (sc_ready st) newReady)) ;;
          await _ <- saveRun_or "record completion and unlock dependencies" exit_with ;;
          sret None
      end
  | CompletionRetryScheduled =>
      await _ <- smodify (fun st =>
        match run_tasks (sc_run st) !! res_taskID result with
        | Some task =>
            if bool_decide (tr_Status task = TaskRunReady)
            then set_ready st (<[res_taskID result :=
                   requireDefinition (taskDefinitionsByID (run_definition (sc_run st))) (res_taskID result)]>
                   (sc_ready st))
            else st
        | None => st
        end) ;;
      await _ <- saveRun_or "schedule task retry" exit_with ;;
      sret None
  | CompletionFailed =>
      await _ <- saveRun_or "record terminal task failure" exit_with ;;
      await runID <- sget (fun st => run_id (sc_run st)) ;;
      sret (Some (TaskExecutionError runID (res_taskID result) (res_err result)))
  end.

Definition handle_result (ctx : context) (result : brokerTaskResult) : sched St unit :=
  match ctx_err ctx with
  | Some err => shutdown (cancelRun err)
  | None =>
      await _ <- smodify (fun st =>
        set_inFlight (set_activeDeliveries st (delete (res_workerID result) (sc_activeDeliveries st)))
          (sc_inFlight st ∖ {[res_attemptID result]})) ;;
      await completed <- call (fun r now =>
        completeTaskAttempt r now (res_taskID result) (res_taskRunID result) (res_workerID result)
          (res_attemptID result) (res_output result) (res_err result)) ;;
      match completed with
      | Err err => shutdown (failRun (wrapf "record identified task completion" err))
      | Ok outcome =>
          await terminalFailure <- record_outcome result outcome ;;
          await err <- ack_delivery (res_delivery result) ;;
          match err with
          | Some err => exit_with err
          | None =>
              await _ <- release_claims (res_attemptID result) ;;
              match terminalFailure with
              | Some failure => shutdown (failRun failure)
              | None => sret tt
              end
          end
      end
  end.

Definition handle_event (ctx : context) (event : sched_event) : sched St unit :=
  match event with
  | EvClaim claim => handle_claim claim
  | EvHeartbeat workerID => handle_heartbeat workerID
  | EvLost workerID slot => handle_lost workerID slot
  | EvBrokerError workerID slot err => handle_broker_error workerID slot err
  | EvResult result => handle_result ctx result
  | EvTimer => sret tt
  | EvDone =>
      match ctx_err ctx with
      | Some err => shutdown (cancelRun err)
      | None => sret tt
      end
  end.

(** ** Running a workflow *)

(** The attempts in flight when the scheduler starts. *)
Definition running_attempts (r : WorkflowRun) : gset string :=
  list_to_set (tr_CurrentAttemptID
    <$> filter (fun t => tr_Status t = TaskRunRunning /\ tr_CurrentAttemptID t <> "") (sortedTasks r)).

(** The scheduler's variables at the top of [executeBrokerRun]. *)
Definition initial_scheduler (store : St) (b : InMemoryBroker) (r : WorkflowRun) (n : nat) : scheduler St :=
  mkScheduler store b r (completedTaskIDs r) (add_ready ∅ (existingReadyTasks r (run_definition r)))
    (mkPool ∅ ∅ ∅) ∅ ∅ ∅ ∅ [] false n.

(** From the top of [executeBrokerRun] to its loop. *)
Definition prepare : sched St unit :=
  await newReady <- markNewReady ;;
  match newReady with
  | Err err => failRun (wrapf "prepare workflow run" err)
  | Ok newReady =>
      await _ <- smodify (fun st => set_ready st (add_ready (sc_ready st) newReady)) ;;
      await _ <- (if Nat.eqb (length newReady) 0 then sret tt
                  else saveRun_or "make dependency-ready tasks schedulable" failRun) ;;
      smodify (fun st =>
        set_inFlight (set_pool st (initial_pool cfg (run_id (sc_run st)))) (running_attempts (sc_run st)))
  end.

(** A call of another goroutine on the broker, which the run's workers and the
    other runs of the process share. *)
Inductive broker_call :=
| CallPublish (ctx : context) (message : TaskMessage)
| CallReceive (ctx : context) (subscription : Subscription)
| CallAck (ctx : context) (d : memoryDelivery)
| CallNack (ctx : context) (d : memoryDelivery)
| CallClose.

(** A call that fails changes nothing. *)
Definition answer (b : InMemoryBroker) (call : broker_call) : InMemoryBroker :=
  match
    match call with
    | CallPublish ctx message => Publish b ctx message
    | CallReceive ctx subscription => rbind (Receive b ctx subscription) (fun '(b, _) => Ok b)
    | CallAck ctx d => Ack b ctx d
    | CallNack ctx d => Nack b ctx d
    | CallClose => Ok (Close b)
    end
  with
  | Ok b => b
  | Err _ => b
  end.

(** What one pass of the loop reads from outside: the context at its three
    readings, the calls that reach the broker before [select] takes an event, and
    that event. *)
Record iteration := mkIteration {
  it_ctx : context;
  it_ctx_publish : context;
  it_others : list broker_call;
  it_ctx_event : context;
  it_event : sched_event
}.

Definition iterate (it : iteration) : sched St unit :=
  await _ <- loop_top (it_ctx it) (it_ctx_publish it) ;;
  await _ <- smodify (fun st => set_broker st (foldl answer (sc_broker st) (it_others it))) ;;
  handle_event (it_ctx_event it) (it_event it).

Fixpoint loop (its : list iteration) : sched St unit :=
  match its with
  | [] => sret tt
  | it :: rest => await _ <- iterate it ;; loop rest
  end.

(** [executeBrokerRun] during the passes [its]: [Next] while it has not returned. *)
Definition executeBrokerRun (its : list iteration) : sched St unit :=
  await _ <- smodify (fun st => initial_scheduler (sc_store st) (sc_broker st) (sc_run st) (sc_tick st)) ;;
  await _ <- prepare ;;
  loop its.

(** [Execute] and [Recover] return no run before one exists. *)
Inductive engine_result :=
| NoRun (store : St) (err : go_error)
| WithRun (result : outcome St unit).

(** [Execute] after the run has been created in memory. *)
Definition start_run (ctx : context) (its : list iteration) : sched St unit :=
  match ctx_err ctx with
  | Some err => cancelRun err
  | None =>
      await moved <- call (fun r now => with_unit (transitionWorkflow r now WorkflowRunRunning)) ;;
      match moved with
      | Err err => sexit (Some (wrapf "start workflow run" err))
      | Ok _ =>
          await _ <- saveRun_or "start workflow run" (fun err => sexit (Some err)) ;;
          executeBrokerRun its
      end
  end.

Definition Execute {A : Type} (handlers : gmap string A) (store : St) (b : InMemoryBroker) (ctx : context)
    (runID : string) (definition : WorkflowDefinition) (its : list iteration) : engine_result :=
  match ctx with
  | CtxNil => NoRun store (ErrText "execute workflow: context is nil")
  | _ =>
      match newWorkflowRun runID definition (clock 0) with
      | Err err => NoRun store err
      | Ok r =>
          match resolveHandlers handlers (run_definition r) with
          | Err err => NoRun store err
          | Ok _ =>
              match store_SaveWorkflow store CtxLive (run_definition r) with
              | (store, Err err) => NoRun store (persistenceError "save workflow definition" runID err)
              | (store, Ok _) =>
                  let '(store, created) := store_CreateRun store CtxLive (Snapshot r) in
                  match rbind created (applyPersistedVersion r (Snapshot r)) with
                  | Err err => NoRun store (persistenceError "create workflow run" runID err)
                  | Ok r => WithRun (start_run ctx its (initial_scheduler store b r 1))
                  end
              end
          end
      end
  end.

(** [Recover] on the restored run. *)
Definition resume_run {A : Type} (handlers : gmap string A) (ctx : context) (its : list iteration)
  : sched St unit :=
  await r <- sget sc_run ;;
  if bool_decide (run_status r = WorkflowRunSucceeded \/ run_status r = WorkflowRunFailed \/
                  run_status r = WorkflowRunCanceled)
  then sexit None
  else
    match recoveredTerminalTaskState r with
    | Some (status, cause) =>
        await _ <- call (fun r now => Ok (cancelUnfinished r now (Some cause), tt)) ;;
        await moved <- call (fun r now => with_unit (transitionWorkflow r now status)) ;;
        match moved with
        | Err err => sexit (Some (wrapf "finish recovered workflow run" err))
        | Ok _ =>
            await _ <- saveRun_or "finish recovered workflow run" (fun err => sexit (Some err)) ;;
            sexit None
        end
    | None =>
        await _ <-
          (if bool_decide (run_status r = WorkflowRunPending) then
             await moved <- call (fun r now => with_unit (transitionWorkflow r now WorkflowRunRunning)) ;;
             match moved with
             | Err err => sexit (Some (wrapf "start recovered workflow run" err))
             | Ok _ => saveRun_or "start recovered workflow run" (fun err => sexit (Some err))
             end
           else sret tt) ;;
        match ctx_err ctx with
        | Some err => cancelRun err
        | None =>
            match resolveHandlers handlers (run_definition r) with
            | Err err => sexit (Some err)
            | Ok _ => executeBrokerRun its
            end
        end
    end.

(** [ctx_load] is the context as the two loads read it. *)
Definition Recover {A : Type} (handlers : gmap string A) (store : St) (b : InMemoryBroker)
    (ctx_load ctx : context) (runID : string) (its : list iteration) : engine_result :=
  match ctx with
  | CtxNil => NoRun store (ErrText "recover workflow: context is nil")
  | _ =>
      if negb (validIdentifier runID) then NoRun store (InvalidRunIDError runID)
      else
        match store_LoadRun store ctx_load runID with
        | Err err => NoRun store (persistenceError "load workflow run" runID err)
        | Ok None => NoRun store (RunNotFoundError runID)
        | Ok (Some snapshot) =>
            match store_LoadWorkflow store ctx_load (snap_WorkflowID snapshot) with
            | Err err => NoRun store (persistenceError "load workflow definition" runID err)
            | Ok None => NoRun store (WorkflowNotFoundError (snap_WorkflowID snapshot))
            | Ok (Some definition) =>
                match restoreWorkflowRun snapshot definition with
                | Err err => NoRun store (wrapf ("restore workflow run " +:+ quote runID) err)
                | Ok r => WithRun (resume_run handlers ctx its (initial_scheduler store b r 0))
                end
            end
        end
  end.
End Engine.
