(* ===== verification/EngineInv.v ===== *)
(** * The invariant of the scheduler

    What holds whenever the scheduler is at the top of its loop: its [completed]
    and [ready] maps agree with the run, the tasks that have started have only
    completed dependencies, every pending task waits for one, no task has failed,
    and the store holds exactly the run. The proofs use a weakest-precondition
    reading of the scheduler's early returns. *)
From S2P Require Import Prelude Workflow Heap Graph GraphBuild GraphOrder Errors Run Ids Snapshot SnapshotValid RunStep RunInv RunProps RunDurable Broker Engine.

(** ** What the engine relies on in a store *)

(** A task without its times. *)
Definition untimed_lease (l : TaskLease) : TaskLease :=
  mkTaskLease (lease_WorkerID l) (lease_TaskRunID l) (lease_AttemptID l) zero_time.
Definition untimed (t : TaskRun) : TaskRun :=
  {| tr_TaskID := tr_TaskID t; tr_TaskRunID := tr_TaskRunID t; tr_Status := tr_Status t; tr_Output := tr_Output t;
     tr_Error := tr_Error t; tr_AttemptCount := tr_AttemptCount t; tr_CurrentAttemptID := tr_CurrentAttemptID t;
     tr_NextAttemptAt := zero_time; tr_Lease := untimed_lease <$> tr_Lease t; tr_UpdatedAt := zero_time;
     tr_StartedAt := zero_time; tr_FinishedAt := zero_time |}.

(** Two runs that differ in their times at most. *)
Record alike (r r' : WorkflowRun) : Prop := {
  al_id : run_id r' = run_id r;
  al_definition : run_definition r' = run_definition r;
  al_version : run_version r' = run_version r;
  al_status : run_status r' = run_status r;
  al_tasks : forall k, untimed <$> run_tasks r' !! k = untimed <$> run_tasks r !! k
}.

(** [store_holds s r] says that the store [s] has the run [r], with its definition. A
    run that is created is held, if its definition is in the store, and a run that is
    saved is held, if an earlier state of it was. *)
Class StoreLaws `{Unicode} {St : Type} `{Store St} := {
  store_holds : St -> WorkflowRun -> Prop;
  SaveWorkflow_saved s s' d u :
    cloneDefinition d = d -> store_SaveWorkflow s CtxLive d = (s', Ok u) ->
    store_LoadWorkflow s' CtxLive (wd_ID d) = Ok (Some d);
  CreateRun_created s s' r stored :
    shaped r -> store_LoadWorkflow s CtxLive (wd_ID (run_definition r)) = Ok (Some (run_definition r)) ->
    store_CreateRun s CtxLive (Snapshot r) = (s', Ok stored) ->
    run_version r = 0 /\ stored = snapshot_with_version (Snapshot r) 1 /\ store_holds s' (setPersistedVersion r 1);
  SaveRun_saved s s' r0 r stored :
    same_run r0 r -> store_holds s r0 -> store_SaveRun s CtxLive (Snapshot r) = (s', Ok stored) ->
    validateSnapshot (Snapshot r) = Ok tt /\
    stored = snapshot_with_version (Snapshot r) (wrap_uint64 (run_version r + 1)) /\
    store_holds s' (setPersistedVersion r (wrap_uint64 (run_version r + 1)))
}.

(** What is loaded of a run that is held is restored to that run, up to the
    precision of its times. *)
Class RecoverLaws `{Unicode} {St : Type} `{Store St} `{!StoreLaws} : Prop := {
  holds_recovers s r :
    run_inv r -> aggregate_valid (run_status r) (sortedTasks r) -> store_holds s r ->
    store_LoadWorkflow s CtxLive (wd_ID (run_definition r)) = Ok (Some (run_definition r)) /\
    exists loaded r', store_LoadRun s CtxLive (run_id r) = Ok (Some loaded) /\
      restoreWorkflowRun loaded (run_definition r) = Ok r' /\ run_inv r' /\ alike r r' /\ store_holds s r'
}.

(** ** Weakest preconditions *)

Definition wp {St A : Type} (m : sched St A) (Q : scheduler St -> A -> Prop)
    (E : scheduler St -> option go_error -> Prop) (st : scheduler St) : Prop :=
  match m st with
  | Next st' a => Q st' a
  | Exit st' err => E st' err
  end.

Lemma wp_bind {St A B : Type} (m : sched St A) (k : A -> sched St B) Q E (st : scheduler St) :
  wp m (fun st' a => wp (k a) Q E st') E st -> wp (sbind m k) Q E st.
Proof. unfold wp, sbind. by destruct (m st). Qed.

Lemma wp_mono {St A : Type} (m : sched St A) (Q Q' : scheduler St -> A -> Prop) E (st : scheduler St) :
  wp m Q E st -> (forall st' a, Q st' a -> Q' st' a) -> wp m Q' E st.
Proof. unfold wp. destruct (m st); auto. Qed.

(** ** Statuses *)

Definition stat (r : WorkflowRun) (k : string) : option TaskRunStatus := tr_Status <$> run_tasks r !! k.

Lemma stat_some r k t : run_tasks r !! k = Some t -> stat r k = Some (tr_Status t).
Proof. unfold stat. by intros ->. Qed.

Lemma alike_stat r r' k : alike r r' -> stat r' k = stat r k.
Proof.
  intros Ha. pose proof (al_tasks _ _ Ha k) as Hk. unfold stat.
  destruct (run_tasks r' !! k), (run_tasks r !! k); try done. apply (inj Some) in Hk. cbn. f_equal.
  exact (f_equal tr_Status Hk).
Qed.

Lemma stat_inv r k s : stat r k = Some s -> exists t, run_tasks r !! k = Some t /\ tr_Status t = s.
Proof. unfold stat. destruct (run_tasks r !! k) as [t|]; [|done]. intros [= <-]. eauto. Qed.

(** How a step may move the status of the task [k]. *)
Definition status_moves (op : run_op) (k : string) (s s' : TaskRunStatus) : Prop :=
  match op with
  | OpTask j target _ _ => j = k /\ s' = target /\ legalTaskTransition s target = true
  | OpHeartbeat _ _ => s' = s
  | OpStart j _ _ => j = k /\ s = TaskRunReady /\ s' = TaskRunRunning
  | OpComplete j _ _ _ _ err => j = k /\ s = TaskRunRunning /\
      match err with
      | None => s' = TaskRunSucceeded
      | Some _ => s' = TaskRunReady \/ s' = TaskRunRetryWaiting \/ s' = TaskRunFailed
      end
  | OpRecover => s = TaskRunRunning /\ (s' = TaskRunReady \/ s' = TaskRunRetryWaiting \/ s' = TaskRunFailed)
  | OpPromote => s = TaskRunRetryWaiting /\ s' = TaskRunReady
  | OpCancel _ => unfinished s = true /\ s' = TaskRunCanceled
  | _ => False
  end.

Section Statuses.
Context `{Unicode}.

Lemma attempt_failed_status policy retryable message ts t :
  let '(t', outcome) := attempt_failed policy retryable message ts t in
  (tr_Status t' = TaskRunFailed /\ outcome = CompletionFailed) \/
  ((tr_Status t' = TaskRunReady \/ tr_Status t' = TaskRunRetryWaiting) /\ outcome = CompletionRetryScheduled).
Proof.
  unfold attempt_failed. destruct (retryable && _); [destruct (_ =? 0)|]; cbn; auto.
Qed.

Lemma change_status r ts k op t t' :
  task_change r ts k op t t' -> status_moves op k (tr_Status t) (tr_Status t').
Proof.
  destruct 1 as [t target output err Hl|t t' cause Hc|t t' w d Hd Hc|t w d Hw Hd Hs|t trid w aid output Hl
    |t trid w aid output err Hl|t t' rec Hr|t t' Hp]; cbn.
  - done.
  - unfold cancel_task in Hc. destruct (unfinished (tr_Status t)); simplify_eq/=. done.
  - unfold heartbeat_task in Hc. destruct (tr_Status t); try done. destruct (tr_Lease t); [|done].
    destruct (negb _); [done|]. destruct (negb _); by simplify_eq/=.
  - done.
  - by apply holds_lease_running in Hl.
  - pose proof (attempt_failed_status (retryPolicy r k) (IsRetryable err) (error_string err) ts t) as Ha.
    apply holds_lease_running in Hl. destruct (attempt_failed _ _ _ _ _) as [u o]. cbn. naive_solver.
  - unfold recover_task in Hr. destruct (lease_lapsed ts t) eqn:Hl; [|done].
    assert (Hs : tr_Status t = TaskRunRunning) by (unfold lease_lapsed in Hl; by destruct (tr_Status t)).
    pose proof (attempt_failed_status (retryPolicy r k) true
      (error_string (LeaseExpiredError (run_id r) k (tr_CurrentAttemptID (with_attempt_identity r k t)))) ts
      (with_attempt_identity r k t)) as Ha.
    destruct (attempt_failed _ _ _ _ _) as [u o]. simplify_eq. naive_solver.
  - unfold promote_task in Hp. destruct (tr_Status t); try done. destruct (time_before _ _); by simplify_eq/=.
Qed.

(** After a step a task has its old status or has moved. *)
Lemma exec_stat r now op k :
  match stat r k with
  | Some s => exists s', stat (exec r now op) k = Some s' /\ (s' = s \/ status_moves op k s s')
  | None => stat (exec r now op) k = None
  end.
Proof.
  pose proof (exec_tasks r now op k) as Ht. unfold stat.
  destruct (run_tasks r !! k) as [t|]; cbn; [|by rewrite Ht].
  destruct Ht as (t' & -> & [->|[Hc _]]); cbn; eauto using change_status.
Qed.

Lemma exec_definition r now op : run_definition (exec r now op) = run_definition r.
Proof. by destruct (exec_frame r now op) as (_ & -> & _). Qed.

Lemma exec_id r now op : run_id (exec r now op) = run_id r.
Proof. by destruct (exec_frame r now op) as (-> & _). Qed.

Lemma exec_status r now op : (forall target, op <> OpWorkflow target) -> run_status (exec r now op) = run_status r.
Proof. intros Hop. destruct (exec_frame r now op) as (_ & _ & _ & _ & _ & [?|(? & ? & _)]); [done|]. naive_solver. Qed.
End Statuses.

(** ** The invariant *)

(** The run that an execution is about. *)
Class Subject := mkSubject { sub_id : string; sub_definition : WorkflowDefinition }.

Definition is_subject `{Subject} (r : WorkflowRun) : Prop :=
  run_id r = sub_id /\ run_definition r = sub_definition.

Record core_inv `{Subject} (r : WorkflowRun) (completed : gset string) (ready : gmap string TaskDefinition) : Prop := {
  ci_run : run_inv r;
  ci_status : run_status r = WorkflowRunRunning;
  ci_completed : forall k, k ∈ completed <-> stat r k = Some TaskRunSucceeded;
  ci_ready : forall k, is_Some (ready !! k) <-> stat r k = Some TaskRunReady;
  ci_alive : forall k, stat r k <> Some TaskRunFailed /\ stat r k <> Some TaskRunCanceled;
  ci_deps : forall k d s, stat r k = Some s -> s <> TaskRunPending ->
    depends (run_definition r) k d -> d ∈ completed;
  ci_subject : is_subject r
}.

(** Every pending task waits for a dependency. *)
Definition pending_waits (r : WorkflowRun) (completed : gset string) : Prop :=
  forall k, stat r k = Some TaskRunPending -> exists d, depends (run_definition r) k d /\ d ∉ completed.

Section Preserve.
Context `{Unicode} `{Subject}.

(** A step that moves no task to or from pending, succeeded, failed or canceled
    keeps the invariant when [ready] follows it. *)
Lemma core_step r now op completed ready ready' :
  core_inv r completed ready -> run_inv (exec r now op) -> (forall target, op <> OpWorkflow target) ->
  (forall k s s', stat r k = Some s -> stat (exec r now op) k = Some s' -> s' = s \/
     ((s = TaskRunReady \/ s = TaskRunRunning \/ s = TaskRunRetryWaiting) /\
      (s' = TaskRunReady \/ s' = TaskRunRunning \/ s' = TaskRunRetryWaiting))) ->
  (forall k, is_Some (ready' !! k) <-> stat (exec r now op) k = Some TaskRunReady) ->
  core_inv (exec r now op) completed ready' /\
  (pending_waits r completed -> pending_waits (exec r now op) completed).
Proof.
  intros [Hr Hst Hc Hrd Hal Hdp Hsub] Hr' Hop Hmove Hrd'.
  assert (Hsome : forall k s', stat (exec r now op) k = Some s' -> exists s, stat r k = Some s).
  { intros k s' Hs. pose proof (exec_stat r now op k) as He. destruct (stat r k); [eauto|congruence]. }
  split; [split|].
  - done.
  - rewrite exec_status; done.
  - intros k. rewrite Hc. pose proof (exec_stat r now op k) as He. destruct (stat r k) as [s|] eqn:Es.
    + destruct He as (s' & Hs' & _). rewrite Hs'. destruct (Hmove k s s' Es Hs') as [->|[? ?]]; [done|]. naive_solver.
    + by rewrite He.
  - done.
  - intros k. destruct (stat (exec r now op) k) as [s'|] eqn:Es'; [|done].
    destruct (Hsome k s' Es') as [s Es]. destruct (Hal k) as [Ha1 Ha2]. rewrite Es in Ha1, Ha2.
    destruct (Hmove k s s' Es Es') as [->|[_ ?]]; [done|]. naive_solver.
  - intros k d s' Es' Hnp. rewrite exec_definition. destruct (Hsome k s' Es') as [s Es].
    apply (Hdp k d s Es). destruct (Hmove k s s' Es Es') as [->|[? _]]; [done|]. naive_solver.
  - unfold is_subject. by rewrite exec_id, exec_definition.
  - intros Hp k Hk. rewrite exec_definition. apply Hp. destruct (Hsome k _ Hk) as [s Es]. rewrite Es.
    destruct (Hmove k s _ Es Hk) as [->|[_ ?]]; [done|]. naive_solver.
Qed.

Lemma core_heartbeat r r' now w d completed ready :
  core_inv r completed ready -> recordWorkerHeartbeat r now w d = Ok r' ->
  core_inv r' completed ready /\ (pending_waits r completed -> pending_waits r' completed).
Proof.
  intros Hc Hh. assert (Heq : r' = exec r now (OpHeartbeat w d)) by (cbn; by rewrite Hh). rewrite Heq.
  assert (Hsame : forall k, stat (exec r now (OpHeartbeat w d)) k = stat r k).
  { intros k. pose proof (exec_stat r now (OpHeartbeat w d) k) as He. destruct (stat r k); [|done].
    destruct He as (s' & -> & [->|Hm]); [done|]. cbn in Hm. by subst. }
  apply core_step with ready; [done|by apply run_inv_exec; [apply Hc|]|done| |].
  - intros k s s' Hs Hs'. rewrite Hsame in Hs'. left. congruence.
  - intros k. rewrite Hsame. apply Hc.
Qed.

Lemma core_persisted r v completed ready :
  core_inv r completed ready ->
  core_inv (setPersistedVersion r v) completed ready /\
  (pending_waits r completed -> pending_waits (setPersistedVersion r v) completed).
Proof.
  intros Hc. apply (core_step r 0 (OpPersisted v) completed ready ready Hc); [|done| |apply Hc].
  - by apply run_inv_exec; [apply Hc|].
  - intros k s s' Hs Hs'. left. change (stat r k = Some s') in Hs'. congruence.
Qed.

(** ** Leasing *)

Lemma NoDup_omap_unique {A B : Type} (f : A -> option B) (l : list A) (x y : A) (b : B) :
  NoDup (omap f l) -> x ∈ l -> y ∈ l -> f x = Some b -> f y = Some b -> x = y.
Proof.
  intros Hnd Hx Hy Hfx Hfy. induction l as [|z l IH]; [by apply elem_of_nil in Hx|].
  assert (Hin : forall u, u ∈ l -> f u = Some b -> b ∈ omap f l) by (intros u ? ?; apply list_elem_of_omap; eauto).
  apply elem_of_cons in Hx as [->|Hx], Hy as [->|Hy]; [done| | |].
  - cbn in Hnd. rewrite Hfx in Hnd. apply NoDup_cons in Hnd as [Hn _]. exfalso. eauto.
  - cbn in Hnd. rewrite Hfy in Hnd. apply NoDup_cons in Hnd as [Hn _]. exfalso. eauto.
  - apply IH; [|done|done]. cbn in Hnd. destruct (f z); [by apply NoDup_cons in Hnd as [_ ?]|done].
Qed.

(** A store that accepts the run after a lease was granted proves that the worker
    held no other. *)
Lemma accepted_worker_free r r' now k w d a :
  run_inv r -> startTaskAttempt r now k w d = Ok (r', a) -> validateSnapshot (Snapshot r') = Ok tt ->
  worker_free r w.
Proof.
  intros Hi Hs Hv j t lease Hj Hl Hw. apply validateSnapshot_ok in Hv.
  pose proof (sn_leases _ Hv) as Hnd. cbn in Hnd.
  unfold startTaskAttempt in Hs. destruct (check_worker w d) as [[]|]; [|done]. cbn in Hs.
  destruct (run_tasks r !! k) as [u|] eqn:Hk; [|done]. case_bool_decide as Hst; [|done]. cbn in Hs.
  simplify_eq. set (u' := started r k (lease_WorkerID lease) d (nextTimestamp r now) u) in *.
  assert (Hjk : j <> k).
  { intros ->. simplify_eq. destruct (tv_lease _ _ _ (ti_valid _ _ _ _ _ _ (ri_tasks r Hi k u Hk)) lease Hl).
    congruence. }
  assert (Heq : t = u').
  { eapply (NoDup_omap_unique (fun t => lease_WorkerID <$> tr_Lease t)); [exact Hnd| | |by rewrite Hl|done];
      unfold sortedTasks; apply sorted_values_elem; cbn.
    - exists j. by rewrite lookup_insert_ne.
    - exists k. by rewrite lookup_insert_eq. }
  apply Hjk. rewrite <- (ti_key _ _ _ _ _ _ (ri_tasks r Hi j t Hj)), <- (ti_key _ _ _ _ _ _ (ri_tasks r Hi k u Hk)).
  by rewrite Heq.
Qed.

Lemma core_start r r' now k w d a completed ready :
  core_inv r completed ready -> startTaskAttempt r now k w d = Ok (r', a) ->
  validateSnapshot (Snapshot r') = Ok tt ->
  core_inv r' completed (delete k ready) /\ (pending_waits r completed -> pending_waits r' completed).
Proof.
  intros Hc Hs Hv. pose proof (accepted_worker_free _ _ _ _ _ _ _ (ci_run _ _ _ Hc) Hs Hv) as Hf.
  assert (Heq : r' = exec r now (OpStart k w d)) by (cbn; by rewrite Hs).
  assert (Hk : stat r' k = Some TaskRunRunning).
  { clear Heq. unfold startTaskAttempt in Hs. destruct (check_worker w d); [|done]. cbn in Hs.
    destruct (run_tasks r !! k); [|done]. case_bool_decide; [|done]. cbn in Hs. simplify_eq.
    unfold stat. cbn. by rewrite lookup_insert_eq. }
  rewrite Heq in *. apply core_step with ready; [done|by apply run_inv_exec; [apply Hc|]|done| |].
  - intros j s s' Hj Hj'. pose proof (exec_stat r now (OpStart k w d) j) as He. rewrite Hj in He.
    destruct He as (s2 & Hs2 & [->|(-> & -> & ->)]); [left; congruence|right; naive_solver].
  - intros j. destruct (decide (j = k)) as [->|Hne]; [rewrite lookup_delete_eq, Hk; naive_solver|].
    rewrite lookup_delete_ne by done. rewrite (ci_ready _ _ _ Hc j).
    pose proof (exec_stat r now (OpStart k w d) j) as He. destruct (stat r j); [|by rewrite He].
    destruct He as (s' & -> & [->|(? & _)]); [done|congruence].
Qed.

(** ** Completion *)

Lemma complete_cases r r' now k trid w aid output err outcome :
  completeTaskAttempt r now k trid w aid output err = Ok (r', outcome) ->
  (outcome = CompletionIgnored /\ r' = r) \/
  (r' = exec r now (OpComplete k trid w aid output err) /\ stat r k = Some TaskRunRunning /\
   exists s', stat r' k = Some s' /\
   match outcome with
   | CompletionIgnored => False
   | CompletionSucceeded => s' = TaskRunSucceeded
   | CompletionRetryScheduled => s' = TaskRunReady \/ s' = TaskRunRetryWaiting
   | CompletionFailed => s' = TaskRunFailed
   end).
Proof.
  intros Hc. assert (Heq : r' = exec r now (OpComplete k trid w aid output err)) by (cbn; by rewrite Hc).
  unfold completeTaskAttempt in Hc. destruct (run_tasks r !! k) as [t|] eqn:Hk; [|done].
  destruct (holds_lease t trid w aid) eqn:Hl; cbn [negb] in Hc; [|injection Hc as -> <-; by left].
  right. split; [done|]. split; [rewrite (stat_some r k t Hk); by rewrite (holds_lease_running _ _ _ _ Hl)|].
  clear Heq. destruct err as [e|].
  - pose proof (attempt_failed_status (retryPolicy r k) (IsRetryable e) (error_string e) (nextTimestamp r now) t) as Ha.
    destruct (attempt_failed _ _ _ _ _) as [t' o]. injection Hc as <- <-. exists (tr_Status t').
    unfold stat. cbn. rewrite lookup_insert_eq. split; [done|]. destruct Ha as [[-> ->]|[[-> | ->] ->]]; auto.
  - injection Hc as <- <-. exists TaskRunSucceeded. unfold stat. cbn. by rewrite lookup_insert_eq.
Qed.

Lemma exec_complete_other r now k trid w aid output err j :
  j <> k -> stat (exec r now (OpComplete k trid w aid output err)) j = stat r j.
Proof.
  intros Hne. pose proof (exec_stat r now (OpComplete k trid w aid output err) j) as He.
  destruct (stat r j); [|done]. destruct He as (s' & -> & [->|(? & _)]); [done|congruence].
Qed.

Lemma core_succeeded r now k trid w aid output err completed ready :
  core_inv r completed ready -> stat r k = Some TaskRunRunning ->
  stat (exec r now (OpComplete k trid w aid output err)) k = Some TaskRunSucceeded ->
  core_inv (exec r now (OpComplete k trid w aid output err)) ({[k]} ∪ completed) ready.
Proof.
  intros Hc Hk Hk'. pose proof (exec_complete_other r now k trid w aid output err) as Hother.
  pose proof (run_inv_exec r now (OpComplete k trid w aid output err) (ci_run _ _ _ Hc) I) as Hi.
  set (r' := exec r now _) in *. destruct Hc as [Hr Hst Hc Hrd Hal Hdp Hsub].
  assert (Hd : run_definition r' = run_definition r) by apply exec_definition.
  split.
  - done.
  - unfold r'. by rewrite exec_status.
  - intros j. rewrite elem_of_union, elem_of_singleton, Hc. destruct (decide (j = k)) as [->|Hne]; [naive_solver|].
    rewrite Hother by done. naive_solver.
  - intros j. rewrite Hrd. destruct (decide (j = k)) as [->|Hne]; [rewrite Hk, Hk'; naive_solver|].
    by rewrite Hother.
  - intros j. destruct (decide (j = k)) as [->|Hne]; [rewrite Hk'; naive_solver|]. by rewrite Hother.
  - intros j d s Hj Hnp. rewrite Hd. intros Hdep. apply elem_of_union_r.
    destruct (decide (j = k)) as [->|Hne]; [by apply (Hdp k d _ Hk)|].
    rewrite Hother in Hj by done. by apply (Hdp j d s).
  - unfold is_subject, r'. by rewrite exec_id, exec_definition.
Qed.

Lemma core_retry r now k trid w aid output err completed ready task s' :
  core_inv r completed ready -> stat r k = Some TaskRunRunning ->
  stat (exec r now (OpComplete k trid w aid output err)) k = Some s' ->
  s' = TaskRunReady \/ s' = TaskRunRetryWaiting ->
  core_inv (exec r now (OpComplete k trid w aid output err)) completed
    (if bool_decide (s' = TaskRunReady) then <[k := task]> ready else ready) /\
  (pending_waits r completed -> pending_waits (exec r now (OpComplete k trid w aid output err)) completed).
Proof.
  intros Hc Hk Hk' Hs'. pose proof (exec_complete_other r now k trid w aid output err) as Hother.
  apply core_step with ready; [done|by apply run_inv_exec; [apply Hc|]|done| |].
  - intros j s1 s2 Hj Hj'. destruct (decide (j = k)) as [->|Hne]; [right; naive_solver|].
    rewrite Hother in Hj' by done. left. congruence.
  - intros j. destruct (decide (j = k)) as [->|Hne].
    + rewrite Hk'. case_bool_decide; [rewrite lookup_insert_eq; naive_solver|].
      rewrite (ci_ready _ _ _ Hc k), Hk. naive_solver.
    + rewrite Hother by done. case_bool_decide; rewrite ?lookup_insert_ne by done; apply Hc.
Qed.

(** ** Dependency release *)

Lemma transition_ready r now k :
  stat r k = Some TaskRunPending ->
  transitionTask r now k TaskRunReady "" None = Ok (exec r now (OpTask k TaskRunReady "" None)) /\
  stat (exec r now (OpTask k TaskRunReady "" None)) k = Some TaskRunReady /\
  forall j, j <> k -> stat (exec r now (OpTask k TaskRunReady "" None)) j = stat r j.
Proof.
  intros Hk. destruct (stat_inv _ _ _ Hk) as (t & Ht & Hs). cbn. unfold transitionTask. rewrite Ht, Hs. cbn.
  split; [done|]. unfold stat. cbn. split; [by rewrite lookup_insert_eq|].
  intros j Hne. by rewrite lookup_insert_ne.
Qed.

Lemma core_mark r now t completed ready :
  core_inv r completed ready -> ready_task (run_definition r) completed t ->
  stat r (td_ID t) = Some TaskRunPending ->
  core_inv (exec r now (OpTask (td_ID t) TaskRunReady "" None)) completed (<[td_ID t := t]> ready).
Proof.
  intros Hc (Ht & _ & Hdeps) Hk. destruct (transition_ready r now (td_ID t) Hk) as (_ & Hk' & Hother).
  assert (Hi : run_inv (exec r now (OpTask (td_ID t) TaskRunReady "" None))).
  { apply run_inv_exec; [apply Hc|]. intros u Hu [Hw _]. destruct (stat_inv _ _ _ Hk) as (v & Hv & Hs). congruence. }
  set (r' := exec r now _) in *. destruct Hc as [Hr Hst Hc Hrd Hal Hdp Hsub].
  assert (Hd : run_definition r' = run_definition r) by apply exec_definition.
  split.
  - done.
  - unfold r'. by rewrite exec_status.
  - intros j. rewrite Hc. destruct (decide (j = td_ID t)) as [->|Hne]; [rewrite Hk, Hk'; naive_solver|].
    by rewrite Hother.
  - intros j. rewrite lookup_insert. destruct (decide (td_ID t = j)) as [<-|Hne]; [rewrite Hk'; naive_solver|].
    by rewrite Hother.
  - intros j. destruct (decide (j = td_ID t)) as [->|Hne]; [rewrite Hk'; naive_solver|]. by rewrite Hother.
  - intros j d s Hj Hnp. rewrite Hd. intros Hdep. destruct (decide (j = td_ID t)) as [->|Hne].
    + destruct Hdep as (u & Hu & Heq & Hin). apply Hdeps.
      by rewrite <- (task_unique (run_definition r) (ri_definition r Hr) u t Hu Ht Heq).
    + rewrite Hother in Hj by done. by apply (Hdp j d s).
  - unfold is_subject, r'. by rewrite exec_id, exec_definition.
Qed.

(** When every task that can run has been marked, the pending ones wait. *)
Lemma marked_pending_waits r completed (candidates : list TaskDefinition) ready :
  core_inv r completed ready ->
  (forall t, ready_task (run_definition r) completed t -> t ∈ candidates) ->
  (forall t, t ∈ candidates -> stat r (td_ID t) <> Some TaskRunPending) -> pending_waits r completed.
Proof.
  intros Hc Hall Hmarked k Hk. destruct (stat_inv _ _ _ Hk) as (u & Hu & _).
  assert (Hin : k ∈ taskIDs_of (run_definition r)) by (apply (ri_dom r (ci_run _ _ _ Hc)); by exists u).
  apply list_elem_of_fmap in Hin as (t & -> & Ht).
  destruct (decide (Forall (fun d => d ∈ completed) (deps t))) as [HF|HF].
  - exfalso. apply (Hmarked t); [|done]. apply Hall. split; [done|]. split.
    + rewrite (ci_completed _ _ _ Hc), Hk. done.
    + by rewrite Forall_forall in HF.
  - apply not_Forall_Exists in HF; [|apply _]. apply Exists_exists in HF as (d & Hd & Hn).
    exists d. split; [by exists t|done].
Qed.

(** ** Recovery and promotion *)

Lemma range_map_none {A : Type} (f : string -> A -> option A) (m : gmap string A) :
  (forall k a, m !! k = Some a -> f k a = None) -> range_map f m = m.
Proof.
  intros Hf. apply map_eq. intros k. rewrite lookup_range_map.
  destruct (m !! k) as [a|] eqn:E; [|done]. cbn. by rewrite (Hf k a E).
Qed.

Lemma run_eta r : with_tasks r (run_tasks r) (run_updatedAt r) = r.
Proof. by destruct r. Qed.

(** With nothing to report, neither pass changes the run. *)
Lemma recover_nothing r now : snd (recoverExpiredLeases r now) = [] -> fst (recoverExpiredLeases r now) = r.
Proof.
  intros Hnil. pose proof (recoveries_elem r now) as Hel. rewrite Hnil in Hel.
  unfold recoverExpiredLeases in *. cbn [fst snd] in *. rewrite Hnil, range_map_none; [apply run_eta|].
  intros k t Hk. destruct (recover_task r (nextTimestamp r now) k t) as [[t' rec]|] eqn:E; [|done].
  exfalso. apply (not_elem_of_nil rec), Hel. exists k, t. by rewrite E.
Qed.

Lemma promote_due ts k t :
  match promote_task ts k t with
  | Some t' => tr_Status t = TaskRunRetryWaiting /\ tr_NextAttemptAt t <= ts /\ tr_Status t' = TaskRunReady
  | None => ~ (tr_Status t = TaskRunRetryWaiting /\ tr_NextAttemptAt t <= ts)
  end.
Proof.
  unfold promote_task, time_before. destruct (tr_Status t); try (by intros [? _]).
  destruct (ts <? tr_NextAttemptAt t) eqn:E; cbn; [intros [_ ?]; lia|]. split; [done|]. split; [lia|done].
Qed.

Lemma promote_nothing r now : snd (promoteDueRetries r now) = [] -> fst (promoteDueRetries r now) = r.
Proof.
  intros Hnil. pose proof (promoted_elem r now) as Hel. rewrite Hnil in Hel.
  unfold promoteDueRetries in *. cbn [fst snd] in *. rewrite Hnil, range_map_none; [apply run_eta|].
  intros k t Hk. destruct (promote_task (nextTimestamp r now) k t) as [t'|] eqn:E; [|done].
  exfalso. pose proof (promote_due (nextTimestamp r now) k t) as Hd. rewrite E in Hd.
  apply (not_elem_of_nil k), Hel. exists t. naive_solver.
Qed.

(** What a recovery reports of a task is what became of it. *)
Lemma recovered_task r now k t t' rec :
  run_tasks r !! k = Some t -> recover_task r (nextTimestamp r now) k t = Some (t', rec) ->
  stat (fst (recoverExpiredLeases r now)) k = Some (tr_Status t') /\
  rec ∈ snd (recoverExpiredLeases r now) /\ lr_TaskID rec = k /\ tr_Status t = TaskRunRunning /\
  (tr_Status t' = TaskRunFailed -> lr_Outcome rec <> CompletionRetryScheduled).
Proof.
  intros Hk Hr. split; [|split; [|]].
  - unfold stat, recoverExpiredLeases. cbn [fst with_tasks run_tasks]. rewrite lookup_range_map, Hk. cbn. by rewrite Hr.
  - apply recoveries_elem. exists k, t. by rewrite Hr.
  - unfold recover_task in Hr. destruct (lease_lapsed _ t) eqn:Hl; [|done].
    assert (Hs : tr_Status t = TaskRunRunning) by (unfold lease_lapsed in Hl; by destruct (tr_Status t)).
    pose proof (attempt_failed_status (retryPolicy r k) true
      (error_string (LeaseExpiredError (run_id r) k (tr_CurrentAttemptID (with_attempt_identity r k t))))
      (nextTimestamp r now) (with_attempt_identity r k t)) as Ha.
    destruct (attempt_failed _ _ _ _ _) as [u o]. simplify_eq. split; [done|]. split; [done|].
    intros Hf. cbn. destruct Ha as [[_ ->]|[[?|?] _]]; congruence.
Qed.

Lemma recover_stat r now k :
  stat (fst (recoverExpiredLeases r now)) k = stat r k \/
  exists rec, rec ∈ snd (recoverExpiredLeases r now) /\ lr_TaskID rec = k /\ stat r k = Some TaskRunRunning /\
    (stat (fst (recoverExpiredLeases r now)) k = Some TaskRunFailed -> lr_Outcome rec <> CompletionRetryScheduled).
Proof.
  destruct (run_tasks r !! k) as [t|] eqn:Hk.
  2: { left. pose proof (exec_stat r now OpRecover k) as He. unfold stat in He at 1. rewrite Hk in He.
       cbn in He. unfold stat at 2. by rewrite Hk. }
  destruct (recover_task r (nextTimestamp r now) k t) as [[t' rec]|] eqn:Hr.
  - right. destruct (recovered_task r now k t t' rec Hk Hr) as (Hs & Hin & Hid & Ht & Hf).
    exists rec. rewrite Hs, (stat_some r k t Hk), Ht. naive_solver.
  - left. unfold stat, recoverExpiredLeases. cbn [fst with_tasks run_tasks]. rewrite lookup_range_map, Hk. cbn. by rewrite Hr.
Qed.

Lemma promote_stat r now k :
  (k ∈ snd (promoteDueRetries r now) /\ stat (fst (promoteDueRetries r now)) k = Some TaskRunReady /\
   stat r k = Some TaskRunRetryWaiting) \/
  (k ∉ snd (promoteDueRetries r now) /\ stat (fst (promoteDueRetries r now)) k = stat r k).
Proof.
  rewrite promoted_elem. unfold stat, promoteDueRetries. cbn [fst with_tasks run_tasks]. rewrite lookup_range_map.
  destruct (run_tasks r !! k) as [t|] eqn:Hk; cbn; [|right; naive_solver].
  pose proof (promote_due (nextTimestamp r now) k t) as Hd.
  destruct (promote_task (nextTimestamp r now) k t) as [t'|]; cbn; [left|right].
  - destruct Hd as (Hw & Hle & ->). rewrite Hw. eauto 10.
  - split; [|done]. intros (u & [= <-] & Hu). by apply Hd.
Qed.

(** The tasks of a run that are ready, as a map. *)
Definition ready_tasks (r : WorkflowRun) : gmap string TaskDefinition :=
  omap (fun t => if bool_decide (tr_Status t = TaskRunReady) then Some zeroTask else None) (run_tasks r).

Lemma ready_tasks_spec r k : is_Some (ready_tasks r !! k) <-> stat r k = Some TaskRunReady.
Proof.
  unfold ready_tasks, stat. rewrite lookup_omap. destruct (run_tasks r !! k) as [t|]; cbn; [|by split; [intros [? ?]|]].
  case_bool_decide as E; [rewrite E; by split|]. split; [by intros [? ?]|congruence].
Qed.

Lemma core_recover_promote r n1 n2 completed ready ready' :
  core_inv r completed ready ->
  let '(r1, recoveries) := recoverExpiredLeases r n1 in
  let '(r2, promoted) := promoteDueRetries r1 n2 in
  (forall rec, rec ∈ recoveries -> lr_Outcome rec = CompletionRetryScheduled) ->
  (forall k, is_Some (ready' !! k) <-> is_Some (ready !! k) \/ k ∈ promoted \/
     (k ∈ lr_TaskID <$> recoveries /\ stat r2 k = Some TaskRunReady)) ->
  core_inv r2 completed ready' /\ (pending_waits r completed -> pending_waits r2 completed).
Proof.
  intros Hc. destruct (recoverExpiredLeases r n1) as [r1 recoveries] eqn:E1.
  destruct (promoteDueRetries r1 n2) as [r2 promoted] eqn:E2. intros Hretry Hready.
  pose proof (recover_stat r n1) as S1. rewrite E1 in S1. cbn [fst snd] in S1.
  pose proof (promote_stat r1 n2) as S2. rewrite E2 in S2. cbn [fst snd] in S2.
  assert (Hx1 : r1 = exec r n1 OpRecover) by (unfold exec; by rewrite E1).
  assert (Hx2 : r2 = exec r1 n2 OpPromote) by (unfold exec; by rewrite E2).
  assert (Hc1 : core_inv r1 completed (ready_tasks r1) /\ (pending_waits r completed -> pending_waits r1 completed)).
  { rewrite Hx1. apply core_step with ready; [done|by apply run_inv_exec; [apply Hc|]|done| |].
    - intros k s s' Hs Hs'. rewrite <- Hx1 in Hs'. destruct (S1 k) as [Heq|(rec & Hin & Hid & Hrun & Hf)]; [left; congruence|].
      pose proof (exec_stat r n1 OpRecover k) as He. rewrite Hs, <- Hx1, Hs' in He.
      destruct He as (s2 & [= <-] & [->|[-> [?|[?|?]]]]); [by left|right; naive_solver|right; naive_solver|].
      exfalso. rewrite Hs' in Hf. apply Hf; [congruence|]. by apply Hretry.
    - intros k. apply ready_tasks_spec. }
  destruct Hc1 as [Hc1 Hp1].
  assert (Hc2 : core_inv r2 completed ready' /\ (pending_waits r1 completed -> pending_waits r2 completed)).
  { rewrite Hx2. apply core_step with (ready_tasks r1); [done|by apply run_inv_exec; [apply Hc1|]|done| |].
    - intros k s s' Hs Hs'. rewrite <- Hx2 in Hs'. destruct (S2 k) as [(_ & ? & ?)|[_ ?]]; [right; naive_solver|left; congruence].
    - intros k. rewrite <- Hx2, Hready, (ci_ready _ _ _ Hc k). destruct (S2 k) as [(Hin & Hs2 & Hs1)|[Hn Hs2]]; [naive_solver|].
      rewrite Hs2. destruct (S1 k) as [Heq|(rec & Hin & Hid & Hrun & _)].
      + rewrite Heq. split; [naive_solver|auto].
      + rewrite Hrun. split; [naive_solver|]. intros Hs. right. right. split; [|done].
        rewrite <- Hid. by apply list_elem_of_fmap_2. }
  naive_solver.
Qed.
End Preserve.
