(* ===== verification/EngineProps.v ===== *)
(** * Guarantees of the scheduler

    Every pass of the scheduler loop keeps the invariant of [EngineInv] or
    returns; it returns without an error only when every task has succeeded, and
    never because it ran out of work. *)
From S2P Require Import Prelude Workflow Heap Graph GraphBuild GraphOrder Errors Run Ids Snapshot SnapshotValid RunStep RunInv RunProps RunDurable Broker Engine EngineInv.

(** An error that reports a stalled run. *)
Definition is_stall `{Unicode} (e : go_error) : Prop :=
  exists runID, e = stalled_error runID \/ exists e', e = ErrJoin [stalled_error runID; e'].

Lemma exists_snoc {A : Type} (P : A -> Prop) (l : list A) (x : A) :
  (exists y, y ∈ l ++ [x] /\ P y) <-> (exists y, y ∈ l /\ P y) \/ P x.
Proof. setoid_rewrite elem_of_app. setoid_rewrite list_elem_of_singleton. naive_solver. Qed.

Lemma fold_promoted (promoted : list string) (f : string -> TaskDefinition) (m : gmap string TaskDefinition)
    (k : string) :
  is_Some (foldl (fun m taskID => <[taskID := f taskID]> m) m promoted !! k) <-> is_Some (m !! k) \/ k ∈ promoted.
Proof.
  induction promoted as [|x l IH] using rev_ind; [set_solver|]. rewrite foldl_snoc, lookup_insert.
  rewrite elem_of_app, list_elem_of_singleton. case_decide; [naive_solver|]. rewrite IH. naive_solver.
Qed.

Section Scheduler.
Context `{Unicode} `{DispatchCodec} {St : Type} `{Store St} `{!StoreLaws} `{Subject}.
Context (clock : nat -> Z) (cfg : engine_config) (trace_headers : string -> gmap string string).

(** The store holds the run as it is. *)
Definition saved (st : scheduler St) : Prop :=
  store_holds (sc_store st) (sc_run st).

(** The store holds an earlier state of the run. *)
Definition anchored (st : scheduler St) : Prop :=
  exists r0, same_run r0 (sc_run st) /\ store_holds (sc_store st) r0.

Definition core (st : scheduler St) : Prop := core_inv (sc_run st) (sc_completed st) (sc_ready st).
Definition waits (st : scheduler St) : Prop := pending_waits (sc_run st) (sc_completed st).

Record sched_inv (st : scheduler St) : Prop := {
  si_core : core st;
  si_waits : waits st;
  si_saved : saved st
}.

(** The run has succeeded, every task of it has, and the store knows. *)
Definition finished (st : scheduler St) : Prop :=
  run_status (sc_run st) = WorkflowRunSucceeded /\ is_subject (sc_run st) /\
  (forall k, k ∈ taskIDs_of (run_definition (sc_run st)) -> stat (sc_run st) k = Some TaskRunSucceeded) /\
  saved st.

Definition exit_ok (st : scheduler St) (err : option go_error) : Prop :=
  match err with
  | None => finished st
  | Some e => ~ is_stall e
  end.

(** ** Steps that do not concern the invariant *)

Definition same_core (st st' : scheduler St) : Prop :=
  sc_store st' = sc_store st /\ sc_run st' = sc_run st /\ sc_completed st' = sc_completed st /\
  sc_ready st' = sc_ready st.

Lemma same_core_inv st st' : same_core st st' -> sched_inv st -> sched_inv st'.
Proof.
  intros (Hs & Hr & Hc & Hd) [? ? ?]. split; unfold core, waits, saved in *; by rewrite ?Hs, ?Hr, ?Hc, ?Hd.
Qed.

Lemma same_core_refl st : same_core st st.
Proof. done. Qed.

Lemma same_core_trans st1 st2 st3 : same_core st1 st2 -> same_core st2 st3 -> same_core st1 st3.
Proof. unfold same_core. intros (-> & -> & -> & ->) (-> & -> & -> & ->). done. Qed.

(** ** Early returns *)

Lemma not_stall_wrap text cause : ~ is_stall (ErrWrap text cause).
Proof. by intros (runID & [?|(? & ?)]). Qed.

Lemma not_stall_broker op runID id cause : ~ is_stall (brokerOperationError op runID id cause).
Proof. by intros (? & [?|(? & ?)]). Qed.

Lemma wp_get {A : Type} (f : scheduler St -> A) Q E (st : scheduler St) : Q st (f st) -> wp (sget f) Q E st.
Proof. done. Qed.

Lemma wp_modify (f : scheduler St -> scheduler St) Q E (st : scheduler St) : Q (f st) tt -> wp (smodify f) Q E st.
Proof. done. Qed.

Lemma wp_ret {A : Type} (a : A) Q E (st : scheduler St) : Q st a -> wp (sret a) Q E st.
Proof. done. Qed.

Lemma wp_call {A : Type} (f : WorkflowRun -> Z -> res go_error (WorkflowRun * A)) Q E (st : scheduler St) :
  (forall now,
     match f (sc_run st) now with
     | Ok (r, a) => Q (set_run (tick st) r) (Ok a)
     | Err err => Q (tick st) (Err err)
     end) ->
  wp (call clock f) Q E st.
Proof. intros Hf. unfold wp, call. specialize (Hf (clock (sc_tick st))). cbn. by destruct (f _ _) as [[r a]|]. Qed.

Lemma wp_saveRun_any op Q E (st : scheduler St) :
  (forall store r, Q (set_run (set_store st store) r) None) ->
  (forall store cause, Q (set_store st store) (Some (persistenceError op (run_id (sc_run st)) cause))) ->
  wp (saveRun op) Q E st.
Proof.
  intros Hok Herr. unfold wp, saveRun. destruct (store_SaveRun _ _ _) as [store result].
  destruct (rbind result _) as [r|err]; [apply Hok|apply Herr].
Qed.

Lemma wp_saveRun op Q E (st : scheduler St) :
  anchored st ->
  (forall store v, validateSnapshot (Snapshot (sc_run st)) = Ok tt ->
     saved (set_run (set_store st store) (setPersistedVersion (sc_run st) v)) ->
     Q (set_run (set_store st store) (setPersistedVersion (sc_run st) v)) None) ->
  (forall store cause, Q (set_store st store) (Some (persistenceError op (run_id (sc_run st)) cause))) ->
  wp (saveRun op) Q E st.
Proof.
  intros (r0 & Hsame & Hheld) Hok Herr. unfold wp, saveRun.
  destruct (store_SaveRun (sc_store st) CtxLive (Snapshot (sc_run st))) as [store result] eqn:Es.
  destruct (rbind result _) as [r|err] eqn:Eb; [|apply Herr].
  apply rbind_ok in Eb as (stored & -> & Ha). destruct (SaveRun_saved _ _ _ _ _ Hsame Hheld Es) as (Hv & -> & Hl).
  unfold applyPersistedVersion in Ha. rewrite !guard_err_ok in Ha. destruct Ha as (_ & _ & [= <-]).
  apply Hok; [done|]. unfold saved. cbn. exact Hl.
Qed.

Lemma wp_saveRun_or op (failed : go_error -> sched St unit) Q E (st : scheduler St) :
  anchored st ->
  (forall store v, validateSnapshot (Snapshot (sc_run st)) = Ok tt ->
     saved (set_run (set_store st store) (setPersistedVersion (sc_run st) v)) ->
     Q (set_run (set_store st store) (setPersistedVersion (sc_run st) v)) tt) ->
  (forall store cause, wp (failed (persistenceError op (run_id (sc_run st)) cause)) Q E (set_store st store)) ->
  wp (saveRun_or op failed) Q E st.
Proof. intros Hst Hok Herr. apply wp_bind, wp_saveRun; [exact Hst|exact Hok|exact Herr]. Qed.

(** A scheduler whose run is the one that [st] has saved, in a later state. *)
Lemma saved_anchored (st st' : scheduler St) :
  saved st -> sc_store st' = sc_store st -> same_run (sc_run st) (sc_run st') -> anchored st'.
Proof. intros Hs Hst Hr. exists (sc_run st). by rewrite Hst. Qed.

Lemma anchored_exec (st st' : scheduler St) now op :
  saved st -> run_inv (sc_run st) -> sc_store st' = sc_store st -> sc_run st' = exec (sc_run st) now op ->
  op_changes (sc_run st) op -> anchored st'.
Proof. intros Hs Hi Hst Hr Ho. apply (saved_anchored st); [done|done|]. rewrite Hr. by apply same_run_exec. Qed.

Lemma wp_failRun {A : Type} cause (Q : scheduler St -> A -> Prop) st :
  ~ is_stall cause -> wp (failRun clock cause) Q exit_ok st.
Proof.
  intros Hn. apply wp_bind, wp_call. intros now. apply wp_bind, wp_call. intros now'.
  assert (Hj : forall e, ~ is_stall (ErrJoin [cause; e])).
  { intros e (runID & [?|(e' & He)]); [done|]. injection He as -> _. apply Hn. exists runID. by left. }
  unfold with_unit. destruct (transitionWorkflow _ _ _); [|exact (Hj _)].
  apply wp_bind, wp_saveRun_any; [|intros; exact (Hj _)]. intros. exact Hn.
Qed.

Lemma wp_cancelRun {A : Type} cause (Q : scheduler St -> A -> Prop) st : wp (cancelRun clock cause) Q exit_ok st.
Proof.
  apply wp_bind, wp_call. intros now. apply wp_bind, wp_call. intros now'.
  unfold with_unit. destruct (transitionWorkflow _ _ _); [|apply not_stall_wrap].
  apply wp_bind, wp_get. apply wp_bind, wp_saveRun_any; intros; by intros (runID & [?|(? & ?)]).
Qed.

Lemma wp_shutdown {A : Type} (m : sched St A) Q E st : wp m Q E (stop st) -> wp (shutdown m) Q E st.
Proof. done. Qed.

Lemma wp_exit_with {A : Type} e (Q : scheduler St -> A -> Prop) st : ~ is_stall e -> wp (exit_with e) Q exit_ok st.
Proof. done. Qed.

Lemma not_stall_persistence op runID cause : ~ is_stall (persistenceError op runID cause).
Proof. by intros (? & [?|(? & ?)]). Qed.

(** ** Broker traffic leaves the invariant alone *)

Lemma wp_ack d Q E (st : scheduler St) :
  (forall b err, (forall e, err = Some e -> ~ is_stall e) -> Q (set_broker st b) err) -> wp (ack_delivery d) Q E st.
Proof.
  intros HQ. unfold wp, ack_delivery, acknowledgeDelivery.
  destruct (Ack _ _ _); [by apply HQ|].
  destruct (Nack _ _ _); apply HQ; intros e [= <-]; apply not_stall_broker.
Qed.

Lemma wp_acknowledgePendingClaims claims Q E (st : scheduler St) :
  (forall st' err, same_core st st' -> (forall e, err = Some e -> ~ is_stall e) -> Q st' err) ->
  wp (acknowledgePendingClaims claims) Q E st.
Proof.
  revert st. induction claims as [|claim claims IH]; intros st HQ; [by apply HQ|].
  apply wp_bind, wp_ack. intros b [e|] He; [by apply HQ; [|done]|].
  apply wp_bind, wp_modify, IH. intros st' err Hs. apply HQ.
  eapply same_core_trans; [|exact Hs]. done.
Qed.

Lemma wp_release_claims attemptID Q (st : scheduler St) :
  (forall st', same_core st st' -> Q st' tt) -> wp (release_claims attemptID) Q exit_ok st.
Proof.
  intros HQ. apply wp_bind, wp_get, wp_bind, wp_acknowledgePendingClaims.
  intros st' [e|] Hs He; [by apply wp_shutdown, He|]. apply wp_modify, HQ.
  eapply same_core_trans; [exact Hs|done].
Qed.

Lemma wp_release_all attemptIDs Q (st : scheduler St) :
  (forall st', same_core st st' -> Q st' tt) -> wp (release_all attemptIDs) Q exit_ok st.
Proof.
  revert st. induction attemptIDs as [|a l IH]; intros st HQ; [by apply HQ|].
  apply wp_bind, wp_release_claims. intros st' Hs. apply IH. intros st'' Hs'.
  apply HQ. by eapply same_core_trans.
Qed.

Lemma not_stall_publish taskID :
  ~ is_stall (ErrText ("publish ready task " +:+ quote taskID +:+ ": task run is missing")).
Proof. by intros (runID & [?|(? & ?)]). Qed.

Lemma wp_publish_task ctx taskID Q E (st : scheduler St) :
  (forall st' err, same_core st st' -> (forall e, err = Some e -> ~ is_stall e) -> Q st' err) ->
  wp (publish_task trace_headers ctx taskID) Q E st.
Proof.
  intros HQ. unfold wp, publish_task. destruct (run_tasks (sc_run st) !! taskID) as [t|].
  2: { apply HQ; [done|]. intros e [= <-]. apply not_stall_publish. }
  case_bool_decide; [by apply HQ|]. destruct (marshal_dispatch _) as [body|err].
  2: { apply HQ; [done|]. intros e [= <-]. apply not_stall_broker. }
  destruct (Publish _ _ _) as [b|err]; apply HQ; try done. intros e [= <-]. apply not_stall_broker.
Qed.

Lemma wp_publish_tasks ctx taskIDs Q E (st : scheduler St) :
  (forall st' err, same_core st st' -> (forall e, err = Some e -> ~ is_stall e) -> Q st' err) ->
  wp (publish_tasks trace_headers ctx taskIDs) Q E st.
Proof.
  revert st. induction taskIDs as [|taskID l IH]; intros st HQ; [by apply HQ|].
  apply wp_bind, wp_publish_task. intros st' [e|] Hs He; [by apply HQ|].
  apply IH. intros st'' err Hs'. apply HQ. by eapply same_core_trans.
Qed.

(** ** Dependency release *)

Definition same_but_run (st st' : scheduler St) : Prop :=
  sc_store st' = sc_store st /\ sc_completed st' = sc_completed st /\ sc_ready st' = sc_ready st /\
  run_id (sc_run st') = run_id (sc_run st) /\ run_definition (sc_run st') = run_definition (sc_run st) /\
  run_createdAt (sc_run st') = run_createdAt (sc_run st).

Lemma wp_mark_ready candidates acc Q E (st : scheduler St) ready :
  core_inv (sc_run st) (sc_completed st) ready ->
  Forall (ready_task (run_definition (sc_run st)) (sc_completed st)) candidates ->
  (forall st' added, same_but_run st st' ->
     core_inv (sc_run st') (sc_completed st) (add_ready ready added) ->
     (forall t, t ∈ candidates -> stat (sc_run st') (td_ID t) <> Some TaskRunPending) ->
     (forall k, stat (sc_run st) k <> Some TaskRunPending -> stat (sc_run st') k <> Some TaskRunPending) ->
     (added = [] -> sc_run st' = sc_run st) -> Q st' (Ok (acc ++ added))) ->
  wp (mark_ready clock candidates acc) Q E st.
Proof.
  revert acc st ready. induction candidates as [|t l IH]; intros acc st ready Hc HF HQ.
  { apply wp_ret. specialize (HQ st []). rewrite app_nil_r in HQ. apply HQ; try done.
    intros t Ht. by apply elem_of_nil in Ht. }
  apply Forall_cons in HF as [Ht HF]. cbn [mark_ready]. apply wp_bind, wp_get.
  assert (Hin : is_Some (run_tasks (sc_run st) !! td_ID t)).
  { apply (ri_dom _ (ci_run _ _ _ Hc)). apply list_elem_of_fmap_2, Ht. }
  destruct Hin as [u Hu]. unfold taskStatus. rewrite Hu.
  destruct (decide (tr_Status u = TaskRunPending)) as [Hp|Hp].
  - rewrite bool_decide_eq_true_2 by done. cbn [negb]. apply wp_bind, wp_call. intros now.
    assert (Hstat : stat (sc_run st) (td_ID t) = Some TaskRunPending) by (rewrite (stat_some _ _ u Hu); congruence).
    destruct (transition_ready (sc_run st) now (td_ID t) Hstat) as (-> & Hk & Hother). cbn [with_unit rbind].
    set (r' := exec _ _ _) in *. pose proof (core_mark _ now t _ _ Hc Ht Hstat) as Hc'. fold r' in Hc'.
    assert (Hd : run_definition r' = run_definition (sc_run st)) by apply exec_definition.
    apply (IH _ (set_run (tick st) r') (<[td_ID t := t]> ready)); [exact Hc'|cbn [set_run tick sc_run sc_completed]; by rewrite Hd|].
    intros st' added (H1' & H2' & H3' & H4' & H5' & H6') Hcore Hmarked Hmono _.
    cbn [set_run tick sc_run sc_completed sc_ready sc_store] in *.
    assert (Hnp : forall k, stat (sc_run st) k <> Some TaskRunPending -> stat r' k <> Some TaskRunPending).
    { intros k Hk'. destruct (decide (k = td_ID t)) as [->|Hne]; [by rewrite Hk|by rewrite Hother]. }
    rewrite <- app_assoc. apply HQ; [|exact Hcore| |auto|done].
    + split_and!; try done; [rewrite H4'; apply exec_id|congruence|]. rewrite H6'.
      exact (proj1 (proj2 (proj2 (exec_frame _ _ _)))).
    + intros v [->|Hv]%elem_of_cons; [|by apply Hmarked]. apply Hmono. by rewrite Hk.
  - rewrite bool_decide_eq_false_2 by done. cbn [negb]. apply (IH _ _ ready); [done|done|].
    intros st' added Hs Hcore Hmarked Hmono Hnone. apply HQ; [done|done| |done|done].
    intros v [->|Hv]%elem_of_cons; [|by apply Hmarked]. apply Hmono. rewrite (stat_some _ _ u Hu). congruence.
Qed.

(** [markNewReady] never fails, and afterwards every pending task waits. *)
Lemma wp_markNewReady Q E (st : scheduler St) :
  core st ->
  (forall st' added, same_but_run st st' ->
     core_inv (sc_run st') (sc_completed st) (add_ready (sc_ready st) added) ->
     pending_waits (sc_run st') (sc_completed st) -> (added = [] -> sc_run st' = sc_run st) ->
     Q st' (Ok added)) ->
  wp (markNewReady clock) Q E st.
Proof.
  intros Hc HQ. apply wp_bind, wp_get.
  pose proof (ReadyTasks_meets (run_definition (sc_run st)) (sc_completed st)) as Hm.
  destruct (ReadyTasks _ _) as [candidates|err]; cbn in Hm.
  - destruct Hm as (_ & Hel & _). eapply (wp_mark_ready candidates [] _ _ _ (sc_ready st)); [exact Hc| |].
    + apply Forall_forall. intros t. by rewrite Hel.
    + intros st' added Hs Hcore Hmarked _ Hnone. apply HQ; [done|done| |done].
      eapply (marked_pending_waits _ _ candidates); [exact Hcore| |done].
      destruct Hs as (_ & _ & _ & _ & Hd & _). rewrite Hd. intros t. by rewrite Hel.
  - exfalso. destruct Hm as [Hv|(_ & Hin & Hn & _)].
    + pose proof (ci_run _ _ _ Hc) as Hi.
      by rewrite (proj2 (Validate_ok_iff _) (conj (ri_definition _ Hi) (ri_acyclic _ Hi))) in Hv.
    + apply Hn. apply (ci_completed _ _ _ Hc) in Hin. destruct (stat_inv _ _ _ Hin) as (t & Ht & _).
      apply (ri_dom _ (ci_run _ _ _ Hc)). by exists t.
Qed.

(** ** Expired leases and due retries *)

Lemma lease_failure_cases runID recoveries :
  match lease_failure runID recoveries with
  | None => forall rec, rec ∈ recoveries -> lr_Outcome rec = CompletionRetryScheduled
  | Some e => ~ is_stall e
  end.
Proof.
  unfold lease_failure. induction recoveries as [|rec l IH] using rev_ind.
  { intros rec Hin. by apply elem_of_nil in Hin. }
  rewrite foldl_snoc. case_bool_decide as Ho; [|by intros (? & [?|(? & ?)])].
  destruct (foldl _ _ _); [done|]. intros rec' [Hin|Hin%list_elem_of_singleton]%elem_of_app; [auto|by subst].
Qed.

Lemma requireDefinition_id definition k :
  structurally_valid definition -> k ∈ taskIDs_of definition ->
  td_ID (requireDefinition (taskDefinitionsByID definition) k) = k.
Proof.
  intros Hv Hk. unfold requireDefinition, taskDefinitionsByID.
  rewrite (fold_insert_lookup td_ID (fun t => t)) by apply (sv_unique _ Hv).
  destruct (List.find _ _) as [t|] eqn:E; cbn.
  - by apply List.find_some in E as [_ Heq%String.eqb_eq].
  - apply list_elem_of_fmap in Hk as (t & -> & Ht%list_elem_of_In).
    apply (List.find_none _ _ E) in Ht. by rewrite String.eqb_refl in Ht.
Qed.

Lemma apply_recovery_frame rec (st : scheduler St) :
  let st' := apply_recovery cfg rec st in
  sc_store st' = sc_store st /\ sc_run st' = sc_run st /\ sc_completed st' = sc_completed st /\
  sc_ready st' =
    (if bool_decide (lr_Outcome rec = CompletionRetryScheduled /\ stat (sc_run st) (lr_TaskID rec) = Some TaskRunReady)
     then let task := requireDefinition (taskDefinitionsByID (run_definition (sc_run st))) (lr_TaskID rec) in
          <[td_ID task := task]> (sc_ready st)
     else sc_ready st).
Proof.
  unfold apply_recovery, stat. destruct (string_is_empty (lr_WorkerID rec));
    [|destruct (replaceWorker _ _ _ _) as [p []]]; cbn;
    (case_bool_decide as Ho; [|by rewrite bool_decide_eq_false_2 by tauto]);
    (destruct (run_tasks (sc_run st) !! lr_TaskID rec) as [t|]; cbn;
      [|rewrite bool_decide_eq_false_2 by (intros [_ ?]; done); done]);
    (destruct (decide (tr_Status t = TaskRunReady)) as [Hs|Hs];
      [rewrite !bool_decide_eq_true_2 by (rewrite ?Hs; done); done
      |rewrite (bool_decide_eq_false_2 (tr_Status t = TaskRunReady)) by done;
       rewrite bool_decide_eq_false_2 by (intros [_ ?]; congruence); done]).
Qed.

Lemma apply_recoveries_frame recoveries (st : scheduler St) :
  structurally_valid (run_definition (sc_run st)) ->
  (forall rec, rec ∈ recoveries -> lr_TaskID rec ∈ taskIDs_of (run_definition (sc_run st))) ->
  let st' := foldl (fun st rec => apply_recovery cfg rec st) st recoveries in
  sc_store st' = sc_store st /\ sc_run st' = sc_run st /\ sc_completed st' = sc_completed st /\
  forall k, is_Some (sc_ready st' !! k) <-> is_Some (sc_ready st !! k) \/
    exists rec, rec ∈ recoveries /\ lr_Outcome rec = CompletionRetryScheduled /\ lr_TaskID rec = k /\
      stat (sc_run st) k = Some TaskRunReady.
Proof.
  intros Hv Hids. induction recoveries as [|rec l IH] using rev_ind; cbn zeta.
  { split; [done|]. split; [done|]. split; [done|]. intros k. split; [by left|].
    intros [?|(rec & Hin & _)]; [done|by apply elem_of_nil in Hin]. }
  rewrite foldl_snoc. destruct IH as (I1 & I2 & I3 & I4); [intros r' Hr'; apply Hids; set_solver|].
  set (st1 := foldl _ st l) in *. destruct (apply_recovery_frame rec st1) as (F1 & F2 & F3 & F4).
  rewrite F1, F2, F3, I1, I2, I3. split; [done|]. split; [done|]. split; [done|]. intros k.
  rewrite F4, I2. clear F4. specialize (I4 k).
  assert (Hid := requireDefinition_id (run_definition (sc_run st)) (lr_TaskID rec) Hv ltac:(apply Hids; set_solver)).
  rewrite (exists_snoc (fun r' => lr_Outcome r' = CompletionRetryScheduled /\ lr_TaskID r' = k /\
    stat (sc_run st) k = Some TaskRunReady)). case_bool_decide as Hb; cbn zeta.
  - rewrite Hid, lookup_insert. destruct (decide (lr_TaskID rec = k)) as [<-|Hne]; [|tauto].
    split; [|by eauto]. intros _. tauto.
  - assert (~ (lr_Outcome rec = CompletionRetryScheduled /\ lr_TaskID rec = k /\ stat (sc_run st) k = Some TaskRunReady));
      [intros (? & <- & ?); tauto|tauto].
Qed.

Lemma persisted_inv store v (st : scheduler St) :
  core st -> waits st -> saved (set_run (set_store st store) (setPersistedVersion (sc_run st) v)) ->
  sched_inv (set_run (set_store st store) (setPersistedVersion (sc_run st) v)).
Proof.
  intros Hc Hw Hs. destruct (core_persisted _ v _ _ Hc) as [Hc' Hw']. split; [exact Hc'|by apply Hw'|done].
Qed.

Section Recovered.
Context (st : scheduler St) (n1 n2 : Z) (r1 r2 : WorkflowRun) (recoveries : list LeaseRecovery) (promoted : list string).
Context (E1 : recoverExpiredLeases (sc_run st) n1 = (r1, recoveries)) (E2 : promoteDueRetries r1 n2 = (r2, promoted)).

Lemma recovered_definition : run_definition r2 = run_definition (sc_run st).
Proof.
  replace r2 with (exec r1 n2 OpPromote) by (unfold exec; by rewrite E2). rewrite exec_definition.
  replace r1 with (exec (sc_run st) n1 OpRecover) by (unfold exec; by rewrite E1). by rewrite exec_definition.
Qed.

Lemma recoveries_known rec : core st -> rec ∈ recoveries -> lr_TaskID rec ∈ taskIDs_of (run_definition r2).
Proof.
  intros Hcore Hin. rewrite recovered_definition. apply (ri_dom _ (ci_run _ _ _ Hcore)).
  pose proof (recoveries_elem (sc_run st) n1 rec) as Hel. rewrite E1 in Hel. apply Hel in Hin as (k & t & Hk & Hr).
  destruct (recover_task _ _ _ _) as [[t' rec']|] eqn:Er; simplify_eq/=.
  destruct (recovered_task _ _ _ _ _ _ Hk Er) as (_ & _ & -> & _). by exists t.
Qed.

(** Nothing to recover or to promote leaves the run as it was. *)
Lemma recovered_same : recoveries = [] -> promoted = [] -> r2 = sc_run st.
Proof.
  intros -> ->. pose proof (recover_nothing (sc_run st) n1) as Hno. rewrite E1 in Hno. rewrite <- (Hno eq_refl).
  pose proof (promote_nothing r1 n2) as Hno2. rewrite E2 in Hno2. by rewrite <- (Hno2 eq_refl).
Qed.

Lemma recovered_later : core st -> same_run (sc_run st) r2.
Proof.
  intros Hc. assert (Hr1 : r1 = exec (sc_run st) n1 OpRecover) by (unfold exec; by rewrite E1).
  assert (Hr2 : r2 = exec r1 n2 OpPromote) by (unfold exec; by rewrite E2).
  pose proof (run_inv_exec (sc_run st) n1 OpRecover (ci_run _ _ _ Hc) I) as Hi1. rewrite <- Hr1 in Hi1.
  apply (same_run_trans _ r1); [|rewrite Hr2; by apply same_run_exec]. rewrite Hr1. apply same_run_exec; [apply Hc|done].
Qed.

(** The scheduler's state before the save. *)
Definition recovered_state : scheduler St :=
  let st := foldl (fun st rec => apply_recovery cfg rec st) (set_run (tick (set_run (tick st) r1)) r2) recoveries in
  set_ready st (foldl (fun m taskID =>
    <[taskID := requireDefinition (taskDefinitionsByID (run_definition (sc_run st))) taskID]> m) (sc_ready st) promoted).

Lemma recovered_frame :
  core st ->
  sc_store recovered_state = sc_store st /\ sc_run recovered_state = r2 /\
  ((forall rec, rec ∈ recoveries -> lr_Outcome rec = CompletionRetryScheduled) -> waits st ->
   core recovered_state /\ waits recovered_state).
Proof.
  intros Hcore. set (st2 := set_run (tick (set_run (tick st) r1)) r2).
  destruct (apply_recoveries_frame recoveries st2) as (F1 & F2 & F3 & F4).
  { cbn. rewrite recovered_definition. apply (ri_definition _ (ci_run _ _ _ Hcore)). }
  { intros rec Hin. by apply recoveries_known. }
  split; [exact F1|]. split; [exact F2|]. intros Hretry Hwaits.
  pose proof (core_recover_promote (sc_run st) n1 n2 _ _ (sc_ready recovered_state) Hcore) as Hstep.
  rewrite E1, E2 in Hstep. unfold core, waits.
  change (sc_run recovered_state) with (sc_run (foldl (fun st rec => apply_recovery cfg rec st) st2 recoveries)).
  change (sc_completed recovered_state) with (sc_completed (foldl (fun st rec => apply_recovery cfg rec st) st2 recoveries)).
  rewrite F2, F3.
  destruct Hstep as [Hc' Hw']; [done| |by split; [|apply Hw']].
  intros k. unfold recovered_state. cbn [set_ready sc_ready]. fold st2. rewrite fold_promoted, F4. cbn [st2 set_run tick sc_run sc_ready].
  rewrite list_elem_of_fmap. split.
  - intros [[?|(rec & Hin & _ & Heq & Hs)]|?]; [by left| |by right; left].
    right. right. split; [by exists rec|done].
  - intros [?|[?|((rec & Heq & Hin) & Hs)]]; [by left; left|by right|].
    left. right. exists rec. rewrite <- Heq. auto.
Qed.
End Recovered.

Lemma wp_recover_and_promote (st : scheduler St) :
  sched_inv st -> wp (recover_and_promote clock cfg) (fun st' _ => sched_inv st') exit_ok st.
Proof.
  intros [Hcore Hwaits Hsaved]. apply wp_bind, wp_call. intros n1.
  destruct (recoverExpiredLeases (sc_run st) n1) as [r1 recoveries] eqn:E1.
  apply wp_bind, wp_call. intros n2. cbn [set_run tick sc_run].
  destruct (promoteDueRetries r1 n2) as [r2 promoted] eqn:E2.
  destruct (recovered_frame st n1 n2 r1 r2 recoveries promoted E1 E2 Hcore) as (F1 & F2 & Hok).
  apply wp_bind, wp_modify, wp_bind, wp_modify. change (set_ready _ _) with (recovered_state st r1 r2 recoveries promoted).
  apply wp_bind. eapply wp_mono with (Q := fun st' _ =>
    (forall rec, rec ∈ recoveries -> lr_Outcome rec = CompletionRetryScheduled) -> sched_inv st').
  - destruct (Nat.eqb (length recoveries) 0 && Nat.eqb (length promoted) 0) eqn:Enil.
    + apply andb_true_iff in Enil as [Hn1%Nat.eqb_eq%nil_length_inv Hn2%Nat.eqb_eq%nil_length_inv].
      apply wp_ret. intros Hretry. destruct (Hok Hretry Hwaits). split; [done|done|].
      unfold saved. rewrite F1, F2. by rewrite (recovered_same st n1 n2 r1 r2 recoveries promoted).
    + apply wp_bind, wp_saveRun_or; [| |intros; by apply wp_shutdown, wp_failRun, not_stall_persistence].
      { apply (saved_anchored st); [done|done|]. rewrite F2. by eapply recovered_later. }
      intros store v _ Hs. apply wp_release_all. intros st' Hsame Hretry. destruct (Hok Hretry Hwaits) as [Hc4 Hw4].
      eapply same_core_inv; [exact Hsame|]. by apply persisted_inv.
  - intros st' _ Hinv. apply wp_bind, wp_get.
    pose proof (lease_failure_cases (run_id (sc_run st')) recoveries) as Hlf.
    destruct (lease_failure _ _) as [e|]; [by apply wp_shutdown, wp_failRun|by apply Hinv].
Qed.

(** ** Completion of the run *)

Lemma all_completed (st : scheduler St) k :
  core st -> size (sc_completed st) = length (wd_Tasks (run_definition (sc_run st))) ->
  k ∈ taskIDs_of (run_definition (sc_run st)) -> k ∈ sc_completed st.
Proof.
  intros Hc Hsize Hk. pose proof (ri_definition _ (ci_run _ _ _ Hc)) as Hv.
  assert (Hsub : sc_completed st ⊆ list_to_set (taskIDs_of (run_definition (sc_run st)))).
  { intros j Hj%(ci_completed _ _ _ Hc). rewrite elem_of_list_to_set. destruct (stat_inv _ _ _ Hj) as (t & Ht & _).
    apply (ri_dom _ (ci_run _ _ _ Hc)). by exists t. }
  assert (Heq : sc_completed st = list_to_set (taskIDs_of (run_definition (sc_run st)))).
  { apply leibniz_equiv, set_subseteq_size_equiv; [done|].
    rewrite size_list_to_set by apply (sv_unique _ Hv). unfold taskIDs_of. rewrite length_fmap. lia. }
  rewrite Heq. by rewrite elem_of_list_to_set.
Qed.

Lemma wp_finish_if_complete (st : scheduler St) :
  sched_inv st ->
  wp (finish_if_complete clock)
    (fun st' _ => sched_inv st' /\ size (sc_completed st') <> length (wd_Tasks (run_definition (sc_run st'))))
    exit_ok st.
Proof.
  intros Hi. apply wp_bind, wp_get. destruct (Nat.eqb_spec (size (sc_completed st))
    (length (wd_Tasks (run_definition (sc_run st))))) as [Heq|Hne]; [|by apply wp_ret].
  apply wp_shutdown, wp_bind, wp_call. intros now. unfold transitionWorkflow. cbn [stop sc_run].
  rewrite (ci_status _ _ _ (si_core _ Hi)). cbn [legalWorkflowTransition negb guard_err with_unit rbind].
  apply wp_bind, wp_saveRun_or.
  - apply (anchored_exec st _ now (OpWorkflow WorkflowRunSucceeded)); [apply Hi|apply (si_core _ Hi)|done| |done].
    cbn [exec]. unfold transitionWorkflow. by rewrite (ci_status _ _ _ (si_core _ Hi)).
  - intros store v _ Hs. split; [done|]. split; [apply (ci_subject _ _ _ (si_core _ Hi))|]. split; [|done].
    intros k Hk. cbn in Hk. change (stat (sc_run st) k = Some TaskRunSucceeded).
    apply (ci_completed _ _ _ (si_core _ Hi)). apply all_completed; [apply Hi|done|done].
  - intros store cause. apply not_stall_persistence.
Qed.

(** ** No stall *)

(** A task that runs or waits for a retry gives the run a deadline. *)
Lemma deadline_loop_exists updatedAt deadline tasks :
  deadline <> zero_time \/ Exists (fun t => (tr_Status t = TaskRunRunning /\
      forall lease, tr_Lease t = Some lease -> lease_ExpiresAt lease <> zero_time) \/
    (tr_Status t = TaskRunRetryWaiting /\ tr_NextAttemptAt t <> zero_time)) tasks ->
  Forall (fun t => (forall lease, tr_Lease t = Some lease -> lease_ExpiresAt lease <> zero_time) /\
    (tr_Status t = TaskRunRetryWaiting -> tr_NextAttemptAt t <> zero_time)) tasks ->
  snd (deadline_loop updatedAt deadline tasks) = true.
Proof.
  revert deadline. induction tasks as [|t tasks IH]; intros deadline Hex HF; cbn [deadline_loop].
  - destruct Hex as [Hd|Hex]; [|by apply Exists_nil in Hex]. cbn. unfold time_is_zero. by apply Z.eqb_neq in Hd as ->.
  - apply Forall_cons in HF as [[Hl Hw] HF]. rewrite Exists_cons in Hex.
    assert (Hgo : forall c, c <> zero_time -> snd
      (if time_is_zero deadline || time_before c deadline then deadline_loop updatedAt c tasks
       else deadline_loop updatedAt deadline tasks) = true).
    { intros c Hc. unfold time_is_zero. destruct (Z.eqb_spec deadline zero_time) as [|Hd]; cbn [orb]; [by apply IH; [left|]|].
      destruct (time_before c deadline); apply IH; auto. }
    assert (Hskip : (tr_Status t <> TaskRunRunning /\ tr_Status t <> TaskRunRetryWaiting) ->
      snd (deadline_loop updatedAt deadline tasks) = true).
    { intros [N1 N2]. apply IH; [|done]. destruct Hex as [?|[[[? _]|[? _]]|?]]; auto; done. }
    destruct (tr_Status t) eqn:Es; try (by apply Hskip).
    + destruct (tr_Lease t) as [lease|]; [by apply Hgo, Hl|done].
    + by apply Hgo, Hw.
Qed.

Lemma unfinished_progress (st : scheduler St) :
  core st -> waits st -> size (sc_completed st) <> length (wd_Tasks (run_definition (sc_run st))) ->
  exists k s, stat (sc_run st) k = Some s /\
    (s = TaskRunReady \/ s = TaskRunRunning \/ s = TaskRunRetryWaiting).
Proof.
  intros Hc Hw Hsize. pose proof (ci_run _ _ _ Hc) as Hi. pose proof (ri_definition _ Hi) as Hv.
  destruct (decide (Forall (fun k => k ∈ sc_completed st) (taskIDs_of (run_definition (sc_run st))))) as [HF|HF].
  - exfalso. apply Hsize. assert (Heq : sc_completed st = list_to_set (taskIDs_of (run_definition (sc_run st)))).
    { apply set_eq. intros k. rewrite elem_of_list_to_set. rewrite Forall_forall in HF. split; [|by apply HF].
      intros Hk%(ci_completed _ _ _ Hc). destruct (stat_inv _ _ _ Hk) as (t & Ht & _). apply (ri_dom _ Hi). by exists t. }
    rewrite Heq, size_list_to_set by apply (sv_unique _ Hv). unfold taskIDs_of. by rewrite length_fmap.
  - apply not_Forall_Exists in HF; [|apply _]. apply Exists_exists in HF as (x & Hx & Hnx).
    destruct (acyclic_progress _ Hv (sc_completed st) x (ri_acyclic _ Hi) Hx Hnx) as (z & Hz & Hnz & Hall).
    destruct (proj2 (ri_dom _ Hi z) Hz) as [t Ht]. exists z, (tr_Status t).
    pose proof (stat_some _ _ _ Ht) as Hs. split; [done|]. destruct (ci_alive _ _ _ Hc z) as [Ha1 Ha2].
    pose proof (tv_status _ _ _ (ti_valid _ _ _ _ _ _ (ri_tasks _ Hi z t Ht))) as Hval.
    destruct (tr_Status t); try (by rewrite Hs in *); auto.
    + destruct (Hw z Hs) as (d & Hd & Hnd). by destruct Hnd; apply Hall.
    + by destruct Hnz; apply (ci_completed _ _ _ Hc).
Qed.

Lemma has_deadline (st : scheduler St) k s :
  core st -> stat (sc_run st) k = Some s -> s = TaskRunRunning \/ s = TaskRunRetryWaiting ->
  snd (nextReliabilityDeadline (sc_run st)) = true.
Proof.
  intros Hc Hk Hs. pose proof (ci_run _ _ _ Hc) as Hi. destruct (stat_inv _ _ _ Hk) as (t & Ht & Hst).
  assert (Hval : forall u, u ∈ map_values (run_tasks (sc_run st)) ->
    task_valid (run_id (sc_run st)) (run_createdAt (sc_run st)) u).
  { intros u (j & Hj)%map_values_elem. apply (ri_tasks _ Hi j u Hj). }
  assert (Hin : t ∈ map_values (run_tasks (sc_run st))) by (apply map_values_elem; by exists k).
  apply deadline_loop_exists.
  - right. apply Exists_exists. exists t. split; [done|]. rewrite Hst. destruct Hs as [->| ->].
    + left. split; [done|]. intros lease Hl. apply (tv_lease _ _ _ (Hval t Hin) lease Hl).
    + right. split; [done|]. by apply (tv_waiting _ _ _ (Hval t Hin)).
  - apply Forall_forall. intros u Hu. split.
    + intros lease Hl. apply (tv_lease _ _ _ (Hval u Hu) lease Hl).
    + intros Hw. by apply (tv_waiting _ _ _ (Hval u Hu)).
Qed.

Lemma wp_check_stalled Q E (st : scheduler St) :
  core st -> waits st -> size (sc_completed st) <> length (wd_Tasks (run_definition (sc_run st))) ->
  Q st tt -> wp (check_stalled clock) Q E st.
Proof.
  intros Hc Hw Hsize HQ. apply wp_bind, wp_get.
  destruct (unfinished_progress st Hc Hw Hsize) as (k & s & Hk & [->|Hs]).
  - apply (ci_ready _ _ _ Hc) in Hk. replace (Nat.eqb (size (sc_ready st)) 0) with false; [done|].
    symmetry. apply Nat.eqb_neq. rewrite map_size_empty_iff. intros Hemp. rewrite Hemp in Hk. by destruct Hk.
  - rewrite (has_deadline st k s Hc Hk Hs), andb_false_r. done.
Qed.

Lemma wp_loop_top ctx ctx_publish (st : scheduler St) :
  sched_inv st -> wp (loop_top clock cfg trace_headers ctx ctx_publish) (fun st' _ => sched_inv st') exit_ok st.
Proof.
  intros Hi. unfold loop_top. destruct (ctx_err ctx); [apply wp_shutdown, wp_cancelRun|].
  apply wp_bind. eapply wp_mono; [by apply wp_recover_and_promote|]. intros st1 [] Hi1.
  apply wp_bind. eapply wp_mono; [by apply wp_finish_if_complete|]. intros st2 [] [Hi2 Hsize].
  apply wp_bind, wp_bind, wp_get, wp_publish_tasks. intros st3 [e|] Hs He; [by apply wp_shutdown, He|].
  pose proof (same_core_inv _ _ Hs Hi2) as Hi3. destruct Hs as (_ & Hr & Hc & _).
  apply wp_check_stalled; [apply Hi3|apply Hi3|by rewrite Hr, Hc|done].
Qed.
End Scheduler.
