(* ===== verification/EngineRuns.v ===== *)
(** * Guarantees of whole executions

    Every event keeps the scheduler's invariant or ends the run, and so does a
    whole execution of [Execute]. *)
From S2P Require Import Prelude Workflow Heap Graph GraphBuild GraphOrder Errors Run Ids Snapshot SnapshotValid RunStep RunInv RunProps RunDurable Broker Engine EngineInv EngineProps.

(** ** Runs the scheduler can take over *)

(** What [executeBrokerRun] needs of the run it is given. *)
Record resumable `{Subject} (r : WorkflowRun) : Prop := {
  rs_inv : run_inv r;
  rs_status : run_status r = WorkflowRunRunning;
  rs_alive : forall k, stat r k <> Some TaskRunFailed /\ stat r k <> Some TaskRunCanceled;
  rs_deps : forall k d s, stat r k = Some s -> s <> TaskRunPending ->
    depends (run_definition r) k d -> stat r d = Some TaskRunSucceeded;
  rs_subject : is_subject r
}.

Lemma core_resumable `{Subject} r completed ready : core_inv r completed ready -> resumable r.
Proof.
  intros [Hi Hs Hc _ Ha Hd ?]. split; [done|done|done| |done]. intros k d s Hk Hnp Hdep. apply Hc. eauto.
Qed.

(** The tasks of a run with some status, by their identifiers. *)
Lemma sorted_stat r k s :
  run_inv r ->
  stat r k = Some s <-> exists t, tr_TaskID t = k /\ t ∈ filter (fun t => tr_Status t = s) (sortedTasks r).
Proof.
  intros Hi. setoid_rewrite list_elem_of_filter. unfold sortedTasks. setoid_rewrite sorted_values_elem. split.
  - intros (t & Ht & Hs)%stat_inv. exists t. split; [apply (ti_key _ _ _ _ _ _ (ri_tasks r Hi k t Ht))|eauto].
  - intros (t & <- & Hs & j & Hj). rewrite (ti_key _ _ _ _ _ _ (ri_tasks r Hi j t Hj)), (stat_some _ _ _ Hj).
    by f_equal.
Qed.

Lemma completedTaskIDs_spec r k : run_inv r -> k ∈ completedTaskIDs r <-> stat r k = Some TaskRunSucceeded.
Proof.
  intros Hi. rewrite (sorted_stat r k _ Hi). unfold completedTaskIDs. rewrite elem_of_list_to_set, list_elem_of_fmap.
  split; intros (t & ? & ?); eauto.
Qed.

Lemma add_ready_elem tasks ready k :
  is_Some (add_ready ready tasks !! k) <-> is_Some (ready !! k) \/ exists t, t ∈ tasks /\ td_ID t = k.
Proof.
  unfold add_ready. induction tasks as [|x l IH] using rev_ind; [set_solver|].
  rewrite foldl_snoc, lookup_insert, exists_snoc. case_decide; [naive_solver|]. rewrite IH. naive_solver.
Qed.

Lemma existingReadyTasks_spec r k :
  run_inv r ->
  is_Some (add_ready ∅ (existingReadyTasks r (run_definition r)) !! k) <-> stat r k = Some TaskRunReady.
Proof.
  intros Hi. rewrite add_ready_elem, lookup_empty, (sorted_stat r k _ Hi). unfold existingReadyTasks, sortTasks.
  setoid_rewrite (sort_by_perm td_ID). setoid_rewrite list_elem_of_fmap.
  assert (Hid : forall t, t ∈ filter (fun t => tr_Status t = TaskRunReady) (sortedTasks r) ->
    td_ID (requireDefinition (taskDefinitionsByID (run_definition r)) (tr_TaskID t)) = tr_TaskID t).
  { intros t Ht. apply requireDefinition_id; [apply Hi|]. apply (ri_dom r Hi).
    assert (Hs : stat r (tr_TaskID t) = Some TaskRunReady) by (apply (sorted_stat r _ _ Hi); eauto).
    apply stat_inv in Hs as (u & Hu & _). by exists u. }
  split.
  - intros [[? [=]]|(d & (t & -> & Ht) & <-)]. exists t. split; [by rewrite Hid|done].
  - intros (t & <- & Ht). right. eexists. split; [by exists t|by apply Hid].
Qed.

Lemma initial_core `{Subject} {St : Type} (store : St) b r n :
  resumable r ->
  core_inv r (sc_completed (initial_scheduler store b r n)) (sc_ready (initial_scheduler store b r n)).
Proof.
  intros [Hi Hs Ha Hd ?]. split; [done|done| | |done| |done]; cbn [initial_scheduler sc_completed sc_ready].
  - intros k. by apply completedTaskIDs_spec.
  - intros k. by apply existingReadyTasks_spec.
  - intros k d s Hk Hnp Hdep. apply completedTaskIDs_spec; eauto.
Qed.

Section Events.
Context `{Unicode} `{DispatchCodec} {St : Type} `{Store St} `{!StoreLaws} `{Subject}.
Context (clock : nat -> Z) (cfg : engine_config) (trace_headers : string -> gmap string string).

Local Notation keeps m := (forall st : scheduler St, sched_inv st -> wp m (fun st' _ => sched_inv st') exit_ok st).

Lemma keeps_same (m : sched St unit) (st : scheduler St) :
  sched_inv st -> wp m (fun st' _ => same_core st st') exit_ok st -> wp m (fun st' _ => sched_inv st') exit_ok st.
Proof. intros Hi Hm. eapply wp_mono; [exact Hm|]. intros st' [] Hs. by eapply same_core_inv. Qed.

Lemma wp_reject_claim claim operation err Q (st : scheduler St) : wp (reject_claim claim operation err) Q exit_ok st.
Proof.
  apply wp_bind, wp_ack. intros b ackErr _. apply wp_bind, wp_modify, wp_bind, wp_get, wp_exit_with, not_stall_broker.
Qed.

Lemma lease_claim_keeps claim dispatch task : keeps (lease_claim clock cfg claim dispatch task).
Proof.
  intros st Hi. apply wp_bind, wp_call. intros now.
  destruct (startTaskAttempt _ _ _ _ _) as [[r' a]|err] eqn:Es; [|apply wp_shutdown, wp_failRun, not_stall_wrap].
  apply wp_bind, wp_saveRun_or; [| |intros; apply wp_exit_with, not_stall_persistence].
  { eapply (anchored_exec st _ now (OpStart _ _ _)); [apply Hi|apply (si_core _ Hi)|done| |done].
    cbn [exec set_run sc_run]. by rewrite Es. }
  intros store v Hv Hs. cbn [set_run tick sc_run] in Hv, Hs.
  destruct (core_start _ _ _ _ _ _ _ _ _ (si_core _ Hi) Es Hv) as [Hc Hw].
  specialize (Hw (si_waits _ Hi)). destruct (core_persisted _ v _ _ Hc) as [Hc' Hw'].
  apply wp_modify. split; [exact Hc'|exact (Hw' Hw)|exact Hs].
Qed.

Lemma accept_claim_keeps claim dispatch task : keeps (accept_claim clock cfg claim dispatch task).
Proof.
  intros st Hi. unfold accept_claim. destruct (_ && _); [by apply lease_claim_keeps|].
  apply keeps_same; [done|]. destruct (_ && _); [done|].
  apply wp_bind, wp_ack. intros b [e|] He; [by apply wp_exit_with, He|done].
Qed.

Lemma handle_claim_keeps claim : keeps (handle_claim clock cfg claim).
Proof.
  intros st Hi. apply wp_bind, wp_get. destruct (negb _).
  { apply keeps_same; [done|]. unfold wp, stale_claim. destruct (Nack _ _ _) as [b|e]; [done|].
    destruct (is_settled e); [done|]. apply not_stall_broker. }
  apply wp_bind, wp_get. destruct (decodeTaskDispatch _) as [dispatch|err]; [|apply wp_reject_claim].
  destruct (_ || _); [apply wp_reject_claim|].
  destruct (run_tasks _ !! _) as [task|]; [|apply wp_reject_claim].
  destruct (negb _); [apply wp_reject_claim|by apply accept_claim_keeps].
Qed.

Lemma handle_heartbeat_keeps workerID : keeps (handle_heartbeat clock cfg workerID).
Proof.
  intros st Hi. apply wp_bind, wp_get. destruct (negb _); [done|].
  apply wp_bind, wp_call. intros now. destruct (recordWorkerHeartbeat _ _ _ _) as [r'|err] eqn:Eh; cbn [with_unit rbind];
    [|apply wp_shutdown, wp_failRun, not_stall_wrap].
  destruct (core_heartbeat _ _ _ _ _ _ _ (si_core _ Hi) Eh) as [Hc Hw]. specialize (Hw (si_waits _ Hi)).
  apply wp_bind, wp_saveRun_or; [| |intros; apply wp_exit_with, not_stall_persistence].
  { eapply (anchored_exec st _ now (OpHeartbeat _ _)); [apply Hi|apply (si_core _ Hi)|done| |done].
    cbn [exec set_run sc_run]. by rewrite Eh. }
  intros store v _ Hs. pose proof (persisted_inv store v (set_run (tick st) r') Hc Hw Hs) as Hi'.
  apply wp_bind, wp_get. destruct (_ !! workerID); [|done]. apply wp_bind, wp_get, wp_bind, wp_get.
  destruct (Progress _ _ _); [done|]. apply wp_exit_with, not_stall_broker.
Qed.

Lemma handle_lost_keeps workerID slot : keeps (handle_lost cfg workerID slot).
Proof.
  intros st Hi. apply keeps_same; [done|]. apply wp_modify. destruct (String.eqb _ _); [|done].
  by destruct (replaceWorker _ _ _ _).
Qed.

Lemma handle_broker_error_keeps workerID slot err : keeps (handle_broker_error workerID slot err).
Proof.
  intros st Hi. apply wp_bind, wp_get, wp_bind, wp_get. destruct (negb _); [done|].
  apply wp_exit_with, not_stall_broker.
Qed.

(** The three outcomes of a completion that go on: the run is saved with its
    invariant, and only a failed task makes the scheduler give up. *)
Lemma record_outcome_keeps result r' now outcome (st st0 : scheduler St) :
  sched_inv st0 -> sc_completed st = sc_completed st0 -> sc_ready st = sc_ready st0 -> sc_store st = sc_store st0 ->
  completeTaskAttempt (sc_run st0) now (res_taskID result) (res_taskRunID result) (res_workerID result)
    (res_attemptID result) (res_output result) (res_err result) = Ok (r', outcome) ->
  sc_run st = r' ->
  wp (record_outcome clock result outcome)
    (fun st' failure => match failure with Some e => ~ is_stall e | None => sched_inv st' end) exit_ok st.
Proof.
  intros Hi Hc Hr Hst Hcomp <-. apply complete_cases in Hcomp as [[-> Heq]|(Heq & Hrun & s' & Hs' & Hout)].
  { apply wp_ret. apply (same_core_inv st0); [done|exact Hi]. }
  destruct Hi as [Hcore Hw Hsaved]. unfold core, waits in *. rewrite <- Hc, <- Hr in *.
  assert (Hanchor : forall st', sc_store st' = sc_store st -> sc_run st' = sc_run st -> anchored st').
  { intros st' Hst' Hr'. eapply (anchored_exec st0 _ now (OpComplete _ _ _ _ _ _)); [done|apply Hcore| | |done].
    - by rewrite Hst'.
    - rewrite Hr'. exact Heq. }
  destruct outcome; [done| | |].
  - subst s'. apply wp_bind, wp_modify.
    assert (Hcore' : core (set_completed st ({[res_taskID result]} ∪ sc_completed st))).
    { unfold core. cbn [set_completed sc_run sc_completed sc_ready]. rewrite Heq. apply core_succeeded; [done|done|].
      by rewrite <- Heq. }
    apply wp_bind, wp_markNewReady; [done|]. intros st' added (S1 & S2 & S3 & S4 & S5 & S6) Hc' Hw' _.
    apply wp_bind, wp_modify, wp_bind, wp_saveRun_or; [| |intros; apply wp_exit_with, not_stall_persistence].
    { destruct (Hanchor st eq_refl eq_refl) as (r0 & Hsame & Hheld). exists r0. cbn [set_ready sc_run sc_store].
      rewrite S1. split; [|done]. eapply same_run_trans; [exact Hsame|]. apply same_run_inv; try done; [|apply Hc'].
      apply (ci_run _ _ _ Hcore'). }
    intros store v _ Hs. apply wp_ret.
    apply (persisted_inv store v (set_ready st' (add_ready (sc_ready st') added))); [| |exact Hs];
      unfold core, waits; cbn [set_ready sc_run sc_completed sc_ready]; rewrite ?S2, ?S3; [exact Hc'|exact Hw'].
  - apply wp_bind, wp_modify.
    set (task := requireDefinition _ _).
    destruct (core_retry (sc_run st0) now (res_taskID result) (res_taskRunID result) (res_workerID result)
      (res_attemptID result) (res_output result) (res_err result) (sc_completed st) (sc_ready st) task s') as [Hc' Hw'];
      [done|done|by rewrite <- Heq|done|]. rewrite <- Heq in Hc', Hw'. specialize (Hw' Hw).
    destruct (stat_inv _ _ _ Hs') as (t & Ht & Hts). rewrite Ht, Hts.
    apply wp_bind, wp_saveRun_or; [by apply Hanchor; case_bool_decide| |intros; apply wp_exit_with, not_stall_persistence].
    intros store v _ Hs. apply wp_ret. apply persisted_inv; [| |exact Hs]; case_bool_decide; done.
  - apply wp_bind, wp_saveRun_or; [by apply Hanchor| |intros; apply wp_exit_with, not_stall_persistence].
    intros store v _ _. apply wp_bind, wp_get, wp_ret. by intros (? & [?|(? & ?)]).
Qed.

Lemma handle_result_keeps ctx result : keeps (handle_result clock ctx result).
Proof.
  intros st Hi. unfold handle_result. destruct (ctx_err ctx); [apply wp_shutdown, wp_cancelRun|].
  apply wp_bind, wp_modify, wp_bind, wp_call. intros now.
  destruct (completeTaskAttempt _ _ _ _ _ _ _ _) as [[r' outcome]|err] eqn:Ec;
    [|apply wp_shutdown, wp_failRun, not_stall_wrap].
  apply wp_bind. eapply wp_mono; [eapply (record_outcome_keeps result r' now outcome _ st); try done; exact Ec|].
  intros st1 failure Hf. apply wp_bind, wp_ack. intros b [e|] He; [by apply wp_exit_with, He|].
  apply wp_bind, wp_release_claims. intros st2 Hs. destruct failure as [e|]; [by apply wp_shutdown, wp_failRun|].
  eapply same_core_inv; [exact Hs|]. by eapply same_core_inv; [|exact Hf].
Qed.

Lemma handle_event_keeps ctx event : keeps (handle_event clock cfg ctx event).
Proof.
  destruct event; cbn [handle_event].
  - apply handle_claim_keeps.
  - apply handle_heartbeat_keeps.
  - apply handle_lost_keeps.
  - apply handle_broker_error_keeps.
  - apply handle_result_keeps.
  - done.
  - intros st Hi. destruct (ctx_err ctx); [apply wp_shutdown, wp_cancelRun|done].
Qed.

Lemma loop_keeps its : keeps (loop clock cfg trace_headers its).
Proof.
  induction its as [|it its IH]; intros st Hi; [done|]. apply wp_bind, wp_bind.
  eapply wp_mono; [by apply wp_loop_top|]. intros st1 [] Hi1. apply wp_bind, wp_modify.
  eapply wp_mono; [apply handle_event_keeps; by eapply same_core_inv; [|exact Hi1]|].
  intros st2 [] Hi2. by apply IH.
Qed.

(** ** Whole executions *)

(** The scheduler takes over a saved run, whatever else is in its state. *)
Lemma executeBrokerRun_keeps its (st : scheduler St) :
  resumable (sc_run st) -> saved st ->
  wp (executeBrokerRun clock cfg trace_headers its) (fun st' _ => sched_inv st') exit_ok st.
Proof.
  intros Hr Hs. apply wp_bind, wp_modify, wp_bind, wp_bind, wp_markNewReady; [by apply initial_core|].
  intros st1 added (S1 & S2 & S3 & S4 & S5 & S6) Hc Hw Hnone. apply wp_bind, wp_modify, wp_bind.
  eapply wp_mono with (Q := fun st' _ => sched_inv st').
  - assert (Hc1 : core (set_ready st1 (add_ready (sc_ready st1) added))).
    { unfold core. cbn [set_ready sc_run sc_completed sc_ready]. by rewrite S2, S3. }
    assert (Hw1 : waits (set_ready st1 (add_ready (sc_ready st1) added))).
    { unfold waits. cbn [set_ready sc_run sc_completed]. by rewrite S2. }
    destruct (Nat.eqb_spec (length added) 0) as [Hnil%nil_length_inv|_].
    + apply wp_ret. split; [done|done|]. unfold saved. cbn [set_ready sc_run sc_store].
      rewrite S1, (Hnone Hnil). exact Hs.
    + apply wp_saveRun_or; [|intros store v _ Hs1; by apply persisted_inv|].
      { apply (saved_anchored st); [done|done|]. apply same_run_inv; [apply Hr|apply Hc1|done|done|done]. }
      intros. apply wp_failRun, not_stall_persistence.
  - intros st2 [] Hi. apply wp_modify, loop_keeps. eapply same_core_inv; [|exact Hi]. done.
Qed.

(** A run that has been created and not started. *)
Record fresh (r : WorkflowRun) : Prop := {
  fr_inv : run_inv r;
  fr_status : run_status r = WorkflowRunPending;
  fr_tasks : forall k s, stat r k = Some s -> s = TaskRunPending;
  fr_subject : is_subject r
}.

Lemma new_run_fresh runID d now r v :
  newWorkflowRun runID d now = Ok r -> definition_in_range d -> 0 < now -> is_subject r ->
  fresh (setPersistedVersion r v).
Proof.
  intros Hn Hd Hnow Hsub. pose proof (newWorkflowRun_inv _ _ _ _ Hn Hd Hnow) as Hi.
  pose proof (run_inv_exec r now (OpPersisted v) Hi I) as Hi1. split; [exact Hi1| | |done].
  - by apply newWorkflowRun_ok in Hn as (_ & _ & ->).
  - intros k s (t & Hk & <-)%stat_inv. cbn in Hk.
    apply newWorkflowRun_ok in Hn as (_ & _ & ->). cbn [run_tasks] in Hk. rewrite new_tasks_lookup in Hk.
    case_decide; by simplify_eq/=.
Qed.

(** A run that starts has no task that started. *)
Lemma started_resumable r r' ts : fresh r -> transitionWorkflow r ts WorkflowRunRunning = Ok r' -> resumable r'.
Proof.
  intros [Hi Hst Hpend Hsub] Ht.
  assert (Heq : r' = exec r ts (OpWorkflow WorkflowRunRunning)) by (cbn; by rewrite Ht).
  assert (Hpend' : forall k s, stat r' k = Some s -> s = TaskRunPending).
  { intros k s. unfold transitionWorkflow in Ht. apply guard_err_ok in Ht as [_ [= <-]]. apply Hpend. }
  split.
  - rewrite Heq. by apply run_inv_exec.
  - unfold transitionWorkflow in Ht. apply guard_err_ok in Ht as [_ [= <-]]. done.
  - intros k. split; intros Hk; by apply Hpend' in Hk.
  - intros k e s Hk Hnp. by destruct (Hnp (Hpend' k s Hk)).
  - unfold is_subject. by rewrite Heq, exec_id, exec_definition.
Qed.

Lemma start_run_keeps ctx its (st : scheduler St) :
  fresh (sc_run st) -> saved st ->
  wp (start_run clock cfg trace_headers ctx its) (fun st' _ => sched_inv st') exit_ok st.
Proof.
  intros Hf Hsaved. unfold start_run. destruct (ctx_err ctx); [apply wp_cancelRun|].
  apply wp_bind, wp_call. intros ts. destruct (transitionWorkflow _ _ _) as [r'|e] eqn:Et; cbn [with_unit rbind];
    [|apply not_stall_wrap].
  pose proof (started_resumable _ _ _ Hf Et) as Hres.
  apply wp_bind, wp_saveRun_or; [| |intros; apply not_stall_persistence].
  { apply (anchored_exec st _ ts (OpWorkflow WorkflowRunRunning)); [done|apply Hf|done| |done].
    cbn [exec set_run sc_run]. by rewrite Et. }
  intros store w _ Hs. apply executeBrokerRun_keeps; [|exact Hs].
  destruct (core_persisted r' w _ _ (initial_core store (sc_broker st) r' 0 Hres)) as [Hc _].
  exact (core_resumable _ _ _ Hc).
Qed.

Lemma resolveHandlers_error {A : Type} (handlers : gmap string A) definition e :
  resolveHandlers handlers definition = Err e -> ~ is_stall e.
Proof.
  unfold resolveHandlers. generalize (∅ : gmap string A) as acc.
  induction (sortTasks (wd_Tasks definition)) as [|t l IH]; intros acc; cbn; [done|].
  destruct (handlers !! td_Handler t); cbn; [apply IH|]. intros [= <-] (? & [?|(? & ?)]); done.
Qed.

Lemma alive_not_terminal r : resumable r -> recoveredTerminalTaskState r = None.
Proof.
  intros [Hi _ Ha _ _]. unfold recoveredTerminalTaskState.
  assert (Hno : forall s t, t ∈ sortedTasks r -> tr_Status t = s -> stat r (tr_TaskID t) = Some s).
  { intros s t Ht Hs. apply (sorted_stat r _ _ Hi). exists t. by rewrite list_elem_of_filter. }
  destruct (List.find _ _) as [t|] eqn:Ef.
  { apply List.find_some in Ef as [Ht%list_elem_of_In Hs%bool_decide_eq_true]. by destruct (Ha (tr_TaskID t)) as [[] _]; auto. }
  destruct (existsb _ _) eqn:Ee; [|done].
  apply existsb_exists in Ee as (t & Ht%list_elem_of_In & Hs%bool_decide_eq_true). by destruct (Ha (tr_TaskID t)) as [_ []]; auto.
Qed.

Lemma resume_run_keeps {A : Type} (handlers : gmap string A) ctx its (st : scheduler St) :
  resumable (sc_run st) -> saved st ->
  wp (resume_run clock cfg trace_headers handlers ctx its) (fun st' _ => sched_inv st') exit_ok st.
Proof.
  intros Hr Hs. apply wp_bind, wp_get. rewrite bool_decide_eq_false_2 by (rewrite (rs_status _ Hr); naive_solver).
  rewrite alive_not_terminal by done. apply wp_bind.
  rewrite bool_decide_eq_false_2 by (by rewrite (rs_status _ Hr)). apply wp_ret.
  destruct (ctx_err ctx); [apply wp_cancelRun|].
  destruct (resolveHandlers _ _) eqn:Eh; [by apply executeBrokerRun_keeps|]. by eapply resolveHandlers_error.
Qed.

(** What every execution guarantees of its result. *)
Definition result_ok (result : @engine_result St) : Prop :=
  match result with
  | NoRun _ _ => True
  | WithRun (Next st _) => sched_inv st
  | WithRun (Exit st err) => exit_ok st err
  end.
End Events.

Section Executions.
Context `{Unicode} `{DispatchCodec} {St : Type} `{Store St} `{!StoreLaws} `{!RecoverLaws}.
Context (clock : nat -> Z) (cfg : engine_config) (trace_headers : string -> gmap string string).

(** A run that [CreateRun] has stored, with the version it has there. *)
Lemma created_saved `{Subject} runID d now r store1 store2 created r1 b n :
  newWorkflowRun runID d now = Ok r -> definition_in_range d -> 0 < now -> is_subject r ->
  store_LoadWorkflow store1 CtxLive (wd_ID (run_definition r)) = Ok (Some (run_definition r)) ->
  store_CreateRun store1 CtxLive (Snapshot r) = (store2, created) ->
  rbind created (applyPersistedVersion r (Snapshot r)) = Ok r1 ->
  fresh r1 /\ saved (initial_scheduler store2 b r1 n).
Proof.
  intros Hn Hd Hnow Hsub Hl Hc (stored & -> & Ha)%rbind_ok.
  apply CreateRun_created in Hc as (_ & -> & Hheld); [|by eapply inv_shaped, newWorkflowRun_inv|done].
  unfold applyPersistedVersion in Ha. rewrite !guard_err_ok in Ha. destruct Ha as (_ & _ & [= <-]).
  split; [by eapply new_run_fresh|exact Hheld].
Qed.

Lemma Execute_keeps {A : Type} (handlers : gmap string A) store b ctx runID definition its :
  definition_in_range definition -> 0 < clock 0 ->
  @result_ok _ _ _ _ (mkSubject runID (cloneDefinition definition))
    (Execute clock cfg trace_headers handlers store b ctx runID definition its).
Proof.
  intros Hd Hnow. unfold Execute. set (S := mkSubject _ _).
  destruct ctx as [| |e]; [done|..]; (
    destruct (newWorkflowRun _ _ _) as [r|?] eqn:En; [|done];
    assert (Hsub : is_subject r) by (by apply newWorkflowRun_ok in En as (_ & _ & ->));
    destruct (resolveHandlers _ _); [|done];
    destruct (store_SaveWorkflow _ _ _) as [store1 [?|?]] eqn:Ew; [|done];
    apply SaveWorkflow_saved in Ew; [|exact (ri_cloned _ (newWorkflowRun_inv _ _ _ _ En Hd Hnow))];
    destruct (store_CreateRun _ _ _) as [store2 created] eqn:Ec;
    destruct (rbind _ _) as [r1|?] eqn:Eb; [|done];
    destruct (created_saved _ _ _ _ _ _ _ _ b 1 En Hd Hnow Hsub Ew Ec Eb) as [Hf Hs];
    exact (start_run_keeps clock cfg trace_headers _ _ (initial_scheduler store2 b r1 1) Hf Hs)).
Qed.

Lemma alike_resumable `{Subject} r r' : alike r r' -> run_inv r' -> resumable r -> resumable r'.
Proof.
  intros Ha Hi' [Hi Hs Hal Hd Hsub]. split; [done|by rewrite (al_status _ _ Ha)| | |].
  - intros k. rewrite (alike_stat _ _ k Ha). apply Hal.
  - intros k d s. rewrite !(alike_stat _ _ _ Ha), (al_definition _ _ Ha). apply Hd.
  - unfold is_subject in *. by rewrite (al_id _ _ Ha), (al_definition _ _ Ha).
Qed.

(** [Recover] loads a run that the store holds and resumes it. *)
Lemma Recover_held {A : Type} (handlers : gmap string A) store r b ctx its :
  run_inv r -> aggregate_valid (run_status r) (sortedTasks r) -> store_holds store r -> ctx <> CtxNil ->
  exists r', run_inv r' /\ alike r r' /\ store_holds store r' /\
    Recover clock cfg trace_headers handlers store b CtxLive ctx (run_id r) its =
    WithRun (resume_run clock cfg trace_headers handlers ctx its (initial_scheduler store b r' 0)).
Proof.
  intros Hi Hagg Hheld Hctx. destruct (holds_recovers store r Hi Hagg Hheld) as (Hl & loaded & r' & Hload & Hr & Hi' & Ha & Hh').
  exists r'. split_and!; try done. unfold Recover. rewrite (ri_id _ Hi), Hload. cbn [negb].
  pose proof (restore_ok _ _ _ Hr) as (_ & _ & Hw & _). rewrite Hw, Hl, Hr. by destruct ctx.
Qed.

(** [Recover] takes over what a scheduler left in its store. *)
Lemma Recover_keeps `{Subject} {A : Type} (handlers : gmap string A) (st : scheduler St) b ctx its :
  sched_inv st -> ctx <> CtxNil ->
  exists result,
    Recover clock cfg trace_headers handlers (sc_store st) b CtxLive ctx sub_id its = WithRun result /\
    result_ok (WithRun result).
Proof.
  intros [Hc Hw Hs] Hctx. destruct (ci_subject _ _ _ Hc) as [Hid _]. pose proof (ci_run _ _ _ Hc) as Hi.
  destruct (Recover_held handlers (sc_store st) (sc_run st) b ctx its) as (r' & Hi' & Ha & Hh & Hrec);
    [done|by rewrite (ci_status _ _ _ Hc)|done|done|].
  rewrite Hid in Hrec. eexists. split; [exact Hrec|].
  apply (resume_run_keeps clock cfg trace_headers handlers ctx its); [|exact Hh].
  eapply alike_resumable; [exact Ha|done|by eapply core_resumable].
Qed.

(** C1: [Execute] returns a nil error only for a finished run: the workflow run
    has succeeded, it is the run of the given identifier and definition, every one
    of its tasks has succeeded, and the store holds this state. This is
    for every behaviour of the workers, the clock, the context, the other users of
    the broker and every store that keeps the promises of [StoreLaws]. *)
Theorem execute_nil_means_done {A : Type} (handlers : gmap string A) store b ctx runID definition its st :
  definition_in_range definition -> 0 < clock 0 ->
  Execute clock cfg trace_headers handlers store b ctx runID definition its = WithRun (Exit st None) ->
  run_status (sc_run st) = WorkflowRunSucceeded /\ run_id (sc_run st) = runID /\
  run_definition (sc_run st) = cloneDefinition definition /\
  (forall task, task ∈ wd_Tasks definition -> stat (sc_run st) (td_ID task) = Some TaskRunSucceeded) /\
  store_holds (sc_store st) (sc_run st).
Proof.
  intros Hd Hnow He. pose proof (Execute_keeps handlers store b ctx runID definition its Hd Hnow) as Hok.
  rewrite He in Hok. destruct Hok as (Hs & [Hid Hdef] & Hall & Hsaved). cbn in Hid, Hdef. split_and!; try done.
  intros task Ht. apply Hall. rewrite Hdef, taskIDs_clone. by apply list_elem_of_fmap_2.
Qed.

(** C4: while [Execute] runs, the store holds the run that is in memory,
    and a task of it that is past pending has only succeeded dependencies: no
    task is made ready, leased or retried before its dependencies are durable. *)
Theorem execute_dependency_safety {A : Type} (handlers : gmap string A) store b ctx runID definition its st :
  definition_in_range definition -> 0 < clock 0 ->
  Execute clock cfg trace_headers handlers store b ctx runID definition its = WithRun (Next st tt) ->
  store_holds (sc_store st) (sc_run st) /\
  forall k d s, stat (sc_run st) k = Some s -> s <> TaskRunPending -> depends (cloneDefinition definition) k d ->
    stat (sc_run st) d = Some TaskRunSucceeded.
Proof.
  intros Hd Hnow He. pose proof (Execute_keeps handlers store b ctx runID definition its Hd Hnow) as Hok.
  rewrite He in Hok. destruct Hok as [Hc _ Hsaved]. destruct (ci_subject _ _ _ Hc) as [Hid Hdef].
  cbn in Hid, Hdef. split; [done|].
  intros k d s Hk Hnp Hdep. rewrite <- Hdef in Hdep. apply (ci_completed _ _ _ Hc). by eapply (ci_deps _ _ _ Hc).
Qed.

(** C11: [Execute] never gives up on a run as stalled: a valid definition always
    has a task to publish, an attempt in flight or a deadline to wait for until
    every task has succeeded. *)
Theorem execute_never_stalls {A : Type} (handlers : gmap string A) store b ctx runID definition its st e id :
  definition_in_range definition -> 0 < clock 0 ->
  Execute clock cfg trace_headers handlers store b ctx runID definition its = WithRun (Exit st (Some e)) ->
  e <> stalled_error id /\ forall e', e <> ErrJoin [stalled_error id; e'].
Proof.
  intros Hd Hnow He. pose proof (Execute_keeps handlers store b ctx runID definition its Hd Hnow) as Hok.
  rewrite He in Hok. split; [intros ->|intros e' ->]; apply Hok; exists id; eauto.
Qed.

End Executions.

(** ** Restarts *)

(** What differs from one process to the next: its clock, its configuration with the
    worker namespace, the headers of its traces and the handlers it has registered. *)
Record process (A : Type) := mkProcess {
  pr_clock : nat -> Z;
  pr_cfg : engine_config;
  pr_headers : string -> gmap string string;
  pr_handlers : gmap string A
}.
Arguments mkProcess {A}.
Arguments pr_clock {A}.
Arguments pr_cfg {A}.
Arguments pr_headers {A}.
Arguments pr_handlers {A}.

Section Restarts.
Context `{Unicode} `{DispatchCodec} {St : Type} `{Store St} `{!StoreLaws} `{!RecoverLaws} {A : Type}.

(** The store that processes have left which died between two passes of their
    scheduler: the first executed the run, each later one had recovered it. *)
Inductive abandoned (runID : string) (definition : WorkflowDefinition) : St -> Prop :=
| abandoned_execute (p : process A) store b ctx its st :
    0 < pr_clock p 0 ->
    Execute (pr_clock p) (pr_cfg p) (pr_headers p) (pr_handlers p) store b ctx runID definition its =
      WithRun (Next st tt) ->
    abandoned runID definition (sc_store st)
| abandoned_recover (p : process A) store b ctx its st :
    abandoned runID definition store -> ctx <> CtxNil ->
    Recover (pr_clock p) (pr_cfg p) (pr_headers p) (pr_handlers p) store b CtxLive ctx runID its =
      WithRun (Next st tt) ->
    abandoned runID definition (sc_store st).

Lemma abandoned_inv runID definition store :
  definition_in_range definition -> abandoned runID definition store ->
  exists st, @sched_inv _ _ _ _ (mkSubject runID (cloneDefinition definition)) st /\ sc_store st = store.
Proof.
  intros Hd. induction 1 as [p store b ctx its st Hnow He|p store b ctx its st _ (st0 & Hi & <-) Hctx Hr].
  - exists st. split; [|done].
    pose proof (Execute_keeps (pr_clock p) (pr_cfg p) (pr_headers p) (pr_handlers p) store b ctx runID definition its
      Hd Hnow) as Hok. by rewrite He in Hok.
  - exists st. split; [|done].
    destruct (@Recover_keeps _ _ _ _ _ _ (pr_clock p) (pr_cfg p) (pr_headers p)
      (mkSubject runID (cloneDefinition definition)) _ (pr_handlers p) st0 b ctx its Hi Hctx) as (result & E & Hok).
    cbn in E. rewrite Hr in E. by simplify_eq.
Qed.

(** C5: processes that die between two passes of their scheduler lose nothing,
    however many of them die one after the other. [Recover] of a new process, with a
    clock, worker namespace, handlers and broker of its own, finds the run and its
    definition in the store they left, resumes it, and keeps the guarantees of an
    execution: nil only for a finished run, never a stall, and dependencies succeed
    first. *)
Theorem crash_recovery (p : process A) runID definition store b ctx its :
  definition_in_range definition -> abandoned runID definition store -> ctx <> CtxNil ->
  exists result,
    Recover (pr_clock p) (pr_cfg p) (pr_headers p) (pr_handlers p) store b CtxLive ctx runID its = WithRun result /\
    @result_ok _ _ _ _ (mkSubject runID (cloneDefinition definition)) (WithRun result).
Proof.
  intros Hd Ha Hctx. destruct (abandoned_inv _ _ _ Hd Ha) as (st & Hi & <-).
  by apply (@Recover_keeps _ _ _ _ _ _ _ _ _ (mkSubject runID (cloneDefinition definition))).
Qed.
End Restarts.

(** ** Runs that the API has created and [Recover] executes *)

Section New.
Context `{Unicode}.

Lemma fresh_tasks `{Subject} r t : fresh r -> t ∈ sortedTasks r -> tr_Status t = TaskRunPending.
Proof. intros Hf (k & Hk)%sorted_values_elem. apply (fr_tasks _ Hf k). by apply stat_some. Qed.

Lemma fresh_consistent `{Subject} r : fresh r -> aggregate_valid (run_status r) (sortedTasks r).
Proof. intros Hf. rewrite (fr_status _ Hf). apply Forall_forall. intros t. by apply fresh_tasks. Qed.

Lemma alike_fresh `{Subject} r r' : alike r r' -> run_inv r' -> fresh r -> fresh r'.
Proof.
  intros Ha Hi' [Hi Hs Ht Hsub]. split; [done|by rewrite (al_status _ _ Ha)| |].
  - intros k s. rewrite (alike_stat _ _ k Ha). apply Ht.
  - unfold is_subject in *. by rewrite (al_id _ _ Ha), (al_definition _ _ Ha).
Qed.

Lemma fresh_no_outcome `{Subject} r : fresh r -> recoveredTerminalTaskState r = None.
Proof.
  intros Hf. unfold recoveredTerminalTaskState. pose proof (fun t => fresh_tasks r t Hf) as Hall.
  destruct (List.find _ _) as [t|] eqn:Ef.
  { apply List.find_some in Ef as [Ht%list_elem_of_In%Hall Hs%bool_decide_eq_true]. congruence. }
  destruct (existsb _ _) eqn:Ee; [|done].
  apply existsb_exists in Ee as (t & Ht%list_elem_of_In%Hall & Hs%bool_decide_eq_true). congruence.
Qed.
End New.

Section Accepted.
Context `{Unicode} `{DispatchCodec} {St : Type} `{Store St} `{!StoreLaws}.
Context (clock : nat -> Z) (cfg : engine_config) (trace_headers : string -> gmap string string).

Lemma resume_fresh_keeps `{Subject} {A : Type} (handlers : gmap string A) ctx its (st : scheduler St) :
  fresh (sc_run st) -> saved st ->
  wp (resume_run clock cfg trace_headers handlers ctx its) (fun st' _ => sched_inv st') exit_ok st.
Proof.
  intros Hf Hsaved. apply wp_bind, wp_get.
  rewrite bool_decide_eq_false_2 by (rewrite (fr_status _ Hf); intros [?|[?|?]]; done).
  rewrite (fresh_no_outcome _ Hf), bool_decide_eq_true_2 by apply Hf.
  apply wp_bind, wp_bind, wp_call. intros ts.
  destruct (transitionWorkflow _ _ _) as [r'|e] eqn:Et; cbn [with_unit rbind]; [|apply not_stall_wrap].
  pose proof (started_resumable _ _ _ Hf Et) as Hres.
  apply wp_saveRun_or; [| |intros; apply not_stall_persistence].
  { apply (anchored_exec st _ ts (OpWorkflow WorkflowRunRunning)); [done|apply Hf|done| |done].
    cbn [exec set_run sc_run]. by rewrite Et. }
  intros store w _ Hs.
  destruct (ctx_err ctx); [apply wp_cancelRun|].
  destruct (resolveHandlers _ _) eqn:Eh; [|by eapply resolveHandlers_error].
  apply executeBrokerRun_keeps; [|exact Hs].
  destruct (core_persisted r' w _ _ (initial_core store (sc_broker st) r' 0 Hres)) as [Hc _].
  exact (core_resumable _ _ _ Hc).
Qed.

Lemma new_run_subject runID d now r :
  newWorkflowRun runID d now = Ok r -> @is_subject (mkSubject runID (cloneDefinition d)) r.
Proof. by intros (_ & _ & ->)%newWorkflowRun_ok. Qed.

Context `{!RecoverLaws}.

(** [Recover] finds a run that has just been created, and resumes it. *)
Lemma Recover_accepted {A : Type} (handlers : gmap string A) runID d now r store store' stored b ctx its :
  newWorkflowRun runID d now = Ok r -> definition_in_range d -> 0 < now ->
  store_LoadWorkflow store CtxLive (wd_ID d) = Ok (Some (cloneDefinition d)) ->
  store_CreateRun store CtxLive (Snapshot r) = (store', Ok stored) -> ctx <> CtxNil ->
  exists r', @fresh (mkSubject runID (cloneDefinition d)) r' /\ alike (setPersistedVersion r 1) r' /\
    store_holds store' r' /\
    Recover clock cfg trace_headers handlers store' b CtxLive ctx runID its =
    WithRun (resume_run clock cfg trace_headers handlers ctx its (initial_scheduler store' b r' 0)).
Proof.
  intros Hn Hd Hnow Hl Hc Hctx. pose proof (new_run_subject _ _ _ _ Hn) as Hsub.
  set (S := mkSubject _ _) in *. pose proof (new_run_fresh _ _ _ _ 1 Hn Hd Hnow Hsub) as Hf.
  destruct Hsub as [Hid Hdef]. cbn in Hid, Hdef.
  apply CreateRun_created in Hc as (_ & -> & Hheld); [|by eapply inv_shaped, newWorkflowRun_inv|by rewrite Hdef].
  destruct (Recover_held clock cfg trace_headers handlers store' (setPersistedVersion r 1) b ctx its)
    as (r' & Hi' & Ha & Hh & Hrec); [apply Hf|by apply fresh_consistent|exact Hheld|done|].
  cbn [run_id setPersistedVersion] in Hrec. rewrite Hid in Hrec. exists r'. split_and!; try done. by eapply alike_fresh.
Qed.

(** A run that has just been created is executed with the guarantees of
    [Execute]. *)
Lemma accepted_run_keeps {A : Type} (handlers : gmap string A) runID d now r store store' stored b ctx its :
  newWorkflowRun runID d now = Ok r -> definition_in_range d -> 0 < now ->
  store_LoadWorkflow store CtxLive (wd_ID d) = Ok (Some (cloneDefinition d)) ->
  store_CreateRun store CtxLive (Snapshot r) = (store', Ok stored) -> ctx <> CtxNil ->
  exists result,
    Recover clock cfg trace_headers handlers store' b CtxLive ctx runID its = WithRun result /\
    @result_ok _ _ _ _ (mkSubject runID (cloneDefinition d)) (WithRun result).
Proof.
  intros Hn Hd Hnow Hl Hc Hctx. destruct (Recover_accepted handlers _ _ _ _ _ _ _ b ctx its Hn Hd Hnow Hl Hc Hctx)
    as (r' & Hf & _ & Hh & Hrec). eexists. split; [exact Hrec|].
  by apply (@resume_fresh_keeps (mkSubject runID (cloneDefinition d)) A handlers ctx its).
Qed.
End Accepted.
