(* ===== verification/EngineWorkers.v ===== *)
(** * Workers and channels

    The goroutines of [executeBrokerWorker] and the buffered channels between
    them and the scheduler. A worker is at one of the points where it blocks; a
    step of the system is a step of one worker or one half of a scheduler pass,
    so every interleaving of the goroutines is a sequence of steps. *)
From S2P Require Import Prelude Workflow Heap Graph GraphBuild GraphOrder Errors Run Ids Snapshot SnapshotValid RunStep RunInv RunProps RunDurable Broker Engine EngineInv EngineProps EngineRuns.

(** ** Workers *)

(** Where a worker is: before its first heartbeat, before [Receive], before it
    sends a claim, before it takes the response, in its handler, before it sends
    its result, its loss or an error of the broker, and after it returned. *)
Inductive worker_point :=
| AtStart
| AtReceive
| AtClaim (claim : workerClaimEvent)
| AtResponse (claim : workerClaimEvent)
| AtHandler (job : taskJob) (delivery : memoryDelivery)
| AtResult (result : brokerTaskResult)
| AtLost
| AtError (err : go_error)
| Returned.

(** How a call of a handler ends; a panic value is given as [%v] prints it. *)
Inductive handler_end :=
| HandlerReturns (output : string) (err : option go_error)
| HandlerPanics (value : string).

Definition invokeHandler `{Unicode} (call : handler_end) : string * option go_error :=
  match call with
  | HandlerReturns output err => (output, err)
  | HandlerPanics value =>
      ("", Some (ErrWrap (error_string ErrWorkerDisappeared +:+ ": handler panic: " +:+ value) ErrWorkerDisappeared))
  end.

(** [errors.Is(err, errWorkerDisappeared)]. *)
Definition worker_disappeared (err : option go_error) : bool :=
  match err with
  | Some err => chain_contains (fun e => match e with ErrWorkerDisappeared => true | _ => false end) err
  | None => false
  end.

(** [workerIdentity] without its ID, and where the worker is. *)
Record worker := mkWorker { wk_slot : Z; wk_point : worker_point }.

(** The choices of a worker step: [Advance] is the only way on except at a
    handler, [Beat] is a tick of [emitHeartbeats], and [Stop] takes
    [ctx.Done()], where [ctx] is the context of the execution. *)
Inductive worker_action :=
| Advance
| Handle (result : handler_end)
| Beat
| Stop (ctx : context).

Record channels := mkChannels {
  ch_claims : list workerClaimEvent;
  ch_heartbeats : list string;
  ch_results : list brokerTaskResult;
  ch_lost : list (string * Z);
  ch_errors : list (string * Z * go_error)
}.

(** [sys_selecting] tells whether the scheduler is at its [select];
    [sys_response] names the next response channel. *)
Record system (St : Type) := mkSystem {
  sys_sched : scheduler St;
  sys_selecting : bool;
  sys_workers : gmap string worker;
  sys_channels : channels;
  sys_response : nat
}.
Arguments mkSystem {St}.
Arguments sys_sched {St}.
Arguments sys_selecting {St}.
Arguments sys_workers {St}.
Arguments sys_channels {St}.
Arguments sys_response {St}.

(** The channel that the scheduler's [select] takes from. *)
Inductive source := FromClaims | FromHeartbeats | FromLost | FromErrors | FromResults | FromTimer | FromDone.

Definition select (from : source) (ch : channels) : option (sched_event * channels) :=
  match from with
  | FromClaims =>
      match ch_claims ch with
      | c :: rest => Some (EvClaim c, mkChannels rest (ch_heartbeats ch) (ch_results ch) (ch_lost ch) (ch_errors ch))
      | [] => None
      end
  | FromHeartbeats =>
      match ch_heartbeats ch with
      | w :: rest => Some (EvHeartbeat w, mkChannels (ch_claims ch) rest (ch_results ch) (ch_lost ch) (ch_errors ch))
      | [] => None
      end
  | FromLost =>
      match ch_lost ch with
      | (w, slot) :: rest =>
          Some (EvLost w slot, mkChannels (ch_claims ch) (ch_heartbeats ch) (ch_results ch) rest (ch_errors ch))
      | [] => None
      end
  | FromErrors =>
      match ch_errors ch with
      | (w, slot, err) :: rest =>
          Some (EvBrokerError w slot err,
                mkChannels (ch_claims ch) (ch_heartbeats ch) (ch_results ch) (ch_lost ch) rest)
      | [] => None
      end
  | FromResults =>
      match ch_results ch with
      | r :: rest =>
          Some (EvResult r, mkChannels (ch_claims ch) (ch_heartbeats ch) rest (ch_lost ch) (ch_errors ch))
      | [] => None
      end
  | FromTimer => Some (EvTimer, ch)
  | FromDone => Some (EvDone, ch)
  end.

Section Workers.
Context `{Unicode} `{DispatchCodec} {St : Type} `{Store St}.
Context (clock : nat -> Z) (cfg : engine_config) (trace_headers : string -> gmap string string).

(** A send on a buffered channel of capacity [workerCount*2]. *)
Definition has_room {A : Type} (queue : list A) : bool := Z.of_nat (length queue) <? cfg_workerCount cfg * 2.

Definition set_point (s : system St) (w : string) (p : worker_point) : system St :=
  mkSystem (sys_sched s) (sys_selecting s) (alter (fun k => mkWorker (wk_slot k) p) w (sys_workers s))
    (sys_channels s) (sys_response s).

Definition set_channels (s : system St) (ch : channels) : system St :=
  mkSystem (sys_sched s) (sys_selecting s) (sys_workers s) ch (sys_response s).

Definition set_sys_broker (s : system St) (b : InMemoryBroker) : system St :=
  mkSystem (set_broker (sys_sched s) b) (sys_selecting s) (sys_workers s) (sys_channels s) (sys_response s).

(** [nackWorkerDelivery] ignores every error. *)
Definition nackWorkerDelivery (s : system St) (d : memoryDelivery) : system St :=
  set_sys_broker s (answer (sc_broker (sys_sched s)) (CallNack CtxLive d)).

(** A worker's context is done once the execution's is, the worker has been
    replaced, or the workers were shut down. *)
Definition worker_canceled (s : system St) (ctx : context) (w : string) : bool :=
  bool_decide (is_Some (ctx_err ctx)) || sc_stopped (sys_sched s) || negb (worker_current w (sys_sched s)).

Definition beat (s : system St) (w : string) (next : worker_point) : option (system St) :=
  let ch := sys_channels s in
  if has_room (ch_heartbeats ch)
  then Some (set_channels (set_point s w next)
               (mkChannels (ch_claims ch) (ch_heartbeats ch ++ [w]) (ch_results ch) (ch_lost ch) (ch_errors ch)))
  else None.

(** The critical section of [Receive], which a waiting worker runs again. *)
Definition receive (s : system St) (w : string) (slot : Z) : option (system St) :=
  match Receive (sc_broker (sys_sched s)) CtxLive (taskSubscription (run_id (sc_run (sys_sched s)))) with
  | Err err => Some (set_point s w (AtError err))
  | Ok (b, Blocks) => Some (set_sys_broker s b)
  | Ok (b, Delivered d) =>
      let claim := mkClaim w slot d (sys_response s) in
      let s := set_point (set_sys_broker s b) w (AtClaim claim) in
      Some (mkSystem (sys_sched s) (sys_selecting s) (sys_workers s) (sys_channels s) (S (sys_response s)))
  end.

(** The response of the scheduler to a claim, once sent. *)
Definition take_response (s : system St) (w : string) (claim : workerClaimEvent) : option (system St) :=
  match list_find (fun r => r.1 = claim_response claim) (sc_responses (sys_sched s)) with
  | Some (_, (_, Some job)) => Some (set_point s w (AtHandler job (claim_delivery claim)))
  | Some (_, (_, None)) => Some (set_point s w AtReceive)
  | None => None
  end.

Definition handled (s : system St) (w : string) (job : taskJob) (d : memoryDelivery) (result : handler_end)
  : system St :=
  let '(output, err) := invokeHandler result in
  if worker_disappeared err then set_point (nackWorkerDelivery s d) w AtLost
  else set_point s w (AtResult (mkTaskResult (td_ID (job_Task job)) (job_TaskRunID job) w (job_AttemptID job) output err d)).

(** [ctx.Done()] at a blocking point: an unsettled delivery is given back. *)
Definition stop_worker (s : system St) (w : string) (p : worker_point) : system St :=
  let s := set_point s w Returned in
  match p with
  | AtClaim claim | AtResponse claim => nackWorkerDelivery s (claim_delivery claim)
  | AtResult result => nackWorkerDelivery s (res_delivery result)
  | _ => s
  end.

(** One step of the worker [w]; [None] when it is not enabled. *)
Definition worker_step (s : system St) (w : string) (a : worker_action) : option (system St) :=
  let ch := sys_channels s in
  match sys_workers s !! w with
  | None => None
  | Some (mkWorker slot point) =>
  match point, a with
  | Returned, _ => None
  | AtStart, Advance => beat s w AtReceive
  | AtReceive, Advance => receive s w slot
  | AtClaim claim, Advance =>
      if has_room (ch_claims ch)
      then Some (set_channels (set_point s w (AtResponse claim))
                   (mkChannels (ch_claims ch ++ [claim]) (ch_heartbeats ch) (ch_results ch) (ch_lost ch) (ch_errors ch)))
      else None
  | AtResponse claim, Advance => take_response s w claim
  | AtHandler job d, Handle result => Some (handled s w job d result)
  | AtResult result, Advance =>
      if has_room (ch_results ch)
      then Some (set_channels (set_point s w AtReceive)
                   (mkChannels (ch_claims ch) (ch_heartbeats ch) (ch_results ch ++ [result]) (ch_lost ch) (ch_errors ch)))
      else None
  | AtLost, Advance =>
      if has_room (ch_lost ch)
      then Some (set_channels (set_point s w Returned)
                   (mkChannels (ch_claims ch) (ch_heartbeats ch) (ch_results ch) (ch_lost ch ++ [(w, slot)])
                      (ch_errors ch)))
      else None
  | AtError err, Advance =>
      if has_room (ch_errors ch)
      then Some (set_channels (set_point s w Returned)
                   (mkChannels (ch_claims ch) (ch_heartbeats ch) (ch_results ch) (ch_lost ch)
                      (ch_errors ch ++ [(w, slot, err)])))
      else None
  | AtLost, Beat => None
  | p, Beat => beat s w p
  | AtHandler _ _, Stop _ => None
  | p, Stop ctx => if worker_canceled s ctx w then Some (stop_worker s w p) else None
  | _, _ => None
  end
  end.

(** ** The system *)

Inductive system_action :=
| Work (w : string) (a : worker_action)
| Top (ctx ctx_publish : context)
| Select (from : source) (ctx : context).

Inductive system_outcome :=
| Running (s : system St)
| Stopped (st : scheduler St) (err : option go_error)
| Disabled.

(** Workers that the scheduler has spawned start at their first heartbeat. *)
Definition spawned (st : scheduler St) (workers : gmap string worker) : gmap string worker :=
  workers ∪ ((fun slot => mkWorker slot AtStart) <$> wp_workers (sc_pool st)).

Definition after_sched (s : system St) (selecting : bool) (ch : channels) (o : outcome St unit) : system_outcome :=
  match o with
  | Next st _ => Running (mkSystem st selecting (spawned st (sys_workers s)) ch (sys_response s))
  | Exit st err => Stopped st err
  end.

Definition system_step (s : system St) (a : system_action) : system_outcome :=
  match a with
  | Work w a => match worker_step s w a with Some s => Running s | None => Disabled end
  | Top ctx ctx_publish =>
      if sys_selecting s then Disabled
      else after_sched s true (sys_channels s) (loop_top clock cfg trace_headers ctx ctx_publish (sys_sched s))
  | Select from ctx =>
      if negb (sys_selecting s) then Disabled
      else
        match select from (sys_channels s) with
        | None => Disabled
        | Some (event, ch) => after_sched s false ch (handle_event clock cfg ctx event (sys_sched s))
        end
  end.

Fixpoint run_system (s : system St) (actions : list system_action) : system_outcome :=
  match actions with
  | [] => Running s
  | a :: rest =>
      match system_step s a with
      | Running s => run_system s rest
      | o => o
      end
  end.

(** The system when the scheduler enters its loop. *)
Definition initial_system (st : scheduler St) : system St :=
  mkSystem st false (spawned st ∅) (mkChannels [] [] [] [] []) 0.

(** ** Every interleaving keeps the invariant *)

Context `{!StoreLaws} `{Subject}.

Lemma worker_step_core s w a s' : worker_step s w a = Some s' -> same_core (sys_sched s) (sys_sched s').
Proof.
  unfold worker_step. destruct (sys_workers s !! w) as [[slot point]|]; [|done].
  assert (Hbeat : forall p, beat s w p = Some s' -> same_core (sys_sched s) (sys_sched s')).
  { unfold beat. intros p. destruct (has_room _); [|done]. by intros [= <-]. }
  destruct point, a; try done; try apply Hbeat; try (destruct (has_room _); [|done]; by intros [= <-]);
    try (destruct (worker_canceled _ _ _); [|done]; by intros [= <-]).
  - unfold receive. destruct (Receive _ _ _) as [[b []]|]; by intros [= <-].
  - unfold take_response. destruct (list_find _ _) as [[? [? []]]|]; by intros [= <-].
  - unfold handled. destruct (invokeHandler _) as [output err]. by destruct (worker_disappeared err); intros [= <-].
Qed.

Definition system_ok (o : system_outcome) : Prop :=
  match o with
  | Running s => sched_inv (sys_sched s)
  | Stopped st err => exit_ok st err
  | Disabled => True
  end.

Lemma after_sched_ok s selecting ch (m : sched St unit) :
  wp m (fun st _ => sched_inv st) exit_ok (sys_sched s) -> system_ok (after_sched s selecting ch (m (sys_sched s))).
Proof. unfold wp. by destruct (m (sys_sched s)). Qed.

Lemma system_step_ok s a : sched_inv (sys_sched s) -> system_ok (system_step s a).
Proof.
  intros Hi. destruct a as [w a|ctx ctx_publish|from ctx]; cbn.
  - destruct (worker_step s w a) as [s'|] eqn:E; [|done]. by eapply same_core_inv; [eapply worker_step_core|].
  - destruct (sys_selecting s); [done|]. by apply after_sched_ok, wp_loop_top.
  - destruct (negb _); [done|]. destruct (select _ _) as [[event ch]|]; [|done].
    by apply after_sched_ok, handle_event_keeps.
Qed.

Lemma run_system_ok actions s : sched_inv (sys_sched s) -> system_ok (run_system s actions).
Proof.
  revert s. induction actions as [|a l IH]; intros s Hi; [done|]. cbn.
  pose proof (system_step_ok s a Hi) as Hs. destruct (system_step s a); [by apply IH|done|done].
Qed.
End Workers.
Arguments Running {St}.
Arguments Stopped {St}.
Arguments Disabled {St}.
