(* ===== verification/EngineStore.v ===== *)
(** * The stores as the engine's store

    [FileStore] and [PostgresStore] implement the [Store] interface of the engine, and
    keep what the engine relies on whatever the file system and the connection do. *)
From S2P Require Import Prelude Workflow Heap Graph GraphBuild GraphOrder Errors Run Ids Snapshot SnapshotValid RunStep RunInv RunProps RunDurable Broker Security Sql Tx FileStore FileStoreOps FileStoreInv FileStoreProps Postgres SqlFacts PostgresRuns PostgresLoad PostgresProps PostgresWorkflows Engine EngineInv.

Section FileStoreInstance.
Context `{Unicode} `{JournalCodec}.

(** The engine's contexts for the store cannot be canceled, so both readings
    agree. *)
#[export] Instance file_store : Store file_state := {|
  store_SaveWorkflow s ctx definition := SaveWorkflow s ctx ctx definition;
  store_LoadWorkflow := LoadWorkflow;
  store_CreateRun s ctx snapshot := CreateRun s ctx ctx snapshot;
  store_SaveRun s ctx snapshot := SaveRun s ctx ctx snapshot;
  store_LoadRun := LoadRun
|}.

Lemma plan_CreateRun_ok (store m : FileStore) (ctx ctx' : context) (snapshot v : WorkflowRunSnapshot)
    (r : journalRecord) :
  plan_CreateRun store ctx ctx' snapshot = Ok (Commit r m v) ->
  snap_Version snapshot = 0 /\ v = snapshot_with_version snapshot 1 /\ m = with_run store v.
Proof.
  intros Hp. unfold plan_CreateRun in Hp. run_ok. rewrite Bool.negb_false_iff, Z.eqb_eq in *. by simplify_eq.
Qed.

Lemma lookup_with_run (s : FileStore) (snapshot : WorkflowRunSnapshot) (v : Z) :
  fs_runs (with_run s (snapshot_with_version snapshot v)) !! snap_ID snapshot = Some (snapshot_with_version snapshot v).
Proof. apply lookup_insert_eq. Qed.

Definition file_holds (s : file_state) (r : WorkflowRun) : Prop :=
  LoadRun s CtxLive (run_id r) = Ok (Some (Snapshot r)) /\
  LoadWorkflow s CtxLive (wd_ID (run_definition r)) = Ok (Some (run_definition r)).

(** Storing a run leaves the workflows as they are. *)
Lemma file_run_stored s s' r v :
  st_memory s' = with_run (st_memory s) (snapshot_with_version (Snapshot r) v) ->
  LoadWorkflow s CtxLive (wd_ID (run_definition r)) = Ok (Some (run_definition r)) ->
  file_holds s' (setPersistedVersion r v).
Proof.
  intros Hm Hl. unfold file_holds, LoadRun, LoadWorkflow in *. cbn. rewrite Hm, (lookup_with_run _ (Snapshot r)). done.
Qed.

Lemma file_SaveWorkflow_saved s s' d u :
  cloneDefinition d = d -> store_SaveWorkflow s CtxLive d = (s', Ok u) ->
  store_LoadWorkflow s' CtxLive (wd_ID d) = Ok (Some d).
Proof.
  intros Hc Hs. cbn in Hs. unfold SaveWorkflow in Hs. apply perform_ok in Hs as [[Hp ->]|[rec Hp]];
    unfold plan_SaveWorkflow in Hp; run_ok; unfold LoadWorkflow; cbn.
  - destruct (_ !! _) as [d'|] eqn:E in Hp; [|done]. destruct (bool_decide _) eqn:Hd; [|done].
    apply bool_decide_eq_true in Hd. rewrite E. cbn. congruence.
  - destruct (_ !! _) as [d'|] eqn:E in Hp; [by destruct (bool_decide _)|]. injection Hp as _ Hmem.
    rewrite <- Hmem. cbn. rewrite lookup_insert_eq. cbn. congruence.
Qed.

Lemma file_CreateRun_created s s' r stored :
  shaped r -> LoadWorkflow s CtxLive (wd_ID (run_definition r)) = Ok (Some (run_definition r)) ->
  store_CreateRun s CtxLive (Snapshot r) = (s', Ok stored) ->
  run_version r = 0 /\ stored = snapshot_with_version (Snapshot r) 1 /\ file_holds s' (setPersistedVersion r 1).
Proof.
  intros _ Hl Hs. cbn in Hs. unfold CreateRun in Hs. apply perform_ok in Hs as [[Hp ->]|[rec Hp]].
  { exfalso. unfold plan_CreateRun in Hp. by run_ok. }
  apply plan_CreateRun_ok in Hp as (Hv & -> & Hm). split_and!; try done. by apply (file_run_stored s).
Qed.

Lemma file_SaveRun_saved s s' r0 r stored :
  same_run r0 r -> file_holds s r0 -> store_SaveRun s CtxLive (Snapshot r) = (s', Ok stored) ->
  validateSnapshot (Snapshot r) = Ok tt /\
  stored = snapshot_with_version (Snapshot r) (wrap_uint64 (run_version r + 1)) /\
  file_holds s' (setPersistedVersion r (wrap_uint64 (run_version r + 1))).
Proof.
  intros Hr [_ Hl] Hs. cbn in Hs. unfold SaveRun in Hs. apply perform_ok in Hs as [[Hp ->]|[rec Hp]].
  { exfalso. unfold plan_SaveRun in Hp. run_ok. destruct (_ !! _); [|done]. by run_ok. }
  apply plan_SaveRun_ok in Hp as (_ & _ & _ & Hv & _ & -> & Hm). split_and!; try done.
  apply (file_run_stored s); [done|]. by rewrite (sr_definition _ _ Hr).
Qed.

(** The journal store gives a run back as it was saved. *)
Lemma file_holds_recovers s r :
  run_inv r -> aggregate_valid (run_status r) (sortedTasks r) -> file_holds s r ->
  store_LoadWorkflow s CtxLive (wd_ID (run_definition r)) = Ok (Some (run_definition r)) /\
  exists loaded r', store_LoadRun s CtxLive (run_id r) = Ok (Some loaded) /\
    restoreWorkflowRun loaded (run_definition r) = Ok r' /\ run_inv r' /\ alike r r' /\ file_holds s r'.
Proof.
  intros Hi Hagg Hh. destruct Hh as [Hl Hw]. split; [done|]. exists (Snapshot r), r.
  split_and!; try done. by apply restore_snapshot.
Qed.

#[export] Instance file_store_laws : StoreLaws := {|
  store_holds := file_holds;
  SaveWorkflow_saved := file_SaveWorkflow_saved;
  CreateRun_created := file_CreateRun_created;
  SaveRun_saved := file_SaveRun_saved
|}.

#[export] Instance file_recover_laws : RecoverLaws.
Proof. split. exact file_holds_recovers. Qed.
End FileStoreInstance.

(** ** The PostgreSQL store as the engine's store, whatever the connection does *)

Section PostgresInstance.
Context `{Unicode} `{PostgresLaws}.

Lemma view_alike r : alike r (view_run r).
Proof.
  split; try done. intros k. cbn. rewrite lookup_fmap. destruct (run_tasks r !! k) as [t|]; [|done]. cbn. f_equal.
  unfold untimed, view_task. cbn. f_equal. by destruct (tr_Lease t).
Qed.

(** A database that transactions have left, and what the connections make of the
    calls of the operations to come. *)
Record pg_store := mkPgStore {
  ps_db : database;
  ps_calls : list (nat -> call_answer);
  ps_owned : rows_owned ps_db
}.

Definition next_calls (s : pg_store) : nat -> call_answer := default answered (head (ps_calls s)).

Lemma method_owned {A : Type} s checks calls bf cf (t : tx A) :
  rows_owned (fst (after_checks checks (ps_db s) (transaction calls bf cf t (ps_db s)))).
Proof.
  apply after_checks_preserves; [apply ps_owned|].
  apply transaction_preserves; [apply rows_owned_preserved|apply ps_owned].
Qed.

Lemma SaveWorkflow_owned s ctx definition :
  rows_owned (fst (PostgresStore_SaveWorkflow (next_calls s) (ps_db s) ctx definition)).
Proof. unfold PostgresStore_SaveWorkflow. apply method_owned. Qed.

Lemma CreateRun_owned s ctx snapshot :
  rows_owned (fst (PostgresStore_CreateRun (next_calls s) (ps_db s) ctx snapshot)).
Proof. unfold PostgresStore_CreateRun. apply method_owned. Qed.

Lemma SaveRun_owned s ctx snapshot :
  rows_owned (fst (PostgresStore_SaveRun (next_calls s) (ps_db s) ctx snapshot)).
Proof. unfold PostgresStore_SaveRun. apply method_owned. Qed.

(** The engine's store. A load is one whose connection answers: when it does not,
    [Recover] returns the error and does nothing. *)
#[export] Instance postgres_store : Store pg_store := {|
  store_SaveWorkflow s ctx definition :=
    (mkPgStore _ (tail (ps_calls s)) (SaveWorkflow_owned s ctx definition),
     snd (PostgresStore_SaveWorkflow (next_calls s) (ps_db s) ctx definition));
  store_LoadWorkflow s ctx workflowID := PostgresStore_LoadWorkflow answered (ps_db s) ctx workflowID;
  store_CreateRun s ctx snapshot :=
    (mkPgStore _ (tail (ps_calls s)) (CreateRun_owned s ctx snapshot),
     snd (PostgresStore_CreateRun (next_calls s) (ps_db s) ctx snapshot));
  store_SaveRun s ctx snapshot :=
    (mkPgStore _ (tail (ps_calls s)) (SaveRun_owned s ctx snapshot),
     snd (PostgresStore_SaveRun (next_calls s) (ps_db s) ctx snapshot));
  store_LoadRun s ctx runID := PostgresStore_LoadRun answered (ps_db s) ctx runID
|}.

(** The run has its rows, which load as it was saved if its times are kept. *)
Definition pg_holds (s : pg_store) (r : WorkflowRun) : Prop :=
  run_rows (ps_db s) r /\
  (times_kept (Snapshot r) ->
   PostgresStore_LoadRun answered (ps_db s) CtxLive (run_id r) = Ok (Some (pg_view (Snapshot r)))) /\
  PostgresStore_LoadWorkflow answered (ps_db s) CtxLive (wd_ID (run_definition r)) = Ok (Some (run_definition r)).

#[export] Instance postgres_laws : StoreLaws.
Proof.
  refine {| store_holds := pg_holds |}.
  - intros s s' d u Hc Hs. cbn in Hs. injection Hs as <- Hs.
    destruct (PostgresStore_SaveWorkflow _ _ _ _) as [db' result] eqn:E in Hs. cbn in Hs. subst result. cbn. rewrite E. cbn.
    destruct (save_load_workflow _ _ _ _ _ (proj2 (ps_owned s)) E) as [Hl|[-> Hl]]; [by rewrite Hc in Hl|done].
  - intros s s' r stored Hr Hl Hs. cbn in Hs. injection Hs as <- Hs. unfold pg_holds. cbn.
    destruct (PostgresStore_CreateRun _ _ _ _) as [db' result] eqn:E in *. cbn in *. subst result.
    apply CreateRun_transaction in E as [[_ ?]|(_ & Hv & bf & cf & He%transaction_ok)]; [done|].
    destruct (evals_create_load _ _ _ _ (proj1 (ps_owned s)) Hr Hv He) as (_ & -> & _ & Ho & Hrows & Hload).
    split_and!; try done; [intros Hk; by apply LoadRun_evals, Hload|by eapply LoadWorkflow_frame].
  - intros s s' r0 r stored Hr (Hh & _ & Hw) Hs. cbn in Hs. injection Hs as <- Hs. unfold pg_holds. cbn.
    rewrite <- (sr_definition _ _ Hr) in Hw.
    destruct (PostgresStore_SaveRun _ _ _ _) as [db' result] eqn:E in *. cbn in *. subst result.
    apply SaveRun_transaction in E as [[_ ?]|(_ & _ & Hm & bf & cf & He%transaction_ok)]; [done|].
    destruct (evals_save_load _ _ _ _ _ Hh Hr Hm He) as (_ & Hv & -> & Ho & Hrows & Hload).
    split_and!; try done; [intros Hk; by apply LoadRun_evals, Hload|by eapply LoadWorkflow_frame].
Defined.

(** A run whose times are kept is found and restored as it was saved, with the times
    of the database. *)
Lemma pg_holds_recovers s r :
  times_kept (Snapshot r) -> run_inv r -> aggregate_valid (run_status r) (sortedTasks r) -> pg_holds s r ->
  store_LoadWorkflow s CtxLive (wd_ID (run_definition r)) = Ok (Some (run_definition r)) /\
  exists loaded r', store_LoadRun s CtxLive (run_id r) = Ok (Some loaded) /\
    restoreWorkflowRun loaded (run_definition r) = Ok r' /\ run_inv r' /\ alike r r' /\ pg_holds s r'.
Proof.
  intros Hk Hi Hagg (Hrows & Hh & Hw). split; [done|]. exists (pg_view (Snapshot r)), (view_run r).
  do 4 (split; [first [by apply Hh|by apply restore_view|by apply run_inv_view|apply view_alike]|]). split; [|split; [intros _|done]].
  - destruct Hrows as (row & ? & ? & ? & ? & Hkeys). exists row. cbn. rewrite pg_time_idem. split_and!; try done.
    intros k. by rewrite lookup_fmap, fmap_is_Some.
  - rewrite pg_view_run by done. by apply Hh.
Qed.

(** For a column that tells every time from the zero time, and so for every clock
    that does not read the microsecond after the zero time. *)
Class PostgresKeeps : Prop := every_time_kept t : time_kept t.

#[export] Instance postgres_recover_laws `{!PostgresKeeps} : RecoverLaws.
Proof.
  split. intros s r. apply pg_holds_recovers. split_and!; try apply every_time_kept; apply Forall_forall; intros x _.
  - split_and!; try apply every_time_kept. intros l _. apply every_time_kept.
  - apply every_time_kept.
Qed.
End PostgresInstance.
