(* ===== verification/EngineExamples.v ===== *)
(** * Concrete executions

    One worker, the in-memory broker and the journal store: the instances at
    which the guarantees of [EngineRuns] and [EngineShutdown] are applied, and two
    interleavings in which the scheduler aborts a healthy run. *)
From S2P Require Import Prelude Workflow Heap Graph GraphBuild GraphOrder Errors Run Ids Snapshot SnapshotValid RunStep RunInv RunProps RunDurable RunExamples Broker Security FileStore FileStoreOps FileStoreInv FileStoreJournal FileStoreProps FileStoreExamples Engine EngineInv EngineProps EngineRuns EngineWorkers EngineShutdown EngineStore.

#[local] Existing Instance ascii_unicode.

(** ** The instance *)

#[local] Existing Instance blank_codec.

Fixpoint split_at (c : Ascii.ascii) (s : string) : list string :=
  match s with
  | EmptyString => [""]
  | String x rest =>
      if Ascii.eqb x c then "" :: split_at c rest
      else match split_at c rest with
           | word :: words => String x word :: words
           | [] => [String x ""]
           end
  end.

Definition comma : Ascii.ascii := Ascii.ascii_of_N 44.

#[local] Instance comma_codec : DispatchCodec := {|
  marshal_dispatch d :=
    Ok (dis_RunID d +:+ "," +:+ dis_TaskID d +:+ "," +:+ dis_TaskRunID d +:+ "," +:+ dis_AttemptID d);
  unmarshal_dispatch body :=
    match split_at comma body with
    | [run; task; taskRun; attempt] => Ok (mkTaskDispatch run task taskRun attempt)
    | _ => Err (ErrText "unexpected end of JSON input")
    end;
  run_digest runID := runID
|}.

Definition demo_clock (n : nat) : Z := 1000 + Z.of_nat n.
Definition one_worker : engine_config := mkEngineConfig 1 1000000 "node".
Definition no_headers (_ : string) : gmap string string := ∅.
Definition demo_handlers : gmap string unit := {["h" := tt]}.
Definition empty_files : file_state := mkFileState empty_store (mkDisk [] []).

Definition the_worker : string := worker_id one_worker "r1" 1 1.

Definition execute (definition : WorkflowDefinition) (its : list iteration) : engine_result :=
  Execute demo_clock one_worker no_headers demo_handlers empty_files NewInMemoryBroker CtxLive "r1" definition its.

(** The attempt and the delivery of the first message of the task [k]. *)
Definition attempt_of (k : string) : string := AttemptIDFor (TaskRunIDFor "r1" k) 1.
Definition delivery_of (k : string) : memoryDelivery :=
  let sub := taskSubscription "r1" in
  mkDelivery (sub_ConsumerID sub, sub_Topic sub)
    (mkTaskMessage (attempt_of k) (sub_Topic sub)
       ("r1," +:+ k +:+ "," +:+ TaskRunIDFor "r1" k +:+ "," +:+ attempt_of k) ∅) 1.

(** The worker receives the task's message and claims it; then it succeeds. *)
Definition claim_pass (k : string) (n : nat) : iteration :=
  mkIteration CtxLive CtxLive [CallReceive CtxLive (taskSubscription "r1")] CtxLive
    (EvClaim (mkClaim the_worker 1 (delivery_of k) n)).
Definition result_pass (k : string) : iteration :=
  mkIteration CtxLive CtxLive [] CtxLive
    (EvResult (mkTaskResult k (TaskRunIDFor "r1" k) the_worker (attempt_of k) "done" None (delivery_of k))).
Definition timer_pass : iteration := mkIteration CtxLive CtxLive [] CtxLive EvTimer.
Definition heartbeat_pass : iteration := mkIteration CtxLive CtxLive [] CtxLive (EvHeartbeat the_worker).

Definition demo_passes : list iteration :=
  [heartbeat_pass; claim_pass "a" 0; result_pass "a"; claim_pass "b" 1; result_pass "b"; timer_pass].

(** ** The executions *)

Definition exit_state (result : @engine_result file_state) : scheduler file_state :=
  match result with
  | WithRun (Next st _) | WithRun (Exit st _) => st
  | NoRun store _ => initial_scheduler store NewInMemoryBroker demo_new 0
  end.

Definition done_state : scheduler file_state := exit_state (execute demo demo_passes).

(** Task [a] has succeeded and [b] is leased. *)
Definition midway_state : scheduler file_state := exit_state (execute demo (take 4 demo_passes)).

Lemma execute_nil_means_done_witness :
  run_status (sc_run done_state) = WorkflowRunSucceeded /\ run_id (sc_run done_state) = "r1" /\
  run_definition (sc_run done_state) = cloneDefinition demo /\
  (forall task, task ∈ wd_Tasks demo -> stat (sc_run done_state) (td_ID task) = Some TaskRunSucceeded) /\
  store_holds (sc_store done_state) (sc_run done_state).
Proof.
  apply (execute_nil_means_done demo_clock one_worker no_headers demo_handlers empty_files NewInMemoryBroker CtxLive
    "r1" demo demo_passes done_state).
  - apply demo_in_range.
  - done.
  - vm_compute. reflexivity.
Defined.

Lemma execute_dependency_safety_witness :
  store_holds (sc_store midway_state) (sc_run midway_state) /\
  forall k d s, stat (sc_run midway_state) k = Some s -> s <> TaskRunPending ->
    depends (cloneDefinition demo) k d -> stat (sc_run midway_state) d = Some TaskRunSucceeded.
Proof.
  apply (execute_dependency_safety demo_clock one_worker no_headers demo_handlers empty_files NewInMemoryBroker
    CtxLive "r1" demo (take 4 demo_passes) midway_state).
  - apply demo_in_range.
  - done.
  - vm_compute. reflexivity.
Defined.

(** The context is canceled while task [a] runs. *)
Definition canceled_passes : list iteration :=
  take 2 demo_passes ++ [mkIteration (CtxDone ErrContextCanceled) CtxLive [] CtxLive EvTimer].

Definition canceled_error : go_error :=
  match execute demo canceled_passes with
  | WithRun (Exit _ (Some e)) => e
  | _ => ErrText ""
  end.

Lemma execute_never_stalls_witness :
  canceled_error <> stalled_error "r1" /\ forall e', canceled_error <> ErrJoin [stalled_error "r1"; e'].
Proof.
  apply (execute_never_stalls demo_clock one_worker no_headers demo_handlers empty_files NewInMemoryBroker
    CtxLive "r1" demo canceled_passes (exit_state (execute demo canceled_passes))).
  - apply demo_in_range.
  - done.
  - vm_compute. reflexivity.
Defined.

(** Three processes: the first dies after task [a], the second, whose clock is ahead
    and whose workers have another namespace, after it has resumed the run, and the
    third takes over. Each starts with an empty broker. *)
Definition first_process : process unit := mkProcess demo_clock one_worker no_headers demo_handlers.
Definition later_process (namespace : string) (start : Z) : process unit :=
  mkProcess (fun n => start + Z.of_nat n)
    (mkEngineConfig 1 1000000 namespace) no_headers demo_handlers.

Definition resumed_state : scheduler file_state :=
  let p := later_process "second" 5000 in
  match Recover (pr_clock p) (pr_cfg p) (pr_headers p) (pr_handlers p) (sc_store midway_state) NewInMemoryBroker
    CtxLive CtxLive "r1" [timer_pass] with
  | WithRun (Next st _) => st
  | _ => midway_state
  end.

Lemma crash_recovery_witness :
  exists result,
    Recover (fun n => 9000 + Z.of_nat n) (pr_cfg (later_process "third" 9000)) no_headers demo_handlers
      (sc_store resumed_state) NewInMemoryBroker CtxLive CtxLive "r1" [timer_pass] = WithRun result /\
    @result_ok _ _ _ _ (mkSubject "r1" (cloneDefinition demo)) (WithRun result).
Proof.
  apply (crash_recovery (later_process "third" 9000)); [apply demo_in_range| |done].
  apply (abandoned_recover _ _ (later_process "second" 5000) (sc_store midway_state) NewInMemoryBroker CtxLive [timer_pass]);
    [|done|vm_compute; reflexivity].
  apply (abandoned_execute _ _ first_process empty_files NewInMemoryBroker CtxLive (take 4 demo_passes));
    [done|vm_compute; reflexivity].
Defined.

(** ** Two leases for one worker *)

(** Two tasks that do not depend on each other. *)
Definition pair : WorkflowDefinition :=
  mkWorkflowDefinition "pair"
    [mkTaskDefinition "a" "first" None "h" "" (mkRetryPolicy 3 10 100);
     mkTaskDefinition "b" "second" None "h" "" (mkRetryPolicy 3 10 100)].

Definition pair_system : system file_state := initial_system (exit_state (execute pair [])).

Definition work (a : worker_action) : system_action := Work the_worker a.

(** The worker runs task [a], reports it, and claims [b]; both events wait. *)
Definition both_waiting : list system_action :=
  [Top CtxLive CtxLive; work Advance; work Advance; work Advance; Select FromHeartbeats CtxLive;
   Top CtxLive CtxLive; Select FromClaims CtxLive; Top CtxLive CtxLive;
   work Advance; work (Handle (HandlerReturns "done" None)); work Advance; work Advance; work Advance].

Definition system_exit (o : @system_outcome file_state) : option (WorkflowRunStatus * option go_error) :=
  match o with
  | Stopped st err => Some (run_status (sc_run st), err)
  | _ => None
  end.

(** A worker queues its result and at once claims its next task, so the
    claim and the result wait in different channels and [select] may take either.
    When it takes the result first the run succeeds. When it takes the claim
    first, the worker is leased a second task, the snapshot is rejected by its own
    validation, and the execution of a healthy run aborts with a persistence
    error. *)
Theorem double_lease_race :
  system_exit (run_system demo_clock one_worker no_headers pair_system
    (both_waiting ++
     [Select FromResults CtxLive; Top CtxLive CtxLive; Select FromClaims CtxLive; Top CtxLive CtxLive;
      work Advance; work (Handle (HandlerReturns "done" None)); work Advance;
      Select FromResults CtxLive; Top CtxLive CtxLive])) = Some (WorkflowRunSucceeded, None) /\
  exists cause,
    system_exit (run_system demo_clock one_worker no_headers pair_system
      (both_waiting ++ [Select FromClaims CtxLive])) =
    Some (WorkflowRunRunning, Some (PersistenceError "lease delivered task" "r1" cause)).
Proof. split; [vm_compute; reflexivity|]. eexists. vm_compute. reflexivity. Qed.

(** ** A handler that panics *)

(** The worker runs task [a] and has a heartbeat waiting when its handler panics. *)
Definition panicked : list system_action :=
  [Top CtxLive CtxLive; work Advance; work Advance; work Advance; Select FromHeartbeats CtxLive;
   Top CtxLive CtxLive; Select FromClaims CtxLive; Top CtxLive CtxLive;
   work Advance; work Beat; work (Handle (HandlerPanics "nil map")); work Advance].

(** The status of task [a], and the current worker of the only slot. *)
Definition system_view (o : @system_outcome file_state) : option (option TaskRunStatus * string) :=
  match o with
  | Running s => Some (tr_Status <$> run_tasks (sc_run (sys_sched s)) !! "a", current_worker (sc_pool (sys_sched s)) 1)
  | _ => None
  end.

(** A worker whose handler panics gives its delivery back before it reports
    itself lost, and its last heartbeats wait in another channel. When [select] takes
    the loss first the worker is replaced, the heartbeat is ignored and the execution
    goes on. When it takes the heartbeat first, the scheduler extends a delivery that
    is settled, and the execution of the run aborts with a broker error, although the
    task has attempts left. *)
Theorem panic_heartbeat_race :
  system_view (run_system demo_clock one_worker no_headers pair_system
    (panicked ++ [Select FromLost CtxLive; Top CtxLive CtxLive; Select FromHeartbeats CtxLive])) =
    Some (Some TaskRunRunning, worker_id one_worker "r1" 1 2) /\
  system_exit (run_system demo_clock one_worker no_headers pair_system
    (panicked ++ [Select FromHeartbeats CtxLive])) =
    Some (WorkflowRunRunning,
          Some (BrokerOperationError "extend task delivery" "r1" (AttemptIDFor (TaskRunIDFor "r1" "a") 1)
                  (Some ErrDeliverySettled))).
Proof. split; vm_compute; reflexivity. Qed.

(** ** A shutdown while a worker receives *)







