(* ===== verification/Projects.v ===== *)
(** * The project API

    The handlers of [src/internal/api/projects.go] and the authorization of
    [src/internal/api/authorization.go], over the journal store. A handler is a
    function of the store and of its request; what the HTTP layer decodes, the
    wall clock, the random audit identity and the context at each store call are
    parts of the request. The handlers that write are split where they do so:
    their [*_request] function is everything that they read and check. *)
From S2P Require Import Prelude Workflow Heap Graph GraphBuild GraphOrder Errors Run Ids Snapshot Security FileStore FileStoreOps FileStoreInv FileStoreProps.

(** ** Responses *)

Record api_error := mkApiError {
  ae_status : Z;
  ae_code : string;
  ae_message : string;
  ae_field : string
}.

Definition StatusBadRequest : Z := 400.
Definition StatusForbidden : Z := 403.
Definition StatusNotFound : Z := 404.
Definition StatusRequestTimeout : Z := 408.
Definition StatusConflict : Z := 409.
Definition StatusUnprocessableEntity : Z := 422.
Definition StatusInternalServerError : Z := 500.

(** [errors.As]: the first match of a depth-first search. *)
Fixpoint chain_find (test : go_error -> bool) (e : go_error) : option go_error :=
  if test e then Some e
  else
    match e with
    | ErrWrap _ cause => chain_find test cause
    | ErrJoin errs => foldr (fun e rest => match chain_find test e with Some x => Some x | None => rest end) None errs
    | RetryableTaskError (Some cause)
    | TaskExecutionError _ _ (Some cause)
    | RunCanceledError _ (Some cause)
    | PersistenceError _ _ (Some cause)
    | BrokerOperationError _ _ _ (Some cause) => chain_find test cause
    | _ => None
    end.

Section Responses.
Context `{Unicode}.

(** The first case whose error is in the chain. *)
Fixpoint first_case (err : go_error) (cases : list ((go_error -> bool) * (go_error -> api_error)))
    (otherwise : api_error) : api_error :=
  match cases with
  | [] => otherwise
  | (test, reply) :: rest =>
      match chain_find test err with
      | Some found => reply found
      | None => first_case err rest otherwise
      end
  end.

Definition writeStoreError (err : go_error) : api_error :=
  first_case err
    [((fun e => match e with WorkflowConflictError _ => true | _ => false end),
      fun e => mkApiError StatusConflict "workflow_conflict" (error_string e) "id");
     ((fun e => match e with RunAlreadyExistsError _ => true | _ => false end),
      fun e => mkApiError StatusConflict "run_exists" (error_string e) "run_id");
     ((fun e => match e with WorkflowOwnershipConflictError _ => true | _ => false end),
      fun e => mkApiError StatusConflict "workflow_ownership_conflict" (error_string e) "id");
     ((fun e => match e with UserDisabledError _ => true | _ => false end),
      fun e => mkApiError StatusForbidden "user_disabled" (error_string e) "");
     ((fun e => match e with ErrContextDeadlineExceeded => true | _ => false end),
      fun _ => mkApiError StatusRequestTimeout "request_timeout" "request deadline expired" "");
     ((fun e => match e with ErrContextCanceled => true | _ => false end),
      fun _ => mkApiError StatusRequestTimeout "request_canceled" "request was canceled" "")]
    (mkApiError StatusInternalServerError "internal_error" "durable state operation failed" "").

Definition writeRequestOrStoreError (err : go_error) : api_error :=
  first_case err
    [((fun e => match e with ProjectNotFoundError _ => true | _ => false end),
      fun e => mkApiError StatusNotFound "project_not_found" (error_string e) "project_id");
     ((fun e => match e with AuditEventAlreadyExistsError _ => true | _ => false end),
      fun e => mkApiError StatusConflict "audit_conflict" (error_string e) "")]
    (writeStoreError err).

Definition write_denial (d : denial) : api_error :=
  match d with
  | DeniedStoreError err => writeStoreError err
  | DeniedNotProvisioned => mkApiError StatusForbidden "forbidden" "authenticated user is not provisioned" ""
  | DeniedUserDisabled => mkApiError StatusForbidden "user_disabled" "authenticated user is disabled" ""
  | DeniedProjectNotFound => mkApiError StatusNotFound "project_not_found" "project was not found" "project_id"
  | DeniedRole => mkApiError StatusForbidden "forbidden" "project role does not allow this operation" ""
  end.
End Responses.

(** ** Requests *)

Definition resource_rune (r : Z) : bool :=
  in_range 97 122 r || in_range 65 90 r || in_range 48 57 r
  || (r =? 46) || (r =? 95) || (r =? 126) || (r =? 45).

Definition validResourceID (identifier : string) : bool :=
  negb (string_is_empty identifier) && forallb (fun '(r, _) => resource_rune r) (runes identifier).

(** [rq_ctx n] is the request's context at its [n]-th store call and
    [rq_audit_id] the answer of [generateRandomID]. *)
Record api_request := mkRequest {
  rq_ctx : nat -> context;
  rq_principal : Principal;
  rq_now : Z;
  rq_audit_id : res go_error string
}.

(** The payloads; [Err] is the response of the HTTP layer to a body it rejects. *)
Record createProjectRequest := mkCreateProject { cp_ID : string; cp_Name : string }.
Record putMembershipRequest := mkPutMembership { pm_DisplayName : string; pm_Role : Role }.

Section Handlers.
Context `{Unicode} `{JournalCodec}.

Definition newAuditEvent (rq : api_request) (projectID actor action resourceType resourceID : string)
    (metadata : option (gmap string string)) : res api_error AuditEvent :=
  match rq_audit_id rq with
  | Err _ => Err (mkApiError StatusInternalServerError "internal_error" "could not create audit identity" "")
  | Ok id => Ok (mkAuditEvent id projectID actor action resourceType resourceID (rq_now rq) metadata)
  end.

Definition invalid (code field : string) (err : go_error) : api_error :=
  mkApiError StatusUnprocessableEntity code (error_string err) field.

(** The two store calls of [authorizeProject]. *)
Definition authorize (s : file_state) (rq : api_request) (projectID : string) (permission : Permission)
  : res api_error unit :=
  let userID := pr_UserID (rq_principal rq) in
  rmap_err write_denial
    (authorizeProject (LoadUser s (rq_ctx rq 0) userID) (LoadMembership s (rq_ctx rq 1) projectID userID) permission).

Definition requestProjectID (projectID : string) : res api_error unit :=
  fail_if negb (validResourceID projectID)
    with mkApiError StatusBadRequest "invalid_project_id" "project ID is invalid" "projectID" ;;
  Ok tt.

(** *** Creating a project *)

Definition create_project_request (s : file_state) (rq : api_request) (body : res api_error createProjectRequest)
  : res api_error (User * Project * Membership * AuditEvent) :=
  try payload <- body ;;
  fail_if negb (validResourceID (cp_ID payload))
    with mkApiError StatusUnprocessableEntity "invalid_project_id" "project ID is invalid" "id" ;;
  let principal := rq_principal rq in
  let now := rq_now rq in
  try existing <- rmap_err writeStoreError (LoadUser s (rq_ctx rq 0) (pr_UserID principal)) ;;
  fail_if default false (user_Disabled <$> existing)
    with mkApiError StatusForbidden "user_disabled" "authenticated user is disabled" "" ;;
  let user := default (mkUser (pr_UserID principal) (pr_DisplayName principal) false now) existing in
  let project := mkProject (cp_ID payload) (cp_Name payload) (pr_UserID principal) now now in
  let membership := mkMembership (cp_ID payload) (pr_UserID principal) RoleAdmin now now in
  try event <- newAuditEvent rq (cp_ID payload) (pr_UserID principal) "project.created" "project" (cp_ID payload) None ;;
  try _ <- rmap_err (invalid "invalid_user" "") (validateUser user) ;;
  try _ <- rmap_err (invalid "invalid_project" "name") (validateProject project) ;;
  Ok (user, project, membership, event).

Definition create_project_error (err : go_error) : api_error :=
  first_case err
    [((fun e => match e with ProjectAlreadyExistsError _ => true | _ => false end),
      fun e => mkApiError StatusConflict "project_exists" (error_string e) "id")]
    (writeRequestOrStoreError err).

Definition handleProjects (s : file_state) (rq : api_request) (body : res api_error createProjectRequest)
  : file_state * res api_error Project :=
  match create_project_request s rq body with
  | Err e => (s, Err e)
  | Ok (user, project, membership, event) =>
      let '(s, result) := CreateProject s (rq_ctx rq 1) user project membership event in
      (s, rbind (rmap_err create_project_error result) (fun _ => Ok project))
  end.

(** *** Reading and renaming a project *)

Definition load_project (s : file_state) (ctx : context) (projectID : string) : res api_error Project :=
  match LoadProject s ctx projectID with
  | Err err => Err (writeStoreError err)
  | Ok None => Err (mkApiError StatusNotFound "project_not_found" "project was not found" "project_id")
  | Ok (Some project) => Ok project
  end.

Definition handleProject_get (s : file_state) (rq : api_request) (projectID : string) : res api_error Project :=
  try _ <- requestProjectID projectID ;;
  try _ <- authorize s rq projectID PermissionProjectRead ;;
  load_project s (rq_ctx rq 2) projectID.

Definition update_project_request (s : file_state) (rq : api_request) (projectID : string)
    (body : res api_error string) : res api_error (Project * AuditEvent) :=
  try _ <- requestProjectID projectID ;;
  try _ <- authorize s rq projectID PermissionProjectManage ;;
  try name <- body ;;
  try old <- load_project s (rq_ctx rq 2) projectID ;;
  let project := mkProject (proj_ID old) name (proj_CreatedBy old) (proj_CreatedAt old) (rq_now rq) in
  try event <- newAuditEvent rq projectID (pr_UserID (rq_principal rq)) "project.updated" "project" projectID
                 (Some (<["old_name" := proj_Name old]> {["new_name" := name]})) ;;
  try _ <- rmap_err (invalid "invalid_project" "name") (validateProject project) ;;
  Ok (project, event).

Definition updateProject (s : file_state) (rq : api_request) (projectID : string) (body : res api_error string)
  : file_state * res api_error Project :=
  match update_project_request s rq projectID body with
  | Err e => (s, Err e)
  | Ok (project, event) =>
      let '(s, result) := SaveProject s (rq_ctx rq 3) project event in
      (s, rbind (rmap_err writeRequestOrStoreError result) (fun _ => Ok project))
  end.

(** *** Members *)

Definition handleProjectMembers (s : file_state) (rq : api_request) (projectID : string)
  : res api_error (list Membership) :=
  try _ <- requestProjectID projectID ;;
  try _ <- authorize s rq projectID PermissionProjectManage ;;
  rmap_err writeStoreError (ListMemberships s (rq_ctx rq 2) projectID).

Definition count_admins (memberships : list Membership) : nat :=
  length (filter (fun m => mem_Role m = RoleAdmin) memberships).

(** The check that a project keeps an admin. *)
Definition check_last_admin (s : file_state) (ctx : context) (projectID : string) (existing : option Membership)
    (role : Role) : res api_error unit :=
  if bool_decide (mem_Role <$> existing = Some RoleAdmin) && negb (bool_decide (role = RoleAdmin)) then
    try memberships <- rmap_err writeStoreError (ListMemberships s ctx projectID) ;;
    fail_if Nat.eqb (count_admins memberships) 1
      with mkApiError StatusConflict "last_admin" "a project must retain at least one admin" "role" ;;
    Ok tt
  else Ok tt.

Definition member_request (s : file_state) (rq : api_request) (projectID userID : string)
    (body : res api_error putMembershipRequest) : res api_error (User * Membership * AuditEvent) :=
  try _ <- requestProjectID projectID ;;
  try _ <- authorize s rq projectID PermissionProjectManage ;;
  fail_if negb (validIdentifier userID)
    with mkApiError StatusBadRequest "invalid_user_id" "user ID is invalid" "userID" ;;
  try payload <- body ;;
  try _ <- rmap_err (invalid "invalid_role" "role") (validateRole (pm_Role payload)) ;;
  try existing <- rmap_err writeStoreError (LoadMembership s (rq_ctx rq 2) projectID userID) ;;
  try _ <- check_last_admin s (rq_ctx rq 3) projectID existing (pm_Role payload) ;;
  let now := rq_now rq in
  let createdAt := default now (mem_CreatedAt <$> existing) in
  let oldRole := default "" (role_string ∘ mem_Role <$> existing) in
  let user := mkUser userID (pm_DisplayName payload) false now in
  let membership := mkMembership projectID userID (pm_Role payload) createdAt now in
  try event <- newAuditEvent rq projectID (pr_UserID (rq_principal rq)) "membership.updated" "user" userID
                 (Some (<["old_role" := oldRole]> {["new_role" := role_string (pm_Role payload)]})) ;;
  try _ <- rmap_err (invalid "invalid_user" "display_name") (validateUser user) ;;
  Ok (user, membership, event).

Definition member_commit (s : file_state) (ctx : context) (change : User * Membership * AuditEvent)
  : file_state * res api_error Membership :=
  let '(user, membership, event) := change in
  let '(s, result) := PutMembership s ctx user membership event in
  (s, rbind (rmap_err writeRequestOrStoreError result) (fun _ => Ok membership)).

Definition handleProjectMember (s : file_state) (rq : api_request) (projectID userID : string)
    (body : res api_error putMembershipRequest) : file_state * res api_error Membership :=
  match member_request s rq projectID userID body with
  | Err e => (s, Err e)
  | Ok change => member_commit s (rq_ctx rq 4) change
  end.

Definition handleProjectAuditEvents (s : file_state) (rq : api_request) (projectID : string)
  : res api_error (list AuditEvent) :=
  try _ <- requestProjectID projectID ;;
  try _ <- authorize s rq projectID PermissionAuditRead ;;
  rmap_err writeStoreError (ListAuditEvents s (rq_ctx rq 2) projectID 100).
End Handlers.

(** ** A project keeps an admin *)

Definition has_admin (store : FileStore) (p : string) : Prop :=
  exists u m, lookup_membership store p u = Some m /\ mem_Role m = RoleAdmin.

Definition administered (store : FileStore) : Prop := forall p, is_Some (fs_projects store !! p) -> has_admin store p.

Section Admins.
Context `{Unicode} `{JournalCodec}.

(** One request served at a time, or a call of the store by the rest of the
    service. *)
Inductive api_step (s : file_state) : file_state -> Prop :=
| as_create rq body : api_step s (fst (handleProjects s rq body))
| as_update rq p body : api_step s (fst (updateProject s rq p body))
| as_member rq p u body : api_step s (fst (handleProjectMember s rq p u body))
| as_workflow ctx ctx' d : api_step s (fst (SaveWorkflow s ctx ctx' d))
| as_owned ctx d o : api_step s (fst (SaveWorkflowForProject s ctx d o))
| as_new_run ctx ctx' r : api_step s (fst (CreateRun s ctx ctx' r))
| as_run ctx ctx' r : api_step s (fst (SaveRun s ctx ctx' r)).

Lemma perform_memory {A : Type} (P : FileStore -> Prop) (s : file_state) (p : res go_error (plan A)) :
  P (st_memory s) -> (forall r m v, p = Ok (Commit r m v) -> P m) -> P (st_memory (fst (perform s p))).
Proof.
  intros Hs Hp. unfold perform. destruct p as [[v|r m v]|e]; [done| |done].
  destruct (appendRecord _ _) as [d [?|?]]; [by eapply Hp|done].
Qed.

(** A commit that leaves projects and memberships alone. *)
Lemma administered_same (store store' : FileStore) :
  fs_projects store' = fs_projects store -> fs_memberships store' = fs_memberships store ->
  administered store -> administered store'.
Proof. unfold administered, has_admin, lookup_membership. intros -> ->. done. Qed.

Lemma applied_security (store : FileStore) (P : FileStore -> Prop) r rec m v :
  @Ok go_error _ (commit_security store r) = Ok (Commit rec m v) -> P store ->
  (forall store', applySecurityRecord store r = Ok store' -> P store') -> P m.
Proof. intros [= _ <-] Hs Hp. destruct (applySecurityRecord store r) as [store'|]; [by apply Hp|done]. Qed.

Lemma create_administered store ctx user project membership event r m v :
  administered store -> plan_CreateProject store ctx user project membership event = Ok (Commit r m v) ->
  administered m.
Proof.
  intros Ha Hp. unfold plan_CreateProject, validateProjectCreation in Hp. run_ok.
  rewrite !orb_false_iff, !negb_false_iff, !String.eqb_eq, !bool_decide_eq_true in *.
  eapply applied_security; [exact Hp|done|].
  intros store' Hs. unfold applySecurityRecord in Hs. run_ok. injection Hs as <-. intros p Hproj.
  unfold has_admin, lookup_membership. setoid_rewrite (lookup_put_membership store membership). cbn in Hproj.
  destruct (decide (p = mem_ProjectID membership)) as [->|Hne].
  - exists (mem_UserID membership), membership. rewrite decide_True by done. naive_solver.
  - rewrite lookup_insert_ne in Hproj by naive_solver. destruct (Ha p Hproj) as (u & k & Hk & Hrole).
    exists u, k. by rewrite decide_False by naive_solver.
Qed.

Lemma update_administered store ctx project event r m v :
  administered store -> plan_SaveProject store ctx project event = Ok (Commit r m v) -> administered m.
Proof.
  intros Ha Hp. unfold plan_SaveProject in Hp. run_ok.
  destruct (fs_projects store !! proj_ID project) as [existing|] eqn:Hproj; [|done]. run_ok.
  eapply applied_security; [exact Hp|done|]. intros store' Hs. unfold applySecurityRecord in Hs. run_ok.
  injection Hs as <-. intros p. cbn. rewrite lookup_insert. intros Hin. apply Ha.
  destruct (decide (proj_ID project = p)) as [<-|]; [by exists existing|done].
Qed.

(** A put that demotes nobody, or leaves another admin. *)
Lemma put_administered store ctx user membership event r m v :
  administered store ->
  (mem_Role membership = RoleAdmin \/
   (exists u k, u <> mem_UserID membership /\ lookup_membership store (mem_ProjectID membership) u = Some k /\
      mem_Role k = RoleAdmin) \/
   (forall k, lookup_membership store (mem_ProjectID membership) (mem_UserID membership) = Some k ->
      mem_Role k <> RoleAdmin)) ->
  plan_PutMembership store ctx user membership event = Ok (Commit r m v) -> administered m.
Proof.
  intros Ha Hkeep Hp. unfold plan_PutMembership in Hp. run_ok.
  match goal with E : resolve_membership _ _ = Ok ?x |- _ => rename E into Hres; rename x into stored end.
  assert (Hst : mem_ProjectID stored = mem_ProjectID membership /\ mem_UserID stored = mem_UserID membership /\
    mem_Role stored = mem_Role membership).
  { unfold resolve_membership in Hres. destruct (lookup_membership _ _ _); run_ok; by simplify_eq. }
  destruct Hst as (Sp & Su & Sr).
  eapply applied_security; [exact Hp|done|]. intros store' Hs. unfold applySecurityRecord in Hs. run_ok.
  injection Hs as <-. intros p Hproj. destruct (Ha p Hproj) as (u & k & Hk & Hrole).
  unfold has_admin, lookup_membership. setoid_rewrite (lookup_put_membership store stored).
  destruct (decide (mem_ProjectID stored = p /\ mem_UserID stored = u)) as [[<- <-]|Hne].
  - rewrite Sp, Su in Hk. destruct Hkeep as [Hadm|[(u' & k' & Hu' & Hk' & Hr')|Hno]].
    + exists (mem_UserID stored), stored. rewrite decide_True by done. split; [done|congruence].
    + exists u', k'. rewrite decide_False by (rewrite Su; naive_solver). by rewrite Sp.
    + by destruct (Hno k Hk).
  - exists u, k. by rewrite decide_False.
Qed.

(** Among at least two admins there is one other than [u]. *)
Lemma another_admin store p u k ms :
  lookup_membership store p u = Some k -> mem_Role k = RoleAdmin ->
  ms ≡ₚ map_values (default ∅ (fs_memberships store !! p)) -> count_admins ms <> 1%nat ->
  exists u' k', u' <> u /\ lookup_membership store p u' = Some k' /\ mem_Role k' = RoleAdmin.
Proof.
  unfold lookup_membership, count_admins. intros Hk Hr -> Hc.
  destruct (fs_memberships store !! p) as [f|]; [|done]. cbn in *.
  unfold map_values in Hc. rewrite <- (insert_delete_id _ _ _ Hk), map_to_list_insert in Hc by apply lookup_delete_eq.
  rewrite fmap_cons, filter_cons_True in Hc by done. cbn in Hc.
  destruct (filter _ (snd <$> map_to_list (delete u f))) as [|k' l] eqn:Ef; [done|].
  assert (Hin : k' ∈ k' :: l) by left. rewrite <- Ef in Hin. apply list_elem_of_filter in Hin as [Hr' Hin].
  apply list_elem_of_fmap in Hin as ([u' x] & -> & Hl%elem_of_map_to_list).
  apply lookup_delete_Some in Hl as [Hne Hl]. exists u', x. naive_solver.
Qed.

(** What the checks of [handleProjectMember] guarantee of the put that follows. *)
Lemma member_request_safe s rq p u body user membership event :
  member_request s rq p u body = Ok (user, membership, event) ->
  mem_Role membership = RoleAdmin \/
  (exists u' k, u' <> mem_UserID membership /\ lookup_membership (st_memory s) (mem_ProjectID membership) u' = Some k /\
     mem_Role k = RoleAdmin) \/
  (forall k, lookup_membership (st_memory s) (mem_ProjectID membership) (mem_UserID membership) = Some k ->
     mem_Role k <> RoleAdmin).
Proof.
  intros Hm. unfold member_request, check_last_admin, LoadMembership, ListMemberships in Hm. run_ok. simplify_eq. cbn.
  match goal with payload : putMembershipRequest |- _ => destruct (decide (pm_Role payload = RoleAdmin)); [by left|right] end.
  destruct (lookup_membership (st_memory s) p u) as [k|] eqn:Hk; [|by right].
  destruct (decide (mem_Role k = RoleAdmin)) as [Hr|Hr]; [left|by right; intros ? [= <-]].
  repeat match goal with E : context [bool_decide ?P] |- _ => rewrite ?(bool_decide_eq_true_2 P), ?(bool_decide_eq_false_2 P) in E by (cbn; congruence) end.
  cbn [andb negb] in *. run_ok. simplify_eq.
  match goal with E : Nat.eqb _ 1 = false |- _ => apply Nat.eqb_neq in E; eapply another_admin; [exact Hk|exact Hr| |exact E] end.
  apply sort_by_perm.
Qed.

Lemma api_step_administered s s' : api_step s s' -> administered (st_memory s) -> administered (st_memory s').
Proof.
  intros Hstep Ha. destruct Hstep.
  - unfold handleProjects. destruct (create_project_request _ _ _) as [[[[user project] membership] event]|]; [|done].
    pose proof (perform_memory administered s (plan_CreateProject (st_memory s) (rq_ctx rq 1) user project membership event) Ha) as Hp.
    fold (CreateProject s (rq_ctx rq 1) user project membership event) in Hp.
    destruct (CreateProject _ _ _ _ _ _). apply Hp. intros. by eapply create_administered.
  - unfold updateProject. destruct (update_project_request _ _ _ _) as [[project event]|]; [|done].
    pose proof (perform_memory administered s (plan_SaveProject (st_memory s) (rq_ctx rq 3) project event) Ha) as Hp.
    fold (SaveProject s (rq_ctx rq 3) project event) in Hp.
    destruct (SaveProject _ _ _ _). apply Hp. intros. by eapply update_administered.
  - unfold handleProjectMember. destruct (member_request _ _ _ _ _) as [[[user membership] event]|] eqn:Em; [|done].
    apply member_request_safe in Em. unfold member_commit.
    pose proof (perform_memory administered s (plan_PutMembership (st_memory s) (rq_ctx rq 4) user membership event) Ha) as Hp.
    fold (PutMembership s (rq_ctx rq 4) user membership event) in Hp.
    destruct (PutMembership _ _ _ _ _). apply Hp. intros. by eapply put_administered.
  - apply (perform_memory administered); [done|]. intros r m v Hp. unfold plan_SaveWorkflow in Hp. run_ok.
    destruct (fs_workflows _ !! _); [case_bool_decide; by simplify_eq|]. run_ok. simplify_eq. by eapply administered_same.
  - apply (perform_memory administered); [done|]. intros r m v Hp. unfold plan_SaveWorkflowForProject in Hp. run_ok.
    destruct (fs_ownerships _ !! _); [case_bool_decide; by simplify_eq|].
    eapply applied_security; [exact Hp|done|]. intros store' Hs. unfold applySecurityRecord in Hs. run_ok.
    injection Hs as <-. by eapply administered_same.
  - apply (perform_memory administered); [done|]. intros r' m v Hp. unfold plan_CreateRun in Hp. run_ok. simplify_eq. by eapply administered_same.
  - apply (perform_memory administered); [done|]. intros r' m v Hp. apply plan_SaveRun_ok in Hp as (_ & _ & _ & _ & _ & _ & ->).
    by eapply administered_same.
Qed.
End Admins.
