(* ===== verification/ProjectsProps.v ===== *)
(** * Guarantees of the project API

    Who may change and read what, the admin that every project keeps when
    requests are served one at a time, and the names with which a user or a
    project gets stuck. *)
From S2P Require Import Prelude Workflow Heap Graph GraphBuild GraphOrder Errors Run Ids Snapshot SnapshotValid RunStep RunInv RunProps RunDurable RunExamples Security FileStore FileStoreOps FileStoreInv FileStoreJournal FileStoreProps FileStoreExamples Projects.

Section Guarantees.
Context `{Unicode} `{JournalCodec}.

Lemma authorize_ok s rq p permission :
  authorize s rq p permission = Ok tt ->
  exists user m,
    fs_users (st_memory s) !! pr_UserID (rq_principal rq) = Some user /\ user_Disabled user = false /\
    lookup_membership (st_memory s) p (pr_UserID (rq_principal rq)) = Some m /\ Allows (mem_Role m) permission = true.
Proof.
  unfold authorize, authorizeProject, LoadUser, LoadMembership. intros Ha. apply rmap_err_ok in Ha.
  destruct (check_context (rq_ctx rq 0)); [|done]. cbn in Ha. destruct (fs_users _ !! _) as [user|]; [|done].
  apply guard_err_ok in Ha as [Hd Ha]. destruct (check_context (rq_ctx rq 1)); [|done]. cbn in Ha.
  destruct (lookup_membership _ _ _) as [m|]; [|done]. apply guard_err_ok in Ha as [Hr _].
  exists user, m. by rewrite negb_false_iff in Hr.
Qed.

(** The roles that may manage a project. *)
Lemma manage_admin role : Allows role PermissionProjectManage = true -> role = RoleAdmin.
Proof. by destruct role. Qed.

Definition is_enabled_admin (s : file_state) (p u : string) : Prop :=
  exists user m, fs_users (st_memory s) !! u = Some user /\ user_Disabled user = false /\
    lookup_membership (st_memory s) p u = Some m /\ mem_Role m = RoleAdmin.

Lemma authorize_manage s rq p :
  authorize s rq p PermissionProjectManage = Ok tt -> is_enabled_admin s p (pr_UserID (rq_principal rq)).
Proof. intros (user & m & Hu & Hd & Hm & Hr)%authorize_ok. exists user, m. eauto using manage_admin. Qed.

(** Renaming a project and changing a membership take an enabled admin of
    that very project: a request of anyone else leaves memory, journal file and
    all unchanged. *)
Theorem writes_need_admin s rq p u name member :
  ~ is_enabled_admin s p (pr_UserID (rq_principal rq)) ->
  fst (updateProject s rq p name) = s /\ fst (handleProjectMember s rq p u member) = s.
Proof.
  intros Hn. split.
  - unfold updateProject. destruct (update_project_request _ _ _ _) as [[project event]|] eqn:E; [|done].
    exfalso. apply Hn. unfold update_project_request in E. run_ok. by apply authorize_manage.
  - unfold handleProjectMember. destruct (member_request _ _ _ _ _) as [change|] eqn:E; [|done].
    exfalso. apply Hn. unfold member_request in E. run_ok. by apply authorize_manage.
Qed.

(** What a non-member is told depends on the user's own record only. *)
Lemma authorize_non_member s s' rq p permission permission' :
  lookup_membership (st_memory s) p (pr_UserID (rq_principal rq)) = None ->
  lookup_membership (st_memory s') p (pr_UserID (rq_principal rq)) = None ->
  fs_users (st_memory s) !! pr_UserID (rq_principal rq) = fs_users (st_memory s') !! pr_UserID (rq_principal rq) ->
  exists e, authorize s rq p permission = Err e /\ authorize s' rq p permission' = Err e.
Proof.
  intros Hm Hm' Hu. unfold authorize, authorizeProject, LoadUser, LoadMembership. rewrite Hm, Hm', Hu. clear Hm Hm' Hu.
  destruct (check_context (rq_ctx rq 0)); cbn; [|by eexists]. destruct (fs_users _ !! _) as [user|]; cbn; [|by eexists].
  destruct (user_Disabled user); cbn; [by eexists|]. destruct (check_context (rq_ctx rq 1)); cbn; by eexists.
Qed.

(** C36: tenant isolation. For a user who is no member of a project every request
    under [/projects/{projectID}] - reading and renaming it, its members, a change of a
    membership, its audit events - fails, changes nothing, and gets the same answer
    from any two stores that agree on the user's own record: the answer does not tell
    whether the project exists. [POST /projects] is not among these requests; with the
    identifier of a project it is answered with a conflict. *)
Theorem tenant_isolation s s' rq p u name member :
  lookup_membership (st_memory s) p (pr_UserID (rq_principal rq)) = None ->
  lookup_membership (st_memory s') p (pr_UserID (rq_principal rq)) = None ->
  fs_users (st_memory s) !! pr_UserID (rq_principal rq) = fs_users (st_memory s') !! pr_UserID (rq_principal rq) ->
  exists e,
    handleProject_get s rq p = Err e /\ handleProject_get s' rq p = Err e /\
    updateProject s rq p name = (s, Err e) /\ updateProject s' rq p name = (s', Err e) /\
    handleProjectMembers s rq p = Err e /\ handleProjectMembers s' rq p = Err e /\
    handleProjectMember s rq p u member = (s, Err e) /\ handleProjectMember s' rq p u member = (s', Err e) /\
    handleProjectAuditEvents s rq p = Err e /\ handleProjectAuditEvents s' rq p = Err e.
Proof.
  intros Hm Hm' Hu.
  unfold handleProject_get, updateProject, update_project_request, handleProjectMembers, handleProjectMember,
    member_request, handleProjectAuditEvents.
  destruct (requestProjectID p) as [[]|e] eqn:Er; cbn [rbind]; [|exists e; repeat split].
  destruct (authorize_non_member s s' rq p PermissionProjectManage PermissionProjectManage Hm Hm' Hu) as (e & E1 & E2).
  assert (Hall : forall permission, authorize s rq p permission = Err e /\ authorize s' rq p permission = Err e).
  { intros permission. destruct (authorize_non_member s s' rq p permission PermissionProjectManage Hm Hm' Hu) as (e1 & F1 & F2).
    destruct (authorize_non_member s s' rq p permission permission Hm Hm' Hu) as (e2 & G1 & G2). split; congruence. }
  exists e. destruct (Hall PermissionProjectRead) as [-> ->]. destruct (Hall PermissionAuditRead) as [-> ->].
  rewrite E1, E2. repeat split.
Qed.

(** C35: served one at a time, no sequence of requests leaves a project without
    an admin, whatever the journal's file system answers. *)
Theorem last_admin_kept file script s p :
  rtc api_step (mkFileState empty_store (mkDisk file script)) s ->
  is_Some (fs_projects (st_memory s) !! p) -> has_admin (st_memory s) p.
Proof.
  intros Hs Hp. assert (Ha : administered (st_memory s)); [|by apply Ha]. clear Hp.
  remember (mkFileState empty_store (mkDisk file script)) as s0 eqn:E0.
  assert (H0' : administered (st_memory s0)) by (subst; intros q [? [=]]).
  clear E0. induction Hs; eauto using api_step_administered.
Qed.

(** ** Names *)

(** Identifiers have no space to trim. *)
Lemma leading_space_good rs : forallb good_rune rs = true -> leading_space_width rs = 0%nat.
Proof.
  destruct rs as [|[r w] rs]; [done|]. cbn. unfold good_rune. cbn. by destruct (is_space r).
Qed.

Lemma trim_identifier s : validIdentifier s = true -> trim_space s = s.
Proof.
  intros [_ Hg]%validIdentifier_runes. unfold trim_space.
  rewrite (leading_space_good (runes s)) by done. rewrite leading_space_good.
  - rewrite !Nat.sub_0_r. by apply substring_all.
  - apply forallb_forall. intros x Hx%in_rev. rewrite forallb_forall in Hg. by apply Hg.
Qed.

(** A token whose subject has more than 200 bytes and whose name is not
    usable authenticates, with the subject as its display name. The user
    validation of the project API rejects that name, so this user, unless already
    stored, gets an [invalid_user] answer to every project that it asks for. *)
Theorem long_subject_locked_out parse ctx token principal parsed s rq payload id :
  parse token = Ok parsed -> validName (trim_space (tok_Name parsed)) = false ->
  maxNameLength < string_len (tok_Subject parsed) ->
  Authenticate parse ctx token = Ok principal ->
  rq_principal rq = principal -> rq_ctx rq 0 = CtxLive -> rq_audit_id rq = Ok id ->
  fs_users (st_memory s) !! pr_UserID principal = None -> validResourceID (cp_ID payload) = true ->
  exists message, handleProjects s rq (Ok payload) =
    (s, Err (mkApiError StatusUnprocessableEntity "invalid_user" message "")).
Proof.
  intros Hp Hname Hlen Hauth Hrq Hctx Hid Hu Hres. unfold Authenticate in Hauth. run_ok. rewrite Hp in Hauth. run_ok.
  rewrite Hname in Hauth. cbn [negb] in Hauth. injection Hauth as <-. cbn [pr_UserID] in Hu.
  match goal with E : negb (tok_Valid _) || _ = false |- _ => apply orb_false_iff in E as [_ Hsub%negb_false_iff] end.
  assert (Hbad : validName (tok_Subject parsed) = false).
  { unfold validName. rewrite trim_identifier.
    - apply andb_false_iff. right. by apply Z.leb_gt.
    - unfold security_identifier in Hsub. by destruct (_ <? _). }
  unfold handleProjects, create_project_request. cbn [rbind]. rewrite Hres. cbn [negb guard_err].
  rewrite Hrq, Hctx. cbn [pr_UserID pr_DisplayName]. unfold LoadUser. cbn [check_context]. rewrite Hu. cbn.
  unfold newAuditEvent. rewrite Hid. cbn. unfold validateUser. cbn. rewrite Hsub, Hbad. cbn. eauto.
Qed.

(** Audit metadata is limited to 500 bytes per value. *)
Lemma long_metadata_refused event metadata key value :
  ev_Metadata event = Some metadata -> metadata !! key = Some value -> 500 < string_len value ->
  validateAuditEvent event <> Ok tt.
Proof.
  intros Hm Hk Hlen Hv. unfold validateAuditEvent in Hv. run_ok. rewrite Hm in *. cbn [default] in *.
  match goal with F : existsb metadata_invalid _ = false |- _ => revert F end.
  apply not_false_iff_true, existsb_exists. exists (key, value). split.
  - by apply list_elem_of_In, elem_of_map_to_list.
  - cbn [metadata_invalid]. apply orb_true_iff. right. by apply Z.ltb_lt.
Qed.

(** [Project.Validate] bounds a name after trimming it, but the audit event
    of a rename carries the untrimmed old name and is refused above 500 bytes. A
    project stored with such a name can never be renamed: every request to do so
    fails and changes nothing, also one of an admin with a valid new name. *)
Theorem padded_name_frozen s rq p project name :
  fs_projects (st_memory s) !! p = Some project -> 500 < string_len (proj_Name project) ->
  exists e, updateProject s rq p (Ok name) = (s, Err e).
Proof.
  intros Hp Hlen. unfold updateProject.
  destruct (update_project_request s rq p (Ok name)) as [[project' event]|e] eqn:E; [|eauto].
  unfold update_project_request in E. run_ok.
  match goal with L : load_project _ _ _ = Ok ?v |- _ =>
    assert (Hold : v = project)
      by (unfold load_project, LoadProject in L; destruct (check_context (rq_ctx rq 2)); [|done];
          cbn [rbind] in L; rewrite Hp in L; congruence)
  end.
  assert (Hev : validateAuditEvent event <> Ok tt).
  { match goal with N : newAuditEvent _ _ _ _ _ _ _ = Ok _ |- _ => unfold newAuditEvent in N; destruct (rq_audit_id rq); [|done];
      injection N as N end.
    injection E as _ <-. subst. eapply long_metadata_refused; [reflexivity|apply lookup_insert_eq|exact Hlen]. }
  unfold SaveProject, perform, plan_SaveProject.
  destruct (check_context (rq_ctx rq 3)); cbn [rbind]; [|cbn; eauto].
  destruct (validateProject project') as [[]|]; cbn [rmap_err rbind]; [|cbn; eauto].
  destruct (validateAuditEvent event) as [[]|]; [done|cbn; eauto].
Qed.
End Guarantees.

(** ** Concrete requests *)

#[local] Existing Instances ascii_unicode blank_codec.

Definition request (user : string) (time : Z) (id : string) : api_request :=
  mkRequest (fun _ => CtxLive) (mkPrincipal user user) time (Ok id).

Definition no_files : file_state := mkFileState empty_store (mkDisk [] []).

(** Alice creates a project and makes Bob an admin of it. *)
Definition with_team : file_state :=
  fst (handleProjects no_files (request "alice" 100 "audit-1") (Ok (mkCreateProject "team" "Team"))).
Definition two_admins : file_state :=
  fst (handleProjectMember with_team (request "alice" 200 "audit-2") "team" "bob" (Ok (mkPutMembership "Bob" RoleAdmin))).

Lemma two_admins_steps : rtc api_step no_files two_admins.
Proof. eapply rtc_l; [apply as_create|]. eapply rtc_l; [apply as_member|]. apply rtc_refl. Defined.

(** Each of them demotes the other. *)
Definition demote (name : string) : res api_error putMembershipRequest := Ok (mkPutMembership name RoleMember).
Definition alice_demotes_bob (s : file_state) : res api_error (User * Membership * AuditEvent) :=
  member_request s (request "alice" 300 "audit-3") "team" "bob" (demote "Bob").
Definition bob_demotes_alice (s : file_state) : res api_error (User * Membership * AuditEvent) :=
  member_request s (request "bob" 301 "audit-4") "team" "alice" (demote "Alice").

(** The second half of a request whose first half has answered. *)
Definition commit (s : file_state) (checked : res api_error (User * Membership * AuditEvent)) : file_state :=
  match checked with Ok change => fst (member_commit s CtxLive change) | Err _ => s end.

(** The roles of a project's members. *)
Definition roles (s : file_state) (p : string) : list (string * Role) :=
  match ListMemberships s CtxLive p with
  | Ok ms => (fun m => (mem_UserID m, mem_Role m)) <$> ms
  | Err _ => []
  end.

(** The check that a project keeps an admin and the change it allows are two
    store calls. When two admins demote each other and both checks come before
    both changes, both succeed and the project has no admin left; one request
    after the other, the second is refused. *)
Theorem last_admin_race :
  roles (commit (commit two_admins (alice_demotes_bob two_admins)) (bob_demotes_alice two_admins)) "team" =
    [("alice", RoleMember); ("bob", RoleMember)] /\
  let s := commit two_admins (alice_demotes_bob two_admins) in
  roles (commit s (bob_demotes_alice s)) "team" = [("alice", RoleAdmin); ("bob", RoleMember)].
Proof. vm_compute. split; reflexivity. Qed.

(** ** The instances *)

Lemma writes_need_admin_witness :
  fst (updateProject two_admins (request "eve" 300 "audit-5") "team" (Ok "Mine")) = two_admins /\
  fst (handleProjectMember two_admins (request "eve" 300 "audit-5") "team" "eve" (demote "Eve")) = two_admins.
Proof.
  apply writes_need_admin. intros (user & m & Hu & _). vm_compute in Hu. done.
Defined.

Lemma tenant_isolation_witness :
  exists e,
    let rq := request "eve" 300 "audit-5" in
    handleProject_get two_admins rq "team" = Err e /\ handleProject_get no_files rq "team" = Err e /\
    updateProject two_admins rq "team" (Ok "Mine") = (two_admins, Err e) /\
    updateProject no_files rq "team" (Ok "Mine") = (no_files, Err e) /\
    handleProjectMembers two_admins rq "team" = Err e /\ handleProjectMembers no_files rq "team" = Err e /\
    handleProjectMember two_admins rq "team" "eve" (demote "Eve") = (two_admins, Err e) /\
    handleProjectMember no_files rq "team" "eve" (demote "Eve") = (no_files, Err e) /\
    handleProjectAuditEvents two_admins rq "team" = Err e /\ handleProjectAuditEvents no_files rq "team" = Err e.
Proof. apply tenant_isolation; vm_compute; reflexivity. Defined.

Lemma last_admin_kept_witness : has_admin (st_memory two_admins) "team".
Proof.
  apply (last_admin_kept [] []); [exact two_admins_steps|]. vm_compute. by eexists.
Defined.

(** A subject of 201 bytes and a token that carries no name. *)
Fixpoint repeated (n : nat) (c : Ascii.ascii) : string :=
  match n with O => "" | S n => String c (repeated n c) end.
Definition long_subject : string := repeated 201 (Ascii.ascii_of_N 97).
Definition long_request : api_request :=
  mkRequest (fun _ => CtxLive) (mkPrincipal long_subject long_subject) 100 (Ok "audit-1").

Lemma long_subject_locked_out_witness :
  exists message, handleProjects no_files long_request (Ok (mkCreateProject "team" "Team")) =
    (no_files, Err (mkApiError StatusUnprocessableEntity "invalid_user" message "")).
Proof.
  apply (long_subject_locked_out (fun _ => Ok (mkParsedToken true long_subject "")) CtxLive "token"
    (mkPrincipal long_subject long_subject) (mkParsedToken true long_subject "") no_files long_request
    (mkCreateProject "team" "Team") "audit-1"); vm_compute; reflexivity.
Defined.

(** A name of one letter behind 500 spaces is accepted at creation. *)
Definition padded_name : string := repeated 500 (Ascii.ascii_of_N 32) +:+ "x".
Definition padded : file_state :=
  fst (handleProjects no_files (request "alice" 100 "audit-1") (Ok (mkCreateProject "team" padded_name))).

Lemma padded_name_frozen_witness :
  exists e, updateProject padded (request "alice" 200 "audit-2") "team" (Ok "Team") = (padded, Err e).
Proof.
  apply (padded_name_frozen padded _ "team" (mkProject "team" padded_name "alice" 100 100)); vm_compute; reflexivity.
Defined.
