(* ===== verification/Duration.v ===== *)
(** * Durations as text

    [time.ParseDuration] and [time.Duration.String], through which retry policies,
    delays and settings pass. [ParseDuration] multiplies the digits after a point
    in [float64]; the model does so with the binary64 operations of [SpecFloat]. *)
From S2P Require Import Prelude Errors.
From Stdlib Require Import Floats.SpecFloat.

(** ** Bytes *)

Definition is_digit (c : Ascii.ascii) : bool := in_range 48 57 (byte_val c).
Definition digit_val (c : Ascii.ascii) : Z := byte_val c - 48.
Definition is_point (c : Ascii.ascii) : bool := byte_val c =? 46.

Definition hex_digit (n : Z) : Ascii.ascii :=
  Ascii.ascii_of_N (Z.to_N (if n <? 10 then n + 48 else n + 87)).

(** The package's own [quote]: it escapes each byte of a rune that is not ASCII. *)
Fixpoint quoted_bytes (s : string) : string :=
  match s with
  | EmptyString => EmptyString
  | String c rest =>
      let b := byte_val c in
      let out :=
        if (128 <=? b) || (b <? 32)
        then "\x" +:+ String (hex_digit (b / 16)) (String (hex_digit (b mod 16)) EmptyString)
        else if (b =? 34) || (b =? 92) then "\" +:+ String c EmptyString
        else String c EmptyString in
      out +:+ quoted_bytes rest
  end.
Definition quote_mark : string := String (Ascii.ascii_of_nat 34) EmptyString.
Definition time_quote (s : string) : string := quote_mark +:+ quoted_bytes s +:+ quote_mark.

(** ** Floating point *)

Definition float_of_Z (z : Z) : spec_float := binary_normalize 53 1024 z 0 false.
Definition float_mul : spec_float -> spec_float -> spec_float := SFmul 53 1024.
Definition float_div : spec_float -> spec_float -> spec_float := SFdiv 53 1024.

(** The conversion to [uint64] of a value that is in range; it truncates. *)
Definition uint64_of_float (x : spec_float) : Z :=
  match x with
  | S754_finite false m e => wrap_uint64 (if 0 <=? e then Z.shiftl (Z.pos m) e else Z.shiftr (Z.pos m) (- e))
  | _ => 0
  end.

(** ** Parsing *)

Definition two63 : Z := 9223372036854775808.

(** [leadingInt]; [None] is its overflow error. *)
Fixpoint leadingInt (x : Z) (s : string) : option (Z * string) :=
  match s with
  | String c rest =>
      if is_digit c then
        if two63 / 10 <? x then None
        else
          let x := wrap_uint64 (x * 10 + digit_val c) in
          if two63 <? x then None else leadingInt x rest
      else Some (x, s)
  | EmptyString => Some (x, s)
  end.

Fixpoint leadingFraction (x : Z) (scale : spec_float) (overflow : bool) (s : string) : Z * spec_float * string :=
  match s with
  | String c rest =>
      if is_digit c then
        if overflow then leadingFraction x scale overflow rest
        else if (two63 - 1) / 10 <? x then leadingFraction x scale true rest
        else
          let y := wrap_uint64 (x * 10 + digit_val c) in
          if two63 <? y then leadingFraction x scale true rest
          else leadingFraction y (float_mul scale (float_of_Z 10)) false rest
      else (x, scale, s)
  | EmptyString => (x, scale, s)
  end.

(** The longest prefix without a digit or a point, and the rest. *)
Fixpoint unit_prefix (s : string) : string * string :=
  match s with
  | String c rest =>
      if is_point c || is_digit c then (EmptyString, s)
      else let '(u, rem) := unit_prefix rest in (String c u, rem)
  | EmptyString => (EmptyString, EmptyString)
  end.

Definition Microsecond : Z := 1000.
Definition Millisecond : Z := 1000000.
Definition Second : Z := 1000000000.
Definition Minute : Z := 60000000000.
Definition Hour : Z := 3600000000000.

Definition unitMap : list (string * Z) :=
  [("ns", 1); ("us", Microsecond); ("µs", Microsecond); ("μs", Microsecond); ("ms", Millisecond);
   ("s", Second); ("m", Minute); ("h", Hour)].

Definition unit_of (u : string) : option Z := snd <$> List.find (fun e => String.eqb (fst e) u) unitMap.

Definition invalid_duration (orig : string) : go_error := ErrText ("time: invalid duration " +:+ time_quote orig).

(** One round of the loop of [ParseDuration]: the value of the next number with
    its unit, and what follows it. *)
Definition parse_part (orig s : string) : res go_error (Z * string) :=
  fail_if negb (match s with String c _ => is_point c || is_digit c | EmptyString => false end)
    with invalid_duration orig ;;
  match leadingInt 0 s with
  | None => Err (invalid_duration orig)
  | Some (v, s1) =>
      let pre := negb (Nat.eqb (String.length s) (String.length s1)) in
      let '(f, scale, s2, post) :=
        match s1 with
        | String c rest =>
            if is_point c then
              let '(f, scale, s2) := leadingFraction 0 (float_of_Z 1) false rest in
              (f, scale, s2, negb (Nat.eqb (String.length rest) (String.length s2)))
            else (0, float_of_Z 1, s1, false)
        | EmptyString => (0, float_of_Z 1, s1, false)
        end in
      fail_if negb pre && negb post with invalid_duration orig ;;
      let '(u, rest) := unit_prefix s2 in
      fail_if string_is_empty u with ErrText ("time: missing unit in duration " +:+ time_quote orig) ;;
      match unit_of u with
      | None => Err (ErrText ("time: unknown unit " +:+ time_quote u +:+ " in duration " +:+ time_quote orig))
      | Some unit =>
          fail_if two63 / unit <? v with invalid_duration orig ;;
          let v := wrap_uint64 (v * unit) in
          let v := if 0 <? f
                   then wrap_uint64 (v + uint64_of_float (float_mul (float_of_Z f) (float_div (float_of_Z unit) scale)))
                   else v in
          fail_if (0 <? f) && (two63 <? v) with invalid_duration orig ;;
          Ok (v, rest)
      end
  end.

(** Each round consumes at least a digit or a point and a unit, so the length of
    the text is enough fuel. *)
Fixpoint parse_loop (fuel : nat) (orig : string) (d : Z) (s : string) : res go_error Z :=
  match s, fuel with
  | EmptyString, _ => Ok d
  | _, O => Err (invalid_duration orig)
  | _, S fuel =>
      try part <- parse_part orig s ;;
      let '(v, rest) := part in
      let d := wrap_uint64 (d + v) in
      fail_if two63 <? d with invalid_duration orig ;;
      parse_loop fuel orig d rest
  end.

Definition ParseDuration (orig : string) : res go_error Z :=
  let '(neg, s) :=
    match orig with
    | String c rest => if (byte_val c =? 45) || (byte_val c =? 43) then (byte_val c =? 45, rest) else (false, orig)
    | EmptyString => (false, orig)
    end in
  if String.eqb s "0" then Ok 0
  else
    fail_if string_is_empty s with invalid_duration orig ;;
    try d <- parse_loop (String.length s) orig 0 s ;;
    if neg then Ok (wrap_int64 (- wrap_int64 d))
    else
      fail_if two63 - 1 <? d with invalid_duration orig ;;
      Ok (wrap_int64 d).

(** ** Printing *)

Definition digit (n : Z) : string := String (Ascii.ascii_of_N (Z.to_N (n + 48))) EmptyString.

(** [fmtFrac]: the decimal fraction of [v / 10^prec] without trailing zeros, in
    front of [buf], and the integer part. [print] is set by the first digit that
    is not zero. *)
Fixpoint fmtFrac (prec : nat) (print : bool) (v : Z) (buf : string) : string * Z :=
  match prec with
  | O => ((if print then "." +:+ buf else buf), v)
  | S prec =>
      let d := v mod 10 in
      let print := print || negb (d =? 0) in
      fmtFrac prec print (v / 10) (if print then digit d +:+ buf else buf)
  end.

Definition Duration_String (d : Z) : string :=
  let u := if d <? 0 then wrap_uint64 (- d) else d in
  let body :=
    if u <? Second then
      if u =? 0 then "0s"
      else
        let '(prec, unit) :=
          if u <? Microsecond then (0%nat, "ns") else if u <? Millisecond then (3%nat, "µs") else (6%nat, "ms") in
        let '(buf, u) := fmtFrac prec false u unit in
        fmt_d u +:+ buf
    else
      let '(buf, u) := fmtFrac 9 false u "s" in
      let buf := fmt_d (u mod 60) +:+ buf in
      let u := u / 60 in
      if 0 <? u then
        let buf := fmt_d (u mod 60) +:+ "m" +:+ buf in
        let u := u / 60 in
        if 0 <? u then fmt_d u +:+ "h" +:+ buf else buf
      else buf in
  if d <? 0 then "-" +:+ body else body.

(** ** Results *)

Lemma wrap_int64_range (z : Z) : in_int64 (wrap_int64 z).
Proof.
  unfold in_int64, wrap_int64, min_int64, max_int64.
  pose proof (Z.mod_pos_bound (z + 9223372036854775808) 18446744073709551616). lia.
Qed.

(** A parsed duration fits its machine type. *)
Lemma ParseDuration_range (s : string) (d : Z) : ParseDuration s = Ok d -> in_int64 d.
Proof.
  unfold ParseDuration. destruct (match s with String _ _ => _ | EmptyString => _ end) as [neg rest].
  destruct (String.eqb rest "0"); [by intros [= <-]|].
  rewrite guard_err_ok, rbind_ok. intros (_ & v & _ & Hd).
  destruct neg; [|apply guard_err_ok in Hd as [_ Hd]]; injection Hd as <-; apply wrap_int64_range.
Qed.

(** *** The fuel of the loop is enough *)

Lemma leadingInt_length (x y : Z) (s t : string) :
  leadingInt x s = Some (y, t) -> (String.length t <= String.length s)%nat.
Proof.
  revert x. induction s as [|c s IH]; intros x; cbn; [by intros [= _ <-]|].
  destruct (is_digit c); [|intros [= _ <-]; cbn; lia].
  destruct (_ <? x); [done|]. destruct (two63 <? _); [done|]. intros Hl%IH. lia.
Qed.

Lemma leadingFraction_length (x : Z) (scale : spec_float) (overflow : bool) (s : string) :
  (String.length (snd (leadingFraction x scale overflow s)) <= String.length s)%nat.
Proof.
  revert x scale overflow. induction s as [|c s IH]; intros x scale overflow; cbn; [done|].
  destruct (is_digit c); [|done].
  destruct overflow; [|destruct (_ <? x); [|destruct (two63 <? _)]]; etrans; try apply IH; lia.
Qed.

Lemma unit_prefix_length (s u rest : string) :
  unit_prefix s = (u, rest) -> String.length s = (String.length u + String.length rest)%nat.
Proof.
  revert u rest. induction s as [|c s IH]; intros u rest; cbn; [by intros [= <- <-]|].
  destruct (_ || _); [by intros [= <- <-]|]. destruct (unit_prefix s) as [u' r'] eqn:E.
  intros [= <- <-]. cbn. by rewrite (IH _ _ eq_refl).
Qed.

Lemma parse_part_shorter (orig s rest : string) (v : Z) :
  parse_part orig s = Ok (v, rest) -> (String.length rest < String.length s)%nat.
Proof.
  unfold parse_part. rewrite guard_err_ok. intros [_ Hp].
  destruct (leadingInt 0 s) as [[w s1]|] eqn:El; [|done]. apply leadingInt_length in El.
  destruct (match s1 with String _ _ => _ | EmptyString => _ end) as [[[f scale] s2] post] eqn:E2.
  assert (Hs2 : (String.length s2 <= String.length s1)%nat).
  { destruct s1 as [|c t]; [by simplify_eq|]. destruct (is_point c); [|by simplify_eq].
    destruct (leadingFraction _ _ _ t) as [[f' scale'] t'] eqn:Ef. simplify_eq.
    pose proof (leadingFraction_length 0 (float_of_Z 1) false t) as Hf. rewrite Ef in Hf. cbn in *. lia. }
  apply guard_err_ok in Hp as [_ Hp]. destruct (unit_prefix s2) as [u r] eqn:Eu.
  apply unit_prefix_length in Eu. apply guard_err_ok in Hp as [Hu Hp].
  destruct (unit_of u); [|done]. rewrite !guard_err_ok in Hp. destruct Hp as (_ & _ & [= _ <-]).
  destruct u; [done|]. cbn in Eu. lia.
Qed.

(** Any fuel of at least the length of the text gives the same result. *)
Lemma parse_loop_fuel (n m : nat) (orig s : string) (d : Z) :
  (String.length s <= n)%nat -> (String.length s <= m)%nat -> parse_loop n orig d s = parse_loop m orig d s.
Proof.
  revert m d s. induction n as [|n IH]; intros m d s Hn Hm.
  { destruct s; [by destruct m|cbn in Hn; lia]. }
  destruct s as [|c s]; [by destruct m|]. destruct m as [|m]; [cbn in Hm; lia|]. cbn [parse_loop].
  destruct (parse_part orig (String c s)) as [[v rest]|] eqn:Ep; [|done]. cbn [rbind].
  apply parse_part_shorter in Ep. unfold guard_err. destruct (two63 <? _); [done|]. apply IH; cbn in *; lia.
Qed.
