(* ===== verification/Handlers.v ===== *)
(** * Task handlers and their registry

    Models [src/internal/execution/handler.go]: the registry that maps handler
    names to handlers and the three demo handlers. The registry's lock makes each
    of its methods a function on its content. *)
From S2P Require Import Prelude Workflow Errors Graph Run Broker Engine Duration.

(** ** Case mapping *)

(** [unicode.ToUpper] beyond ASCII. *)
Class UnicodeCase := to_upper_wide : Z -> Z.

Definition to_upper `{UnicodeCase} (r : Z) : Z :=
  if r <? 128 then (if in_range 97 122 r then r - 32 else r) else to_upper_wide r.

(** [utf8.AppendRune] on a valid rune. *)
Definition encode_rune (r : Z) : string :=
  if r <? 128 then byte_string r
  else if r <? 2048 then byte_string (192 + r / 64) +:+ byte_string (128 + r mod 64)
  else if r <? 65536
       then byte_string (224 + r / 4096) +:+ byte_string (128 + r / 64 mod 64) +:+ byte_string (128 + r mod 64)
       else byte_string (240 + r / 262144) +:+ byte_string (128 + r / 4096 mod 64)
            +:+ byte_string (128 + r / 64 mod 64) +:+ byte_string (128 + r mod 64).

(** [strings.ToUpper]; its fast path for ASCII text computes the same string. *)
Definition ToUpper `{UnicodeCase} (s : string) : string :=
  foldr (fun '(r, _) out => encode_rune (to_upper r) +:+ out) EmptyString (runes s).

(** ** Handlers *)

Record TaskRequest := mkTaskRequest {
  treq_RunID : string;
  treq_TaskRunID : string;
  treq_AttemptID : string;
  treq_Task : TaskDefinition
}.

(** A value of the interface [TaskHandler]. [HandlerTypedNil] is a non-nil
    interface around a nil pointer, function, map, slice or channel. *)
Inductive TaskHandler :=
| HandlerNil
| HandlerTypedNil
| NoopHandler
| DelayHandler
| UppercaseHandler
| TaskHandlerFunc (execute : context -> TaskRequest -> string * option go_error).

Definition NoopHandlerName : string := "noop".
Definition DelayHandlerName : string := "delay".
Definition UppercaseHandlerName : string := "uppercase".

Definition isNilHandler (handler : TaskHandler) : bool :=
  match handler with
  | HandlerNil | HandlerTypedNil => true
  | _ => false
  end.

Section Execute.
Context `{Unicode} `{UnicodeCase}.

Definition execute_noop (ctx : context) : string * option go_error :=
  match ctx_err ctx with
  | Some err => ("", Some err)
  | None => ("", None)
  end.

(** [woken] is the case that [select] takes: the context is done with an error, or
    the timer fires. *)
Definition execute_delay (woken : option go_error) (request : TaskRequest) : string * option go_error :=
  match ParseDuration (trim_space (td_Input (treq_Task request))) with
  | Err err => ("", Some (wrapf ("parse delay for task " +:+ quote (td_ID (treq_Task request))) err))
  | Ok duration =>
      if duration <? 0
      then ("", Some (ErrText ("delay for task " +:+ quote (td_ID (treq_Task request)) +:+ " must not be negative")))
      else
        match woken with
        | Some err => ("", Some err)
        | None => (td_Input (treq_Task request), None)
        end
  end.

Definition execute_uppercase (ctx : context) (request : TaskRequest) : string * option go_error :=
  match ctx_err ctx with
  | Some err => ("", Some err)
  | None => (ToUpper (td_Input (treq_Task request)), None)
  end.

(** [Execute] of the value behind the interface; calling it on a nil one panics. *)
Definition handler_Execute (handler : TaskHandler) (ctx : context) (woken : option go_error) (request : TaskRequest)
  : option (string * option go_error) :=
  match handler with
  | HandlerNil | HandlerTypedNil => None
  | NoopHandler => Some (execute_noop ctx)
  | DelayHandler => Some (execute_delay woken request)
  | UppercaseHandler => Some (execute_uppercase ctx request)
  | TaskHandlerFunc execute => Some (execute ctx request)
  end.
End Execute.

(** ** The registry *)

Definition HandlerRegistry : Type := gmap string TaskHandler.

Definition NewHandlerRegistry : HandlerRegistry := ∅.

Definition Register (registry : HandlerRegistry) (name : string) (handler : TaskHandler)
  : res go_error HandlerRegistry :=
  fail_if negb (validIdentifier name)
    with HandlerRegistrationError name
           "handler names must be non-empty and contain no whitespace or control characters" ;;
  fail_if isNilHandler handler with HandlerRegistrationError name "handler must not be nil" ;;
  fail_if bool_decide (is_Some (registry !! name))
    with HandlerRegistrationError name "handler is already registered" ;;
  Ok (<[name := handler]> registry).

Definition registry_Handler (registry : HandlerRegistry) (name : string) : option TaskHandler := registry !! name.

Definition NewDemoHandlerRegistry `{Unicode} : res go_error HandlerRegistry :=
  foldM (fun registry '(name, handler) =>
      rmap_err (wrapf "register demo handler") (Register registry name handler))
    NewHandlerRegistry
    [(NoopHandlerName, NoopHandler); (DelayHandlerName, DelayHandler); (UppercaseHandlerName, UppercaseHandler)].

(** ** What holds of a registry *)

(** Every registered name is an identifier and every handler can be called. *)
Definition registry_ok (registry : HandlerRegistry) : Prop :=
  map_Forall (fun name handler => validIdentifier name = true /\ isNilHandler handler = false) registry.

Lemma Register_ok registry registry' name handler :
  Register registry name handler = Ok registry' ->
  validIdentifier name = true /\ isNilHandler handler = false /\ registry !! name = None /\
  registry' = <[name := handler]> registry.
Proof.
  unfold Register. rewrite !guard_err_ok, negb_false_iff, bool_decide_eq_false.
  intros (Hn & Hh & Hx & [= <-]). split_and!; try done. by destruct (registry !! name) eqn:E; [destruct Hx|].
Qed.

(** The registries that calls of [Register] can build. *)
Inductive registered : HandlerRegistry -> HandlerRegistry -> Prop :=
| registered_refl registry : registered registry registry
| registered_call registry registry1 registry2 name handler :
    registered registry registry1 -> Register registry1 name handler = Ok registry2 ->
    registered registry registry2.

Lemma registered_ok registry registry' : registered registry registry' -> registry_ok registry -> registry_ok registry'.
Proof.
  induction 1 as [|r0 r1 r2 name handler _ IH Hr]; [done|]. intros Hok.
  apply Register_ok in Hr as (? & ? & _ & ->). apply map_Forall_insert_2; [done|by apply IH].
Qed.

(** A registration is never replaced or removed, and what is registered can be
    called. *)
Theorem registration_permanent `{Unicode} `{UnicodeCase} registry name handler :
  registered NewHandlerRegistry registry -> registry_Handler registry name = Some handler ->
  (forall registry', registered registry registry' -> registry_Handler registry' name = Some handler) /\
  forall ctx woken request, is_Some (handler_Execute handler ctx woken request).
Proof.
  intros Hreg Hh. split.
  - induction 1 as [|r0 r1 r2 n h _ IH Hr]; [done|]. apply Register_ok in Hr as (_ & _ & Hfree & ->).
    unfold registry_Handler in *.
    specialize (IH Hreg Hh). rewrite (lookup_insert_ne r1); [done|congruence].
  - intros ctx woken request. destruct (registered_ok _ _ Hreg (map_Forall_empty _) name handler Hh) as [_ Hnil].
    by destruct handler.
Qed.

(** The demo registry always exists, with its three handlers. *)
Lemma demo_registry `{Unicode} :
  NewDemoHandlerRegistry =
  Ok (<[UppercaseHandlerName := UppercaseHandler]> (<[DelayHandlerName := DelayHandler]>
     (<[NoopHandlerName := NoopHandler]> ∅))).
Proof. reflexivity. Qed.
