(* ===== verification/Options.v ===== *)
(** * Engine options

    Models [src/internal/execution/options.go] and [NewEngine] of
    [src/internal/execution/engine.go]. An interface or pointer that may be nil is
    an [option]. *)
From S2P Require Import Prelude Workflow Errors Graph Run RunStep Broker Engine Duration Handlers.

Definition defaultLeaseDuration : Z := 30 * Second.
Definition defaultHeartbeatInterval : Z := 10 * Second.

(** [Clock] is the sequence of readings; instrumentation has no state here. *)
Record engineConfig := mkOptions {
  ec_clock : option (nat -> Z);
  ec_leaseDuration : Z;
  ec_heartbeatInterval : Z;
  ec_workerNamespace : string;
  ec_taskBroker : option InMemoryBroker;
  ec_instrumentation : option unit
}.

(** An option changes the configuration or fails. *)
Definition EngineOption : Type := engineConfig -> res go_error engineConfig.

Definition WithInstrumentation (instrumentation : option unit) : EngineOption := fun config =>
  match instrumentation with
  | None => Err (ErrText "instrumentation must not be nil")
  | Some _ =>
      Ok (mkOptions (ec_clock config) (ec_leaseDuration config) (ec_heartbeatInterval config)
            (ec_workerNamespace config) (ec_taskBroker config) instrumentation)
  end.

Definition WithBroker (taskBroker : option InMemoryBroker) : EngineOption := fun config =>
  match taskBroker with
  | None => Err (ErrText "task broker must not be nil")
  | Some _ =>
      Ok (mkOptions (ec_clock config) (ec_leaseDuration config) (ec_heartbeatInterval config)
            (ec_workerNamespace config) taskBroker (ec_instrumentation config))
  end.

Definition WithClock (clock : option (nat -> Z)) : EngineOption := fun config =>
  match clock with
  | None => Err (ErrText "clock must not be nil")
  | Some _ =>
      Ok (mkOptions clock (ec_leaseDuration config) (ec_heartbeatInterval config)
            (ec_workerNamespace config) (ec_taskBroker config) (ec_instrumentation config))
  end.

Definition WithLeaseTiming (leaseDuration heartbeatInterval : Z) : EngineOption := fun config =>
  Ok (mkOptions (ec_clock config) leaseDuration heartbeatInterval
        (ec_workerNamespace config) (ec_taskBroker config) (ec_instrumentation config)).

(** [Engine]; [St] is the type of its store. *)
Record engine (St : Type) := mkEngine {
  en_workerCount : Z;
  en_registry : HandlerRegistry;
  en_store : St;
  en_config : engineConfig
}.
Arguments mkEngine {St} _ _ _ _.
Arguments en_workerCount {St} _.
Arguments en_registry {St} _.
Arguments en_store {St} _.
Arguments en_config {St} _.

Section Options.
Context `{Unicode}.

Definition WithWorkerNamespace (namespace : string) : EngineOption := fun config =>
  fail_if negb (validIdentifier namespace) with ErrText ("worker namespace " +:+ quote namespace +:+ " is invalid") ;;
  Ok (mkOptions (ec_clock config) (ec_leaseDuration config) (ec_heartbeatInterval config)
        namespace (ec_taskBroker config) (ec_instrumentation config)).

(** [hex.EncodeToString]. *)
Definition hex_string (bytes : list Z) : string :=
  foldr (fun b out => String (hex_digit (b / 16)) (String (hex_digit (b mod 16)) out)) EmptyString bytes.

(** [random] is the answer of [rand.Read] for eight bytes, [clock] the readings of
    [systemClock]. *)
Definition defaultEngineConfig (random : res go_error (list Z)) (clock : nat -> Z) : res go_error engineConfig :=
  try namespaceBytes <- rmap_err (wrapf "generate worker namespace") random ;;
  Ok (mkOptions (Some clock) defaultLeaseDuration defaultHeartbeatInterval
        ("local-" +:+ hex_string namespaceBytes) (Some NewInMemoryBroker) (Some tt)).

Definition validate (config : engineConfig) : res go_error unit :=
  fail_if bool_decide (ec_clock config = None) with ErrText "clock must not be nil" ;;
  fail_if ec_leaseDuration config <=? 0 with ErrText "lease duration must be positive" ;;
  fail_if ec_heartbeatInterval config <=? 0 with ErrText "heartbeat interval must be positive" ;;
  fail_if ec_leaseDuration config <=? ec_heartbeatInterval config
    with ErrText "heartbeat interval must be shorter than lease duration" ;;
  fail_if negb (validIdentifier (ec_workerNamespace config)) with ErrText "worker namespace is invalid" ;;
  fail_if bool_decide (ec_taskBroker config = None) with ErrText "task broker must not be nil" ;;
  fail_if bool_decide (ec_instrumentation config = None) with ErrText "instrumentation must not be nil" ;;
  Ok tt.

Definition config_error (workerCount : Z) (err : go_error) : go_error :=
  InvalidEngineConfigError workerCount (error_string err).

Definition apply_option (workerCount : Z) (config : engineConfig) (o : option EngineOption)
  : res go_error engineConfig :=
  match o with
  | None => Err (InvalidEngineConfigError workerCount "engine option must not be nil")
  | Some apply => rmap_err (config_error workerCount) (apply config)
  end.

Definition NewEngine {St : Type} (random : res go_error (list Z)) (clock : nat -> Z) (workerCount : Z)
    (registry : option HandlerRegistry) (store : option St) (options : list (option EngineOption))
  : res go_error (engine St) :=
  fail_if workerCount <? 1 with InvalidEngineConfigError workerCount "worker count must be at least one" ;;
  match registry, store with
  | None, _ => Err (InvalidEngineConfigError workerCount "handler registry must not be nil")
  | _, None => Err (InvalidEngineConfigError workerCount "store must not be nil")
  | Some registry, Some store =>
      try config <- rmap_err (config_error workerCount) (defaultEngineConfig random clock) ;;
      try config <- foldM (apply_option workerCount) config options ;;
      try _ <- rmap_err (config_error workerCount) (validate config) ;;
      Ok (mkEngine workerCount registry store config)
  end.
End Options.

(** ** What a configured engine guarantees *)

Section Configured.
Context `{Unicode} {St : Type}.

Lemma NewEngine_ok random clock workerCount registry store options (e : engine St) :
  NewEngine random clock workerCount registry store options = Ok e ->
  1 <= en_workerCount e /\ 0 < ec_heartbeatInterval (en_config e) < ec_leaseDuration (en_config e) /\
  validIdentifier (ec_workerNamespace (en_config e)) = true /\
  Some (en_registry e) = registry /\ Some (en_store e) = store.
Proof.
  unfold NewEngine. rewrite guard_err_ok. intros [Hw He]. destruct registry as [registry|], store as [store|]; try done.
  apply rbind_ok in He as (c0 & _ & He). apply rbind_ok in He as (config & _ & He).
  apply rbind_ok in He as ([] & Hv & [= <-]). unfold validate in Hv. apply rmap_err_ok in Hv.
  rewrite !guard_err_ok, negb_false_iff in Hv. destruct Hv as (_ & ? & ? & ? & ? & _). cbn. split_and!; try done; lia.
Qed.

(** The run while the worker [w] sends its heartbeats on time: other workers may
    send theirs, and expired leases are recovered at any time. [last] is when [w]
    was last heard of. *)
Inductive attended (config : engineConfig) (w : string) (r : WorkflowRun) (last : Z) : WorkflowRun -> Z -> Prop :=
| attended_now : attended config w r last r last
| attended_heartbeat r1 last1 r2 now :
    attended config w r last r1 last1 -> nextTimestamp r1 now <= last1 + ec_heartbeatInterval config ->
    recordWorkerHeartbeat r1 now w (ec_leaseDuration config) = Ok r2 ->
    attended config w r last r2 (nextTimestamp r1 now)
| attended_other r1 last1 r2 now other :
    attended config w r last r1 last1 -> other <> w ->
    recordWorkerHeartbeat r1 now other (ec_leaseDuration config) = Ok r2 ->
    attended config w r last r2 last1
| attended_recovery r1 last1 now :
    attended config w r last r1 last1 -> nextTimestamp r1 now <= last1 + ec_heartbeatInterval config ->
    attended config w r last (fst (recoverExpiredLeases r1 now)) last1.

(** The task is running under the given attempt of the worker, with a lease that
    lasts longer than the heartbeat interval. *)
Definition held_by (config : engineConfig) (w attemptID : string) (last : Z) (t : TaskRun) : Prop :=
  tr_Status t = TaskRunRunning /\ tr_CurrentAttemptID t = attemptID /\
  exists lease, tr_Lease t = Some lease /\ lease_WorkerID lease = w /\ lease_AttemptID lease = attemptID /\
                last + ec_heartbeatInterval config < lease_ExpiresAt lease.

Lemma heartbeat_held (config : engineConfig) w worker attemptID last r r' now k t :
  ec_heartbeatInterval config < ec_leaseDuration config ->
  recordWorkerHeartbeat r now worker (ec_leaseDuration config) = Ok r' ->
  run_tasks r !! k = Some t -> held_by config w attemptID last t ->
  (worker = w -> nextTimestamp r now <= last + ec_heartbeatInterval config) ->
  exists t', run_tasks r' !! k = Some t' /\
             held_by config w attemptID (if decide (worker = w) then nextTimestamp r now else last) t'.
Proof.
  intros Hcfg Hr Hk (Hs & Ha & lease & Hl & Hw & Hla & Hexp) Htime. unfold recordWorkerHeartbeat in Hr.
  apply rbind_ok in Hr as (_ & _ & [= <-]). cbn [run_tasks with_tasks]. rewrite lookup_range_map, Hk. cbn.
  unfold heartbeat_task. rewrite Hs, Hl, Hw. case_decide as Hcase.
  - subst worker. rewrite String.eqb_refl. cbn [negb].
    assert (Hb : time_before (nextTimestamp r now) (lease_ExpiresAt lease) = true)
      by (unfold time_before; specialize (Htime eq_refl); lia).
    rewrite Hb. cbn [negb default]. eexists. split; [done|]. split; [done|]. split; [done|].
    eexists. split; [done|]. cbn. split_and!; [done|done|]. unfold time_add. lia.
  - destruct (String.eqb_spec w worker); [congruence|]. cbn. exists t. split; [done|]. split_and!; eauto 6.
Qed.

Lemma recovery_held (config : engineConfig) w attemptID last r now k t :
  run_tasks r !! k = Some t -> held_by config w attemptID last t ->
  nextTimestamp r now <= last + ec_heartbeatInterval config ->
  run_tasks (fst (recoverExpiredLeases r now)) !! k = Some t.
Proof.
  intros Hk (Hs & _ & lease & Hl & _ & _ & Hexp) Htime. unfold recoverExpiredLeases. cbn [fst run_tasks with_tasks].
  rewrite lookup_range_map, Hk. cbn. unfold recover_task, lease_lapsed. rewrite Hs, Hl.
  assert (Hb : time_before (nextTimestamp r now) (lease_ExpiresAt lease) = true) by (unfold time_before; lia).
  by rewrite Hb.
Qed.

(** In every engine that [NewEngine] accepts, a worker that sends a heartbeat
    at least every heartbeat interval keeps its task: whatever the other workers
    send and however often expired leases are recovered, the task stays running
    under the same attempt, with a lease that outlasts the next interval. *)
Theorem punctual_worker_keeps_task random clock workerCount registry store options (e : engine St) w r last r' last' k t :
  NewEngine random clock workerCount registry store options = Ok e ->
  attended (en_config e) w r last r' last' ->
  run_tasks r !! k = Some t -> held_by (en_config e) w (tr_CurrentAttemptID t) last t ->
  exists t', run_tasks r' !! k = Some t' /\ held_by (en_config e) w (tr_CurrentAttemptID t) last' t'.
Proof.
  intros (_ & [_ Hcfg] & _)%NewEngine_ok Hatt Hk Ht.
  induction Hatt as [|r1 last1 r2 now _ IH Htime Hr|r1 last1 r2 now other _ IH Hne Hr|r1 last1 now _ IH Htime];
    [eauto|..]; destruct IH as (t1 & Hk1 & Ht1).
  - destruct (heartbeat_held _ _ _ _ _ _ _ _ _ _ Hcfg Hr Hk1 Ht1) as (t2 & Hk2 & Ht2); [done|].
    rewrite decide_True in Ht2 by done. eauto.
  - destruct (heartbeat_held _ _ _ _ _ _ _ _ _ _ Hcfg Hr Hk1 Ht1) as (t2 & Hk2 & Ht2); [done|].
    rewrite decide_False in Ht2 by done. eauto.
  - exists t1. split; [|done]. by eapply recovery_held.
Qed.
End Configured.
