(* ===== verification/Heartbeats.v ===== *)
(** * Timers and heartbeats

    Models [src/internal/execution/clock.go] and [emitHeartbeats] of
    [src/internal/execution/engine.go]: the goroutine that sends the heartbeats of a
    worker, and the time between two of them as the scheduler records them. The time
    that each part takes beyond its turn is bounded by an argument. *)
From S2P Require Import Prelude Workflow Heap Graph GraphBuild GraphOrder Errors Run Ids RunStep Duration Handlers Options.

(** ** Timers *)

(** A timer of the system clock: when it fires, and whether it was stopped. *)
Record Timer := mkTimer {
  tm_deadline : Z;
  tm_stopped : bool
}.

Definition NewTimer (now duration : Z) : Timer := mkTimer (time_add now duration) false.

Definition timer_Stop (t : Timer) : Timer := mkTimer (tm_deadline t) true.

(** Whether [C()] can be received from. *)
Definition timer_fired (now : Z) (t : Timer) : bool := negb (tm_stopped t) && (tm_deadline t <=? now).

(** ** [emitHeartbeats] *)

(** Where the goroutine is: in its first [select], in its second one since the timer
    was received, and after it has returned. *)
Inductive emitter :=
| EmTimer (timer : Timer)
| EmSend (since : Z)
| EmReturned.

(** The case that a [select] takes. *)
Inductive emitter_case :=
| CaseDone
| CaseTimer
| CaseSend.

Definition emitHeartbeats (interval now : Z) : emitter := EmTimer (NewTimer now interval).

(** One [select], and whether it has sent a heartbeat. [done] says whether the context
    is done, [room] whether the channel takes another event. *)
Definition emit_step (interval now : Z) (done room : bool) (c : emitter_case) (e : emitter) : option (emitter * bool) :=
  match e, c with
  | EmTimer _, CaseDone | EmSend _, CaseDone => if done then Some (EmReturned, false) else None
  | EmTimer timer, CaseTimer => if timer_fired now timer then Some (EmSend now, false) else None
  | EmSend _, CaseSend => if room then Some (emitHeartbeats interval now, true) else None
  | _, _ => None
  end.

(** ** A worker and its heartbeats *)

(** The clock, the run, the goroutine of the worker [w], and when the heartbeats of
    [w] that wait in the channel were sent. *)
Record attendance := mkAttendance {
  at_now : Z;
  at_run : WorkflowRun;
  at_emitter : emitter;
  at_waiting : list Z
}.

Section Heartbeats.
Context `{Unicode} (interval leaseDuration lag : Z) (w : string).

(** Nothing is more than [lag] late: the goroutine goes on at most [lag] after its
    timer has fired and sends at most [lag] later, and the scheduler takes a heartbeat
    from the channel at most [lag] after it was sent. *)
Definition prompt (now : Z) (e : emitter) (waiting : list Z) : Prop :=
  match e with
  | EmTimer timer => now <= tm_deadline timer + lag
  | EmSend since => now <= since + lag
  | EmReturned => True
  end /\ Forall (fun sent => now <= sent + lag) waiting.

(** A step while the worker's context is live: time passes, the goroutine goes on, the
    worker sends its first heartbeat, the scheduler records the oldest heartbeat of
    the worker, or it does something else that is [allowed]. *)
Inductive tended (allowed : run_op -> Prop) : attendance -> attendance -> Prop :=
| td_time now now' r e waiting :
    now <= now' -> prompt now' e waiting ->
    tended allowed (mkAttendance now r e waiting) (mkAttendance now' r e waiting)
| td_emit now r e e' c room sent waiting :
    emit_step interval now false room c e = Some (e', sent) ->
    tended allowed (mkAttendance now r e waiting)
      (mkAttendance now r e' (if sent then waiting ++ [now] else waiting))
| td_first now r e waiting :
    tended allowed (mkAttendance now r e waiting) (mkAttendance now r e (waiting ++ [now]))
| td_record now r e sent waiting :
    tended allowed (mkAttendance now r e (sent :: waiting))
      (mkAttendance now (exec r now (OpHeartbeat w leaseDuration)) e waiting)
| td_other now r e waiting op :
    allowed op ->
    tended allowed (mkAttendance now r e waiting) (mkAttendance now (exec r now op) e waiting).

(** Whatever the scheduler does other than to settle the task [k] or to cancel the
    run. *)
Definition spares (k : string) (op : run_op) : Prop :=
  match op with
  | OpTask taskID _ _ _ | OpComplete taskID _ _ _ _ _ => taskID <> k
  | OpCancel _ => False
  | OpHeartbeat workerID _ => workerID <> w
  | _ => True
  end.

(** *** Heartbeats are spaced *)

(** After [last], the next heartbeat is sent at most an interval and two lags later,
    and so on through the channel to the one that the goroutine will send. *)
Fixpoint spaced (last : Z) (waiting : list Z) (e : emitter) : Prop :=
  match waiting with
  | sent :: rest => sent <= last + interval + 2 * lag /\ spaced sent rest e
  | [] =>
      match e with
      | EmTimer timer => tm_stopped timer = false /\ tm_deadline timer <= last + interval
      | EmSend since => since <= last + interval + lag
      | EmReturned => False
      end
  end.

Lemma spaced_later (last last' : Z) (waiting : list Z) (e : emitter) :
  last <= last' -> spaced last waiting e -> spaced last' waiting e.
Proof. intros Hl. destruct waiting; cbn; [destruct e; lia || naive_solver lia|naive_solver lia]. Qed.

(** A step of the goroutine, seen from the last heartbeat before it. *)
Lemma spaced_emitter (last now : Z) (waiting more : list Z) (e e' : emitter) :
  (forall from, from <= now -> spaced from [] e -> spaced from more e') ->
  last <= now -> Forall (fun sent => sent <= now) waiting ->
  spaced last waiting e -> spaced last (waiting ++ more) e'.
Proof.
  intros He. revert last. induction waiting as [|sent rest IH]; intros last Hl Hw; [by apply He|].
  apply Forall_cons in Hw as [Hsent Hw]. intros [Hs Hr]. split; [done|]. by apply IH.
Qed.

(** So the scheduler hears of the worker within an interval and three lags. *)
Lemma spaced_heard (last now : Z) (waiting : list Z) (e : emitter) :
  0 <= lag -> spaced last waiting e -> prompt now e waiting -> now <= last + interval + 3 * lag.
Proof.
  intros Hlag Hs [He Hw]. destruct waiting as [|sent rest]; cbn in Hs.
  - destruct e; [destruct Hs|..]; lia || done.
  - apply Forall_cons in Hw as [Hw _]. lia.
Qed.

(** *** The state of an attendance *)

Record timely (last : Z) (a : attendance) : Prop := {
  ti_prompt : prompt (at_now a) (at_emitter a) (at_waiting a);
  ti_spaced : spaced last (at_waiting a) (at_emitter a);
  ti_sent : Forall (fun sent => sent <= at_now a) (at_waiting a);
  ti_updated : run_updatedAt (at_run a) <= at_now a;
  ti_last : last <= at_now a
}.

(** When the scheduler has last heard of the worker. *)
Definition heard (last : Z) (a a' : attendance) : Z :=
  if decide (length (at_waiting a') < length (at_waiting a))%nat then at_now a' else last.

Lemma exec_updated (r : WorkflowRun) (now : Z) (op : run_op) :
  run_updatedAt r <= now -> run_updatedAt (exec r now op) <= now.
Proof.
  intros Hu. destruct (exec_frame r now op) as (_ & _ & _ & [->| ->] & _); [done|].
  unfold nextTimestamp, time_before. destruct (Z.ltb_spec now (run_updatedAt r)); lia.
Qed.

Lemma prompt_emit (now : Z) (e e' : emitter) (c : emitter_case) (room sent : bool) (waiting : list Z) :
  0 <= lag -> 0 <= interval -> emit_step interval now false room c e = Some (e', sent) ->
  prompt now e waiting -> prompt now e' (if sent then waiting ++ [now] else waiting).
Proof.
  intros Hlag Hint He [Hp Hw]. destruct e as [timer|since|], c; try done; cbn in He.
  - destruct (timer_fired now timer); [|done]. simplify_eq. split; [lia|done].
  - destruct room; [|done]. simplify_eq. split; [cbn; unfold time_add; lia|].
    apply Forall_app. split; [done|]. apply Forall_singleton. lia.
Qed.

Lemma spaced_emit (last now : Z) (e e' : emitter) (c : emitter_case) (room sent : bool) (waiting : list Z) :
  emit_step interval now false room c e = Some (e', sent) -> prompt now e waiting ->
  last <= now -> Forall (fun sent => sent <= now) waiting -> spaced last waiting e -> spaced last (if sent then waiting ++ [now] else waiting) e'.
Proof.
  intros He [Hp _]. destruct e as [timer|since|], c; try done; cbn in He.
  - destruct (timer_fired now timer); [|done]. simplify_eq. intros Hl Hw Hs. rewrite <- (app_nil_r waiting).
    revert Hl Hw Hs. apply spaced_emitter. cbn. intros from _ [_ Hd]. lia.
  - destruct room; [|done]. simplify_eq. apply spaced_emitter. cbn. unfold time_add. intros from _ Hs. lia.
Qed.

Lemma timely_step (allowed : run_op -> Prop) (last : Z) (a a' : attendance) :
  0 <= lag -> 0 <= interval -> timely last a -> tended allowed a a' -> timely (heard last a a') a'.
Proof.
  intros Hlag Hint [Hp Hs Hw Hu Hl] Hstep. unfold heard.
  destruct Hstep as [now now' r e waiting Hle Hp'|now r e e' c room sent waiting He|now r e waiting
    |now r e sent waiting|now r e waiting op Hop]; cbn [at_now at_run at_emitter at_waiting] in *.
  - rewrite decide_False by lia. split; cbn; [done|done| |lia|lia]. eapply Forall_impl; [done|]. cbn. lia.
  - rewrite decide_False by (destruct sent; rewrite ?length_app; lia).
    split; cbn; [by eapply prompt_emit|by eapply spaced_emit| |done|done].
    destruct sent; [|done]. apply Forall_app. split; [done|]. by apply Forall_singleton.
  - rewrite decide_False by (rewrite length_app; lia). destruct Hp as [He Hf].
    split; cbn; [split; [done|apply Forall_app; split; [done|apply Forall_singleton; lia]]| | |done|done].
    + eapply (spaced_emitter _ now); [|done..]. cbn. intros from Hfrom.
      destruct e as [timer|since|]; [intros [Hst Hd]|intros Hd|done]; split_and!; try done; lia.
    + apply Forall_app. split; [done|]. by apply Forall_singleton.
  - rewrite decide_True by (cbn; lia). destruct Hp as [He Hf]. apply Forall_cons in Hf as [_ Hf], Hw as [Hsent Hw].
    split; cbn [at_now at_run at_emitter at_waiting]; [done| |done|by apply exec_updated|lia].
    cbn in Hs. eapply spaced_later; [exact Hsent|apply Hs].
  - rewrite decide_False by lia. split; cbn [at_now at_run at_emitter at_waiting]; [done..|by apply exec_updated|done].
Qed.

(** The task [k] runs under the attempt of the worker, and its lease lasts at least
    its full duration from [last] on. *)
Definition leased (k attemptID : string) (last : Z) (r : WorkflowRun) : Prop :=
  exists t lease, run_tasks r !! k = Some t /\ tr_Status t = TaskRunRunning /\ tr_CurrentAttemptID t = attemptID /\
    tr_Lease t = Some lease /\ lease_WorkerID lease = w /\ lease_AttemptID lease = attemptID /\
    last + leaseDuration <= lease_ExpiresAt lease.

Lemma next_now (r : WorkflowRun) (now : Z) : run_updatedAt r <= now -> nextTimestamp r now = now.
Proof. unfold nextTimestamp, time_before. intros Hu. destruct (Z.ltb_spec now (run_updatedAt r)); lia. Qed.

(** A heartbeat of the worker renews the lease that has not run out. *)
Lemma leased_record (k attemptID : string) (last now : Z) (r : WorkflowRun) :
  check_worker w leaseDuration = Ok tt -> run_updatedAt r <= now -> now < last + leaseDuration ->
  leased k attemptID last r -> leased k attemptID now (exec r now (OpHeartbeat w leaseDuration)).
Proof.
  intros Hc Hu Hnow (t & lease & Hk & Hs & Ha & Hl & Hw & Hla & Hexp).
  cbn [exec]. unfold recordWorkerHeartbeat. rewrite Hc. cbn [rbind]. rewrite (next_now r now Hu).
  unfold leased. cbn [run_tasks with_tasks]. rewrite lookup_range_map, Hk. cbn [fmap option_fmap option_map].
  unfold heartbeat_task. rewrite Hs, Hl, Hw, String.eqb_refl. cbn [negb].
  assert (time_before now (lease_ExpiresAt lease) = true) as -> by (unfold time_before; lia). cbn [negb default].
  eexists _, _. split_and!; cbn; unfold time_add; done || lia.
Qed.

(** Nothing else that is allowed touches the task. *)
Lemma leased_other (k attemptID : string) (last now : Z) (r : WorkflowRun) (op : run_op) :
  spares k op -> run_updatedAt r <= now -> now < last + leaseDuration ->
  leased k attemptID last r -> leased k attemptID last (exec r now op).
Proof.
  intros Hop Hu Hnow (t & lease & Hk & Hs & Ha & Hl & Hw & Hla & Hexp).
  pose proof (exec_tasks r now op k) as Ht. rewrite Hk, (next_now r now Hu) in Ht. destruct Ht as (t' & Hk' & Ht).
  assert (t' = t) as ->; [|by exists t, lease].
  assert (time_before now (lease_ExpiresAt lease) = true) as Hb by (unfold time_before; lia).
  destruct Ht as [->|[Hchange _]]; [done|].
  destruct Hchange as [| |? ? ? ? ? Hh|? ? ? ? ? Hr| | |? ? ? Hr|? ? Hp]; cbn in Hop; try done.
  - unfold heartbeat_task in Hh. rewrite Hs, Hl, Hw in Hh. by destruct (String.eqb_spec w workerID).
  - congruence.
  - unfold recover_task, lease_lapsed in Hr. by rewrite Hs, Hl, Hb in Hr.
  - unfold promote_task in Hp. by rewrite Hs in Hp.
Qed.

Lemma leased_step (k attemptID : string) (last : Z) (a a' : attendance) :
  0 <= lag -> interval + 3 * lag < leaseDuration -> check_worker w leaseDuration = Ok tt -> timely last a ->
  tended (spares k) a a' -> leased k attemptID last (at_run a) -> leased k attemptID (heard last a a') (at_run a').
Proof.
  intros Hlag Hroom Hc Hti Hstep. pose proof (spaced_heard _ _ _ _ Hlag (ti_spaced _ _ Hti) (ti_prompt _ _ Hti)) as Hnow.
  pose proof (ti_updated _ _ Hti) as Hu. unfold heard.
  destruct Hstep as [now now' r e waiting Hle Hp'|now r e e' c room sent waiting He|now r e waiting
    |now r e sent waiting|now r e waiting op Hop]; cbn [at_now at_run at_emitter at_waiting] in *.
  - by rewrite decide_False by lia.
  - by rewrite decide_False by (destruct sent; rewrite ?length_app; lia).
  - by rewrite decide_False by (rewrite length_app; lia).
  - rewrite decide_True by (cbn; lia). apply leased_record; [done|done|lia].
  - rewrite decide_False by lia. apply leased_other; [done|done|lia].
Qed.

Lemma leased_steps (k attemptID : string) (last : Z) (a a' : attendance) :
  0 <= lag -> 0 <= interval -> interval + 3 * lag < leaseDuration -> check_worker w leaseDuration = Ok tt ->
  rtc (tended (spares k)) a a' -> timely last a -> leased k attemptID last (at_run a) ->
  exists last', timely last' a' /\ leased k attemptID last' (at_run a').
Proof.
  intros Hlag Hint Hroom Hc Hsteps. revert last. induction Hsteps as [|a a1 a' Hstep _ IH]; intros last Hti Hl; [eauto|].
  apply (IH (heard last a a1)); [by eapply timely_step|by eapply leased_step].
Qed.

(** Before the task is leased, the last heartbeat may be long ago. *)
Lemma timely_steps (a a' : attendance) :
  0 <= lag -> 0 <= interval -> rtc (tended (fun _ => True)) a a' -> timely (at_now a) a -> timely (at_now a') a'.
Proof.
  intros Hlag Hint Hsteps. induction Hsteps as [|a a1 a' Hstep _ IH]; [done|]. intros Hti. apply IH.
  destruct (timely_step _ _ _ _ Hlag Hint Hti Hstep) as [? Hs ? ? Hl]. split; [done| |done..].
  by eapply spaced_later.
Qed.
End Heartbeats.

(** ** A worker keeps its task *)

Section Keeps.
Context `{Unicode} {St : Type}.

(** C14: the heartbeats of a worker keep its task. In every engine that [NewEngine]
    accepts, take a worker from its start: its goroutine sends heartbeats, the
    scheduler records them and does whatever else it does, and at some time it leases
    a task to the worker. If no part of this is ever more than [lag] late, and three
    lags fit between the heartbeat interval and the lease duration, then until the
    task is settled or the run canceled the task runs under the same attempt, and its
    lease has not run out, so that it is never recovered from a live worker. *)
Theorem heartbeats_keep_task random clock workerCount registry store options (e : engine St)
    (w k attemptID : string) (lag now : Z) (r r' : WorkflowRun) (a a' : attendance) :
  NewEngine random clock workerCount registry store options = Ok e ->
  let interval := ec_heartbeatInterval (en_config e) in
  let leaseDuration := ec_leaseDuration (en_config e) in
  0 <= lag -> interval + 3 * lag < leaseDuration -> run_updatedAt r <= now ->
  rtc (tended interval leaseDuration lag w (fun _ => True)) (mkAttendance now r (emitHeartbeats interval now) []) a ->
  startTaskAttempt (at_run a) (at_now a) k w leaseDuration = Ok (r', attemptID) ->
  rtc (tended interval leaseDuration lag w (spares w k))
    (mkAttendance (at_now a) r' (at_emitter a) (at_waiting a)) a' ->
  exists t lease, run_tasks (at_run a') !! k = Some t /\ tr_Status t = TaskRunRunning /\
    tr_CurrentAttemptID t = attemptID /\ tr_Lease t = Some lease /\ lease_WorkerID lease = w /\
    lease_AttemptID lease = attemptID /\ at_now a' < lease_ExpiresAt lease.
Proof.
  intros (_ & [Hint _] & _)%NewEngine_ok interval leaseDuration Hlag Hroom Hu Hbefore Hstart Hafter.
  assert (timely interval lag (at_now a) a) as Hti.
  { eapply timely_steps; [done|unfold interval; lia|exact Hbefore|].
    split; [split; [cbn; unfold time_add; lia|by constructor]|cbn; unfold time_add; by split; [|lia]|by constructor|done|done]. }
  unfold startTaskAttempt in Hstart. apply rbind_ok in Hstart as ([] & Hc & Hstart).
  destruct (run_tasks (at_run a) !! k) as [t|] eqn:Hk; [|done]. apply guard_err_ok in Hstart as [_ Hstart].
  injection Hstart as <- <-. pose proof (ti_updated _ _ _ _ Hti) as Hua. rewrite (next_now _ _ Hua) in *.
  destruct Hti as [Hp Hs Hw _ _].
  eapply (leased_steps interval leaseDuration lag w k _ (at_now a)) in Hafter as (last & Hti & t' & lease & Ht); try done.
  - exists t', lease. destruct Ht as (? & ? & ? & ? & ? & ? & Hexp). split_and!; try done.
    pose proof (spaced_heard _ _ _ _ _ _ Hlag (ti_spaced _ _ _ _ Hti) (ti_prompt _ _ _ _ Hti)). lia.
  - unfold interval. lia.
  - eexists _, _. cbn [at_run run_tasks with_tasks]. rewrite lookup_insert_eq. split_and!; cbn; unfold time_add; done || lia.
Qed.
End Keeps.
