(* ===== verification/Events.v ===== *)
(** * Live run events

    Models [src/internal/api/events.go]: the events derived from two successive
    snapshots of a run, the broker that keeps one event log per run for the
    server-sent event streams, and the store that feeds it. The broker's lock
    makes each of its methods a function on its state. Channels are identities;
    a channel is closed when it is in [eb_closedChans], and closing it again sets
    [eb_panicked]. *)
From S2P Require Import Prelude Workflow Heap Graph Errors Run Snapshot Broker Engine.

(** ** Events *)

Definition eventWorkflowStarted : string := "workflow_started".
Definition eventTaskReady : string := "task_ready".
Definition eventTaskStarted : string := "task_started".
Definition eventTaskSucceeded : string := "task_succeeded".
Definition eventTaskFailed : string := "task_failed".
Definition eventTaskCanceled : string := "task_canceled".
Definition eventRetryScheduled : string := "retry_scheduled".
Definition eventWorkflowCompleted : string := "workflow_completed".
Definition eventRunSnapshot : string := "run_snapshot".

Record RunEvent := mkRunEvent {
  re_Sequence : Z;
  re_Type : string;
  re_RunID : string;
  re_WorkflowID : string;
  re_TaskID : string;
  re_Status : WorkflowRunStatus;
  re_TaskStatus : TaskRunStatus;
  re_AttemptID : string;
  re_OccurredAt : Z;
  re_previousTaskStatus : TaskRunStatus;
  re_workerID : string
}.

(** The zero values of the two status types, which are strings in the source. *)
Definition no_status : WorkflowRunStatus := WorkflowRunOther "".
Definition no_task_status : TaskRunStatus := TaskRunOther "".

Definition terminalWorkflowStatus (status : WorkflowRunStatus) : bool :=
  match status with
  | WorkflowRunSucceeded | WorkflowRunFailed | WorkflowRunCanceled => true
  | _ => false
  end.

(** [None] is the empty event type. *)
Definition taskTransitionEvent (from to : TaskRunStatus) : option (string * Z) :=
  match to with
  | TaskRunSucceeded => Some (eventTaskSucceeded, 1)
  | TaskRunFailed => Some (eventTaskFailed, 1)
  | TaskRunCanceled => Some (eventTaskCanceled, 1)
  | TaskRunRetryWaiting => Some (eventRetryScheduled, 1)
  | TaskRunReady =>
      if bool_decide (from = TaskRunRunning) then Some (eventRetryScheduled, 1) else Some (eventTaskReady, 2)
  | TaskRunRunning => Some (eventTaskStarted, 3)
  | TaskRunPending | TaskRunOther _ => None
  end.

Definition transitionWorkerID (previous current : TaskRun) : string :=
  match tr_Lease current, tr_Lease previous with
  | Some lease, _ => lease_WorkerID lease
  | None, Some lease => lease_WorkerID lease
  | None, None => ""
  end.

Definition workflow_event (type : string) (current : WorkflowRunSnapshot) : RunEvent :=
  mkRunEvent 0 type (snap_ID current) (snap_WorkflowID current) "" (snap_Status current) no_task_status "" 
    (snap_UpdatedAt current) no_task_status "".

(** The body of the loop over the tasks of the current snapshot. *)
Definition task_event (previousTasks : gmap string TaskRun) (current : WorkflowRunSnapshot) (task : TaskRun)
  : option (Z * RunEvent) :=
  match previousTasks !! tr_TaskID task with
  | None => None
  | Some old =>
      if bool_decide (tr_Status old = tr_Status task) then None
      else
        match taskTransitionEvent (tr_Status old) (tr_Status task) with
        | None => None
        | Some (eventType, priority) =>
            Some (priority,
              mkRunEvent 0 eventType (snap_ID current) (snap_WorkflowID current) (tr_TaskID task) no_status
                (tr_Status task) (tr_CurrentAttemptID task) (tr_UpdatedAt task) (tr_Status old)
                (transitionWorkerID old task))
        end
  end.

(** The order of [sort.Slice]: by priority, then by task. Task identifiers are
    unique within a snapshot. *)
Definition event_le (x y : Z * RunEvent) : Prop :=
  fst x < fst y \/ (fst x = fst y /\ String.le (re_TaskID (snd x)) (re_TaskID (snd y))).
#[export] Instance event_le_dec : RelDecision event_le.
Proof. intros x y. unfold event_le. apply _. Defined.

Definition tasks_by_id (tasks : list TaskRun) : gmap string TaskRun :=
  foldl (fun m task => <[tr_TaskID task := task]> m) ∅ tasks.

Definition deriveRunEvents (previous current : WorkflowRunSnapshot) : list RunEvent :=
  let started :=
    if negb (bool_decide (snap_Status previous = WorkflowRunRunning))
       && bool_decide (snap_Status current = WorkflowRunRunning)
    then [workflow_event eventWorkflowStarted current] else [] in
  let taskEvents := omap (task_event (tasks_by_id (snap_Tasks previous)) current) (snap_Tasks current) in
  let completed :=
    if negb (bool_decide (snap_Status previous = snap_Status current)) && terminalWorkflowStatus (snap_Status current)
    then [workflow_event eventWorkflowCompleted current] else [] in
  started ++ (snd <$> merge_sort event_le taskEvents) ++ completed.

(** ** The event broker *)

Record runEventStream := mkStream {
  es_latest : WorkflowRunSnapshot;
  es_events : list RunEvent;
  es_notify : nat
}.

Record eventBroker := mkEventBroker {
  eb_streams : gmap string runEventStream;
  eb_closed : bool;
  eb_nextChan : nat;
  eb_closedChans : gset nat;
  eb_panicked : bool
}.

Definition newEventBroker : eventBroker := mkEventBroker ∅ false 0 ∅ false.

Definition set_stream (b : eventBroker) (runID : string) (stream : runEventStream) : eventBroker :=
  mkEventBroker (<[runID := stream]> (eb_streams b)) (eb_closed b) (eb_nextChan b) (eb_closedChans b) (eb_panicked b).

(** [close(ch)]. *)
Definition close_chan (b : eventBroker) (ch : nat) : eventBroker :=
  mkEventBroker (eb_streams b) (eb_closed b) (eb_nextChan b) ({[ch]} ∪ eb_closedChans b)
    (eb_panicked b || bool_decide (ch ∈ eb_closedChans b)).

(** [make(chan struct{})]. *)
Definition make_chan (b : eventBroker) : eventBroker * nat :=
  (mkEventBroker (eb_streams b) (eb_closed b) (S (eb_nextChan b)) (eb_closedChans b) (eb_panicked b), eb_nextChan b).

Definition with_sequence (e : RunEvent) (sequence : Z) : RunEvent :=
  mkRunEvent sequence (re_Type e) (re_RunID e) (re_WorkflowID e) (re_TaskID e) (re_Status e) (re_TaskStatus e)
    (re_AttemptID e) (re_OccurredAt e) (re_previousTaskStatus e) (re_workerID e).

(** The loop that numbers the events and appends them to the log. *)
Fixpoint number_events (log events : list RunEvent) : list RunEvent :=
  match events with
  | [] => []
  | e :: rest =>
      let e := with_sequence e (wrap_uint64 (Z.of_nat (length log) + 1)) in
      e :: number_events (log ++ [e]) rest
  end.

Definition observe (b : eventBroker) (snapshot : WorkflowRunSnapshot) : eventBroker * list RunEvent :=
  if eb_closed b then (b, [])
  else
    match eb_streams b !! snap_ID snapshot with
    | None =>
        let '(b, notify) := make_chan b in
        (set_stream b (snap_ID snapshot) (mkStream snapshot [] notify), [])
    | Some stream =>
        let events := deriveRunEvents (es_latest stream) snapshot in
        match events with
        | [] => (set_stream b (snap_ID snapshot) (mkStream snapshot (es_events stream) (es_notify stream)), [])
        | _ =>
            let events := number_events (es_events stream) events in
            let b := close_chan b (es_notify stream) in
            let '(b, notify) := make_chan b in
            (set_stream b (snap_ID snapshot) (mkStream snapshot (es_events stream ++ events) notify), events)
        end
    end.

Definition seed (b : eventBroker) (snapshot : WorkflowRunSnapshot) : eventBroker :=
  if eb_closed b then b
  else
    match eb_streams b !! snap_ID snapshot with
    | Some _ => b
    | None =>
        let '(b, notify) := make_chan b in
        let event := mkRunEvent 1 eventRunSnapshot (snap_ID snapshot) (snap_WorkflowID snapshot) ""
                       (snap_Status snapshot) no_task_status "" (snap_UpdatedAt snapshot) no_task_status "" in
        set_stream b (snap_ID snapshot) (mkStream snapshot [event] notify)
    end.

(** The events after [sequence], the channel to wait on, whether the broker is
    closed and whether the run is finished. The channel of an unknown run is a new
    one that is closed. *)
Definition eventsAfter (b : eventBroker) (runID : string) (sequence : Z)
  : eventBroker * (list RunEvent * nat * bool * bool) :=
  match eb_streams b !! runID with
  | None =>
      let '(b, ch) := make_chan b in
      (close_chan b ch, ([], ch, eb_closed b, false))
  | Some stream =>
      let len := length (es_events stream) in
      let start := if sequence <? Z.of_nat len then Z.to_nat sequence else len in
      (b, (drop start (es_events stream), es_notify stream, eb_closed b,
           terminalWorkflowStatus (snap_Status (es_latest stream))))
  end.

Definition eventBroker_close (b : eventBroker) : eventBroker :=
  if eb_closed b then b
  else
    let b := mkEventBroker (eb_streams b) true (eb_nextChan b) (eb_closedChans b) (eb_panicked b) in
    map_fold (fun _ stream b => close_chan b (es_notify stream)) b (eb_streams b).

(** ** The observed store *)

(** What [recordRunEvents] adds to the metrics, in order; [observability] keeps
    the totals. *)
Inductive metric :=
| MetricWorkflowSubmitted
| MetricTaskStarted
| MetricTaskCompleted (outcome : string) (duration : Z)
| MetricRetryScheduled (duration : Z)
| MetricWorkflowCompleted (status : string) (duration : Z).

Definition taskAttemptDuration (task : TaskRun) : Z :=
  if time_is_zero (tr_StartedAt task) || time_is_zero (tr_FinishedAt task)
     || time_before (tr_FinishedAt task) (tr_StartedAt task)
  then 0 else time_sub (tr_FinishedAt task) (tr_StartedAt task).

(** A missing key of a Go map reads as the zero value. *)
Definition zeroTaskRun : TaskRun :=
  mkTaskRun "" "" no_task_status "" "" 0 "" zero_time None zero_time zero_time zero_time.

Definition event_metrics (snapshot : WorkflowRunSnapshot) (event : RunEvent) : list metric :=
  let task := default zeroTaskRun (tasks_by_id (snap_Tasks snapshot) !! re_TaskID event) in
  let type := re_Type event in
  if String.eqb type eventTaskStarted then [MetricTaskStarted]
  else if String.eqb type eventTaskSucceeded then [MetricTaskCompleted "succeeded" (taskAttemptDuration task)]
  else if String.eqb type eventTaskFailed then [MetricTaskCompleted "failed" (taskAttemptDuration task)]
  else if String.eqb type eventRetryScheduled then [MetricRetryScheduled (taskAttemptDuration task)]
  else if String.eqb type eventTaskCanceled then
    if bool_decide (re_previousTaskStatus event = TaskRunRunning)
    then [MetricTaskCompleted "canceled" (taskAttemptDuration task)] else []
  else if String.eqb type eventWorkflowCompleted then
    [MetricWorkflowCompleted (workflow_status_string (snap_Status snapshot))
       (time_sub (snap_UpdatedAt snapshot) (snap_CreatedAt snapshot))]
  else [].

Definition recordRunEvents (snapshot : WorkflowRunSnapshot) (events : list RunEvent) : list metric :=
  mjoin (event_metrics snapshot <$> events).

Record observedStore (St : Type) := mkObserved {
  os_delegate : St;
  os_broker : eventBroker;
  os_metrics : list metric
}.
Arguments mkObserved {St} _ _ _.
Arguments os_delegate {St} _.
Arguments os_broker {St} _.
Arguments os_metrics {St} _.

Section Observed.
Context {St : Type} `{Store St}.

Definition observed_CreateRun (s : observedStore St) (ctx : context) (snapshot : WorkflowRunSnapshot)
  : observedStore St * res go_error WorkflowRunSnapshot :=
  match store_CreateRun (os_delegate s) ctx snapshot with
  | (delegate, Err err) => (mkObserved delegate (os_broker s) (os_metrics s), Err err)
  | (delegate, Ok stored) =>
      (mkObserved delegate (fst (observe (os_broker s) stored)) (os_metrics s ++ [MetricWorkflowSubmitted]), Ok stored)
  end.

Definition observed_SaveRun (s : observedStore St) (ctx : context) (snapshot : WorkflowRunSnapshot)
  : observedStore St * res go_error WorkflowRunSnapshot :=
  match store_SaveRun (os_delegate s) ctx snapshot with
  | (delegate, Err err) => (mkObserved delegate (os_broker s) (os_metrics s), Err err)
  | (delegate, Ok stored) =>
      let '(broker, events) := observe (os_broker s) stored in
      (mkObserved delegate broker (os_metrics s ++ recordRunEvents stored events), Ok stored)
  end.

Definition observed_SaveWorkflow (s : observedStore St) (ctx : context) (definition : WorkflowDefinition)
  : observedStore St * res go_error unit :=
  let '(delegate, result) := store_SaveWorkflow (os_delegate s) ctx definition in
  (mkObserved delegate (os_broker s) (os_metrics s), result).

(** [observedStore] implements [execution.Store]. *)
#[export] Instance observed_store : Store (observedStore St) := {|
  store_SaveWorkflow := observed_SaveWorkflow;
  store_LoadWorkflow s ctx workflowID := store_LoadWorkflow (os_delegate s) ctx workflowID;
  store_CreateRun := observed_CreateRun;
  store_SaveRun := observed_SaveRun;
  store_LoadRun s ctx runID := store_LoadRun (os_delegate s) ctx runID
|}.
End Observed.

(** ** Server-sent event streams *)

(** A round of the loop of [handleRunEvents] in [src/internal/api/server.go]: it
    reads the log, writes the events, and returns or waits on a channel. [writes]
    is how many writes succeed; the first that fails ends the stream. *)
Inductive sse_state :=
| SseWaiting (sequence : Z) (notify : nat)
| SseReturned (sequence : Z).

Definition advance (sequence : Z) (events : list RunEvent) : Z := foldl (fun _ event => re_Sequence event) sequence events.

Definition sse_round (b : eventBroker) (runID : string) (sequence : Z) (writes : nat)
  : eventBroker * (list RunEvent * sse_state) :=
  let '(b, (events, notify, closed, terminal)) := eventsAfter b runID sequence in
  if Nat.ltb writes (length events) then
    let sent := take writes events in (b, (sent, SseReturned (advance sequence sent)))
  else
    let sequence := advance sequence events in
    (b, (events, if terminal || closed then SseReturned sequence else SseWaiting sequence notify)).
