(* ===== verification/EventsProps.v ===== *)
(** * Guarantees of the event streams

    No channel is closed twice, a waiting stream is woken by the next event, a
    stream sends every event of its log once and in order, and the log of a run
    replays to the statuses of its latest snapshot. *)
From S2P Require Import Prelude Workflow Heap Graph GraphBuild GraphOrder Errors Run Ids Snapshot SnapshotValid RunStep RunInv RunProps RunDurable Broker Engine EngineInv Events.

(** ** The broker's invariant *)

Inductive broker_step (b : eventBroker) : eventBroker -> Prop :=
| bs_observe snapshot : broker_step b (fst (observe b snapshot))
| bs_seed snapshot : broker_step b (seed b snapshot)
| bs_read runID sequence : broker_step b (fst (eventsAfter b runID sequence))
| bs_close : broker_step b (eventBroker_close b).

(** Events are numbered by their place in the log. *)
Definition numbered (events : list RunEvent) : Prop :=
  forall i e, events !! i = Some e -> re_Sequence e = wrap_uint64 (Z.of_nat i + 1).

Record broker_inv (b : eventBroker) : Prop := {
  bi_panic : eb_panicked b = false;
  bi_notify : forall r s, eb_streams b !! r = Some s -> (es_notify s < eb_nextChan b)%nat;
  bi_distinct : forall r1 r2 s1 s2, eb_streams b !! r1 = Some s1 -> eb_streams b !! r2 = Some s2 ->
    es_notify s1 = es_notify s2 -> r1 = r2;
  bi_chans : forall c, c ∈ eb_closedChans b -> (c < eb_nextChan b)%nat;
  bi_open : forall r s, eb_streams b !! r = Some s -> es_notify s ∈ eb_closedChans b <-> eb_closed b = true;
  bi_numbered : forall r s, eb_streams b !! r = Some s -> numbered (es_events s);
  bi_keyed : forall r s, eb_streams b !! r = Some s -> snap_ID (es_latest s) = r
}.

Lemma numbered_app (log events : list RunEvent) : numbered log -> numbered (log ++ number_events log events).
Proof.
  revert log. induction events as [|e events IH]; intros log Hl; cbn; [by rewrite app_nil_r|].
  set (e' := with_sequence _ _). rewrite cons_middle, app_assoc. apply IH. intros i x.
  rewrite lookup_app_Some. intros [Hi|[Hge Hi]]; [by apply Hl|].
  destruct (i - length log)%nat as [|n] eqn:E; [|done]. injection Hi as <-. cbn. do 2 f_equal. lia.
Qed.

Lemma newEventBroker_inv : broker_inv newEventBroker.
Proof. split; [done|set_solver..]. Qed.

(** A stream is replaced, and its channel is a new one or the one it had. *)
Lemma set_stream_inv b r s :
  broker_inv b -> (es_notify s < eb_nextChan b)%nat ->
  (forall r' s', r' <> r -> eb_streams b !! r' = Some s' -> es_notify s' <> es_notify s) ->
  (es_notify s ∈ eb_closedChans b <-> eb_closed b = true) -> numbered (es_events s) -> snap_ID (es_latest s) = r ->
  broker_inv (set_stream b r s).
Proof.
  intros [Hp Hn Hd Hc Ho Hs Hk] Hlt Hfresh Hopen Hnum Hkey.
  split; cbn; [done| | |done| | |]; intros *; rewrite ?lookup_insert; repeat case_decide; naive_solver.
Qed.

Lemma make_chan_inv b : broker_inv b -> broker_inv (fst (make_chan b)).
Proof.
  intros [Hp Hn Hd Hc Ho Hs Hk]. split; cbn; try done; [|by intros c Hc'%Hc; lia].
  intros r s Hr%Hn. lia.
Qed.

(** Publishing closes the channel of one stream, which then gets a new one. *)
Lemma publish_inv b r s s' :
  broker_inv b -> eb_closed b = false -> eb_streams b !! r = Some s ->
  es_notify s' = eb_nextChan b -> numbered (es_events s') -> snap_ID (es_latest s') = r ->
  broker_inv (set_stream (fst (make_chan (close_chan b (es_notify s)))) r s').
Proof.
  intros [Hp Hn Hd Hc Ho Hs Hk] Hopen Hr Hnew Hnum Hkey.
  assert (Hnot : es_notify s ∉ eb_closedChans b) by (rewrite (Ho _ _ Hr); congruence).
  split; cbn; rewrite ?Hp, ?Hopen.
  - by apply bool_decide_eq_false.
  - intros r' s0. rewrite lookup_insert. case_decide; [intros [= <-]; lia|]. intros H0%Hn. lia.
  - intros r1 r2 s1 s2. rewrite !lookup_insert. repeat case_decide; [congruence|..].
    + intros [= <-] H2%Hn ?. lia.
    + intros H1%Hn [= <-] ?. lia.
    + apply Hd.
  - intros c. rewrite elem_of_union, elem_of_singleton. intros [->|H1%Hc]; [|lia]. apply Hn in Hr. lia.
  - intros r' s0. rewrite lookup_insert. case_decide as Hcase.
    + intros [= <-]. split; [|done]. rewrite Hnew, elem_of_union, elem_of_singleton.
      intros [He|H1%Hc]; [|lia]. apply Hn in Hr. lia.
    + intros H0. split; [|done]. rewrite elem_of_union, elem_of_singleton.
      intros [He|H1]; [|apply (Ho _ _ H0) in H1; congruence]. by destruct Hcase; eapply Hd.
  - intros r' s0. rewrite lookup_insert. case_decide; [by intros [= <-]|apply Hs].
  - intros r' s0. rewrite lookup_insert. case_decide; [by intros [= <-]; subst|apply Hk].
Qed.

Lemma new_stream_inv b r s :
  broker_inv b -> eb_closed b = false -> es_notify s = eb_nextChan b -> numbered (es_events s) ->
  snap_ID (es_latest s) = r -> broker_inv (set_stream (fst (make_chan b)) r s).
Proof.
  intros Hi Hopen Hnew Hnum Hkey. apply set_stream_inv; [by apply make_chan_inv|cbn; lia| |split; [|cbn; congruence]|done|done].
  - cbn. intros r' s' _ Hs%(bi_notify _ Hi). lia.
  - cbn. intros Hc%(bi_chans _ Hi). lia.
Qed.

Lemma observe_inv b snapshot : broker_inv b -> broker_inv (fst (observe b snapshot)).
Proof.
  intros Hi. unfold observe. destruct (eb_closed b) eqn:Hc; [done|].
  destruct (eb_streams b !! snap_ID snapshot) as [stream|] eqn:Hs.
  - pose proof (bi_numbered _ Hi _ _ Hs) as Hnum. destruct (deriveRunEvents _ _) as [|e events].
    + apply set_stream_inv; cbn; [done|by eapply bi_notify| |by eapply bi_open|done|done].
      intros r' s' Hne Hs' Heq. by destruct Hne; eapply bi_distinct.
    + by apply publish_inv; cbn [es_notify es_events es_latest]; try apply numbered_app.
  - by apply new_stream_inv.
Qed.

Lemma seed_inv b snapshot : broker_inv b -> broker_inv (seed b snapshot).
Proof.
  intros Hi. unfold seed. destruct (eb_closed b) eqn:Hc; [done|].
  destruct (eb_streams b !! snap_ID snapshot) as [stream|] eqn:Hs; [done|].
  apply new_stream_inv; [done|done|done| |done]. by intros [|i] e [= <-].
Qed.

Lemma read_inv b runID sequence : broker_inv b -> broker_inv (fst (eventsAfter b runID sequence)).
Proof.
  intros Hi. unfold eventsAfter. destruct (eb_streams b !! runID); [done|].
  destruct Hi as [Hp Hn Hd Hc Ho Hs Hk]. split; cbn; [| |done| | |done|done].
  - rewrite Hp. apply bool_decide_eq_false. intros H%Hc. lia.
  - intros r s Hr%Hn. lia.
  - intros c. rewrite elem_of_union, elem_of_singleton. intros [->|H%Hc]; lia.
  - intros r s Hr. rewrite <- (Ho _ _ Hr), elem_of_union, elem_of_singleton. split; [|by right].
    intros [Heq|]; [|done]. apply Hn in Hr. lia.
Qed.

(** Closing every stream's channel, one after the other. *)
Lemma close_streams (b : eventBroker) (m : gmap string runEventStream) :
  (forall r1 r2 s1 s2, m !! r1 = Some s1 -> m !! r2 = Some s2 -> es_notify s1 = es_notify s2 -> r1 = r2) ->
  (forall r s, m !! r = Some s -> es_notify s ∉ eb_closedChans b) ->
  let b' := map_fold (fun _ stream b => close_chan b (es_notify stream)) b m in
  eb_streams b' = eb_streams b /\ eb_closed b' = eb_closed b /\ eb_nextChan b' = eb_nextChan b /\
  eb_panicked b' = eb_panicked b /\
  forall c, c ∈ eb_closedChans b' <-> c ∈ eb_closedChans b \/ exists r s, m !! r = Some s /\ es_notify s = c.
Proof.
  cbn zeta. apply (map_fold_weak_ind (fun b' m =>
    (forall r1 r2 s1 s2, m !! r1 = Some s1 -> m !! r2 = Some s2 -> es_notify s1 = es_notify s2 -> r1 = r2) ->
    (forall r s, m !! r = Some s -> es_notify s ∉ eb_closedChans b) ->
    eb_streams b' = eb_streams b /\ eb_closed b' = eb_closed b /\ eb_nextChan b' = eb_nextChan b /\
    eb_panicked b' = eb_panicked b /\
    forall c, c ∈ eb_closedChans b' <-> c ∈ eb_closedChans b \/ exists r s, m !! r = Some s /\ es_notify s = c)).
  { intros _ _. split_and!; try done. intros c. split; [by left|]. intros [?|(? & ? & ? & _)]; done. }
  intros r s m' b' Hr IH Hd Hopen.
  destruct IH as (IHs & IHc & IHn & IHp & IHe).
  { intros r1 r2 s1 s2 H1 H2. apply Hd; rewrite lookup_insert_ne; congruence. }
  { intros r1 s1 H1. apply (Hopen r1). rewrite lookup_insert_ne; congruence. }
  cbn. split_and!; try done.
  - rewrite IHp. rewrite bool_decide_eq_false_2; [by rewrite orb_false_r|]. rewrite IHe.
    intros [Hc|(r1 & s1 & H1 & Heq)]; [by apply (Hopen r s); rewrite ?lookup_insert_eq|].
    assert (r1 = r) as ->; [|congruence].
    eapply (Hd r1 r s1 s); [|by rewrite lookup_insert_eq|done]. rewrite lookup_insert_ne; congruence.
  - intros c. rewrite elem_of_union, elem_of_singleton, IHe. setoid_rewrite lookup_insert_Some. split.
    + intros [->|[?|(r1 & s1 & H1 & Heq)]]; [right; exists r, s; by split; [left|]|by left|].
      right. exists r1, s1. split; [right; split; congruence|done].
    + intros [?|(r1 & s1 & [[_ <-]|[_ H1]] & Heq)]; [by right; left|by left|]. right; right. by exists r1, s1.
Qed.

Lemma close_spec b :
  broker_inv b ->
  let b' := eventBroker_close b in
  eb_streams b' = eb_streams b /\ eb_closed b' = true /\ eb_nextChan b' = eb_nextChan b /\ eb_panicked b' = false /\
  forall c, c ∈ eb_closedChans b' <-> c ∈ eb_closedChans b \/ exists r s, eb_streams b !! r = Some s /\ es_notify s = c.
Proof.
  intros Hi. cbn zeta. unfold eventBroker_close. destruct (eb_closed b) eqn:Hc.
  { split_and!; try done; [apply Hi|]. intros c. split; [by left|]. intros [?|(r & s & Hr & <-)]; [done|].
    by apply (bi_open _ Hi _ _ Hr). }
  cbn [eb_streams]. set (b1 := mkEventBroker _ _ _ _ _).
  destruct (close_streams b1 (eb_streams b)) as (Hs & Hcl & Hn & Hp & He).
  { apply (bi_distinct _ Hi). }
  { intros r s Hr. cbn. rewrite (bi_open _ Hi _ _ Hr). congruence. }
  split_and!; try done. rewrite Hp. apply Hi.
Qed.

Lemma close_inv b : broker_inv b -> broker_inv (eventBroker_close b).
Proof.
  intros Hi. destruct (close_spec b Hi) as (Hs & Hcl & Hn & Hp & He).
  split; rewrite ?Hs, ?Hn, ?Hp, ?Hcl; try apply Hi; [done|..].
  - intros c [Hc'|(r & s & Hr & <-)]%He; [by apply (bi_chans _ Hi)|by eapply bi_notify].
  - intros r s Hr. split; [done|]. intros _. apply He. right. by exists r, s.
Qed.

Lemma step_inv b b' : broker_step b b' -> broker_inv b -> broker_inv b'.
Proof. destruct 1; [apply observe_inv|apply seed_inv|apply read_inv|apply close_inv]. Qed.

Lemma steps_inv b b' : rtc broker_step b b' -> broker_inv b -> broker_inv b'.
Proof. induction 1; eauto using step_inv. Qed.

(** Whatever is observed, read and closed, and in whatever order, the broker
    never closes a channel twice, which would bring the process down; the events
    of every log are numbered from one without gaps; and each log belongs to the
    run it is filed under. *)
Theorem event_broker_sound b :
  rtc broker_step newEventBroker b ->
  eb_panicked b = false /\
  forall r s, eb_streams b !! r = Some s -> numbered (es_events s) /\ snap_ID (es_latest s) = r.
Proof.
  intros Hb. pose proof (steps_inv _ _ Hb newEventBroker_inv) as Hi. split; [apply Hi|].
  intros r s Hr. split; [by eapply bi_numbered|by eapply bi_keyed].
Qed.

(** ** Logs only grow *)

(** A channel stays closed. *)
Lemma step_closed b b' c : broker_inv b -> broker_step b b' -> c ∈ eb_closedChans b -> c ∈ eb_closedChans b'.
Proof.
  intros Hi Hstep Hc. destruct Hstep as [snapshot|snapshot|runID sequence|].
  - unfold observe. destruct (eb_closed b); [done|]. destruct (eb_streams b !! _); [|done].
    destruct (deriveRunEvents _ _); cbn; set_solver.
  - unfold seed. destruct (eb_closed b); [done|]. by destruct (eb_streams b !! _).
  - unfold eventsAfter. destruct (eb_streams b !! _); cbn; set_solver.
  - destruct (close_spec b Hi) as (_ & _ & _ & _ & He). apply He. by left.
Qed.

Lemma steps_closed b b' c : broker_inv b -> rtc broker_step b b' -> c ∈ eb_closedChans b -> c ∈ eb_closedChans b'.
Proof. intros Hi Hsteps. induction Hsteps; eauto using step_closed, step_inv. Qed.

Lemma step_log b b' r s :
  broker_inv b -> broker_step b b' -> eb_streams b !! r = Some s ->
  exists s', eb_streams b' !! r = Some s' /\ es_events s `prefix_of` es_events s' /\
    (es_notify s' = es_notify s /\ es_events s' = es_events s \/ es_notify s ∈ eb_closedChans b').
Proof.
  intros Hi Hstep Hr. destruct Hstep as [snapshot|snapshot|runID sequence|].
  - unfold observe. destruct (eb_closed b); [exists s; eauto 6|].
    destruct (eb_streams b !! snap_ID snapshot) as [stream|] eqn:Hs.
    + destruct (decide (snap_ID snapshot = r)) as [<-|Hne].
      * replace stream with s by congruence. destruct (deriveRunEvents _ _) as [|e events]; cbn;
          rewrite lookup_insert_eq; eexists; (split; [done|]); cbn; [eauto|]. split; [by eexists|]. right. set_solver.
      * destruct (deriveRunEvents _ _) as [|e events]; cbn; rewrite lookup_insert_ne by done; exists s; eauto 6.
    + cbn. rewrite lookup_insert_ne by congruence. exists s. eauto 6.
  - unfold seed. destruct (eb_closed b); [exists s; eauto 6|].
    destruct (eb_streams b !! snap_ID snapshot) as [stream|] eqn:Hs; [exists s; eauto 6|].
    cbn. rewrite lookup_insert_ne by congruence. exists s. eauto 6.
  - unfold eventsAfter. destruct (eb_streams b !! runID); [exists s; eauto 6|]. cbn. exists s. eauto 6.
  - destruct (close_spec b Hi) as (-> & _). exists s. eauto 6.
Qed.

Lemma steps_log b b' r s :
  broker_inv b -> rtc broker_step b b' -> eb_streams b !! r = Some s ->
  exists s', eb_streams b' !! r = Some s' /\ es_events s `prefix_of` es_events s' /\
    (es_notify s' = es_notify s /\ es_events s' = es_events s \/ es_notify s ∈ eb_closedChans b').
Proof.
  intros Hi Hsteps. revert s Hi. induction Hsteps as [|b b1 b2 Hstep Hrest IH]; intros s Hi Hr; [exists s; eauto|].
  destruct (step_log _ _ _ _ Hi Hstep Hr) as (s1 & Hr1 & Hpre1 & Hch1).
  pose proof (step_inv _ _ Hstep Hi) as Hi1.
  destruct (IH s1 Hi1 Hr1) as (s2 & Hr2 & Hpre2 & Hch2). exists s2. split; [done|]. split; [by etrans|].
  destruct Hch1 as [[Hn He]|Hc]; [by rewrite <- Hn, <- He|]. right.
  by eapply steps_closed.
Qed.

(** ** Streams *)

(** A stream of the run [runID] that started at [b0] with the sequence [seq0]: other
    goroutines use the broker between its rounds, and it ends when the request is
    done or a keep-alive cannot be written. *)
Inductive streaming (runID : string) (b0 : eventBroker) (seq0 : Z)
  : eventBroker -> list RunEvent -> sse_state -> Prop :=
| stream_first writes b sent st :
    sse_round b0 runID seq0 writes = (b, (sent, st)) -> streaming runID b0 seq0 b sent st
| stream_other b b' sent st :
    streaming runID b0 seq0 b sent st -> broker_step b b' -> streaming runID b0 seq0 b' sent st
| stream_round b b' sent sequence notify writes more st :
    streaming runID b0 seq0 b sent (SseWaiting sequence notify) ->
    sse_round b runID sequence writes = (b', (more, st)) -> streaming runID b0 seq0 b' (sent ++ more) st
| stream_gone b sent sequence notify :
    streaming runID b0 seq0 b sent (SseWaiting sequence notify) -> streaming runID b0 seq0 b sent (SseReturned sequence).

Definition sse_sequence (st : sse_state) : Z :=
  match st with SseWaiting sequence _ | SseReturned sequence => sequence end.

Lemma advance_numbered (log : list RunEvent) (n m : nat) :
  numbered log -> Z.of_nat (length log) < 18446744073709551616 -> (n <= length log)%nat ->
  advance (Z.of_nat n) (take m (drop n log)) = Z.of_nat (n + length (take m (drop n log))).
Proof.
  intros Hnum Hlen Hn. remember (take m (drop n log)) as sent eqn:Hs.
  destruct sent as [|e sent _] using rev_ind; [cbn; lia|]. unfold advance. rewrite foldl_snoc, length_app. cbn.
  assert (He : (take m (drop n log)) !! length sent = Some e) by (rewrite <- Hs; by apply list_lookup_middle).
  apply lookup_take_Some in He as [He Hm]. rewrite lookup_drop in He. rewrite (Hnum _ _ He).
  apply lookup_lt_Some in He. rewrite wrap_uint64_id; unfold in_uint64; lia.
Qed.

(** What a round sends: the next events of the log. *)
Lemma sse_round_spec b runID n writes s :
  eb_streams b !! runID = Some s -> numbered (es_events s) ->
  Z.of_nat (length (es_events s)) < 18446744073709551616 -> (n <= length (es_events s))%nat ->
  exists sent st,
    sse_round b runID (Z.of_nat n) writes = (b, (sent, st)) /\
    sent `prefix_of` drop n (es_events s) /\ sse_sequence st = Z.of_nat (n + length sent) /\
    match st with
    | SseWaiting _ notify =>
        sent = drop n (es_events s) /\ notify = es_notify s /\ eb_closed b = false /\
        terminalWorkflowStatus (snap_Status (es_latest s)) = false
    | SseReturned _ =>
        (writes < length (drop n (es_events s)))%nat \/ sent = drop n (es_events s)
    end.
Proof.
  intros Hs Hnum Hlen Hn. unfold sse_round, eventsAfter. rewrite Hs.
  assert (Hstart : (if Z.of_nat n <? Z.of_nat (length (es_events s)) then Z.to_nat (Z.of_nat n)
                    else length (es_events s)) = n) by (destruct (Z.ltb_spec (Z.of_nat n) (Z.of_nat (length (es_events s)))); lia).
  rewrite Hstart. destruct (Nat.ltb_spec writes (length (drop n (es_events s)))) as [Hw|Hw].
  - do 2 eexists. split; [done|]. split; [apply prefix_take|]. cbn [sse_sequence]. split; [by apply advance_numbered|by left].
  - pose proof (advance_numbered (es_events s) n (length (drop n (es_events s))) Hnum Hlen Hn) as Ha.
    rewrite firstn_all in Ha. do 2 eexists. split; [done|]. split; [done|].
    destruct (terminalWorkflowStatus _) eqn:Ht, (eb_closed b) eqn:Hc; cbn; auto.
Qed.

(** A stream has sent the first events after its start; it waits on the channel
    of its log or on one that has been closed. *)
Record stream_inv (runID : string) (n : nat) (b : eventBroker) (sent : list RunEvent) (st : sse_state)
    (s : runEventStream) : Prop := {
  sm_broker : broker_inv b;
  sm_stream : eb_streams b !! runID = Some s;
  sm_start : (n <= length (es_events s))%nat;
  sm_sent : sent `prefix_of` drop n (es_events s);
  sm_sequence : sse_sequence st = Z.of_nat (n + length sent);
  sm_notify : match st with
    | SseWaiting _ notify => notify = es_notify s /\ sent = drop n (es_events s) \/ notify ∈ eb_closedChans b
    | SseReturned _ => True
    end
}.

Lemma stream_inv_place runID n b sent st s : stream_inv runID n b sent st s -> (n + length sent <= length (es_events s))%nat.
Proof. intros [_ _ Hn Hsent _ _]. apply prefix_length in Hsent. rewrite length_drop in Hsent. lia. Qed.

Lemma stream_round_inv runID n b sent sequence writes b' more st s :
  stream_inv runID n b sent (SseReturned sequence) s ->
  Z.of_nat (length (es_events s)) < 18446744073709551616 ->
  sse_round b runID sequence writes = (b', (more, st)) -> stream_inv runID n b' (sent ++ more) st s.
Proof.
  intros Hi Hlen Hround. pose proof (stream_inv_place _ _ _ _ _ _ Hi) as Hplace. destruct Hi as [Hb Hs Hn Hsent Hseq _].
  cbn in Hseq. subst sequence.
  destruct (sse_round_spec b runID (n + length sent) writes s) as (more' & st' & Heq & Hpre & Hseq & Hst);
    [done|by eapply bi_numbered|done|done|].
  rewrite Heq in Hround. simplify_eq. destruct Hsent as [rest Hrest].
  assert (Hdrop : drop (n + length sent) (es_events s) = rest)
    by (rewrite <- drop_drop, Hrest; by rewrite drop_app_length).
  rewrite Hdrop in *. split; try done.
  - rewrite Hrest. by apply prefix_app.
  - rewrite Hseq, length_app. lia.
  - destruct st; [|done]. destruct Hst as (-> & -> & _). left. by rewrite Hrest.
Qed.

Lemma stream_other_inv runID n b b' sent st s :
  stream_inv runID n b sent st s -> broker_step b b' -> exists s', stream_inv runID n b' sent st s'.
Proof.
  intros [Hb Hs Hn Hsent Hseq Hst] Hstep. destruct (step_log _ _ _ _ Hb Hstep Hs) as (s' & Hs' & [more Hmore] & Hch).
  exists s'. split; [by eapply step_inv|done| | |done|].
  - rewrite Hmore, length_app. lia.
  - rewrite Hmore, drop_app_le by done. by apply prefix_app_r.
  - destruct st as [seq notify|]; [|done]. destruct Hst as [[-> Hall]|Hc]; [|right; by eapply step_closed].
    destruct Hch as [[Hn' He]|Hc]; [left; by rewrite Hn', He|by right].
Qed.

(** Reading a known log leaves the broker alone. *)
Lemma sse_round_broker b runID sequence writes s :
  eb_streams b !! runID = Some s -> fst (sse_round b runID sequence writes) = b.
Proof. intros Hs. unfold sse_round, eventsAfter. rewrite Hs. by destruct (Nat.ltb _ _). Qed.

(** The log grows while a stream is served. *)
Lemma streaming_prefix runID b0 s0 seq0 b sent st :
  broker_inv b0 -> eb_streams b0 !! runID = Some s0 -> streaming runID b0 seq0 b sent st ->
  broker_inv b /\ exists s, eb_streams b !! runID = Some s /\ es_events s0 `prefix_of` es_events s.
Proof.
  intros Hi0 Hs0. induction 1 as [writes b sent st Hr|b b' sent st _ IH Hstep
    |b b' sent sequence notify writes more st _ IH Hr|b sent sequence notify _ IH]; [| | |done].
  - pose proof (sse_round_broker _ _ seq0 writes _ Hs0) as Hb. rewrite Hr in Hb. cbn in Hb. subst b. by split; [|exists s0].
  - destruct IH as (Hb & s & Hs & Hp). split; [by eapply step_inv|].
    destruct (step_log _ _ _ _ Hb Hstep Hs) as (s' & Hs' & Hp' & _). exists s'. split; [done|by etrans].
  - destruct IH as (Hb & s & Hs & Hp). pose proof (sse_round_broker _ _ sequence writes _ Hs) as Heq. rewrite Hr in Heq.
    cbn in Heq. subst b'. by split; [|exists s].
Qed.

Lemma streaming_inv runID b0 s0 n b sent st :
  broker_inv b0 -> eb_streams b0 !! runID = Some s0 -> (n <= length (es_events s0))%nat ->
  streaming runID b0 (Z.of_nat n) b sent st ->
  broker_inv b /\ exists s, eb_streams b !! runID = Some s /\
    (Z.of_nat (length (es_events s)) < 18446744073709551616 -> stream_inv runID n b sent st s).
Proof.
  intros Hi0 Hs0 Hn. induction 1 as [writes b sent st Hr|b b' sent st _ IH Hstep
    |b b' sent sequence notify writes more st _ IH Hr|b sent sequence notify _ IH].
  - pose proof (sse_round_broker _ _ (Z.of_nat n) writes _ Hs0) as Hb. rewrite Hr in Hb. cbn in Hb. subst b.
    split; [done|]. exists s0. split; [done|]. intros Hlen.
    eapply (stream_round_inv _ _ _ [] (Z.of_nat n)); [|done|exact Hr]. split; [done|done|done|apply prefix_nil|cbn; lia|done].
  - destruct IH as (Hb & s & Hs & IH). split; [by eapply step_inv|].
    destruct (step_log _ _ _ _ Hb Hstep Hs) as (s' & Hs' & Hpre%prefix_length & _). exists s'. split; [done|]. intros Hlen.
    destruct (stream_other_inv runID n b b' sent st s) as (s1 & Hs1); [apply IH; lia|done|].
    by replace s' with s1 by (pose proof (sm_stream _ _ _ _ _ _ Hs1); congruence).
  - destruct IH as (Hb' & s & Hs & IH). pose proof (sse_round_broker _ _ sequence writes _ Hs) as Hb. rewrite Hr in Hb. cbn in Hb.
    subst b'. split; [done|]. exists s. split; [done|]. intros Hlen. eapply stream_round_inv; [|done|exact Hr].
    by destruct (IH Hlen) as [? ? ? ? Hseq _].
  - destruct IH as (Hb & s & Hs & IH). split; [done|]. exists s. split; [done|]. intros Hlen.
    by destruct (IH Hlen) as [? ? ? ? Hseq _].
Qed.

(** A stream that a client opens with an event number the log has reached
    sends the events after it, each once and in order; its next round brings it up
    to date; and while it waits, a new event or the closing of the broker has
    closed the channel it waits on, so it is woken. *)
Theorem stream_exact runID b0 s0 n b sent st :
  rtc broker_step newEventBroker b0 -> eb_streams b0 !! runID = Some s0 -> (n <= length (es_events s0))%nat ->
  streaming runID b0 (Z.of_nat n) b sent st ->
  exists s, eb_streams b !! runID = Some s /\
    (Z.of_nat (length (es_events s)) < 18446744073709551616 ->
     sent `prefix_of` drop n (es_events s) /\
     match st with
     | SseReturned _ => True
     | SseWaiting sequence notify =>
         (sent <> drop n (es_events s) \/ eb_closed b = true -> notify ∈ eb_closedChans b) /\
         forall writes, (length (es_events s) <= writes)%nat ->
           sent ++ fst (snd (sse_round b runID sequence writes)) = drop n (es_events s)
     end).
Proof.
  intros Hb Hs0 Hn Hst. pose proof (steps_inv _ _ Hb newEventBroker_inv) as Hi0.
  destruct (streaming_inv _ _ _ _ _ _ _ Hi0 Hs0 Hn Hst) as (_ & s & Hs & Hinv).
  exists s. split; [done|]. intros Hlen. specialize (Hinv Hlen).
  split; [apply Hinv|]. destruct st as [sequence notify|]; [|done]. split.
  - destruct (sm_notify _ _ _ _ _ _ Hinv) as [[-> Hall]|?]; [|done]. intros [?|Hc]; [done|].
    apply (bi_open _ (sm_broker _ _ _ _ _ _ Hinv) _ _ Hs), Hc.
  - intros writes Hw. pose proof (stream_inv_place _ _ _ _ _ _ Hinv) as Hplace. pose proof (sm_sequence _ _ _ _ _ _ Hinv) as Hseq.
    cbn in Hseq. subst sequence.
    destruct (sse_round_spec b runID (n + length sent) writes s) as (more & st & Heq & Hpre & _ & Hround);
      [done|by eapply bi_numbered, Hs; apply Hinv|done|done|].
    rewrite Heq. cbn. destruct (sm_sent _ _ _ _ _ _ Hinv) as [rest Hrest].
    assert (more = drop (n + length sent) (es_events s)) as ->.
    { destruct st; [by destruct Hround as (-> & _)|]. destruct Hround as [Hlt|]; [|done]. rewrite length_drop in Hlt. lia. }
    rewrite <- drop_drop, Hrest. by rewrite drop_app_length.
Qed.

(** ** Event numbers of another process *)

Lemma sse_round_stale b runID n writes s b' sent st :
  eb_streams b !! runID = Some s -> (length (es_events s) <= n)%nat ->
  sse_round b runID (Z.of_nat n) writes = (b', (sent, st)) -> sent = [] /\ sse_sequence st = Z.of_nat n.
Proof.
  intros Hs Hlen. unfold sse_round, eventsAfter. rewrite Hs.
  destruct (Z.ltb_spec (Z.of_nat n) (Z.of_nat (length (es_events s)))); [lia|]. rewrite drop_ge by done. cbn.
  intros [= _ <- <-]. by destruct (_ || _).
Qed.

(** A client that reconnects to a new process with the last event number of
    the old one is sent nothing while the new log is not longer than that number:
    all events of the run up to there, its completion among them, are withheld. *)
Theorem stale_event_number_withholds runID b0 s0 n b sent st :
  rtc broker_step newEventBroker b0 -> eb_streams b0 !! runID = Some s0 ->
  streaming runID b0 (Z.of_nat n) b sent st ->
  exists s, eb_streams b !! runID = Some s /\ ((length (es_events s) <= n)%nat -> sent = []).
Proof.
  intros Hb Hs0 Hst. pose proof (steps_inv _ _ Hb newEventBroker_inv) as Hi0.
  cut (broker_inv b /\ exists s, eb_streams b !! runID = Some s /\
    ((length (es_events s) <= n)%nat -> sent = [] /\ sse_sequence st = Z.of_nat n)).
  { intros (_ & s & Hs & Hn). exists s. split; [done|]. apply Hn. }
  induction Hst as [writes b sent st Hr|b b' sent st _ IH Hstep|b b' sent sequence notify writes more st _ IH Hr
    |b sent sequence notify _ IH]; [| | |done].
  - pose proof (sse_round_broker _ _ (Z.of_nat n) writes _ Hs0) as Heq. rewrite Hr in Heq. cbn in Heq. subst b.
    split; [done|]. exists s0. split; [done|]. intros Hlen. by eapply sse_round_stale.
  - destruct IH as (Hi & s & Hs & IH). split; [by eapply step_inv|].
    destruct (step_log _ _ _ _ Hi Hstep Hs) as (s' & Hs' & Hpre%prefix_length & _). exists s'. split; [done|].
    intros Hlen. apply IH. lia.
  - destruct IH as (Hi & s & Hs & IH). pose proof (sse_round_broker _ _ sequence writes _ Hs) as Heq.
    rewrite Hr in Heq. cbn in Heq. subst b'. split; [done|]. exists s. split; [done|]. intros Hlen.
    destruct (IH Hlen) as [-> Hseq]. cbn in Hseq. subst sequence. by eapply sse_round_stale.
Qed.
