(* ===== verification/EventsLog.v ===== *)
(** * The event log as a record of the run

    Replaying the log of a run from its first snapshot gives the statuses of the
    latest one: the log is a refinement of the history of durable states to the
    changes of status in it. *)
From S2P Require Import Prelude Workflow Heap Graph GraphBuild GraphOrder Errors Run Ids Snapshot SnapshotValid RunStep RunInv RunProps RunDurable Broker Engine EngineInv EngineProps EngineRuns Events EventsProps.

(** ** The abstract state of a run: its statuses *)

Definition run_view : Type := gmap string TaskRunStatus * WorkflowRunStatus.

Definition view_of (r : WorkflowRun) : run_view := (tr_Status <$> run_tasks r, run_status r).

(** What a client that keeps the statuses does with an event. *)
Definition is_workflow_event (e : RunEvent) : bool :=
  String.eqb (re_Type e) eventWorkflowStarted || String.eqb (re_Type e) eventWorkflowCompleted
  || String.eqb (re_Type e) eventRunSnapshot.

Definition apply_event (v : run_view) (e : RunEvent) : run_view :=
  if is_workflow_event e then (fst v, re_Status e) else (<[re_TaskID e := re_TaskStatus e]> (fst v), snd v).

(** ** One step of the log *)

Section Derived.
Context `{Unicode}.

Lemma snapshot_tasks r : run_inv r -> tasks_by_id (snap_Tasks (Snapshot r)) = run_tasks r.
Proof. intros Hi. exact (rebuild_map tr_TaskID id (run_tasks r) (run_tasks_keyed r Hi) (fun _ _ _ => eq_refl)). Qed.

(** Every change of status is one that the events report. *)
Definition reported (r r' : WorkflowRun) : Prop :=
  (forall k s s', stat r k = Some s -> stat r' k = Some s' -> s <> s' -> is_Some (taskTransitionEvent s s')) /\
  (run_status r' = run_status r \/ run_status r' = WorkflowRunRunning \/ terminalWorkflowStatus (run_status r') = true) /\
  forall k, is_Some (stat r' k) <-> is_Some (stat r k).

(** A fold over events of tasks sets the statuses they carry. *)
Lemma fold_task_events (f : string -> TaskRunStatus) events v k :
  Forall (fun e => is_workflow_event e = false /\ re_TaskStatus e = f (re_TaskID e)) events ->
  snd (foldl apply_event v events) = snd v /\
  fst (foldl apply_event v events) !! k = if decide (k ∈ re_TaskID <$> events) then Some (f k) else fst v !! k.
Proof.
  revert v. induction events as [|e events IH]; intros v; cbn; [done|].
  intros [[He Hs] Hrest]%Forall_cons. destruct (IH (apply_event v e) Hrest) as [-> ->].
  unfold apply_event. rewrite He. cbn. split; [done|].
  destruct (decide (k ∈ re_TaskID <$> events)) as [Hin|Hout].
  { rewrite decide_True; [done|]. by right. }
  destruct (decide (k = re_TaskID e)) as [->|Hne].
  - rewrite lookup_insert_eq, decide_True, Hs; [done|]. by left.
  - rewrite lookup_insert_ne, decide_False; [done| |done]. rewrite elem_of_cons. naive_solver.
Qed.

Lemma transition_type s s' type p :
  taskTransitionEvent s s' = Some (type, p) ->
  String.eqb type eventWorkflowStarted || String.eqb type eventWorkflowCompleted || String.eqb type eventRunSnapshot = false.
Proof. destruct s'; cbn; try done; [case_bool_decide|..]; by intros [= <- _]. Qed.

(** The events of the tasks between two states of a run. *)
Lemma task_events_elem r r' p e :
  run_inv r -> run_inv r' ->
  (p, e) ∈ omap (task_event (run_tasks r) (Snapshot r')) (snap_Tasks (Snapshot r')) <->
  exists k t, run_tasks r' !! k = Some t /\ task_event (run_tasks r) (Snapshot r') t = Some (p, e).
Proof.
  intros Hi Hi'. rewrite list_elem_of_omap. cbn [snap_Tasks Snapshot]. unfold sortedTasks.
  setoid_rewrite sorted_values_elem. naive_solver.
Qed.

(** An event of a task carries its new status; a task has one when its status has
    changed. *)
Lemma task_event_spec r r' k t :
  run_inv r -> run_inv r' -> reported r r' -> run_tasks r' !! k = Some t ->
  match task_event (run_tasks r) (Snapshot r') t with
  | Some (p, e) => is_workflow_event e = false /\ re_TaskID e = k /\ re_TaskStatus e = tr_Status t
  | None => stat r k = Some (tr_Status t)
  end.
Proof.
  intros Hi Hi' (Hrep & _ & Hdom) Ht. pose proof (run_tasks_keyed r' Hi' k t Ht) as Hk.
  destruct (proj1 (Hdom k)) as [s Hs]; [by rewrite (stat_some _ _ _ Ht)|].
  destruct (stat_inv _ _ _ Hs) as (old & Hold & <-). unfold task_event. rewrite Hk, Hold.
  case_bool_decide as Heq; [by rewrite Hs, Heq|].
  destruct (Hrep k _ _ Hs (stat_some _ _ _ Ht) Heq) as [[type p] Htype]. rewrite Htype.
  split; [by eapply transition_type|done].
Qed.

Lemma task_events_view r r' v :
  run_inv r -> run_inv r' -> reported r r' -> fst v = tr_Status <$> run_tasks r ->
  foldl apply_event v
    (snd <$> merge_sort event_le (omap (task_event (run_tasks r) (Snapshot r')) (snap_Tasks (Snapshot r'))))
  = (tr_Status <$> run_tasks r', snd v).
Proof.
  intros Hi Hi' Hrep Hv. set (events := snd <$> _).
  assert (Hin : forall e, e ∈ events <-> exists k t p, run_tasks r' !! k = Some t /\
    task_event (run_tasks r) (Snapshot r') t = Some (p, e)).
  { intros e. unfold events. rewrite list_elem_of_fmap. setoid_rewrite merge_sort_Permutation. split.
    - intros ([p e'] & -> & (k & t & ? & ?)%task_events_elem); eauto 6.
    - intros (k & t & p & ? & ?). exists (p, e). split; [done|]. apply task_events_elem; eauto. }
  assert (Hall : Forall (fun e => is_workflow_event e = false /\
    re_TaskStatus e = default no_task_status (stat r' (re_TaskID e))) events).
  { rewrite Forall_forall. intros e (k & t & p & Ht & He)%Hin.
    pose proof (task_event_spec r r' k t Hi Hi' Hrep Ht) as Hs. rewrite He in Hs. destruct Hs as (? & -> & ?).
    by rewrite (stat_some _ _ _ Ht). }
  pose proof (fun k => fold_task_events (fun k => default no_task_status (stat r' k)) events v k Hall) as Hfold.
  apply injective_projections; [|by apply (Hfold "")]. apply map_eq. intros k. destruct (Hfold k) as [_ ->].
  cbn [fst]. rewrite lookup_fmap. change (tr_Status <$> run_tasks r' !! k) with (stat r' k). case_decide as Hk.
  - apply list_elem_of_fmap in Hk as (e & -> & (k & t & p & Ht & He)%Hin).
    pose proof (task_event_spec r r' k t Hi Hi' Hrep Ht) as Hs. rewrite He in Hs. destruct Hs as (_ & -> & _).
    by rewrite (stat_some _ _ _ Ht).
  - rewrite Hv, lookup_fmap. change (tr_Status <$> run_tasks r !! k) with (stat r k).
    destruct (run_tasks r' !! k) as [t|] eqn:Ht.
    + rewrite (stat_some _ _ _ Ht). pose proof (task_event_spec r r' k t Hi Hi' Hrep Ht) as Hs.
      destruct (task_event _ _ t) as [[p e]|] eqn:He; [|done]. destruct Hk, Hs as (_ & <- & _).
      apply list_elem_of_fmap_2, Hin. eauto.
    + destruct Hrep as (_ & _ & Hdom). unfold stat at 2. rewrite Ht. apply eq_None_not_Some. rewrite <- Hdom.
      unfold stat. rewrite Ht. by intros [? ?].
Qed.

(** Replaying what [deriveRunEvents] finds between two states takes a client from
    the statuses of the first to those of the second. *)
Lemma derived_view r r' :
  run_inv r -> run_inv r' -> reported r r' ->
  foldl apply_event (view_of r) (deriveRunEvents (Snapshot r) (Snapshot r')) = view_of r'.
Proof.
  intros Hi Hi' Hrep. unfold deriveRunEvents. rewrite (snapshot_tasks r Hi), !foldl_app.
  set (v := foldl apply_event (view_of r) _).
  assert (Hv : fst v = tr_Status <$> run_tasks r /\
    snd v = if bool_decide (run_status r' = WorkflowRunRunning) then WorkflowRunRunning else run_status r).
  { unfold v. cbn [Snapshot snap_Status]. by repeat case_bool_decide. }
  destruct Hv as [Hv1 Hv2]. rewrite (task_events_view r r' v Hi Hi' Hrep Hv1), Hv2. unfold view_of.
  destruct Hrep as (_ & Hst & _). cbn [Snapshot snap_Status].
  destruct (run_status r') eqn:Er; repeat case_bool_decide; cbn; try done;
    destruct Hst as [Hst|[Hst|Hst]]; cbn in *; congruence.
Qed.

(** ** Steps of a run are reported *)

(** A task never becomes pending again, and its status is a declared one. *)
Definition settled (s : TaskRunStatus) : Prop := s <> TaskRunPending /\ forall raw, s <> TaskRunOther raw.

Lemma moves_settled op k s s' : status_moves op k s s' -> s' = s \/ settled s'.
Proof.
  unfold settled. destruct op as [j target o e|target|c|w d|j w d|j rid w a o e| | |v]; cbn; intros Hm; try done.
  - destruct Hm as (_ & -> & Hl). right. by destruct s, target.
  - destruct Hm as [_ ->]. by right.
  - by left.
  - destruct Hm as (_ & _ & ->). by right.
  - destruct Hm as (_ & _ & Hm). right. destruct e; [destruct Hm as [-> | [-> | ->]]|subst]; done.
  - destruct Hm as (_ & [-> | [-> | ->]]); by right.
  - destruct Hm as (_ & ->). by right.
Qed.

Lemma run_step_stat r r' k s :
  run_step r r' -> stat r k = Some s -> exists s', stat r' k = Some s' /\ (s' = s \/ settled s').
Proof.
  intros (now & op & _ & ->) Hs. pose proof (exec_stat r now op k) as He. rewrite Hs in He.
  destruct He as (s' & -> & [->|Hm]); [eauto|]. eauto using moves_settled.
Qed.

Lemma run_step_status r r' :
  run_step r r' ->
  run_status r' = run_status r \/ run_status r' = WorkflowRunRunning \/ terminalWorkflowStatus (run_status r') = true.
Proof.
  intros (now & op & _ & ->). destruct (exec_frame r now op) as (_ & _ & _ & _ & _ & [->|(target & _ & -> & Hl)]); [by left|].
  destruct (run_status r), target; try done; auto.
Qed.

Lemma steps_reported r r' : rtc run_step r r' -> reported r r'.
Proof.
  intros Hsteps. assert (Hstat : forall k s, stat r k = Some s -> exists s', stat r' k = Some s' /\ (s' = s \/ settled s')).
  { induction Hsteps as [r|r r1 r2 Hstep _ IH]; [eauto|]. intros k s Hs.
    destruct (run_step_stat _ _ _ _ Hstep Hs) as (s1 & Hs1 & Hc). destruct (IH k s1 Hs1) as (s2 & Hs2 & [->|?]); eauto. }
  split_and!.
  - intros k s s' Hs Hs' Hne. destruct (Hstat k s Hs) as (s1 & Hs1 & [->|[Hp Ho]]); [congruence|].
    assert (s1 = s') as -> by congruence. destruct s'; cbn; try done; [by case_bool_decide|by destruct (Ho raw)].
  - clear Hstat. induction Hsteps as [r|r r1 r2 Hstep _ IH]; [by left|].
    destruct (run_step_status _ _ Hstep) as [<-|Hc]; [done|]. destruct IH as [->|?]; [by right|by right].
  - intros k. split; [|intros [s Hs]; destruct (Hstat k s Hs) as (s' & -> & _); eauto].
    intros Hs'. clear Hstat. induction Hsteps as [r|r r1 r2 (now & op & _ & ->) _ IH]; [done|].
    specialize (IH Hs'). pose proof (exec_stat r now op k) as He. destruct (stat r k); [eauto|]. by rewrite He in IH.
Qed.

Lemma number_events_view log events v : foldl apply_event v (number_events log events) = foldl apply_event v events.
Proof.
  revert log v. induction events as [|e events IH]; intros log v; cbn; [done|]. rewrite IH. by destruct e.
Qed.

Lemma steps_id r r' : rtc run_step r r' -> run_id r' = run_id r.
Proof. induction 1 as [|r r1 r2 (now & op & _ & ->) _ IH]; [done|]. by rewrite IH, exec_id. Qed.

(** ** The log of a run *)

(** Uses of the broker for other runs, for reading and at shutdown. *)
Inductive other_step (runID : string) (b : eventBroker) : eventBroker -> Prop :=
| os_observe snapshot : snap_ID snapshot <> runID -> other_step runID b (fst (observe b snapshot))
| os_seed snapshot : other_step runID b (seed b snapshot)
| os_read r sequence : other_step runID b (fst (eventsAfter b r sequence))
| os_close : other_step runID b (eventBroker_close b).

(** The broker while it follows a run: its log starts when the run is created or,
    in a later process, when a client first asks for it; every save is observed. *)
Inductive followed (r0 : WorkflowRun) : eventBroker -> WorkflowRun -> Prop :=
| followed_created b :
    broker_inv b -> eb_closed b = false -> eb_streams b !! run_id r0 = None ->
    followed r0 (fst (observe b (Snapshot r0))) r0
| followed_seeded b :
    broker_inv b -> eb_closed b = false -> eb_streams b !! run_id r0 = None ->
    followed r0 (seed b (Snapshot r0)) r0
| followed_saved b r r' :
    followed r0 b r -> rtc run_step r r' -> followed r0 (fst (observe b (Snapshot r'))) r'
| followed_other b b' r : followed r0 b r -> other_step (run_id r0) b b' -> followed r0 b' r.

(** The log [events] with the latest snapshot [latest], for a run that has got to
    [r]. *)
Record log_inv (r0 r : WorkflowRun) (b : eventBroker) (s : runEventStream) (latest : WorkflowRun) : Prop := {
  li_broker : broker_inv b;
  li_stream : eb_streams b !! run_id r0 = Some s;
  li_latest : es_latest s = Snapshot latest;
  li_before : rtc run_step r0 latest;
  li_after : rtc run_step latest r;
  li_current : eb_closed b = false -> latest = r;
  li_replay : foldl apply_event (view_of r0) (es_events s) = view_of latest
}.

Lemma log_saved r0 r r' b s latest :
  run_inv r0 -> log_inv r0 r b s latest -> rtc run_step r r' ->
  exists s' latest', log_inv r0 r' (fst (observe b (Snapshot r'))) s' latest'.
Proof.
  intros Hi0 [Hb Hs Hl Hbefore Hafter Hcur Hreplay] Hsteps. pose proof (observe_inv b (Snapshot r') Hb) as Hb'.
  assert (Hid : snap_ID (Snapshot r') = run_id r0) by (cbn; rewrite (steps_id r r'), (steps_id latest r); [by apply steps_id|done|done]).
  unfold observe in *. destruct (eb_closed b) eqn:Hc.
  { exists s, latest. split; try done; [by etrans|cbn; congruence]. }
  rewrite Hid, Hs, Hl in *. assert (latest = r) as -> by by apply Hcur.
  pose proof (rtc_run_inv _ _ Hbefore Hi0) as Hi. pose proof (rtc_run_inv _ _ Hsteps Hi) as Hi'.
  pose proof (derived_view r r' Hi Hi' (steps_reported _ _ Hsteps)) as Hview.
  destruct (deriveRunEvents _ _) as [|e events]; eexists _, r'; (split; [exact Hb'|cbn; by rewrite lookup_insert_eq|..]);
    cbn [es_latest es_events]; try done; try (by etrans).
  rewrite foldl_app, Hreplay, <- Hview. apply (number_events_view (es_events s) (e :: events)).
Qed.

Lemma observe_other b snapshot r :
  snap_ID snapshot <> r ->
  eb_streams (fst (observe b snapshot)) !! r = eb_streams b !! r /\
  eb_closed (fst (observe b snapshot)) = eb_closed b.
Proof.
  intros Hne. unfold observe. destruct (eb_closed b) eqn:Hc; [done|].
  destruct (eb_streams b !! snap_ID snapshot); [destruct (deriveRunEvents _ _)|]; cbn;
    by rewrite lookup_insert_ne.
Qed.

Lemma seed_known b snapshot r s :
  eb_streams b !! r = Some s ->
  eb_streams (seed b snapshot) !! r = Some s /\ eb_closed (seed b snapshot) = eb_closed b.
Proof.
  intros Hs. unfold seed. destruct (eb_closed b) eqn:Hc; [done|].
  destruct (eb_streams b !! snap_ID snapshot) eqn:E; [done|]. cbn. by rewrite lookup_insert_ne by congruence.
Qed.

Lemma log_other r0 r b b' s latest :
  log_inv r0 r b s latest -> other_step (run_id r0) b b' -> log_inv r0 r b' s latest.
Proof.
  intros [Hb Hs Hl Hbefore Hafter Hcur Hreplay] Hother. destruct Hother as [snapshot Hne|snapshot|runID sequence|].
  - destruct (observe_other b snapshot _ Hne) as [Hst Hcl].
    split; try done; [by apply observe_inv|by rewrite Hst|by rewrite Hcl].
  - destruct (seed_known b snapshot _ _ Hs) as [Hst Hcl]. split; try done; [by apply seed_inv|by rewrite Hcl].
  - split; try done; [by apply read_inv| |]; unfold eventsAfter; by destruct (eb_streams b !! runID).
  - destruct (close_spec b Hb) as (Hst & Hcl & _). split; try done; [by apply close_inv|by rewrite Hst|congruence].
Qed.

(** C17: the event log refines the durable history of a run. From the statuses at
    the start of the log, replaying its events gives exactly the statuses of its
    latest snapshot, which is a state the run went through; and until the broker
    is closed the latest snapshot is the current state of the run. No change of
    status is missing from the log and none is invented, whatever else the broker
    is used for in between. *)
Theorem event_log_refines r0 b r :
  run_inv r0 -> followed r0 b r ->
  exists s latest,
    eb_streams b !! run_id r0 = Some s /\ es_latest s = Snapshot latest /\
    foldl apply_event (view_of r0) (es_events s) = view_of latest /\
    rtc run_step r0 latest /\ rtc run_step latest r /\ (eb_closed b = false -> latest = r).
Proof.
  intros Hi0 Hf. assert (Hlog : exists s latest, log_inv r0 r b s latest).
  { induction Hf as [b Hb Hc Hn|b Hb Hc Hn|b r r' _ IH Hsteps|b b' r _ IH Hother].
    - pose proof (observe_inv b (Snapshot r0) Hb) as Hb'. unfold observe in *. rewrite Hc in *. cbn [snap_ID Snapshot] in *.
      rewrite Hn in *. eexists _, r0. split; [exact Hb'|cbn; by rewrite lookup_insert_eq|done..].
    - pose proof (seed_inv b (Snapshot r0) Hb) as Hb'. unfold seed in *. rewrite Hc in *. cbn [snap_ID Snapshot] in *.
      rewrite Hn in *. eexists _, r0. split; [exact Hb'|cbn; by rewrite lookup_insert_eq|done..].
    - destruct IH as (s & latest & IH). by eapply log_saved.
    - destruct IH as (s & latest & IH). exists s, latest. by eapply log_other. }
  destruct Hlog as (s & latest & []). exists s, latest. by split_and!.
Qed.
End Derived.

(** ** The observed store as the engine's store *)

Lemma observe_latest b snapshot :
  eb_closed (fst (observe b snapshot)) = eb_closed b /\
  (eb_closed b = false -> es_latest <$> eb_streams (fst (observe b snapshot)) !! snap_ID snapshot = Some snapshot).
Proof.
  unfold observe. destruct (eb_closed b) eqn:Hc; [done|].
  destruct (eb_streams b !! snap_ID snapshot); [destruct (deriveRunEvents _ _)|]; cbn; by rewrite lookup_insert_eq.
Qed.

Section Observed.
Context `{Unicode} {St : Type} `{!Store St} `{!StoreLaws}.

Lemma observed_SaveRun_ok (s s' : observedStore St) ctx snapshot stored :
  observed_SaveRun s ctx snapshot = (s', Ok stored) ->
  store_SaveRun (os_delegate s) ctx snapshot = (os_delegate s', Ok stored) /\
  os_broker s' = fst (observe (os_broker s) stored).
Proof.
  unfold observed_SaveRun. destruct (store_SaveRun _ _ _) as [delegate [v|e]]; [|done].
  destruct (observe _ v) as [broker events] eqn:Eo. intros [= <- <-]. by rewrite Eo.
Qed.

Lemma observed_CreateRun_ok (s s' : observedStore St) ctx snapshot stored :
  observed_CreateRun s ctx snapshot = (s', Ok stored) ->
  store_CreateRun (os_delegate s) ctx snapshot = (os_delegate s', Ok stored) /\
  os_broker s' = fst (observe (os_broker s) stored).
Proof.
  unfold observed_CreateRun. destruct (store_CreateRun _ _ _) as [delegate [v|e]]; [|done]. by intros [= <- <-].
Qed.

(** The event broker has the snapshot, unless it is closed. *)
Definition broker_current (s : observedStore St) (snapshot : WorkflowRunSnapshot) : Prop :=
  eb_closed (os_broker s) = false -> es_latest <$> eb_streams (os_broker s) !! snap_ID snapshot = Some snapshot.

Lemma observed_current (s s' : observedStore St) stored :
  os_broker s' = fst (observe (os_broker s) stored) -> broker_current s' stored.
Proof. intros Hb. unfold broker_current. rewrite Hb. destruct (observe_latest (os_broker s) stored) as [-> Ho]. done. Qed.

Lemma observed_CreateRun_created (s s' : observedStore St) r stored :
  shaped r ->
  store_LoadWorkflow (os_delegate s) CtxLive (wd_ID (run_definition r)) = Ok (Some (run_definition r)) ->
  observed_CreateRun s CtxLive (Snapshot r) = (s', Ok stored) ->
  run_version r = 0 /\ stored = snapshot_with_version (Snapshot r) 1 /\
  store_holds (os_delegate s') (setPersistedVersion r 1) /\ broker_current s' stored.
Proof.
  intros Hr Hl [Hs Hb]%observed_CreateRun_ok. apply CreateRun_created in Hs as (? & ? & ?); [|done|done].
  split_and!; try done. by eapply observed_current.
Qed.

Lemma observed_SaveRun_saved (s s' : observedStore St) r0 r stored :
  same_run r0 r -> store_holds (os_delegate s) r0 -> observed_SaveRun s CtxLive (Snapshot r) = (s', Ok stored) ->
  validateSnapshot (Snapshot r) = Ok tt /\
  stored = snapshot_with_version (Snapshot r) (wrap_uint64 (run_version r + 1)) /\
  store_holds (os_delegate s') (setPersistedVersion r (wrap_uint64 (run_version r + 1))) /\ broker_current s' stored.
Proof.
  intros Hr Hh [Hs Hb]%observed_SaveRun_ok. apply (SaveRun_saved _ _ r0) in Hs as (? & ? & ?); [|done|done].
  split_and!; try done. by eapply observed_current.
Qed.

Lemma observed_SaveWorkflow_saved (s s' : observedStore St) d u :
  cloneDefinition d = d -> @store_SaveWorkflow _ observed_store s CtxLive d = (s', Ok u) ->
  @store_LoadWorkflow _ observed_store s' CtxLive (wd_ID d) = Ok (Some d).
Proof.
  intros Hc. cbn. unfold observed_SaveWorkflow. destruct (store_SaveWorkflow _ _ _) as [ds out] eqn:E. intros [= <- ->]. cbn.
  by apply SaveWorkflow_saved in E.
Qed.

(** What the observed store holds is what its delegate holds. *)
#[export] Instance observed_laws : @StoreLaws _ (observedStore St) observed_store.
Proof.
  refine {| store_holds s r := store_holds (os_delegate s) r; SaveWorkflow_saved := observed_SaveWorkflow_saved |}.
  - intros s s' r stored Hr Hl Hs. by destruct (observed_CreateRun_created s s' r stored Hr Hl Hs) as (? & ? & ? & _).
  - intros s s' r0 r stored Hr Hh Hs. by destruct (observed_SaveRun_saved s s' r0 r stored Hr Hh Hs) as (? & ? & ? & _).
Defined.

#[export] Instance observed_recover_laws `{!RecoverLaws} : @RecoverLaws _ (observedStore St) observed_store observed_laws.
Proof. split. intros s r. apply (holds_recovers (os_delegate s)). Qed.

(** Holding, with the event broker up to date in every state but the one in which
    the run was found. *)
Definition live_laws (found : WorkflowRunSnapshot) : @StoreLaws _ (observedStore St) observed_store.
Proof.
  refine {| store_holds s r :=
    store_holds (os_delegate s) r /\ (Snapshot r = found \/ broker_current s (Snapshot r));
    SaveWorkflow_saved := observed_SaveWorkflow_saved |}.
  - intros s s' r stored Hr Hl Hs. destruct (observed_CreateRun_created s s' r stored Hr Hl Hs) as (? & -> & ? & ?). auto.
  - intros s s' r0 r stored Hr [Hh _] Hs. destruct (observed_SaveRun_saved s s' r0 r stored Hr Hh Hs) as (? & -> & ? & ?). auto.
Defined.

Section Live.
Context `{!RecoverLaws} `{DispatchCodec} (clock : nat -> Z) (cfg : engine_config) (trace_headers : string -> gmap string string).

(** From the moment the API has created a run, for as long as its execution
    goes on and the event broker is open, the store holds the run as it is in memory
    and the latest snapshot in the broker is exactly that: what a client is shown is
    what a crash would leave. *)
Theorem live_view_current {A : Type} (handlers : gmap string A) runID d now r store store' stored b ctx its st :
  newWorkflowRun runID d now = Ok r -> definition_in_range d -> 0 < now ->
  store_LoadWorkflow (os_delegate store) CtxLive (wd_ID d) = Ok (Some (cloneDefinition d)) ->
  observed_CreateRun store CtxLive (Snapshot r) = (store', Ok stored) -> ctx <> CtxNil ->
  Recover clock cfg trace_headers handlers store' b CtxLive ctx runID its = WithRun (Next st tt) ->
  store_holds (os_delegate (sc_store st)) (sc_run st) /\
  (eb_closed (os_broker (sc_store st)) = false ->
   es_latest <$> eb_streams (os_broker (sc_store st)) !! runID = Some (Snapshot (sc_run st))).
Proof.
  intros Hn Hd Hnow Hl Hc Hctx Hrec. set (S := mkSubject runID (cloneDefinition d)).
  destruct (@Recover_accepted _ _ _ observed_store observed_laws clock cfg trace_headers observed_recover_laws A handlers
    _ _ _ _ store store' stored b ctx its Hn Hd Hnow Hl Hc Hctx) as (r' & Hf & _ & Hh & Heq).
  rewrite Heq in Hrec. injection Hrec as Hrun.
  pose proof (@resume_fresh_keeps _ _ _ observed_store (live_laws (Snapshot r')) clock cfg trace_headers S A handlers ctx its
    (initial_scheduler store' b r' 0) Hf (conj Hh (or_introl eq_refl))) as Hk.
  unfold wp in Hk. rewrite Hrun in Hk. destruct Hk as [Hcore _ Hsaved].
  destruct (ci_subject _ _ _ Hcore) as [Hid _]. destruct Hsaved as [Hheld [Hfound|Hcurrent]].
  - exfalso. pose proof (ci_status _ _ _ Hcore) as Hs. pose proof (fr_status _ Hf) as Hp.
    apply (f_equal snap_Status) in Hfound. cbn in Hfound. congruence.
  - split; [done|]. intros Hopen. specialize (Hcurrent Hopen). cbn in Hcurrent. by rewrite Hid in Hcurrent.
Qed.
End Live.
End Observed.
