(* ===== verification/Metrics.v ===== *)
(** * Metrics

    Models [src/internal/observability/metrics.go]: the registry with one function
    per method, and the text that [WritePrometheus] gives to its writer. Durations
    are [float64] seconds, with the binary64 operations of [SpecFloat] and the
    shortest decimal form of [strconv.FormatFloat]. *)
From S2P Require Import Prelude Workflow Errors Graph Run RunStep Duration Events.
From Stdlib Require Import Floats.SpecFloat.

(** ** Floating point *)

Definition float_add : spec_float -> spec_float -> spec_float := SFadd 53 1024.
Definition float_zero : spec_float := S754_zero false.

(** The [float64] nearest to [n / d], for [n] and [d] below [2^53]. *)
Definition float_lit (n d : Z) : spec_float := float_div (float_of_Z n) (float_of_Z d).

(** [Duration.Seconds]. *)
Definition Duration_Seconds (d : Z) : spec_float :=
  float_add (float_of_Z (Z.quot d Second)) (float_div (float_of_Z (Z.rem d Second)) (float_of_Z Second)).

(** A positive fraction times a power of ten, as numerator and denominator. *)
Definition scale10 (num den k : Z) : Z * Z :=
  if 0 <=? k then (num * 10 ^ k, den) else (num, den * 10 ^ (- k)).

(** The number of digits before the decimal point of [num / den]; it is zero or
    negative for a fraction below 1/10. *)
Fixpoint point_up (fuel : nat) (num den dp : Z) : Z :=
  match fuel with
  | O => dp
  | S n => if num <? den then dp else point_up n num (den * 10) (dp + 1)
  end.
Fixpoint point_down (fuel : nat) (num den dp : Z) : Z :=
  match fuel with
  | O => dp
  | S n => if num * 10 <? den then point_down n (num * 10) den (dp - 1) else dp
  end.
Definition decimal_point (num den : Z) : Z :=
  if num <? den then point_down 400 num den 0 else point_up 400 num den 0.

(** Whether [digits * 10^(dp - n)] lies between the midpoints to the neighbours of
    the float [m * 2^e]; the midpoints count when the mantissa is even. All three
    are compared as multiples of [2^(e-2)]. *)
Definition reads_back (m : Z) (e : Z) (digits scale : Z) : bool :=
  let lower := if (m =? 4503599627370496) && negb (e =? -1074) then 4 * m - 1 else 4 * m - 2 in
  let upper := 4 * m + 2 in
  let '(num, den) := scale10 digits 1 scale in
  let '(num, den) := if 0 <=? e - 2 then (num, den * 2 ^ (e - 2)) else (num * 2 ^ (2 - e), den) in
  if Z.even m then (lower * den <=? num) && (num <=? upper * den)
  else (lower * den <? num) && (num <? upper * den).

(** The fewest digits that read back as the float, and the closest of them; the
    float is [num / den]. *)
Fixpoint shortest_from (fuel : nat) (n : Z) (m e num den dp : Z) : Z * Z :=
  let '(a, b) := scale10 num den (n - dp) in
  let down := a / b in
  let ok_down := reads_back m e down (dp - n) in
  let ok_up := reads_back m e (down + 1) (dp - n) in
  let round_up :=
    let rest := 2 * (a mod b) in
    if rest =? b then Z.odd down else b <? rest in
  match fuel with
  | O => (down, n)
  | S k =>
      if ok_down && ok_up then (if round_up then down + 1 else down, n)
      else if ok_down then (down, n)
      else if ok_up then (down + 1, n)
      else shortest_from k (n + 1) m e num den dp
  end.

Fixpoint strip_zeros (fuel : nat) (digits : Z) : Z :=
  match fuel with
  | O => digits
  | S k => if digits mod 10 =? 0 then strip_zeros k (digits / 10) else digits
  end.

Fixpoint zeros (n : nat) : string := match n with O => "" | S k => String (Ascii.ascii_of_nat 48) (zeros k) end.

(** The format [%e] with at least two digits of exponent, and [%f]. *)
Definition format_e (digits : string) (exp : Z) : string :=
  let mantissa :=
    match digits with
    | String c EmptyString => String c EmptyString
    | String c rest => String c ("." +:+ rest)
    | EmptyString => EmptyString
    end in
  let size := Z.abs exp in
  mantissa +:+ "e" +:+ (if exp <? 0 then "-" else "+") +:+ (if size <? 10 then "0" else "") +:+ fmt_d size.

Definition format_f (digits : string) (dp : Z) : string :=
  let len := Z.of_nat (String.length digits) in
  if dp <=? 0 then "0." +:+ zeros (Z.to_nat (- dp)) +:+ digits
  else if len <=? dp then digits +:+ zeros (Z.to_nat (dp - len))
  else String.substring 0 (Z.to_nat dp) digits +:+ "." +:+ String.substring (Z.to_nat dp) (Z.to_nat (len - dp)) digits.

(** [strconv.FormatFloat(x, 'g', -1, 64)]. *)
Definition FormatFloat (x : spec_float) : string :=
  match x with
  | S754_zero s => (if s then "-" else "") +:+ "0"
  | S754_infinity s => (if s then "-" else "+") +:+ "Inf"
  | S754_nan => "NaN"
  | S754_finite s m e =>
      let num := if 0 <=? e then Z.pos m * 2 ^ e else Z.pos m in
      let den := if 0 <=? e then 1 else 2 ^ (- e) in
      let dp := decimal_point num den in
      let '(digits, n) := shortest_from 17 1 (Z.pos m) e num den dp in
      let dp := if digits =? 10 ^ n then dp + 1 else dp in
      let digits := fmt_d (strip_zeros 20 digits) in
      let exp := dp - 1 in
      (if s then "-" else "") +:+
      (if (exp <? -4) || (6 <=? exp) then format_e digits exp else format_f digits dp)
  end.

(** ** Histograms *)

Record histogram := mkHistogram {
  hg_bounds : list spec_float;
  hg_bucket : list Z;
  hg_count : Z;
  hg_sum : spec_float
}.

Definition requestDurationBuckets : list spec_float :=
  [float_lit 1 1000; float_lit 5 1000; float_lit 1 100; float_lit 25 1000; float_lit 5 100; float_lit 1 10;
   float_lit 25 100; float_lit 5 10; float_lit 1 1; float_lit 25 10; float_lit 5 1; float_lit 10 1].
Definition taskDurationBuckets : list spec_float := requestDurationBuckets ++ [float_lit 30 1; float_lit 60 1].
Definition workflowDurationBuckets : list spec_float :=
  [float_lit 5 1000; float_lit 1 100; float_lit 5 100; float_lit 1 10; float_lit 25 100; float_lit 5 10; float_lit 1 1;
   float_lit 25 10; float_lit 5 1; float_lit 10 1; float_lit 30 1; float_lit 60 1; float_lit 300 1].

Definition newHistogram (bounds : list spec_float) : histogram :=
  mkHistogram bounds (replicate (length bounds) 0) 0 float_zero.

Definition histogram_observe (h : histogram) (value : spec_float) : histogram :=
  let value := if SFltb value float_zero then float_zero else value in
  mkHistogram (hg_bounds h)
    (zip_with (fun bound count => if SFleb value bound then wrap_uint64 (count + 1) else count) (hg_bounds h) (hg_bucket h))
    (wrap_uint64 (hg_count h + 1)) (float_add (hg_sum h) value).

(** ** The registry *)

Record httpMetricKey := mkHttpKey {
  hk_method : string;
  hk_route : string;
  hk_status : Z
}.
#[export] Instance httpMetricKey_eq_dec : EqDecision httpMetricKey.
Proof. solve_decision. Defined.
#[export] Instance httpMetricKey_countable : Countable httpMetricKey.
Proof.
  apply (inj_countable' (fun k => (hk_method k, hk_route k, hk_status k)) (fun '(m, r, s) => mkHttpKey m r s)).
  by intros [].
Defined.

Record Metrics := mkMetrics {
  m_workflowsSubmitted : Z;
  m_workflowsSucceeded : Z;
  m_workflowsFailed : Z;
  m_workflowsCanceled : Z;
  m_tasksExecuted : gmap string Z;
  m_taskFailures : Z;
  m_taskRetries : Z;
  m_activeWorkers : Z;
  m_queueDepth : Z;
  m_runningTasks : Z;
  m_httpRequests : gmap httpMetricKey Z;
  m_httpDuration : histogram;
  m_taskDuration : histogram;
  m_workflowDuration : histogram
}.

Definition NewMetrics : Metrics :=
  mkMetrics 0 0 0 0 ∅ 0 0 0 0 0 ∅ (newHistogram requestDurationBuckets) (newHistogram taskDurationBuckets)
    (newHistogram workflowDurationBuckets).

(** A counter of a Go map: a missing key reads as zero. *)
Definition count_key {K : Type} `{Countable K} (k : K) (counts : gmap K Z) : gmap K Z :=
  <[k := wrap_uint64 (default 0 (counts !! k) + 1)]> counts.

(** A gauge that is not decremented below zero. *)
Definition gauge_down (gauge : Z) : Z := if 0 <? gauge then wrap_int64 (gauge - 1) else gauge.

Definition WorkflowSubmitted (m : Metrics) : Metrics :=
  mkMetrics (wrap_uint64 (m_workflowsSubmitted m + 1)) (m_workflowsSucceeded m) (m_workflowsFailed m) (m_workflowsCanceled m)
    (m_tasksExecuted m) (m_taskFailures m) (m_taskRetries m) (m_activeWorkers m) (m_queueDepth m) (m_runningTasks m)
    (m_httpRequests m) (m_httpDuration m) (m_taskDuration m) (m_workflowDuration m).

Definition WorkflowCompleted (m : Metrics) (status : string) (duration : Z) : Metrics :=
  let bump name count := if String.eqb status name then wrap_uint64 (count + 1) else count in
  mkMetrics (m_workflowsSubmitted m) (bump "succeeded" (m_workflowsSucceeded m)) (bump "failed" (m_workflowsFailed m))
    (bump "canceled" (m_workflowsCanceled m)) (m_tasksExecuted m) (m_taskFailures m) (m_taskRetries m) (m_activeWorkers m)
    (m_queueDepth m) (m_runningTasks m) (m_httpRequests m) (m_httpDuration m) (m_taskDuration m)
    (histogram_observe (m_workflowDuration m) (Duration_Seconds duration)).

Definition set_gauges (m : Metrics) (activeWorkers queueDepth runningTasks : Z) : Metrics :=
  mkMetrics (m_workflowsSubmitted m) (m_workflowsSucceeded m) (m_workflowsFailed m) (m_workflowsCanceled m)
    (m_tasksExecuted m) (m_taskFailures m) (m_taskRetries m) activeWorkers queueDepth runningTasks
    (m_httpRequests m) (m_httpDuration m) (m_taskDuration m) (m_workflowDuration m).

Definition TaskStarted (m : Metrics) : Metrics :=
  set_gauges m (m_activeWorkers m) (m_queueDepth m) (wrap_int64 (m_runningTasks m + 1)).

(** The end of an attempt, which [TaskCompleted] and [RetryScheduled] share. *)
Definition attempt_ended (m : Metrics) (status : string) (failures retries : Z) (duration : Z) : Metrics :=
  mkMetrics (m_workflowsSubmitted m) (m_workflowsSucceeded m) (m_workflowsFailed m) (m_workflowsCanceled m)
    (count_key status (m_tasksExecuted m)) failures retries (m_activeWorkers m) (m_queueDepth m)
    (gauge_down (m_runningTasks m)) (m_httpRequests m) (m_httpDuration m)
    (histogram_observe (m_taskDuration m) (Duration_Seconds duration)) (m_workflowDuration m).

Definition TaskCompleted (m : Metrics) (status : string) (duration : Z) : Metrics :=
  attempt_ended m status
    (if String.eqb status "failed" then wrap_uint64 (m_taskFailures m + 1) else m_taskFailures m) (m_taskRetries m) duration.

Definition RetryScheduled (m : Metrics) (duration : Z) : Metrics :=
  attempt_ended m "failed" (wrap_uint64 (m_taskFailures m + 1)) (wrap_uint64 (m_taskRetries m + 1)) duration.

Definition WorkerStarted (m : Metrics) : Metrics :=
  set_gauges m (wrap_int64 (m_activeWorkers m + 1)) (m_queueDepth m) (m_runningTasks m).
Definition WorkerStopped (m : Metrics) : Metrics :=
  set_gauges m (gauge_down (m_activeWorkers m)) (m_queueDepth m) (m_runningTasks m).
Definition QueuePublished (m : Metrics) : Metrics :=
  set_gauges m (m_activeWorkers m) (wrap_int64 (m_queueDepth m + 1)) (m_runningTasks m).
Definition QueueClaimed (m : Metrics) : Metrics :=
  set_gauges m (m_activeWorkers m) (gauge_down (m_queueDepth m)) (m_runningTasks m).

Definition HTTPRequest (m : Metrics) (method route : string) (status duration : Z) : Metrics :=
  let route := if string_is_empty route then "unmatched" else route in
  mkMetrics (m_workflowsSubmitted m) (m_workflowsSucceeded m) (m_workflowsFailed m) (m_workflowsCanceled m)
    (m_tasksExecuted m) (m_taskFailures m) (m_taskRetries m) (m_activeWorkers m) (m_queueDepth m) (m_runningTasks m)
    (count_key (mkHttpKey method route status) (m_httpRequests m))
    (histogram_observe (m_httpDuration m) (Duration_Seconds duration)) (m_taskDuration m) (m_workflowDuration m).

(** What the observed store records, applied to the registry. *)
Definition record_metric (m : Metrics) (x : metric) : Metrics :=
  match x with
  | MetricWorkflowSubmitted => WorkflowSubmitted m
  | MetricTaskStarted => TaskStarted m
  | MetricTaskCompleted outcome duration => TaskCompleted m outcome duration
  | MetricRetryScheduled duration => RetryScheduled m duration
  | MetricWorkflowCompleted status duration => WorkflowCompleted m status duration
  end.

Definition record_metrics (m : Metrics) (xs : list metric) : Metrics := foldl record_metric m xs.

(** ** The text format *)

Section Text.
Context `{Unicode}.

Definition line_feed : string := byte_string 10.

Definition header (name help kind : string) : string :=
  "# HELP " +:+ name +:+ " " +:+ help +:+ line_feed +:+ "# TYPE " +:+ name +:+ " " +:+ kind +:+ line_feed.

Definition sample (name : string) (value : Z) : string := name +:+ " " +:+ fmt_d value +:+ line_feed.

Definition writeCounter (name help : string) (value : Z) : string := header name help "counter" +:+ sample name value.
Definition writeGauge (name help : string) (value : Z) : string := header name help "gauge" +:+ sample name value.

Definition concat_all (parts : list string) : string := foldr String.append "" parts.

Definition writeHistogram (name help : string) (h : histogram) : string :=
  header name help "histogram" +:+
  concat_all (zip_with (fun bound count =>
    sample (name +:+ "_bucket{le=" +:+ quote (FormatFloat bound) +:+ "}") count) (hg_bounds h) (hg_bucket h)) +:+
  sample (name +:+ "_bucket{le=" +:+ dquote +:+ "+Inf" +:+ dquote +:+ "}") (hg_count h) +:+
  name +:+ "_sum " +:+ FormatFloat (hg_sum h) +:+ line_feed +:+
  sample (name +:+ "_count") (hg_count h).

(** The order of the HTTP counters. *)
Definition http_key_le (x y : httpMetricKey) : Prop :=
  if decide (hk_method x = hk_method y) then
    if decide (hk_route x = hk_route y) then hk_status x <= hk_status y else String.le (hk_route x) (hk_route y)
  else String.le (hk_method x) (hk_method y).
#[export] Instance http_key_le_dec : RelDecision http_key_le.
Proof. intros x y. unfold http_key_le. repeat case_decide; apply _. Defined.

Definition WritePrometheus (m : Metrics) : string :=
  writeCounter "forgeflow_workflows_submitted_total" "Total workflow runs durably submitted." (m_workflowsSubmitted m) +:+
  writeCounter "forgeflow_workflows_succeeded_total" "Total workflow runs that succeeded." (m_workflowsSucceeded m) +:+
  writeCounter "forgeflow_workflows_failed_total" "Total workflow runs that failed." (m_workflowsFailed m) +:+
  writeCounter "forgeflow_workflows_canceled_total" "Total workflow runs that were canceled." (m_workflowsCanceled m) +:+
  header "forgeflow_tasks_executed_total" "Total finished task-handler attempts." "counter" +:+
  concat_all ((fun status =>
    sample ("forgeflow_tasks_executed_total{status=" +:+ quote status +:+ "}") (default 0 (m_tasksExecuted m !! status)))
    <$> sort_strings (elements (dom (m_tasksExecuted m)))) +:+
  writeCounter "forgeflow_task_failures_total" "Total failed task-handler attempts, including retryable failures."
    (m_taskFailures m) +:+
  writeCounter "forgeflow_task_retries_total" "Total task retries scheduled after failed attempts." (m_taskRetries m) +:+
  writeGauge "forgeflow_active_workers" "Current in-process worker goroutines." (m_activeWorkers m) +:+
  writeGauge "forgeflow_queue_depth" "Task messages published by this process and not yet claimed locally."
    (m_queueDepth m) +:+
  writeGauge "forgeflow_running_tasks" "Current task attempts executing in handlers." (m_runningTasks m) +:+
  header "forgeflow_http_requests_total" "Total HTTP requests by method, route, and status." "counter" +:+
  concat_all ((fun key =>
    sample ("forgeflow_http_requests_total{method=" +:+ quote (hk_method key) +:+ ",route=" +:+ quote (hk_route key) +:+
            ",status=" +:+ quote (fmt_d (hk_status key)) +:+ "}") (default 0 (m_httpRequests m !! key)))
    <$> merge_sort http_key_le (elements (dom (m_httpRequests m)))) +:+
  writeHistogram "forgeflow_http_request_duration_seconds" "HTTP request duration in seconds." (m_httpDuration m) +:+
  writeHistogram "forgeflow_task_duration_seconds" "Task-handler attempt duration in seconds." (m_taskDuration m) +:+
  writeHistogram "forgeflow_workflow_duration_seconds" "Workflow run duration in seconds." (m_workflowDuration m).
End Text.
