(* ===== verification/MetricsProps.v ===== *)
(** * The gauge of running tasks

    The registry counts the attempts in progress from the events of the runs. The
    counter agrees with the runs themselves: it is the number of their tasks that
    are running. *)
From S2P Require Import Prelude Workflow Heap Graph GraphBuild GraphOrder Errors Run Ids Snapshot SnapshotValid RunStep RunInv RunProps RunDurable RunTermination Broker Engine EngineInv Duration Events EventsProps EventsLog Metrics.

(** ** Sums *)







(** ** What an event does to the gauge *)





(** A save that shows every attempt: a task that has ended an attempt since the
    last save was running at the last save. *)
Definition attempts_seen (r r' : WorkflowRun) : Prop :=
  forall k s s', stat r k = Some s -> stat r' k = Some s' -> s <> s' ->
    match s' with
    | TaskRunSucceeded | TaskRunFailed | TaskRunRetryWaiting => s = TaskRunRunning
    | TaskRunPending | TaskRunOther _ => False
    | _ => True
    end.




Section Gauge.
Context `{Unicode}.











(** ** The runs of a process *)











(** Every single step is seen, and so is a step that only makes tasks ready or
    cancels them after others that were: the scheduler saves after each attempt it
    starts or ends, together with the tasks that this makes ready. *)
Lemma step_seen r r' : run_step r r' -> attempts_seen r r'.
Proof.
  intros (now & op & _ & ->) k s s' Hs Hs' Hne. pose proof (exec_stat r now op k) as He. rewrite Hs, Hs' in He.
  destruct He as (s1 & [= <-] & [->|Hm]); [done|].
  destruct op as [j target o e|target|c|w d|j w d|j rid w a o e| | |v]; cbn in Hm; try done.
  - destruct Hm as (_ & <- & Hl). by destruct s, s'.
  - by destruct Hm as [_ ->].
  - by destruct Hm as (_ & _ & ->).
  - destruct Hm as (_ & -> & Hm). destruct e; [destruct Hm as [-> | [-> | ->]]|subst]; done.
  - by destruct Hm as (-> & [-> | [-> | ->]]).
  - by destruct Hm as (_ & ->).
Qed.

Lemma new_run_idle runID d now r k : newWorkflowRun runID d now = Ok r -> stat r k <> Some TaskRunRunning.
Proof.
  intros (_ & _ & ->)%newWorkflowRun_ok. unfold stat. cbn [run_tasks]. rewrite new_tasks_lookup. by case_decide.
Qed.

Lemma seen_then r r1 now op :
  attempts_seen r r1 ->
  (forall k s s', status_moves op k s s' -> s' = s \/ s' = TaskRunReady \/ s' = TaskRunCanceled) ->
  attempts_seen r (exec r1 now op).
Proof.
  intros Hseen Hsoft k s s' Hs Hs' Hne. pose proof (exec_stat r1 now op k) as He. rewrite Hs' in He.
  destruct (stat r1 k) as [s1|] eqn:Hs1; [|done]. destruct He as (s2 & [= <-] & Hm).
  assert (s' = s1 \/ s' = TaskRunReady \/ s' = TaskRunCanceled) as [-> | [-> | ->]]; [|by apply (Hseen k)|done|done].
  destruct Hm as [->|Hm]; [by left|eauto].
Qed.


End Gauge.
