(* ===== verification/Manager.v ===== *)
(** * The run manager

    Models [src/internal/api/manager.go]. The manager's lock makes the bodies of
    [start], [cancel] and the first half of [shutdown] atomic; [recover] runs in a
    goroutine of its own and is split where it takes the lock: the result of the
    engine is recorded, the run is removed from [active], and the goroutine leaves
    the wait group. A goroutine is identified by a number, which also stands for
    its cancel function. *)
From S2P Require Import Prelude Errors.

(** How far a [recover] goroutine has got. *)
Inductive phase :=
| PhaseRunning    (* in [engine.Recover] *)
| PhaseRecorded   (* its error is in [failures] *)
| PhaseRemoved.   (* its run is no longer in [active] *)

Record worker := mkWorker {
  wk_runID : string;
  wk_canceled : bool;
  wk_phase : phase
}.

Record runManager := mkManager {
  mg_active : gmap string nat;
  mg_failures : gmap string go_error;
  mg_closed : bool;
  mg_workers : gmap nat worker;
  mg_next : nat
}.

Definition newRunManager : runManager := mkManager ∅ ∅ false ∅ 0.

Definition set_workers (m : runManager) (workers : gmap nat worker) : runManager :=
  mkManager (mg_active m) (mg_failures m) (mg_closed m) workers (mg_next m).

Definition cancel_worker (w : worker) : worker := mkWorker (wk_runID w) true (wk_phase w).
Definition with_phase (w : worker) (p : phase) : worker := mkWorker (wk_runID w) (wk_canceled w) p.

(** Calling the cancel function [g]; it has no effect on a goroutine that is gone. *)
Definition cancel_func (workers : gmap nat worker) (g : nat) : gmap nat worker := alter cancel_worker g workers.

(** The registration of a run and of the goroutine that executes it. *)
Definition spawn_recover (m : runManager) (runID : string) : runManager :=
  let g := mg_next m in
  mkManager (<[runID := g]> (mg_active m)) (mg_failures m) (mg_closed m)
    (<[g := mkWorker runID false PhaseRunning]> (mg_workers m)) (S g).

Definition manager_start (m : runManager) (parent : context) (runID : string) : runManager * option go_error :=
  match parent with
  | CtxNil => (m, Some (ErrText "start workflow run: context must not be nil"))
  | _ =>
      if mg_closed m then (m, Some errManagerClosed)
      else
        match mg_active m !! runID with
        | Some _ => (m, Some errRunAlreadyActive)
        | None => (spawn_recover m runID, None)
        end
  end.

(** The three steps of [recover] after the engine has returned [err]. *)
Definition recover_record (m : runManager) (g : nat) (err : option go_error) : runManager :=
  match mg_workers m !! g with
  | Some w =>
      mkManager (mg_active m)
        (match err with
         | None => delete (wk_runID w) (mg_failures m)
         | Some e => <[wk_runID w := e]> (mg_failures m)
         end)
        (mg_closed m) (<[g := with_phase w PhaseRecorded]> (mg_workers m)) (mg_next m)
  | None => m
  end.

Definition recover_remove (m : runManager) (g : nat) : runManager :=
  match mg_workers m !! g with
  | Some w =>
      mkManager (delete (wk_runID w) (mg_active m)) (mg_failures m) (mg_closed m)
        (<[g := with_phase w PhaseRemoved]> (mg_workers m)) (mg_next m)
  | None => m
  end.

Definition recover_done (m : runManager) (g : nat) : runManager := set_workers m (delete g (mg_workers m)).

Definition manager_cancel (m : runManager) (runID : string) : runManager * bool :=
  match mg_active m !! runID with
  | Some g => (set_workers m (cancel_func (mg_workers m) g), true)
  | None => (m, false)
  end.

(** The part of [shutdown] before it waits; the error is an early return. *)
Definition shutdown_begin (m : runManager) (ctx : context) : runManager * option go_error :=
  match ctx with
  | CtxNil => (m, Some (ErrText "shut down workflow run manager: context must not be nil"))
  | _ =>
      (if mg_closed m then m
       else
         mkManager (mg_active m) (mg_failures m) true
           (map_fold (fun _ g workers => cancel_func workers g) (mg_workers m) (mg_active m)) (mg_next m), None)
  end.

(** What [select] at the end of [shutdown] may return: nil once the wait group is
    empty, or the error of a context that is done. *)
Definition shutdown_returns (m : runManager) (ctx : context) (result : option go_error) : Prop :=
  match result with
  | None => mg_workers m = ∅
  | Some err => ctx = CtxDone err
  end.

(** ** Executions of the manager *)

Inductive manager_step (m : runManager) : runManager -> Prop :=
| ms_start parent runID : manager_step m (fst (manager_start m parent runID))
| ms_cancel runID : manager_step m (fst (manager_cancel m runID))
| ms_shutdown ctx : manager_step m (fst (shutdown_begin m ctx))
| ms_record g w err :
    mg_workers m !! g = Some w -> wk_phase w = PhaseRunning -> manager_step m (recover_record m g err)
| ms_remove g w :
    mg_workers m !! g = Some w -> wk_phase w = PhaseRecorded -> manager_step m (recover_remove m g)
| ms_done g w :
    mg_workers m !! g = Some w -> wk_phase w = PhaseRemoved -> manager_step m (recover_done m g).

(** Exactly the goroutines that have not removed their run are in [active], and
    after [shutdown] each of them is canceled. *)
Record manager_inv (m : runManager) : Prop := {
  mi_active : forall r g, mg_active m !! r = Some g <->
    exists w, mg_workers m !! g = Some w /\ wk_runID w = r /\ wk_phase w <> PhaseRemoved;
  mi_next : forall g w, mg_workers m !! g = Some w -> (g < mg_next m)%nat;
  mi_closed : mg_closed m = true -> forall g w,
    mg_workers m !! g = Some w -> wk_phase w <> PhaseRemoved -> wk_canceled w = true
}.

Lemma cancel_func_lookup workers g g' :
  cancel_func workers g !! g' = if decide (g = g') then cancel_worker <$> workers !! g' else workers !! g'.
Proof. unfold cancel_func. case_decide as E; [subst; apply lookup_alter_eq|by rewrite lookup_alter_ne]. Qed.

(** Workers that differ in having been canceled. *)
Definition canceled_from (workers workers' : gmap nat worker) : Prop :=
  forall g, match workers !! g, workers' !! g with
  | Some w, Some w' => w' = w \/ w' = cancel_worker w
  | None, None => True
  | _, _ => False
  end.

Lemma canceled_from_refl workers : canceled_from workers workers.
Proof. intros g. destruct (workers !! g); auto. Qed.

Lemma cancel_func_from workers workers' g : canceled_from workers workers' -> canceled_from workers (cancel_func workers' g).
Proof.
  intros Hc g'. specialize (Hc g'). rewrite cancel_func_lookup. case_decide; [|done].
  destruct (workers !! g') as [w|], (workers' !! g') as [w'|]; try done. cbn. destruct Hc as [-> | ->]; auto.
Qed.

Lemma canceled_from_worker workers workers' g w' :
  canceled_from workers workers' -> workers' !! g = Some w' ->
  exists w, workers !! g = Some w /\ wk_runID w' = wk_runID w /\ wk_phase w' = wk_phase w /\
    (wk_canceled w = true -> wk_canceled w' = true).
Proof.
  intros Hc Hg. specialize (Hc g). rewrite Hg in Hc. destruct (workers !! g) as [w|]; [|done].
  exists w. by destruct Hc as [-> | ->].
Qed.

Lemma canceled_from_inv active failures closed closed' workers workers' next :
  canceled_from workers workers' -> manager_inv (mkManager active failures closed workers next) ->
  (closed' = true -> closed = true \/
     forall g w, workers' !! g = Some w -> wk_phase w <> PhaseRemoved -> wk_canceled w = true) ->
  manager_inv (mkManager active failures closed' workers' next).
Proof.
  intros Hc [Ha Hn Hcl] Hclosed. split; cbn in *.
  - intros r g. rewrite Ha. specialize (Hc g). destruct (workers !! g) as [w|], (workers' !! g) as [w'|]; try done.
    + destruct Hc as [-> | ->]; [done|]. split; intros (? & [= <-] & ? & ?); eauto.
  - intros g w (w0 & Hw & _)%(canceled_from_worker _ _ _ _ Hc). by eapply Hn.
  - intros Hcl' g w Hg Hp. destruct (Hclosed Hcl') as [Hold|Hall]; [|by eapply Hall].
    destruct (canceled_from_worker _ _ _ _ Hc Hg) as (w0 & Hw & _ & Hphase & Hcan). apply Hcan. eapply Hcl; [done|done|congruence].
Qed.

(** Calling every cancel function of [active]. *)
Lemma cancel_all (active : gmap string nat) (workers : gmap nat worker) :
  let workers' := map_fold (fun _ g workers => cancel_func workers g) workers active in
  canceled_from workers workers' /\
  forall r g, active !! r = Some g -> workers' !! g = cancel_worker <$> workers !! g.
Proof.
  cbn zeta. apply (map_fold_weak_ind (fun workers' active => canceled_from workers workers' /\
    forall r g, active !! r = Some g -> workers' !! g = cancel_worker <$> workers !! g)).
  { split; [apply canceled_from_refl|by intros r g ?]. }
  intros r g m workers' _ [Hc Hall]. split; [by apply cancel_func_from|].
  intros r' g'. rewrite cancel_func_lookup. intros [[_ <-]|[_ Hr]]%lookup_insert_Some.
  - rewrite decide_True by done. specialize (Hc g).
    destruct (workers !! g) as [w|], (workers' !! g) as [w'|]; try done. cbn. by destruct Hc as [-> | ->].
  - case_decide; [subst|by eapply Hall]. rewrite (Hall _ _ Hr). by destruct (workers !! g').
Qed.

Lemma spawn_inv m runID :
  manager_inv m -> mg_closed m = false -> mg_active m !! runID = None -> manager_inv (spawn_recover m runID).
Proof.
  intros [Ha Hn Hcl] Hc Hr. split; cbn; [| |congruence].
  - intros r g. split.
    + intros [[<- <-]|[_ Hg]]%lookup_insert_Some; [exists (mkWorker runID false PhaseRunning); by rewrite lookup_insert_eq|].
      apply Ha in Hg as (w & Hw & ?). exists w. rewrite lookup_insert_ne; [done|]. apply Hn in Hw. lia.
    + intros (w & [[<- <-]|[_ Hw]]%lookup_insert_Some & Hid & Hp); [by rewrite <- Hid, lookup_insert_eq|].
      assert (Hg : mg_active m !! r = Some g) by (apply Ha; eauto). rewrite lookup_insert_ne; congruence.
  - intros g w [[<- _]|[_ Hw%Hn]]%lookup_insert_Some; lia.
Qed.

Lemma start_inv m parent runID : manager_inv m -> manager_inv (fst (manager_start m parent runID)).
Proof.
  intros Hi. unfold manager_start. destruct parent; try done; (destruct (mg_closed m) eqn:Hc; [done|]);
    (destruct (mg_active m !! runID) as [g0|] eqn:Hr; [done|]); by apply spawn_inv.
Qed.

Lemma cancel_inv m runID : manager_inv m -> manager_inv (fst (manager_cancel m runID)).
Proof.
  intros Hi. unfold manager_cancel. destruct (mg_active m !! runID) as [g|]; [|done].
  apply (canceled_from_inv _ _ (mg_closed m) _ (mg_workers m)); [apply cancel_func_from, canceled_from_refl|by destruct m|by left].
Qed.

Lemma shutdown_inv m ctx : manager_inv m -> manager_inv (fst (shutdown_begin m ctx)).
Proof.
  intros Hi. unfold shutdown_begin. destruct ctx; try done; (destruct (mg_closed m) eqn:Hc; [done|]);
    destruct (cancel_all (mg_active m) (mg_workers m)) as [Hfrom Hall];
    (apply (canceled_from_inv _ _ (mg_closed m) _ (mg_workers m)); [exact Hfrom|by destruct m|]); intros _; right; intros g w Hw Hp;
    destruct (canceled_from_worker _ _ _ _ Hfrom Hw) as (w0 & Hw0 & Hid & Hphase & _);
    (assert (Ha : mg_active m !! wk_runID w0 = Some g) by (apply (mi_active _ Hi); exists w0; by rewrite <- Hphase));
    rewrite (Hall _ _ Ha), Hw0 in Hw; by injection Hw as <-.
Qed.

Lemma record_inv m g w err :
  manager_inv m -> mg_workers m !! g = Some w -> wk_phase w = PhaseRunning -> manager_inv (recover_record m g err).
Proof.
  intros [Ha Hn Hcl] Hw Hp. unfold recover_record. rewrite Hw. split; cbn.
  - intros r g'. rewrite Ha. setoid_rewrite lookup_insert_Some. split.
    + intros (w' & Hw' & Hid & Hph). destruct (decide (g = g')) as [<-|]; [|eauto 6].
      assert (w' = w) as -> by congruence. eexists. split; [by left|]. done.
    + intros (w' & [[<- <-]|[_ Hw']] & Hid & Hph); [|eauto]. exists w. by rewrite Hp.
  - intros g' w' [[<- _]|[_ Hw']]%lookup_insert_Some; eauto.
  - intros Hc g' w' [[<- <-]|[_ Hw']]%lookup_insert_Some Hph; [|by eapply Hcl]. cbn. eapply Hcl; [done|done|]. by rewrite Hp.
Qed.

Lemma remove_inv m g w :
  manager_inv m -> mg_workers m !! g = Some w -> wk_phase w = PhaseRecorded -> manager_inv (recover_remove m g).
Proof.
  intros [Ha Hn Hcl] Hw Hp. unfold recover_remove. rewrite Hw.
  assert (Hg : mg_active m !! wk_runID w = Some g) by (apply Ha; exists w; by rewrite Hp).
  split; cbn.
  - intros r g'. rewrite lookup_delete_Some, Ha. setoid_rewrite lookup_insert_Some. split.
    + intros (Hne & w' & Hw' & Hid & Hph). exists w'. split; [right; split; [|done]|done].
      intros <-. congruence.
    + intros (w' & [[_ <-]|[Hne Hw']] & Hid & Hph); [done|]. split; [|eauto].
      intros Heq. apply Hne. assert (Ha' : mg_active m !! r = Some g') by (apply Ha; eauto). congruence.
  - intros g' w' [[<- _]|[_ Hw']]%lookup_insert_Some; eauto.
  - intros Hc g' w' [[_ <-]|[_ Hw']]%lookup_insert_Some Hph; [done|by eapply Hcl].
Qed.

Lemma done_inv m g w :
  manager_inv m -> mg_workers m !! g = Some w -> wk_phase w = PhaseRemoved -> manager_inv (recover_done m g).
Proof.
  intros [Ha Hn Hcl] Hw Hp. split; cbn.
  - intros r g'. rewrite Ha. setoid_rewrite lookup_delete_Some. split.
    + intros (w' & Hw' & Hid & Hph). exists w'. split; [split; [|done]|done]. intros <-. congruence.
    + intros (w' & [_ Hw'] & Hid & Hph). eauto.
  - intros g' w' [_ Hw']%lookup_delete_Some. eauto.
  - intros Hc g' w' [_ Hw']%lookup_delete_Some Hph. by eapply Hcl.
Qed.

Lemma manager_step_inv m m' : manager_step m m' -> manager_inv m -> manager_inv m'.
Proof.
  destruct 1; eauto using start_inv, cancel_inv, shutdown_inv, record_inv, remove_inv, done_inv.
Qed.

Lemma manager_reachable m : rtc manager_step newRunManager m -> manager_inv m.
Proof.
  cut (forall m0, rtc manager_step m0 m -> manager_inv m0 -> manager_inv m).
  { intros Hall Hm. apply (Hall newRunManager); [done|]. split; [|done|done]. intros r g. cbn. split; [done|].
    by intros (w & ? & _). }
  intros m0. induction 1; eauto using manager_step_inv.
Qed.

(** C22: the engine executes a run at most once at a time: whatever is started,
    canceled and shut down concurrently, two goroutines that have not let go of
    their run never have the same one. *)
Theorem single_flight m g1 g2 w1 w2 :
  rtc manager_step newRunManager m ->
  mg_workers m !! g1 = Some w1 -> mg_workers m !! g2 = Some w2 ->
  wk_phase w1 <> PhaseRemoved -> wk_phase w2 <> PhaseRemoved -> wk_runID w1 = wk_runID w2 -> g1 = g2.
Proof.
  intros Hm%manager_reachable H1 H2 Hp1 Hp2 Hid.
  assert (Ha1 : mg_active m !! wk_runID w1 = Some g1) by (apply (mi_active _ Hm); eauto).
  assert (Ha2 : mg_active m !! wk_runID w2 = Some g2) by (apply (mi_active _ Hm); eauto). congruence.
Qed.

Lemma closed_step m m' :
  manager_step m m' -> mg_closed m = true ->
  mg_closed m' = true /\ forall g, is_Some (mg_workers m' !! g) -> is_Some (mg_workers m !! g).
Proof.
  destruct 1 as [parent runID|runID|ctx|g w err Hw|g w Hw|g w Hw]; intros Hc.
  - unfold manager_start. by destruct parent; rewrite ?Hc.
  - unfold manager_cancel. destruct (mg_active m !! runID) as [g|]; [|done]. split; [done|]. intros g'. cbn.
    rewrite cancel_func_lookup. case_decide; [by rewrite fmap_is_Some|done].
  - unfold shutdown_begin. by destruct ctx; rewrite ?Hc.
  - unfold recover_record. rewrite Hw. split; [done|]. intros g'. cbn. rewrite lookup_insert. case_decide; naive_solver.
  - unfold recover_remove. rewrite Hw. split; [done|]. intros g'. cbn. rewrite lookup_insert. case_decide; naive_solver.
  - split; [done|]. cbn. intros g' [x [_ Hx]%lookup_delete_Some]. by exists x.
Qed.

(** Shutdown is final. Once it has begun, every engine that still runs has
    been told to stop and no further one starts; so when it returns without an
    error no execution is left, now or later. *)
Theorem shutdown_final m m' :
  rtc manager_step newRunManager m -> mg_closed m = true -> rtc manager_step m m' ->
  (forall g w, mg_workers m' !! g = Some w -> wk_phase w <> PhaseRemoved -> wk_canceled w = true) /\
  (forall parent runID, snd (manager_start m' parent runID) <> None) /\
  (forall ctx, shutdown_returns m ctx None -> mg_workers m' = ∅).
Proof.
  intros Hm Hc Hsteps.
  assert (Hkeep : mg_closed m' = true /\ forall g, is_Some (mg_workers m' !! g) -> is_Some (mg_workers m !! g)).
  { clear Hm. induction Hsteps as [|m m1 m2 Hstep _ IH]; [done|]. destruct (closed_step _ _ Hstep Hc) as [Hc1 Hw1].
    destruct (IH Hc1) as [Hc2 Hw2]. split; [done|]. intros g Hg. by apply Hw1, Hw2. }
  destruct Hkeep as [Hc' Hw]. split_and!.
  - apply (mi_closed m'); [|done]. apply manager_reachable. by etrans.
  - intros parent runID. unfold manager_start. by destruct parent; rewrite ?Hc'.
  - intros ctx Hempty. cbn in Hempty. apply map_eq. intros g. rewrite lookup_empty. apply eq_None_not_Some.
    intros [? Hg]%Hw. by rewrite Hempty in Hg.
Qed.
