(* ===== verification/EventsExamples.v ===== *)
(** * Concrete event logs

    The engine options, the event log of a run and the run manager at concrete
    inputs: the instances at which the guarantees of [Options], [Heartbeats], [EventsProps],
    [EventsLog] and [Manager] are applied. *)
From S2P Require Import Prelude Workflow Heap Graph GraphBuild GraphOrder Errors Run Ids Snapshot SnapshotValid RunStep RunInv RunProps RunDurable RunTermination RunExamples Broker Security FileStore FileStoreOps FileStoreInv FileStoreJournal FileStoreProps FileStoreExamples Engine EngineInv EngineProps EngineRuns EngineWorkers EngineStore EngineExamples Duration Handlers Options Heartbeats Events EventsProps EventsLog Metrics MetricsProps Manager.

#[local] Existing Instances ascii_unicode blank_codec comma_codec.

(** ** An engine *)

Definition eight_bytes : res go_error (list Z) := Ok [1; 2; 3; 4; 5; 6; 7; 8].

Definition short_leases : list (option EngineOption) := [Some (WithLeaseTiming 50 20)].

Definition demo_engine : engine unit :=
  match NewEngine eight_bytes demo_clock 2 (Some ∅) (Some tt) short_leases with
  | Ok e => e
  | Err _ => mkEngine 0 ∅ tt (mkOptions None 0 0 "" None None)
  end.

(** The worker of task [a] sends a heartbeat in time, before expired leases are recovered. *)
Definition run_beaten : WorkflowRun := exec run_leased 1020 (OpHeartbeat "w1" 50).

Definition beaten_at : Z := nextTimestamp run_leased 1020.
Definition run_scanned : WorkflowRun := fst (recoverExpiredLeases run_beaten 1040).

Lemma attended_a : attended (en_config demo_engine) "w1" run_leased 1002 run_scanned beaten_at.
Proof.
  unfold run_scanned, beaten_at. apply attended_recovery; [|vm_compute; discriminate].
  eapply attended_heartbeat; [apply attended_now|vm_compute; discriminate|vm_compute; reflexivity].
Defined.

Lemma punctual_worker_keeps_task_witness :
  exists t, run_tasks run_scanned !! "a" = Some t /\
    held_by (en_config demo_engine) "w1" (tr_CurrentAttemptID (task_of run_leased "a")) beaten_at t.
Proof.
  apply (punctual_worker_keeps_task eight_bytes demo_clock 2 (Some ∅) (Some tt) short_leases demo_engine "w1"
    run_leased 1002 run_scanned beaten_at "a" (task_of run_leased "a")).
  - vm_compute. reflexivity.
  - exact attended_a.
  - vm_compute. reflexivity.
  - split; [vm_compute; reflexivity|]. split; [vm_compute; reflexivity|].
    eexists. split; [vm_compute; reflexivity|]. split; [reflexivity|]. split; vm_compute; reflexivity.
Defined.

(** The same worker with its goroutine: it starts at 1001, is leased task [a] at 1002,
    and its heartbeat of 1022 is recorded at 1024; leases are scanned at 1045. *)
Definition run_before : WorkflowRun := exec_all demo_new (take 2 lease_a).
Definition scanned_late : WorkflowRun := exec (exec run_leased 1024 (OpHeartbeat "w1" 50)) 1045 OpRecover.

Lemma heartbeats_keep_task_witness :
  exists t lease, run_tasks scanned_late !! "a" = Some t /\ tr_Status t = TaskRunRunning /\
    tr_CurrentAttemptID t = attempt_a1 /\ tr_Lease t = Some lease /\ lease_WorkerID lease = "w1" /\
    lease_AttemptID lease = attempt_a1 /\ 1045 < lease_ExpiresAt lease.
Proof.
  apply (heartbeats_keep_task eight_bytes demo_clock 2 (Some ∅) (Some tt) short_leases demo_engine "w1" "a" attempt_a1
    5 1001 run_before run_leased (mkAttendance 1002 run_before (EmTimer (mkTimer 1021 false)) [])
    (mkAttendance 1045 scanned_late (EmTimer (mkTimer 1042 false)) [])).
  - vm_compute. reflexivity.
  - lia.
  - vm_compute. reflexivity.
  - vm_compute. discriminate.
  - apply rtc_once. apply td_time; [lia|]. split; [vm_compute; discriminate|by constructor].
  - vm_compute. reflexivity.
  - change (ec_heartbeatInterval (en_config demo_engine)) with 20. change (ec_leaseDuration (en_config demo_engine)) with 50.
    eapply rtc_l; [apply (td_time _ _ _ _ _ 1002 1022); [lia|split; [vm_compute; discriminate|by constructor]]|].
    eapply rtc_l; [eapply (td_emit _ _ _ _ _ 1022 _ _ _ CaseTimer true); reflexivity|].
    eapply rtc_l; [eapply (td_emit _ _ _ _ _ 1022 _ _ _ CaseSend true); reflexivity|].
    eapply rtc_l; [apply (td_time _ _ _ _ _ 1022 1024); [lia|split; [vm_compute; discriminate|repeat constructor; vm_compute; discriminate]]|].
    eapply rtc_l; [apply td_record|].
    eapply rtc_l; [apply (td_time _ _ _ _ _ 1024 1045); [lia|split; [vm_compute; discriminate|by constructor]]|].
    apply rtc_once. apply (td_other _ _ _ _ _ 1045 _ _ _ OpRecover). exact I.
Defined.

(** ** The log of a run *)

(** The run is observed when it is created and whenever it is saved. *)
Definition b_created : eventBroker := fst (observe newEventBroker (Snapshot demo_new)).
Definition b_leased : eventBroker := fst (observe b_created (Snapshot run_leased)).
Definition b_finished : eventBroker := fst (observe b_leased (Snapshot run_finished)).

Definition log_of (b : eventBroker) (runID : string) : list RunEvent := default [] (es_events <$> eb_streams b !! runID).

Lemma b_leased_steps : rtc broker_step newEventBroker b_leased.
Proof. eapply rtc_l; [apply bs_observe|]. eapply rtc_l; [apply bs_observe|]. apply rtc_refl. Defined.

Lemma event_broker_sound_witness :
  eb_panicked (eventBroker_close b_leased) = false /\ numbered (log_of b_leased "r1") /\
  (re_Type <$> log_of b_leased "r1") = ["workflow_started"; "task_started"].
Proof.
  split; [|split; [|vm_compute; reflexivity]].
  - apply (event_broker_sound (eventBroker_close b_leased)). eapply rtc_r; [exact b_leased_steps|apply bs_close].
  - destruct (event_broker_sound b_leased b_leased_steps) as [_ Hs]. unfold log_of.
    destruct (eb_streams b_leased !! "r1") as [s|] eqn:E; [exact (proj1 (Hs _ _ E))|vm_compute in E; discriminate].
Defined.

(** ** A client of the log *)

Definition stream_of (b : eventBroker) : runEventStream := default (mkStream (Snapshot demo_new) [] 0) (eb_streams b !! "r1").

(** It has seen the first event, reads the second, and waits while the run goes on. *)
Definition first_round : eventBroker * (list RunEvent * sse_state) := sse_round b_leased "r1" 1 10.
Definition first_sent : list RunEvent := fst (snd first_round).
Definition waits_on : nat := es_notify (stream_of b_leased).

Lemma client_waits : streaming "r1" b_leased 1 b_finished first_sent (SseWaiting 2 waits_on).
Proof.
  apply (stream_other _ _ _ b_leased); [|exact (bs_observe b_leased (Snapshot run_finished))].
  apply (stream_first _ _ _ 10). vm_compute. reflexivity.
Defined.

Lemma stream_exact_witness :
  waits_on ∈ eb_closedChans b_finished /\
  first_sent ++ fst (snd (sse_round b_finished "r1" 2 10)) = drop 1 (es_events (stream_of b_finished)) /\
  length (es_events (stream_of b_finished)) = 3%nat.
Proof.
  assert (Hb : eb_streams b_finished !! "r1" = Some (stream_of b_finished)) by (vm_compute; reflexivity).
  destruct (stream_exact "r1" b_leased (stream_of b_leased) 1 b_finished first_sent (SseWaiting 2 waits_on))
    as (s & Hs & Hc).
  - exact b_leased_steps.
  - vm_compute. reflexivity.
  - vm_compute. repeat constructor.
  - exact client_waits.
  - rewrite Hb in Hs. apply (inj Some) in Hs as <-.
    destruct Hc as (_ & Hnotify & Hround); [vm_compute; reflexivity|]. split_and!; [|apply Hround|vm_compute; reflexivity].
    + apply Hnotify. left. vm_compute. discriminate.
    + vm_compute. repeat constructor.
Defined.

(** A client of an earlier process comes back with the event number 7. *)
Lemma stale_event_number_withholds_witness :
  fst (snd (sse_round b_leased "r1" 7 10)) = [].
Proof.
  assert (Hb : eb_streams b_leased !! "r1" = Some (stream_of b_leased)) by (vm_compute; reflexivity).
  destruct (stale_event_number_withholds "r1" b_leased (stream_of b_leased) 7 b_leased
    (fst (snd (sse_round b_leased "r1" 7 10))) (SseWaiting 7 waits_on)) as (s & Hs & Hnone).
  - exact b_leased_steps.
  - exact Hb.
  - apply (stream_first _ _ _ 10). vm_compute. reflexivity.
  - rewrite Hb in Hs. apply (inj Some) in Hs as <-. apply Hnone. vm_compute. repeat constructor.
Defined.

Lemma demo_followed : followed demo_new b_leased run_leased.
Proof.
  unfold b_leased. apply followed_saved with demo_new.
  - unfold b_created. apply followed_created; [apply newEventBroker_inv|vm_compute; reflexivity..].
  - apply (script_steps demo_new lease_a). vm_compute. reflexivity.
Defined.

(** Replaying the log gives the statuses of the run. *)
Lemma event_log_refines_witness :
  foldl apply_event (view_of demo_new) (es_events (stream_of b_leased)) = view_of run_leased.
Proof.
  assert (Hb : eb_streams b_leased !! run_id demo_new = Some (stream_of b_leased)) by (vm_compute; reflexivity).
  destruct (event_log_refines demo_new b_leased run_leased demo_new_inv demo_followed)
    as (s & latest & Hs & _ & Hreplay & _ & _ & Hlatest).
  rewrite Hb in Hs. apply (inj Some) in Hs as <-. rewrite Hreplay, Hlatest; [done|vm_compute; reflexivity].
Defined.

(** ** The gauge of running tasks *)






(** ** A run that the API starts *)

(** The definition is stored, the run is created through the observed store, and
    an engine recovers it. *)
Definition with_demo : observedStore file_state :=
  mkObserved (fst (SaveWorkflow empty_files CtxLive CtxLive demo)) newEventBroker [].
Definition with_run_r1 : observedStore file_state := fst (observed_CreateRun with_demo CtxLive (Snapshot demo_new)).

Definition live_result : engine_result :=
  Recover demo_clock one_worker no_headers demo_handlers with_run_r1 NewInMemoryBroker CtxLive CtxLive "r1"
    [timer_pass; claim_pass "a" 0].
Definition live_state : scheduler (observedStore file_state) :=
  match live_result with
  | WithRun (Next st _) | WithRun (Exit st _) => st
  | NoRun store _ => initial_scheduler store NewInMemoryBroker demo_new 0
  end.

Lemma live_view_current_witness :
  store_holds (os_delegate (sc_store live_state)) (sc_run live_state) /\
  es_latest <$> eb_streams (os_broker (sc_store live_state)) !! "r1" = Some (Snapshot (sc_run live_state)) /\
  (re_Type <$> log_of (os_broker (sc_store live_state)) "r1") = ["workflow_started"; "task_ready"; "task_started"].
Proof.
  destruct (live_view_current demo_clock one_worker no_headers demo_handlers "r1" demo 1000 demo_new with_demo with_run_r1
    (snapshot_with_version (Snapshot demo_new) 1) NewInMemoryBroker CtxLive [timer_pass; claim_pass "a" 0] live_state)
    as [Hload Hlive].
  - reflexivity.
  - apply demo_in_range.
  - lia.
  - vm_compute. reflexivity.
  - vm_compute. reflexivity.
  - discriminate.
  - vm_compute. reflexivity.
  - split; [exact Hload|]. split; [apply Hlive; vm_compute; reflexivity|vm_compute; reflexivity].
Defined.

(** ** Two runs and a shutdown *)

Definition two_runs : runManager :=
  fst (manager_start (fst (manager_start newRunManager CtxLive "r1")) CtxLive "r2").
Definition closing : runManager := fst (shutdown_begin two_runs CtxLive).

Lemma two_runs_steps : rtc manager_step newRunManager two_runs.
Proof.
  unfold two_runs. eapply rtc_l; [exact (ms_start newRunManager CtxLive "r1")|]. apply rtc_once. apply ms_start.
Defined.

(** A third goroutine for [r1] is refused, so the number of its goroutine is 0. *)
Lemma single_flight_witness :
  snd (manager_start two_runs CtxLive "r1") = Some errRunAlreadyActive /\
  forall g, mg_workers two_runs !! g = Some (mkWorker "r1" false PhaseRunning) -> g = 0%nat.
Proof.
  split; [vm_compute; reflexivity|]. intros g Hg.
  apply (single_flight two_runs g 0 (mkWorker "r1" false PhaseRunning) (mkWorker "r1" false PhaseRunning)).
  - exact two_runs_steps.
  - exact Hg.
  - vm_compute. reflexivity.
  - discriminate.
  - discriminate.
  - reflexivity.
Defined.

Lemma shutdown_final_witness :
  (forall g w, mg_workers closing !! g = Some w -> wk_phase w <> PhaseRemoved -> wk_canceled w = true) /\
  mg_workers closing !! 1%nat = Some (mkWorker "r2" true PhaseRunning).
Proof.
  split; [|vm_compute; reflexivity].
  destruct (shutdown_final closing closing) as (Hcanceled & _ & _).
  - eapply rtc_r; [exact two_runs_steps|]. unfold closing. apply ms_shutdown.
  - vm_compute. reflexivity.
  - apply rtc_refl.
  - exact Hcanceled.
Defined.
