(* ===== verification/Dto.v ===== *)
(** * Requests and responses of the API

    Models [src/internal/api/dto.go]: the workflow that a request describes and
    the responses that describe workflows, runs and tasks. Values are those of the
    Go structs; their JSON form is not modelled. *)
From S2P Require Import Prelude Workflow Heap Graph GraphBuild GraphOrder Errors Run Ids Snapshot SnapshotValid RunStep RunInv RunDurable Security Duration.

(** ** Requests *)

Record RetryPolicyRequest := mkRetryRequest {
  rr_MaxAttempts : Z;
  rr_InitialBackoff : string;
  rr_MaxBackoff : string
}.

Record TaskPayload := mkTaskPayload {
  tp_ID : string;
  tp_Name : string;
  tp_Dependencies : list string;
  tp_Handler : string;
  tp_Input : string;
  tp_Retry : RetryPolicyRequest
}.

Record WorkflowRequest := mkWorkflowRequest {
  wr_ID : string;
  wr_ProjectID : string;
  wr_Tasks : list TaskPayload
}.

Definition parseDurationField (field value : string) : res go_error Z :=
  if string_is_empty (trim_space value) then Ok 0
  else rmap_err (fun _ => requestValidationError field (field +:+ " must be a valid Go duration")) (ParseDuration value).

Definition task_field (index : nat) (name : string) : string := "tasks[" +:+ fmt_d (Z.of_nat index) +:+ "]." +:+ name.

(** The body of the loop of [definition]; a dependency list is a slice made with
    [make], which is not nil. *)
Definition task_definition (index : nat) (task : TaskPayload) : res go_error TaskDefinition :=
  try initialBackoff <- parseDurationField (task_field index "retry.initial_backoff") (rr_InitialBackoff (tp_Retry task)) ;;
  try maxBackoff <- parseDurationField (task_field index "retry.max_backoff") (rr_MaxBackoff (tp_Retry task)) ;;
  Ok (mkTaskDefinition (tp_ID task) (tp_Name task) (Some (tp_Dependencies task)) (tp_Handler task) (tp_Input task)
        (mkRetryPolicy (rr_MaxAttempts (tp_Retry task)) initialBackoff maxBackoff)).

Fixpoint task_definitions (index : nat) (tasks : list TaskPayload) : res go_error (list TaskDefinition) :=
  match tasks with
  | [] => Ok []
  | task :: rest =>
      try definition <- task_definition index task ;;
      try definitions <- task_definitions (S index) rest ;;
      Ok (definition :: definitions)
  end.

Definition request_definition (request : WorkflowRequest) : res go_error WorkflowDefinition :=
  try tasks <- task_definitions 0 (wr_Tasks request) ;;
  Ok (mkWorkflowDefinition (wr_ID request) tasks).

(** ** Responses *)

Record RetryPolicyResponse := mkRetryResponse {
  rp_MaxAttempts : Z;
  rp_InitialBackoff : string;
  rp_MaxBackoff : string
}.

Record TaskResponse := mkTaskResponse {
  ts_ID : string;
  ts_Name : string;
  ts_Dependencies : list string;
  ts_Handler : string;
  ts_Input : string;
  ts_Retry : RetryPolicyResponse
}.

Record WorkflowResponse := mkWorkflowResponse {
  wf_ID : string;
  wf_ProjectID : string;
  wf_OwnerUserID : string;
  wf_Tasks : list TaskResponse
}.

Definition optionalDurationString (duration : Z) : string :=
  if duration =? 0 then "" else Duration_String duration.

Definition task_response (task : TaskDefinition) : TaskResponse :=
  mkTaskResponse (td_ID task) (td_Name task) (sort_strings (deps task)) (td_Handler task) (td_Input task)
    (mkRetryResponse (EffectiveMaxAttempts (td_Retry task)) (Duration_String (InitialBackoff (td_Retry task)))
       (optionalDurationString (MaxBackoff (td_Retry task)))).

Definition workflowDTO (definition : WorkflowDefinition) (ownership : WorkflowOwnership) : WorkflowResponse :=
  mkWorkflowResponse (wd_ID definition) (own_ProjectID ownership) (own_OwnerUserID ownership)
    (task_response <$> sort_by td_ID (wd_Tasks definition)).

Record TaskCounts := mkTaskCounts {
  tn_Pending : Z;
  tn_Ready : Z;
  tn_Running : Z;
  tn_RetryWaiting : Z;
  tn_Succeeded : Z;
  tn_Failed : Z;
  tn_Canceled : Z
}.

Record RunResponse := mkRunResponse {
  rn_ID : string;
  rn_WorkflowID : string;
  rn_Version : Z;
  rn_Status : WorkflowRunStatus;
  rn_CreatedAt : Z;
  rn_UpdatedAt : Z;
  rn_Tasks : TaskCounts
}.

Definition count_task (c : TaskCounts) (task : TaskRun) : TaskCounts :=
  let '(mkTaskCounts p r u w s f x) := c in
  match tr_Status task with
  | TaskRunPending => mkTaskCounts (p + 1) r u w s f x
  | TaskRunReady => mkTaskCounts p (r + 1) u w s f x
  | TaskRunRunning => mkTaskCounts p r (u + 1) w s f x
  | TaskRunRetryWaiting => mkTaskCounts p r u (w + 1) s f x
  | TaskRunSucceeded => mkTaskCounts p r u w (s + 1) f x
  | TaskRunFailed => mkTaskCounts p r u w s (f + 1) x
  | TaskRunCanceled => mkTaskCounts p r u w s f (x + 1)
  | TaskRunOther _ => c
  end.

Definition runDTO (snapshot : WorkflowRunSnapshot) : RunResponse :=
  mkRunResponse (snap_ID snapshot) (snap_WorkflowID snapshot) (snap_Version snapshot) (snap_Status snapshot)
    (snap_CreatedAt snapshot) (snap_UpdatedAt snapshot)
    (foldl count_task (mkTaskCounts 0 0 0 0 0 0 0) (snap_Tasks snapshot)).

Record LeaseResponse := mkLeaseResponse {
  ls_WorkerID : string;
  ls_AttemptID : string;
  ls_ExpiresAt : Z
}.

Record TaskRunResponse := mkTaskRunResponse {
  tt_TaskID : string;
  tt_TaskRunID : string;
  tt_Status : TaskRunStatus;
  tt_Output : string;
  tt_Error : string;
  tt_AttemptCount : Z;
  tt_CurrentAttemptID : string;
  tt_NextAttemptAt : option Z;
  tt_Lease : option LeaseResponse;
  tt_UpdatedAt : Z;
  tt_StartedAt : option Z;
  tt_FinishedAt : option Z
}.

Definition optionalTime (value : Z) : option Z := if time_is_zero value then None else Some value.

Definition task_run_response (task : TaskRun) : TaskRunResponse :=
  mkTaskRunResponse (tr_TaskID task) (tr_TaskRunID task) (tr_Status task) (tr_Output task) (tr_Error task)
    (tr_AttemptCount task) (tr_CurrentAttemptID task) (optionalTime (tr_NextAttemptAt task))
    ((fun lease => mkLeaseResponse (lease_WorkerID lease) (lease_AttemptID lease) (lease_ExpiresAt lease))
       <$> tr_Lease task)
    (tr_UpdatedAt task) (optionalTime (tr_StartedAt task)) (optionalTime (tr_FinishedAt task)).

Definition taskRunsDTO (snapshot : WorkflowRunSnapshot) : string * list TaskRunResponse :=
  (snap_ID snapshot, task_run_response <$> sort_by tr_TaskID (snap_Tasks snapshot)).

(** ** A request gives durations that fit *)

(** JSON decoding of an [int]. *)
Definition request_in_range (request : WorkflowRequest) : Prop :=
  Forall (fun task => in_int64 (rr_MaxAttempts (tp_Retry task))) (wr_Tasks request).

Lemma parseDurationField_range field value d : parseDurationField field value = Ok d -> in_int64 d.
Proof.
  unfold parseDurationField. destruct (string_is_empty _); [by intros [= <-]|].
  rewrite rmap_err_ok. apply ParseDuration_range.
Qed.

Lemma task_definitions_range index tasks definitions :
  task_definitions index tasks = Ok definitions ->
  Forall (fun task => in_int64 (rr_MaxAttempts (tp_Retry task))) tasks ->
  Forall (fun task => policy_in_range (td_Retry task)) definitions.
Proof.
  revert index definitions. induction tasks as [|task tasks IH]; intros index definitions; cbn; [by intros [= <-]|].
  rewrite rbind_ok. intros (d & Hd & Hrest). apply rbind_ok in Hrest as (ds & Hds & [= <-]).
  intros [Hm Hall]%Forall_cons. apply Forall_cons. split; [|by eapply IH].
  unfold task_definition in Hd. apply rbind_ok in Hd as (i & Hi & Hd). apply rbind_ok in Hd as (x & Hx & [= <-]).
  cbn. split; [done|]. split; by eapply parseDurationField_range.
Qed.

Lemma request_definition_range request definition :
  request_in_range request -> request_definition request = Ok definition -> definition_in_range definition.
Proof.
  intros Hr Hd. unfold request_definition in Hd. apply rbind_ok in Hd as (tasks & Ht & [= <-]).
  by eapply task_definitions_range.
Qed.

(** ** The counts of a run response *)

Definition status_count (tasks : list TaskRun) (s : TaskRunStatus) : Z :=
  Z.of_nat (length (filter (fun t => tr_Status t = s) tasks)).

Lemma count_task_fold c tasks :
  let c' := foldl count_task c tasks in
  tn_Pending c' = tn_Pending c + status_count tasks TaskRunPending /\
  tn_Ready c' = tn_Ready c + status_count tasks TaskRunReady /\
  tn_Running c' = tn_Running c + status_count tasks TaskRunRunning /\
  tn_RetryWaiting c' = tn_RetryWaiting c + status_count tasks TaskRunRetryWaiting /\
  tn_Succeeded c' = tn_Succeeded c + status_count tasks TaskRunSucceeded /\
  tn_Failed c' = tn_Failed c + status_count tasks TaskRunFailed /\
  tn_Canceled c' = tn_Canceled c + status_count tasks TaskRunCanceled.
Proof.
  cbn zeta. revert c. induction tasks as [|t tasks IH]; intros c; cbn [foldl].
  { unfold status_count. cbn. lia. }
  destruct (IH (count_task c t)) as (H1 & H2 & H3 & H4 & H5 & H6 & H7).
  rewrite H1, H2, H3, H4, H5, H6, H7. unfold status_count. rewrite !filter_cons.
  destruct c as [p r u w s f x]. unfold count_task.
  clear. destruct (tr_Status t); repeat (case_decide; try done); cbn; lia.
Qed.

Lemma status_count_sum tasks :
  Forall (fun t => task_status_valid (tr_Status t) = true) tasks ->
  status_count tasks TaskRunPending + status_count tasks TaskRunReady + status_count tasks TaskRunRunning
  + status_count tasks TaskRunRetryWaiting + status_count tasks TaskRunSucceeded + status_count tasks TaskRunFailed
  + status_count tasks TaskRunCanceled = Z.of_nat (length tasks).
Proof.
  induction tasks as [|t tasks IH]; [done|]. intros [Hv Hall]%Forall_cons. specialize (IH Hall).
  unfold status_count in *. rewrite !filter_cons.
  destruct (tr_Status t); try done; repeat (case_decide; try done); cbn [length]; lia.
Qed.

(** The counts of a run response account for every task of the workflow: each
    is the number of tasks with its status, and they add up to the number of tasks
    of the definition. *)
Theorem run_response_counts `{Unicode} runID d r :
  definition_in_range d -> reachable runID d r ->
  let c := rn_Tasks (runDTO (Snapshot r)) in
  tn_Pending c + tn_Ready c + tn_Running c + tn_RetryWaiting c + tn_Succeeded c + tn_Failed c + tn_Canceled c
    = Z.of_nat (length (wd_Tasks d)) /\
  tn_Succeeded c = status_count (sortedTasks r) TaskRunSucceeded /\ tn_Failed c = status_count (sortedTasks r) TaskRunFailed.
Proof.
  intros Hd Hr. cbn [runDTO rn_Tasks Snapshot snap_Tasks].
  destruct (count_task_fold (mkTaskCounts 0 0 0 0 0 0 0) (sortedTasks r)) as (-> & -> & -> & -> & -> & -> & ->).
  split; [|done]. cbn [tn_Pending tn_Ready tn_Running tn_RetryWaiting tn_Succeeded tn_Failed tn_Canceled].
  pose proof (reachable_inv _ _ _ Hd Hr) as Hi. rewrite !Z.add_0_l, status_count_sum.
  - pose proof (Permutation_length (sortedTasks_ids r Hi)) as Hlen. destruct (reachable_frame _ _ _ Hr) as [_ Hdef].
    rewrite Hdef, taskIDs_clone in Hlen. unfold taskIDs_of in Hlen. rewrite !length_fmap in Hlen. lia.
  - apply Forall_forall. intros t (k & Hk)%sorted_values_elem. apply (ti_valid _ _ _ _ _ _ (ri_tasks r Hi k t Hk)).
Qed.
