(* ===== verification/Http.v ===== *)
(** * The HTTP layer of the API

    The helpers of [src/internal/api/server.go] and
    [src/internal/api/authorization.go] that read a request and write an error:
    methods, content types, bodies, headers and identifiers. What [encoding/json]
    and [mime] answer for a body and a header is part of the request. *)
From S2P Require Import Prelude Workflow Heap Graph GraphBuild GraphOrder Errors Run Ids Snapshot Security FileStore FileStoreOps FileStoreInv FileStoreProps Projects Duration Handlers Options.

Definition StatusOK : Z := 200.
Definition StatusCreated : Z := 201.
Definition StatusAccepted : Z := 202.
Definition StatusUnauthorized : Z := 401.
Definition StatusMethodNotAllowed : Z := 405.
Definition StatusRequestEntityTooLarge : Z := 413.
Definition StatusUnsupportedMediaType : Z := 415.
Definition StatusTooManyRequests : Z := 429.
Definition StatusServiceUnavailable : Z := 503.

(** ** Authentication header *)

(** [strings.Fields]: the pieces between runs of white space. *)
Fixpoint fields_from (rs : list (Z * nat)) (s current : string) : list string :=
  match rs with
  | [] => if string_is_empty current then [] else [current]
  | (r, w) :: rest =>
      let s' := String.substring w (String.length s - w) s in
      if is_space r then
        if string_is_empty current then fields_from rest s' "" else current :: fields_from rest s' ""
      else fields_from rest s' (current +:+ String.substring 0 w s)
  end.
Definition Fields (s : string) : list string := fields_from (runes s) s "".

Definition lower_byte (c : Ascii.ascii) : Z := if in_range 65 90 (byte_val c) then byte_val c + 32 else byte_val c.

(** [strings.EqualFold] against a text whose letters fold only to ASCII letters,
    like the [Bearer] it is used for. *)
Fixpoint EqualFold (a b : string) : bool :=
  match a, b with
  | EmptyString, EmptyString => true
  | String x a, String y b => (lower_byte x =? lower_byte y) && EqualFold a b
  | _, _ => false
  end.

Definition bearerToken (header : string) : string :=
  match Fields header with
  | [scheme; token] => if EqualFold scheme "Bearer" then token else ""
  | _ => ""
  end.

(** ** Methods and bodies *)

Definition requireMethod (actual method : string) : res api_error unit :=
  fail_if negb (String.eqb actual method)
    with mkApiError StatusMethodNotAllowed "method_not_allowed" "HTTP method is not allowed for this route" "" ;;
  Ok tt.

(** An answer of [Decoder.Decode]. *)
Inductive decoded (A : Type) :=
| Decoded (value : A)
| DecodeEOF
| DecodeTooLarge
| DecodeFailed (message : string).
Arguments Decoded {A} _.
Arguments DecodeEOF {A}.
Arguments DecodeTooLarge {A}.
Arguments DecodeFailed {A} _.

(** A request body: [bd_first] is the answer of the decoder for the destination,
    [bd_second] for what follows it. *)
Record body (A : Type) := mkBody {
  bd_nil : bool;
  bd_contentLength : Z;
  bd_mediaType : res go_error string;
  bd_first : decoded A;
  bd_second : decoded unit
}.
Arguments mkBody {A} _ _ _ _ _.
Arguments bd_nil {A} _.
Arguments bd_contentLength {A} _.
Arguments bd_mediaType {A} _.
Arguments bd_first {A} _.
Arguments bd_second {A} _.

Definition requireJSONContentType {A : Type} (b : body A) (optional : bool) : res api_error unit :=
  if optional && (bd_contentLength b =? 0) then Ok tt
  else
    fail_if match bd_mediaType b with Ok mediaType => negb (String.eqb mediaType "application/json") | Err _ => true end
      with mkApiError StatusUnsupportedMediaType "unsupported_media_type" "Content-Type must be application/json"
             "Content-Type" ;;
    Ok tt.

(** The destination after [decodeJSONBody]; [zero] is its value before. *)
Definition decodeJSONBody {A : Type} (b : body A) (zero : A) (optional : bool) : res api_error A :=
  let malformed (message : string) := mkApiError StatusBadRequest "malformed_json" message "" in
  match bd_first b with
  | Decoded value =>
      match bd_second b with
      | DecodeEOF => Ok value
      | _ => Err (malformed "request body must contain exactly one JSON object")
      end
  | DecodeEOF =>
      if optional then Ok zero
      else Err (malformed "request body must contain one valid JSON object: EOF")
  | DecodeTooLarge =>
      Err (mkApiError StatusRequestEntityTooLarge "payload_too_large" "request body exceeds 1 MiB" "")
  | DecodeFailed message =>
      Err (malformed ("request body must contain one valid JSON object: " +:+ message))
  end.

Definition decodeOptionalJSONBody {A : Type} (b : body A) (zero : A) : res api_error A :=
  if bd_nil b || (bd_contentLength b =? 0) then Ok zero
  else
    try _ <- requireJSONContentType b true ;;
    decodeJSONBody b zero false.

(** A body that must be there. *)
Definition required_body {A : Type} (b : body A) (zero : A) : res api_error A :=
  try _ <- requireJSONContentType b false ;;
  decodeJSONBody b zero false.

(** ** Headers and identifiers *)

Fixpoint parse_digits (x : Z) (s : string) : option Z :=
  match s with
  | EmptyString => Some x
  | String c rest => if is_digit c then parse_digits (x * 10 + digit_val c) rest else None
  end.

(** [strconv.ParseUint(value, 10, 64)]; its error is only tested. *)
Definition ParseUint (value : string) : option Z :=
  if string_is_empty value then None
  else
    match parse_digits 0 value with
    | Some x => if x <? 18446744073709551616 then Some x else None
    | None => None
    end.

Definition lastEventSequence (value : string) : option Z :=
  if string_is_empty (trim_space value) then Some 0 else ParseUint value.

Section Helpers.
Context `{Unicode}.

Definition generateRandomID (random : res go_error (list Z)) (prefix : string) : res go_error string :=
  try bytes <- rmap_err (wrapf "generate random ID") random ;;
  Ok (prefix +:+ hex_string bytes).

Definition validation_code (code : ValidationCode) : string :=
  match code with
  | ValidationInvalidWorkflowID => "invalid_workflow_id"
  | ValidationEmptyWorkflow => "empty_workflow"
  | ValidationInvalidTaskID => "invalid_task_id"
  | ValidationInvalidTaskName => "invalid_task_name"
  | ValidationDuplicateTaskID => "duplicate_task_id"
  | ValidationInvalidDependencyID => "invalid_dependency_id"
  | ValidationMissingDependency => "missing_dependency"
  | ValidationSelfDependency => "self_dependency"
  | ValidationDuplicateDependency => "duplicate_dependency"
  | ValidationCycle => "cycle"
  | ValidationUnknownCompletedTask => "unknown_completed_task"
  | ValidationInvalidRetryPolicy => "invalid_retry_policy"
  end.

Definition writeRequestError (err : go_error) : api_error :=
  first_case err
    [((fun e => match e with ErrValidation _ => true | _ => false end),
      fun e => mkApiError StatusUnprocessableEntity
                 (match e with ErrValidation v => validation_code (ve_Code v) | _ => "" end) (error_string e) "");
     ((fun e => match e with requestValidationError _ _ => true | _ => false end),
      fun e => mkApiError StatusUnprocessableEntity "invalid_request" (error_string e)
                 (match e with requestValidationError field _ => field | _ => "" end));
     ((fun e => match e with UnknownHandlerError _ _ => true | _ => false end),
      fun e => mkApiError StatusUnprocessableEntity "unknown_handler" (error_string e) "handler");
     ((fun e => match e with InvalidRunIDError _ => true | _ => false end),
      fun e => mkApiError StatusBadRequest "invalid_run_id" (error_string e) "run_id")]
    (mkApiError StatusBadRequest "invalid_request" (error_string err) "").
End Helpers.
