(* ===== verification/Server.v ===== *)
(** * The API server

    Models the handlers of [src/internal/api/server.go] over the journal store:
    workflows, runs, cancellation, retry and event streams, the authentication and
    rate limiting in front of them, probes and shutdown. As in [Projects], what
    the HTTP layer decodes, the clock, the random bytes and the context at each
    store call are parts of the request. The answer of [http.ServeMux] for a path
    is a [route]. *)
From S2P Require Import Prelude Workflow Heap Graph GraphBuild GraphOrder Errors Run Ids Snapshot SnapshotValid RunStep RunInv RunDurable Broker Security FileStore FileStoreOps FileStoreInv FileStoreProps RateLimit Engine EngineInv EngineStore Projects Duration Handlers Options Events Manager Dto Http.

(** ** The server *)

(** The store of the server is an interface; here it is the observed journal store. *)
Record Server := mkServer {
  sv_store : observedStore file_state;
  sv_limiter : FixedWindowRateLimiter;
  sv_registry : HandlerRegistry;
  sv_manager : runManager;
  sv_ready : bool
}.

(** The store behind the observed one. *)
Definition sv_files (sv : Server) : file_state := os_delegate (sv_store sv).
Definition sv_broker (sv : Server) : eventBroker := os_broker (sv_store sv).

Definition set_store (sv : Server) (store : observedStore file_state) : Server :=
  mkServer store (sv_limiter sv) (sv_registry sv) (sv_manager sv) (sv_ready sv).
Definition set_files (sv : Server) (files : file_state) : Server :=
  set_store sv (mkObserved files (os_broker (sv_store sv)) (os_metrics (sv_store sv))).
Definition set_manager (sv : Server) (manager : runManager) : Server :=
  mkServer (sv_store sv) (sv_limiter sv) (sv_registry sv) manager (sv_ready sv).
Definition set_event_broker (sv : Server) (broker : eventBroker) : Server :=
  set_store sv (mkObserved (sv_files sv) broker (os_metrics (sv_store sv))).
Definition set_limiter (sv : Server) (limiter : FixedWindowRateLimiter) : Server :=
  mkServer (sv_store sv) limiter (sv_registry sv) (sv_manager sv) (sv_ready sv).
Definition SetReady (sv : Server) (ready : bool) : Server :=
  mkServer (sv_store sv) (sv_limiter sv) (sv_registry sv) (sv_manager sv) ready.

(** A request from the [n]-th store call on. *)
Definition from_call (rq : api_request) (n : nat) : api_request :=
  mkRequest (fun k => rq_ctx rq (n + k)) (rq_principal rq) (rq_now rq) (rq_audit_id rq).

Section Server.
Context `{Unicode} `{JournalCodec}.

(** ** Workflows *)

Fixpoint validate_handlers (registry : HandlerRegistry) (index : nat) (tasks : list TaskDefinition)
  : res go_error unit :=
  match tasks with
  | [] => Ok tt
  | task :: rest =>
      fail_if negb (validIdentifier (td_Handler task))
        with requestValidationError (task_field index "handler") "handler must be a non-empty identifier" ;;
      match registry_Handler registry (td_Handler task) with
      | None => Err (UnknownHandlerError (td_ID task) (td_Handler task))
      | Some _ => validate_handlers registry (S index) rest
      end
  end.

Definition validateHandlers (sv : Server) (definition : WorkflowDefinition) : res go_error unit :=
  validate_handlers (sv_registry sv) 0 (wd_Tasks definition).

(** What [handleWorkflows] reads and checks before it saves. *)
Definition create_workflow_request (sv : Server) (rq : api_request) (method : string) (b : body WorkflowRequest)
  : res api_error (WorkflowDefinition * WorkflowOwnership) :=
  try _ <- requireMethod method "POST" ;;
  try payload <- required_body b (mkWorkflowRequest "" "" []) ;;
  try definition <- rmap_err writeRequestError (request_definition payload) ;;
  fail_if negb (validResourceID (wd_ID definition))
    with mkApiError StatusUnprocessableEntity "invalid_workflow_id"
           "workflow ID may contain only letters, digits, dot, underscore, tilde, and hyphen" "id" ;;
  try _ <- rmap_err (fun e => writeRequestError (ErrValidation e)) (Validate definition) ;;
  try _ <- rmap_err writeRequestError (validateHandlers sv definition) ;;
  let projectID := wr_ProjectID payload in
  fail_if negb (validResourceID projectID)
    with mkApiError StatusUnprocessableEntity "invalid_project_id" "project ID is invalid" "project_id" ;;
  try _ <- authorize (sv_files sv) rq projectID PermissionWorkflowWrite ;;
  let ownership := mkWorkflowOwnership (wd_ID definition) projectID (pr_UserID (rq_principal rq)) (rq_now rq) in
  match LoadWorkflow (sv_files sv) (rq_ctx rq 2) (wd_ID definition) with
  | Err err => Err (writeStoreError err)
  | Ok (Some _) => Err (mkApiError StatusConflict "workflow_exists" "workflow already exists" "id")
  | Ok None => Ok (definition, ownership)
  end.

Definition handleWorkflows (sv : Server) (rq : api_request) (method : string) (b : body WorkflowRequest)
  : Server * res api_error WorkflowResponse :=
  match create_workflow_request sv rq method b with
  | Err e => (sv, Err e)
  | Ok (definition, ownership) =>
      let '(files, result) := SaveWorkflowForProject (sv_files sv) (rq_ctx rq 3) definition ownership in
      (set_files sv files,
       rbind (rmap_err writeStoreError result) (fun _ => Ok (workflowDTO definition ownership)))
  end.

Definition workflow_not_found : api_error :=
  mkApiError StatusNotFound "workflow_not_found" "workflow was not found" "id".

(** The part that reading a workflow and starting a run of it share. *)
Definition load_workflow (sv : Server) (rq : api_request) (workflowID : string) (permission : Permission)
  : res api_error (WorkflowDefinition * WorkflowOwnership) :=
  fail_if negb (validResourceID workflowID)
    with mkApiError StatusBadRequest "invalid_workflow_id" "workflow ID is invalid" "id" ;;
  match LoadWorkflow (sv_files sv) (rq_ctx rq 0) workflowID with
  | Err err => Err (writeStoreError err)
  | Ok None => Err workflow_not_found
  | Ok (Some definition) =>
      match LoadWorkflowOwnership (sv_files sv) (rq_ctx rq 1) workflowID with
      | Err err => Err (writeStoreError err)
      | Ok None => Err workflow_not_found
      | Ok (Some ownership) =>
          try _ <- authorize (sv_files sv) (from_call rq 2) (own_ProjectID ownership) permission ;;
          Ok (definition, ownership)
      end
  end.

Definition handleWorkflow (sv : Server) (rq : api_request) (method workflowID : string)
  : res api_error WorkflowResponse :=
  try _ <- requireMethod method "GET" ;;
  rbind (load_workflow sv rq workflowID PermissionProjectRead)
    (fun '(definition, ownership) => Ok (workflowDTO definition ownership)).

(** ** Runs *)

(** The run identifier of the payload or a random one; [random] is the answer of
    [rand.Read] for twelve bytes. *)
Definition choose_run_id (payload : string) (random : res go_error (list Z)) : res api_error string :=
  try runID <-
    (if string_is_empty payload then
       rmap_err (fun _ => mkApiError StatusInternalServerError "internal_error"
                            "could not generate a workflow run ID" "") (generateRandomID random "run-")
     else Ok payload) ;;
  fail_if negb (validResourceID runID)
    with mkApiError StatusBadRequest "invalid_run_id" "run ID is invalid" "run_id" ;;
  Ok runID.

(** [NewWorkflowRun], [CreateRun] on the observed store and [manager.start].
    [start_error] is the response to an error of the last. The two readings of the
    context in [CreateRun] are taken as one. *)
Definition accept_run (sv : Server) (rq : api_request) (call : nat) (runID : string) (definition : WorkflowDefinition)
    (start_error : go_error -> api_error) : Server * res api_error RunResponse :=
  match newWorkflowRun runID definition (rq_now rq) with
  | Err err => (sv, Err (writeRequestError err))
  | Ok run =>
      let '(store, created) := observed_CreateRun (sv_store sv) (rq_ctx rq call) (Snapshot run) in
      let sv := set_store sv store in
      match created with
      | Err err => (sv, Err (writeStoreError err))
      | Ok stored =>
          let '(manager, failed) := manager_start (sv_manager sv) (rq_ctx rq (S call)) runID in
          let sv := set_manager sv manager in
          match failed with
          | Some err => (sv, Err (start_error err))
          | None => (sv, Ok (runDTO stored))
          end
      end
  end.

Definition is_manager_closed (err : go_error) : bool :=
  chain_contains (fun e => match e with errManagerClosed => true | _ => false end) err.
Definition is_run_active (err : go_error) : bool :=
  chain_contains (fun e => match e with errRunAlreadyActive => true | _ => false end) err.

Definition create_run_request (sv : Server) (rq : api_request) (method workflowID : string) (b : body string)
    (random : res go_error (list Z)) : res api_error (string * WorkflowDefinition) :=
  try _ <- requireMethod method "POST" ;;
  try loaded <- load_workflow sv rq workflowID PermissionRunStart ;;
  try _ <- rmap_err writeRequestError (validateHandlers sv (fst loaded)) ;;
  try payload <- decodeOptionalJSONBody b "" ;;
  try runID <- choose_run_id payload random ;;
  Ok (runID, fst loaded).

Definition handleWorkflowRuns (sv : Server) (rq : api_request) (method workflowID : string) (b : body string)
    (random : res go_error (list Z)) : Server * res api_error RunResponse :=
  match create_run_request sv rq method workflowID b random with
  | Err e => (sv, Err e)
  | Ok (runID, definition) =>
      accept_run sv rq 4 runID definition (fun err =>
        if is_manager_closed err
        then mkApiError StatusServiceUnavailable "not_ready" "ForgeFlow is shutting down" ""
        else mkApiError StatusConflict "run_active" "workflow run is already active" "run_id")
  end.

Definition run_not_found : api_error := mkApiError StatusNotFound "run_not_found" "workflow run was not found" "runID".

Definition loadRun (sv : Server) (rq : api_request) (runID : string) (permission : Permission)
  : res api_error WorkflowRunSnapshot :=
  fail_if negb (validResourceID runID)
    with mkApiError StatusBadRequest "invalid_run_id" "run ID is invalid" "runID" ;;
  match LoadRun (sv_files sv) (rq_ctx rq 0) runID with
  | Err err => Err (writeStoreError err)
  | Ok None => Err run_not_found
  | Ok (Some snapshot) =>
      match LoadWorkflowOwnership (sv_files sv) (rq_ctx rq 1) (snap_WorkflowID snapshot) with
      | Err err => Err (writeStoreError err)
      | Ok None => Err run_not_found
      | Ok (Some ownership) =>
          try _ <- authorize (sv_files sv) (from_call rq 2) (own_ProjectID ownership) permission ;;
          Ok snapshot
      end
  end.

Definition handleRun (sv : Server) (rq : api_request) (method runID : string) : res api_error RunResponse :=
  try _ <- requireMethod method "GET" ;;
  try snapshot <- loadRun sv rq runID PermissionRunRead ;;
  Ok (runDTO snapshot).

Definition handleRunTasks (sv : Server) (rq : api_request) (method runID : string)
  : res api_error (string * list TaskRunResponse) :=
  try _ <- requireMethod method "GET" ;;
  try snapshot <- loadRun sv rq runID PermissionTaskRead ;;
  Ok (taskRunsDTO snapshot).

(** The calls of [handleRunCancellation] on the manager, when nothing else uses
    the manager between them. *)
Definition request_cancellation (m : runManager) (ctx : context) (runID : string) : runManager * option go_error :=
  let '(m, canceled) := manager_cancel m runID in
  if canceled then (m, None)
  else
    let '(m, failed) := manager_start m ctx runID in
    match failed with
    | Some err => if is_run_active err then (fst (manager_cancel m runID), None) else (m, Some err)
    | None => (fst (manager_cancel m runID), None)
    end.

Definition cancel_run_request (sv : Server) (rq : api_request) (method runID : string)
  : res api_error WorkflowRunSnapshot :=
  try _ <- requireMethod method "POST" ;;
  try snapshot <- loadRun sv rq runID PermissionRunOperate ;;
  fail_if terminalWorkflowStatus (snap_Status snapshot)
    with mkApiError StatusConflict "run_finished" "workflow run is already finished" "runID" ;;
  Ok snapshot.

(** The answer is the identifier of the run, with [cancellation_requested]. *)
Definition handleRunCancellation (sv : Server) (rq : api_request) (method runID : string) : Server * res api_error string :=
  match cancel_run_request sv rq method runID with
  | Err e => (sv, Err e)
  | Ok snapshot =>
      match request_cancellation (sv_manager sv) (rq_ctx rq 4) (snap_ID snapshot) with
      | (m, None) => (set_manager sv m, Ok (snap_ID snapshot))
      | (m, Some _) =>
          (set_manager sv m,
           Err (mkApiError StatusServiceUnavailable "not_ready"
                  "workflow run cannot be canceled while ForgeFlow is shutting down" ""))
      end
  end.

Definition retry_request (sv : Server) (rq : api_request) (method runID : string) (b : body string)
    (random : res go_error (list Z)) : res api_error (string * WorkflowDefinition) :=
  try _ <- requireMethod method "POST" ;;
  try source <- loadRun sv rq runID PermissionRunOperate ;;
  fail_if negb (bool_decide (snap_Status source = WorkflowRunFailed))
          && negb (bool_decide (snap_Status source = WorkflowRunCanceled))
    with mkApiError StatusConflict "run_not_retryable" "only failed or canceled runs can be retried" "runID" ;;
  match LoadWorkflow (sv_files sv) (rq_ctx rq 4) (snap_WorkflowID source) with
  | Err err => Err (writeStoreError err)
  | Ok None => Err (mkApiError StatusNotFound "workflow_not_found" "workflow was not found" "")
  | Ok (Some definition) =>
      try payload <- decodeOptionalJSONBody b "" ;;
      try newID <- choose_run_id payload random ;;
      Ok (newID, definition)
  end.

Definition handleRunRetry (sv : Server) (rq : api_request) (method runID : string) (b : body string)
    (random : res go_error (list Z)) : Server * res api_error RunResponse :=
  match retry_request sv rq method runID b random with
  | Err e => (sv, Err e)
  | Ok (newID, definition) =>
      accept_run sv rq 5 newID definition (fun _ =>
        mkApiError StatusServiceUnavailable "not_ready" "workflow retry cannot start" "")
  end.

(** [handleRunEvents] up to its loop, which is [sse_round]: the run and the event
    number it starts from. [flusher] tells whether the connection can stream. *)
Definition handleRunEvents (sv : Server) (rq : api_request) (method runID lastEventID : string) (flusher : bool)
  : Server * res api_error (string * Z) :=
  match
    try _ <- requireMethod method "GET" ;;
    try snapshot <- loadRun sv rq runID PermissionRunRead ;;
    match lastEventSequence lastEventID with
    | None => Err (mkApiError StatusBadRequest "invalid_last_event_id"
                     "Last-Event-ID must be a non-negative integer" "Last-Event-ID")
    | Some sequence =>
        fail_if negb flusher
          with mkApiError StatusInternalServerError "streaming_unsupported" "HTTP streaming is unavailable" "" ;;
        Ok (snapshot, sequence)
    end
  with
  | Err e => (sv, Err e)
  | Ok (snapshot, sequence) =>
      (set_event_broker sv (seed (sv_broker sv) snapshot), Ok (snap_ID snapshot, sequence))
  end.

(** ** Probes and shutdown *)

Definition handleHealth (method : string) : res api_error string :=
  try _ <- requireMethod method "GET" ;;
  Ok "ok".

(** [dependencies] is the answer of the dependency check, if there is one. *)
Definition handleReady (sv : Server) (method : string) (dependencies : option (option go_error)) : res api_error string :=
  try _ <- requireMethod method "GET" ;;
  fail_if negb (sv_ready sv)
    with mkApiError StatusServiceUnavailable "not_ready" "ForgeFlow is shutting down" "" ;;
  fail_if match dependencies with Some (Some _) => true | _ => false end
    with mkApiError StatusServiceUnavailable "dependency_unavailable"
           "one or more ForgeFlow dependencies are unavailable" "" ;;
  Ok "ready".

(** [Shutdown] is [shutdown_start], the wait for the runs, and [shutdown_end]. *)
Definition shutdown_start (sv : Server) (ctx : context) : Server * option go_error :=
  match ctx with
  | CtxNil => (sv, Some (ErrText "shut down API server: context must not be nil"))
  | _ =>
      let sv := SetReady sv false in
      let '(manager, err) := shutdown_begin (sv_manager sv) ctx in
      (set_manager sv manager, err)
  end.

Definition shutdown_end (sv : Server) : Server := set_event_broker sv (eventBroker_close (sv_broker sv)).

(** ** Authentication and rate limiting *)

Record front_request := mkFront {
  fr_path : string;
  fr_authorization : string;
  fr_ctx : context;
  fr_now : Z
}.

Definition has_prefix (prefix s : string) : bool := String.prefix prefix s.

(** [Time.Unix]: 62135596800 seconds lie between the year 1 and 1970. *)
Definition time_unix (t : Z) : Z := t / Second - 62135596800.

Definition retry_after_seconds (retryAfter : Z) : Z :=
  let seconds := Z.quot (wrap_int64 (wrap_int64 (retryAfter + Second) - 1)) Second in
  if seconds <? 1 then 1 else seconds.

(** How [serveHTTP] answers: the request passes to the mux, with a principal when
    it is one of the API, or it is refused with an error and headers. *)
Inductive admission :=
| AdmitPublic
| AdmitPrincipal (principal : Principal) (headers : list (string * string))
| Refused (e : api_error) (headers : list (string * string)).

Definition api_path (path : string) : bool := has_prefix "/api/v1/" path || String.eqb path "/api/v1".

Definition serveHTTP (parse : string -> res go_error parsed_token) (sv : Server) (fr : front_request)
  : Server * admission :=
  if api_path (fr_path fr) then
    match Authenticate parse (fr_ctx fr) (bearerToken (fr_authorization fr)) with
    | Err _ =>
        (sv, Refused (mkApiError StatusUnauthorized "unauthenticated" "a valid bearer token is required" "")
               [("WWW-Authenticate", "Bearer realm=" +:+ dquote +:+ "forgeflow" +:+ dquote)])
    | Ok principal =>
        let '(limiter, decision) := Allow (sv_limiter sv) (fr_now fr) (pr_UserID principal) in
        let sv := set_limiter sv limiter in
        let headers := [("RateLimit-Limit", fmt_d (rd_Limit decision)); ("RateLimit-Remaining", fmt_d (rd_Remaining decision));
                        ("RateLimit-Reset", fmt_d (time_unix (rd_ResetAt decision)))] in
        if negb (rd_Allowed decision) then
          (sv, Refused (mkApiError StatusTooManyRequests "rate_limited" "request rate limit exceeded" "")
                 (headers ++ [("Retry-After", fmt_d (retry_after_seconds (rd_RetryAfter decision)))]))
        else (sv, AdmitPrincipal principal headers)
    end
  else (sv, AdmitPublic).
End Server.
