(* ===== verification/ServerProps.v ===== *)
(** * Guarantees of the API server

    An accepted run is durable, handed to one goroutine, and executed with the
    guarantees of the engine; only members of the owning project reach a workflow
    or a run; a client that waits as long as it is told is admitted again. *)
From S2P Require Import Prelude Workflow Heap Graph GraphBuild GraphOrder Errors Run Ids Snapshot SnapshotValid RunStep RunInv RunDurable Broker Security FileStore FileStoreOps FileStoreInv FileStoreProps RateLimit Engine EngineInv EngineProps EngineRuns EngineStore Projects ProjectsProps Duration Handlers Options Events EventsProps EventsLog Manager Dto Http Server.

Section Guarantees.
Context `{Unicode} `{JournalCodec}.

(** ** Handlers *)

Lemma validate_handlers_ok registry index tasks :
  validate_handlers registry index tasks = Ok tt ->
  Forall (fun task => validIdentifier (td_Handler task) = true /\ is_Some (registry !! td_Handler task)) tasks.
Proof.
  revert index. induction tasks as [|task tasks IH]; intros index; cbn; [done|].
  rewrite guard_err_ok, negb_false_iff. intros [Hv Hr]. unfold registry_Handler in Hr.
  destruct (registry !! td_Handler task) eqn:E; [|done]. apply Forall_cons. eauto.
Qed.


Lemma clone_handlers (P : string -> Prop) d :
  Forall (fun task => P (td_Handler task)) (wd_Tasks d) -> Forall (fun task => P (td_Handler task)) (wd_Tasks (cloneDefinition d)).
Proof. intros Hd. cbn. rewrite Forall_fmap. eapply Forall_impl; [exact Hd|]. by intros []. Qed.

(** ** Membership *)

(** The caller is an enabled member of the project with a role that allows the
    operation. *)
Definition permitted (s : file_state) (rq : api_request) (projectID : string) (permission : Permission) : Prop :=
  exists user m,
    fs_users (st_memory s) !! pr_UserID (rq_principal rq) = Some user /\ user_Disabled user = false /\
    lookup_membership (st_memory s) projectID (pr_UserID (rq_principal rq)) = Some m /\
    Allows (mem_Role m) permission = true.

Lemma authorize_permitted s rq p permission : authorize s rq p permission = Ok tt -> permitted s rq p permission.
Proof. apply authorize_ok. Qed.

Lemma check_context_live ctx : check_context ctx = Ok tt -> ctx = CtxLive.
Proof. by destruct ctx. Qed.

Lemma load_workflow_ok sv rq workflowID permission definition ownership :
  load_workflow sv rq workflowID permission = Ok (definition, ownership) ->
  permitted (sv_files sv) rq (own_ProjectID ownership) permission /\
  fs_ownerships (st_memory (sv_files sv)) !! workflowID = Some ownership /\
  exists stored, fs_workflows (st_memory (sv_files sv)) !! workflowID = Some stored /\ definition = cloneDefinition stored.
Proof.
  unfold load_workflow, LoadWorkflow, LoadWorkflowOwnership. rewrite guard_err_ok. intros [_ Hl].
  destruct (check_context (rq_ctx rq 0)) as [[]|]; [|done]. cbn [rbind] in Hl.
  destruct (fs_workflows _ !! workflowID) as [stored|]; [|done]. cbn [fmap option_fmap option_map] in Hl.
  destruct (check_context (rq_ctx rq 1)) as [[]|]; [|done]. cbn [rbind] in Hl.
  destruct (fs_ownerships _ !! workflowID) as [o|]; [|done].
  apply rbind_ok in Hl as ([] & Ha & [= <- <-]). split_and!; [|done|eauto]. exact (authorize_permitted _ _ _ _ Ha).
Qed.

Lemma loadRun_ok sv rq runID permission snapshot :
  loadRun sv rq runID permission = Ok snapshot ->
  fs_runs (st_memory (sv_files sv)) !! runID = Some snapshot /\
  exists ownership, fs_ownerships (st_memory (sv_files sv)) !! snap_WorkflowID snapshot = Some ownership /\
    permitted (sv_files sv) rq (own_ProjectID ownership) permission.
Proof.
  unfold loadRun, LoadRun, LoadWorkflowOwnership. rewrite guard_err_ok. intros [_ Hl].
  destruct (check_context (rq_ctx rq 0)) as [[]|]; [|done]. cbn [rbind] in Hl.
  destruct (fs_runs _ !! runID) as [stored|]; [|done].
  destruct (check_context (rq_ctx rq 1)) as [[]|]; [|done]. cbn [rbind] in Hl.
  destruct (fs_ownerships _ !! snap_WorkflowID stored) as [o|] eqn:Ho; [|done].
  apply rbind_ok in Hl as ([] & Ha & [= <-]). split; [done|]. exists o. split; [done|]. exact (authorize_permitted _ _ _ _ Ha).
Qed.

(** The caller belongs to no project that owns the workflow. *)
Definition outsider (s : file_state) (rq : api_request) (workflowID : string) : Prop :=
  forall ownership, fs_ownerships (st_memory s) !! workflowID = Some ownership ->
    lookup_membership (st_memory s) (own_ProjectID ownership) (pr_UserID (rq_principal rq)) = None.

Lemma outsider_not_permitted s rq workflowID ownership permission :
  outsider s rq workflowID -> fs_ownerships (st_memory s) !! workflowID = Some ownership ->
  ~ permitted s rq (own_ProjectID ownership) permission.
Proof. intros Ho Hw (user & m & _ & _ & Hm & _). by rewrite (Ho _ Hw) in Hm. Qed.

Lemma outsider_load_workflow sv rq workflowID permission :
  outsider (sv_files sv) rq workflowID -> exists e, load_workflow sv rq workflowID permission = Err e.
Proof.
  intros Ho. destruct (load_workflow _ _ _ _) as [[d o]|e] eqn:El; [|eauto].
  apply load_workflow_ok in El as (Hp & Hw & _). by apply (outsider_not_permitted _ _ _ _ permission Ho) in Hw.
Qed.

Lemma outsider_loadRun sv rq runID permission :
  (forall snapshot, fs_runs (st_memory (sv_files sv)) !! runID = Some snapshot ->
     outsider (sv_files sv) rq (snap_WorkflowID snapshot)) ->
  exists e, loadRun sv rq runID permission = Err e.
Proof.
  intros Ho. destruct (loadRun _ _ _ _) as [snapshot|e] eqn:El; [|eauto].
  apply loadRun_ok in El as (Hr & o & Hw & Hp). specialize (Ho _ Hr). by apply (outsider_not_permitted _ _ _ _ permission Ho) in Hw.
Qed.

(** C24: workflows and runs of a project are closed to everyone else. For a caller
    who is no member of the owning project every request that names the workflow or
    one of its runs fails, and none of them changes the store, the runs in progress
    or the event streams. *)
Theorem foreign_resources_closed sv rq workflowID runID method lastID flusher b random :
  outsider (sv_files sv) rq workflowID ->
  (forall snapshot, fs_runs (st_memory (sv_files sv)) !! runID = Some snapshot ->
     outsider (sv_files sv) rq (snap_WorkflowID snapshot)) ->
  is_ok (handleWorkflow sv rq method workflowID) = false /\
  is_ok (handleRun sv rq method runID) = false /\ is_ok (handleRunTasks sv rq method runID) = false /\
  (exists e, handleWorkflowRuns sv rq method workflowID b random = (sv, Err e)) /\
  (exists e, handleRunCancellation sv rq method runID = (sv, Err e)) /\
  (exists e, handleRunRetry sv rq method runID b random = (sv, Err e)) /\
  (exists e, handleRunEvents sv rq method runID lastID flusher = (sv, Err e)).
Proof.
  intros Hw Hr. unfold handleWorkflow, handleRun, handleRunTasks, handleWorkflowRuns, create_run_request,
    handleRunCancellation, cancel_run_request, handleRunRetry, retry_request, handleRunEvents.
  destruct (outsider_load_workflow sv rq workflowID PermissionProjectRead Hw) as [e1 ->].
  destruct (outsider_load_workflow sv rq workflowID PermissionRunStart Hw) as [e2 ->].
  destruct (outsider_loadRun sv rq runID PermissionRunRead Hr) as [e3 ->].
  destruct (outsider_loadRun sv rq runID PermissionTaskRead Hr) as [e4 ->].
  destruct (outsider_loadRun sv rq runID PermissionRunOperate Hr) as [e5 ->].
  destruct (requireMethod method "GET"), (requireMethod method "POST"); cbn; split_and!; eauto.
Qed.

(** ** What an outsider still learns *)

(** A provisioned user, enabled, whose request is not canceled. *)
Record provisioned (s : file_state) (rq : api_request) : Prop := {
  pv_live : forall n, rq_ctx rq n = CtxLive;
  pv_user : exists user, fs_users (st_memory s) !! pr_UserID (rq_principal rq) = Some user /\ user_Disabled user = false
}.

Lemma outsider_refused s rq n p permission :
  provisioned s rq -> lookup_membership (st_memory s) p (pr_UserID (rq_principal rq)) = None ->
  authorize s (from_call rq n) p permission = Err (write_denial DeniedProjectNotFound).
Proof.
  intros [Hl (user & Hu & Hd)] Hn. unfold authorize, authorizeProject, LoadUser, LoadMembership.
  cbn [from_call rq_ctx rq_principal]. rewrite !Hl. cbn. by rewrite Hu, Hd, Hn.
Qed.

Lemma outsider_workflow_answer sv rq workflowID :
  provisioned (sv_files sv) rq -> outsider (sv_files sv) rq workflowID -> integrity (st_memory (sv_files sv)) -> validResourceID workflowID = true ->
  handleWorkflow sv rq "GET" workflowID =
  Err (match fs_ownerships (st_memory (sv_files sv)) !! workflowID with
       | Some _ => write_denial DeniedProjectNotFound
       | None => workflow_not_found
       end).
Proof.
  intros Hn Hout Hi Hv. unfold handleWorkflow, load_workflow, LoadWorkflow, LoadWorkflowOwnership.
  rewrite Hv, !(pv_live _ _ Hn). cbn [negb guard_err requireMethod String.eqb Ascii.eqb Bool.eqb rbind check_context storeContextError].
  destruct (fs_ownerships _ !! workflowID) as [o|] eqn:Ho.
  - destruct (in_owner _ Hi _ _ Ho) as (_ & [d Hd] & _). rewrite Hd. cbn [fmap option_fmap option_map].
    by rewrite (outsider_refused _ _ 2 _ _ Hn (Hout _ Ho)).
  - by destruct (fs_workflows _ !! workflowID).
Qed.

Lemma outsider_run_answer sv rq runID :
  provisioned (sv_files sv) rq ->
  (forall snapshot, fs_runs (st_memory (sv_files sv)) !! runID = Some snapshot ->
     outsider (sv_files sv) rq (snap_WorkflowID snapshot)) -> validResourceID runID = true ->
  handleRun sv rq "GET" runID =
  Err (match fs_runs (st_memory (sv_files sv)) !! runID with
       | Some snapshot =>
           match fs_ownerships (st_memory (sv_files sv)) !! snap_WorkflowID snapshot with
           | Some _ => write_denial DeniedProjectNotFound
           | None => run_not_found
           end
       | None => run_not_found
       end).
Proof.
  intros Hn Hout Hv. unfold handleRun, loadRun, LoadRun, LoadWorkflowOwnership.
  rewrite Hv, !(pv_live _ _ Hn). cbn [negb guard_err requireMethod String.eqb Ascii.eqb Bool.eqb rbind check_context storeContextError].
  destruct (fs_runs _ !! runID) as [snapshot|]; [|done]. destruct (fs_ownerships _ !! _) eqn:Ho; [|done].
  by rewrite (outsider_refused _ _ 2 _ _ Hn (Hout _ eq_refl _ Ho)).
Qed.

(** The answers of the API tell a user which workflows and runs the projects
    have that the user is no member of: an identifier that is taken is answered with the
    code [project_not_found], a free one with [workflow_not_found] or
    [run_not_found]. *)
Theorem existence_revealed sv rq workflowID runID :
  provisioned (sv_files sv) rq -> integrity (st_memory (sv_files sv)) ->
  outsider (sv_files sv) rq workflowID ->
  (forall snapshot, fs_runs (st_memory (sv_files sv)) !! runID = Some snapshot ->
     outsider (sv_files sv) rq (snap_WorkflowID snapshot)) ->
  validResourceID workflowID = true -> validResourceID runID = true ->
  exists e e',
    handleWorkflow sv rq "GET" workflowID = Err e /\ handleRun sv rq "GET" runID = Err e' /\
    (ae_code e = "project_not_found" <-> is_Some (fs_ownerships (st_memory (sv_files sv)) !! workflowID)) /\
    (ae_code e' = "project_not_found" <->
       exists snapshot, fs_runs (st_memory (sv_files sv)) !! runID = Some snapshot /\
         is_Some (fs_ownerships (st_memory (sv_files sv)) !! snap_WorkflowID snapshot)).
Proof.
  intros Hn Hi Ho Hor Hw Hr. rewrite outsider_workflow_answer, outsider_run_answer by done. do 2 eexists. split_and!; [done|done|..].
  - destruct (fs_ownerships _ !! workflowID); by cbn; split; try done; intros [? ?].
  - destruct (fs_runs _ !! runID) as [snapshot|].
    + destruct (fs_ownerships _ !! snap_WorkflowID snapshot) eqn:Hs; cbn; split; try done.
      * intros _. exists snapshot. by rewrite Hs.
      * intros (? & [= <-] & [? ?]). congruence.
    + cbn. split; [done|]. by intros (? & ? & _).
Qed.

(** ** Accepted runs *)

Lemma CreateRun_spec (s s' : file_state) ctx snapshot stored :
  @store_CreateRun _ file_store s ctx snapshot = (s', Ok stored) ->
  ctx = CtxLive /\ st_memory s' = with_run (st_memory s) stored /\ stored = snapshot_with_version snapshot 1.
Proof.
  cbn. unfold CreateRun. intros Hs. apply perform_ok in Hs as [[Hp ->]|[r Hp]].
  { exfalso. unfold plan_CreateRun in Hp. by run_ok. }
  pose proof Hp as Hctx. apply plan_CreateRun_ok in Hp as (_ & -> & ->). split; [|done].
  unfold plan_CreateRun in Hctx. run_ok. by destruct ctx.
Qed.





(** ** Created workflows *)

(** The memory [m] with one more workflow and its ownership. *)
Definition with_owned_workflow (m : FileStore) (d : WorkflowDefinition) (o : WorkflowOwnership) : FileStore :=
  mkFileStore (<[wd_ID d := cloneDefinition d]> (fs_workflows m)) (fs_runs m) (fs_users m) (fs_projects m)
    (fs_memberships m) (<[wd_ID d := o]> (fs_ownerships m)) (fs_auditEvents m) (fs_auditIDs m).

Lemma SaveWorkflowForProject_new (s s' : file_state) ctx d o :
  integrity (st_memory s) -> fs_workflows (st_memory s) !! wd_ID d = None ->
  SaveWorkflowForProject s ctx d o = (s', Ok tt) ->
  st_memory s' = with_owned_workflow (st_memory s) d o.
Proof.
  intros Hi Hnone Hs. unfold SaveWorkflowForProject in Hs. apply perform_ok in Hs as [[Hp ->]|[r Hp]];
    unfold plan_SaveWorkflowForProject in Hp; run_ok; rewrite ?negb_false_iff, ?String.eqb_eq in *;
    destruct (fs_ownerships _ !! wd_ID d) as [o'|] eqn:Ho.
  - destruct (in_owner _ Hi _ _ Ho) as (_ & [w Hw] & _). congruence.
  - done.
  - destruct (in_owner _ Hi _ _ Ho) as (_ & [w Hw] & _). congruence.
  - injection Hp as _ Hmem. rewrite <- Hmem. cbn. rewrite cloneDefinition_idemp.
    match goal with Hx : own_WorkflowID _ = _ |- _ => by rewrite Hx end.
Qed.

Lemma create_workflow_request_ok sv rq method b definition ownership :
  create_workflow_request sv rq method b = Ok (definition, ownership) ->
  exists payload, bd_first b = Decoded payload /\ request_definition payload = Ok definition /\
    Validate definition = Ok tt /\ permitted (sv_files sv) rq (wr_ProjectID payload) PermissionWorkflowWrite /\
    ownership = mkWorkflowOwnership (wd_ID definition) (wr_ProjectID payload) (pr_UserID (rq_principal rq)) (rq_now rq) /\
    Forall (fun task => is_Some (sv_registry sv !! td_Handler task)) (wd_Tasks definition) /\
    fs_workflows (st_memory (sv_files sv)) !! wd_ID definition = None.
Proof.
  unfold create_workflow_request, required_body. intros Hr. run_ok.
  match goal with Hd : decodeJSONBody b _ _ = Ok ?payload |- _ =>
    exists payload; unfold decodeJSONBody in Hd; destruct (bd_first b); try done; destruct (bd_second b); try done;
    injection Hd as -> end.
  unfold LoadWorkflow in Hr. destruct (check_context (rq_ctx rq 2)); [|done]. cbn [rbind] in Hr.
  destruct (fs_workflows _ !! _) eqn:Hw; [done|]. cbn in Hr. simplify_eq.
  repeat match goal with u : unit |- _ => destruct u end.
  match goal with Ha : authorize _ _ _ _ = _ |- _ => apply authorize_permitted in Ha end.
  match goal with Hh : validateHandlers _ _ = _ |- _ => apply validate_handlers_ok in Hh as Hhandlers end.
  split_and!; try done. eapply Forall_impl; [exact Hhandlers|]. by intros task [_ ?].
Qed.

(** C25: a workflow that the API has created is what was asked for and by whom. The
    caller may write workflows in the project of the request; the definition is that
    of the request, valid, acyclic and with machine-sized retry policies; its handlers
    are registered; it is stored under an identifier that was free, owned by the caller
    in that project since the time of the request. Nothing else has changed: the
    workflows, runs, users, projects, memberships, ownerships and audit events that the
    store had, and the event broker, the metrics, the rate limiter, the registry and
    the run manager of the server, are as before. *)
Theorem workflow_created sv rq method b payload sv' resp :
  integrity (st_memory (sv_files sv)) -> bd_first b = Decoded payload -> request_in_range payload ->
  handleWorkflows sv rq method b = (sv', Ok resp) ->
  exists d o files,
    permitted (sv_files sv) rq (wr_ProjectID payload) PermissionWorkflowWrite /\
    request_definition payload = Ok d /\
    o = mkWorkflowOwnership (wd_ID d) (wr_ProjectID payload) (pr_UserID (rq_principal rq)) (rq_now rq) /\
    structurally_valid d /\ acyclic d /\ definition_in_range d /\
    Forall (fun task => is_Some (sv_registry sv !! td_Handler task)) (wd_Tasks d) /\
    fs_workflows (st_memory (sv_files sv)) !! wd_ID d = None /\
    sv' = set_files sv files /\ st_memory files = with_owned_workflow (st_memory (sv_files sv)) d o /\
    resp = workflowDTO d o.
Proof.
  intros Hi Hb Hrange Hh. unfold handleWorkflows in Hh.
  destruct (create_workflow_request _ _ _ _) as [[d o]|] eqn:Hreq; [|done].
  apply create_workflow_request_ok in Hreq as (payload' & Hb' & Hd & Hval & Hperm & Ho & Hhandlers & Hfree).
  assert (payload' = payload) as -> by congruence.
  destruct (SaveWorkflowForProject _ _ _ _) as [files [[]|e]] eqn:Hs; cbn in Hh; [|done]. injection Hh as <- <-.
  pose proof (SaveWorkflowForProject_new _ _ _ _ _ Hi Hfree Hs) as Hmem.
  apply Validate_ok_iff in Hval as [Hstr Hacy]. exists d, o, files. split_and!; try done. by eapply request_definition_range.
Qed.

(** ** Runs that are refused but created *)

(** Creating a run changes nothing that the checks of the request read. *)
Lemma create_run_request_same sv sv' rq method workflowID b random stored :
  st_memory (sv_files sv') = with_run (st_memory (sv_files sv)) stored -> sv_registry sv' = sv_registry sv ->
  create_run_request sv' rq method workflowID b random = create_run_request sv rq method workflowID b random.
Proof.
  intros Hmem Hreg. unfold create_run_request, load_workflow, validateHandlers, authorize, LoadWorkflow,
    LoadWorkflowOwnership, LoadUser, LoadMembership. by rewrite Hmem, Hreg.
Qed.

Lemma CreateRun_again (s s' s1 : file_state) snapshot stored :
  @store_CreateRun _ file_store s CtxLive snapshot = (s', Ok stored) ->
  st_memory s1 = with_run (st_memory s) stored ->
  @store_CreateRun _ file_store s1 CtxLive snapshot = (s1, Err (RunAlreadyExistsError (snap_ID snapshot))).
Proof.
  intros Hc Hmem. pose proof (CreateRun_spec _ _ _ _ _ Hc) as (_ & _ & ->). cbn in *. unfold CreateRun in *.
  assert (Hplan : plan_CreateRun (st_memory s1) CtxLive CtxLive snapshot = Err (RunAlreadyExistsError (snap_ID snapshot)));
    [|by rewrite Hplan].
  apply perform_ok in Hc as [[Hp _]|[r Hp]]; unfold plan_CreateRun in Hp |- *; run_ok; cbn;
    match goal with Hv : validateSnapshot snapshot = _ |- _ => rewrite Hv end; cbn; rewrite Hmem; cbn;
    by rewrite lookup_insert_eq.
Qed.

(** During shutdown [POST /workflows/{id}/runs] answers 503 for a run that it
    has created: the run is stored and pending, no goroutine executes it, and the
    same request again is answered with the conflict [run_exists]. *)
Theorem refused_run_persists sv rq method workflowID b random runID d run store' stored :
  create_run_request sv rq method workflowID b random = Ok (runID, d) ->
  newWorkflowRun runID d (rq_now rq) = Ok run ->
  observed_CreateRun (sv_store sv) CtxLive (Snapshot run) = (store', Ok stored) ->
  (forall n, rq_ctx rq n = CtxLive) -> mg_closed (sv_manager sv) = true ->
  exists sv' e sv'' e',
    handleWorkflowRuns sv rq method workflowID b random = (sv', Err e) /\ ae_status e = StatusServiceUnavailable /\
    sv_manager sv' = sv_manager sv /\
    fs_runs (st_memory (sv_files sv')) !! runID = Some stored /\ snap_Status stored = WorkflowRunPending /\
    handleWorkflowRuns sv' rq method workflowID b random = (sv'', Err e') /\ ae_code e' = "run_exists".
Proof.
  intros Hreq Hn Hc Hctx Hcl. pose proof (observed_CreateRun_ok _ _ _ _ _ Hc) as [Hd _].
  pose proof (CreateRun_spec _ _ _ _ _ Hd) as (_ & Hmem & Hst).
  pose proof (newWorkflowRun_ok _ _ _ _ Hn) as (_ & _ & Hrun).
  set (sv' := set_manager (set_store sv store') (sv_manager sv)).
  assert (Hreq' : create_run_request sv' rq method workflowID b random = Ok (runID, d))
    by (by rewrite (create_run_request_same sv sv' rq method workflowID b random stored)).
  assert (Hagain : observed_CreateRun store' CtxLive (Snapshot run) =
    (mkObserved (os_delegate store') (os_broker store') (os_metrics store'), Err (RunAlreadyExistsError (snap_ID (Snapshot run))))).
  { unfold observed_CreateRun. by rewrite (CreateRun_again _ _ (os_delegate store') _ _ Hd Hmem). }
  exists sv', (mkApiError StatusServiceUnavailable "not_ready" "ForgeFlow is shutting down" "").
  do 2 eexists. split_and!; [|done|done| | | |].
  - unfold handleWorkflowRuns. rewrite Hreq. unfold accept_run. rewrite Hn, !Hctx, Hc. cbn [set_store sv_manager].
    unfold manager_start. by rewrite Hcl.
  - change (fs_runs (st_memory (os_delegate store')) !! runID = Some stored). rewrite Hmem, Hst, Hrun. apply lookup_insert_eq.
  - by rewrite Hst, Hrun.
  - unfold handleWorkflowRuns. rewrite Hreq'. unfold accept_run. rewrite Hn, !Hctx.
    change (sv_store sv') with store'. rewrite Hagain. reflexivity.
  - done.
Qed.

Section Execution.
Context `{DispatchCodec} (clock : nat -> Z) (cfg : engine_config) (trace_headers : string -> gmap string string).

End Execution.

(** ** Admission *)

Lemma retry_after_enough retryAfter :
  0 <= retryAfter -> retryAfter + Second <= max_int64 -> retryAfter <= retry_after_seconds retryAfter * Second.
Proof.
  intros Hpos Hmax. unfold retry_after_seconds. unfold Second, max_int64 in *.
  rewrite (wrap_int64_id (retryAfter + 1000000000)), wrap_int64_id by (unfold in_int64, min_int64, max_int64; lia).
  rewrite Z.quot_div_nonneg by lia. pose proof (Z.div_mod (retryAfter + 1000000000 - 1) 1000000000).
  pose proof (Z.mod_pos_bound (retryAfter + 1000000000 - 1) 1000000000).
  destruct (Z.ltb_spec ((retryAfter + 1000000000 - 1) / 1000000000) 1); lia.
Qed.

Lemma refused_nonneg limiter now key : 0 <= rd_RetryAfter (snd (Allow limiter now key)).
Proof.
  unfold Allow, decide_call. set (w := match _ !! key with Some _ => _ | None => _ end). clearbody w.
  destruct (rl_limit limiter <=? rw_count w); cbn; [|done].
  unfold maxDuration. destruct (Z.ltb_spec (time_sub (window_end limiter w) now) 0); lia.
Qed.

(** The answer 429 is a promise. It says after how many whole seconds to come
    back, and a caller who waits that long is admitted, whatever fraction of a
    second the rounding cuts off. *)
Theorem retry_after_kept parse sv sv' fr fr' principal e headers :
  1 <= rl_limit (sv_limiter sv) -> api_path (fr_path fr) = true -> api_path (fr_path fr') = true ->
  Authenticate parse (fr_ctx fr) (bearerToken (fr_authorization fr)) = Ok principal ->
  Authenticate parse (fr_ctx fr') (bearerToken (fr_authorization fr')) = Ok principal ->
  serveHTTP parse sv fr = (sv', Refused e headers) ->
  rd_RetryAfter (snd (Allow (sv_limiter sv) (fr_now fr) (pr_UserID principal))) + Second <= max_int64 ->
  exists seconds,
    ("Retry-After", fmt_d seconds) ∈ headers /\ 1 <= seconds /\ ae_status e = StatusTooManyRequests /\
    (fr_now fr + seconds * Second <= fr_now fr' ->
     exists sv'' headers', serveHTTP parse sv' fr' = (sv'', AdmitPrincipal principal headers')).
Proof.
  intros Hlimit Hp Hp' Ha Ha' Hs Hmax. unfold serveHTTP in Hs. rewrite Hp, Ha in Hs.
  pose proof (refused_nonneg (sv_limiter sv) (fr_now fr) (pr_UserID principal)) as Hpos.
  destruct (Allow (sv_limiter sv) (fr_now fr) (pr_UserID principal)) as [limiter d] eqn:Hallow. cbn [snd] in *.
  destruct (rd_Allowed d) eqn:Hd; cbn [negb] in Hs; [done|]. injection Hs as <- <- <-.
  exists (retry_after_seconds (rd_RetryAfter d)). split_and!.
  - rewrite !elem_of_cons. auto.
  - unfold retry_after_seconds. destruct (Z.ltb_spec (Z.quot (wrap_int64 (wrap_int64 (rd_RetryAfter d + Second) - 1)) Second) 1); lia.
  - done.
  - intros Hwait. unfold serveHTTP. rewrite Hp', Ha'. cbn [set_limiter sv_limiter].
    pose proof (retry_after_enough _ Hpos Hmax) as Henough.
    pose proof (allow_after_wait _ _ _ _ _ (fr_now fr') Hlimit Hallow Hd) as Hnext.
    destruct (Allow limiter (fr_now fr') (pr_UserID principal)) as [limiter' d']. cbn [snd] in Hnext.
    rewrite Hnext; [by do 2 eexists|unfold Second in *; lia|lia].
Qed.

(** ** Cancellation *)

Lemma manager_cancel_hit m runID g :
  manager_inv m -> mg_active m !! runID = Some g ->
  exists w, manager_cancel m runID = (set_workers m (cancel_func (mg_workers m) g), true) /\
    mg_workers m !! g = Some w /\ wk_runID w = runID /\ wk_phase w <> PhaseRemoved /\
    mg_workers (fst (manager_cancel m runID)) !! g = Some (cancel_worker w).
Proof.
  intros Hi Hg. destruct (proj1 (mi_active _ Hi _ _) Hg) as (w & Hw & Hid & Hp). exists w.
  unfold manager_cancel. rewrite Hg. split_and!; try done. cbn. rewrite cancel_func_lookup, decide_True by done. by rewrite Hw.
Qed.

(** The requests of [handleRunCancellation] on the manager, when they succeed,
    leave the run with a goroutine that has been told to stop. *)
Lemma request_cancellation_ok m ctx runID m' :
  manager_inv m -> request_cancellation m ctx runID = (m', None) ->
  exists g w, mg_active m' !! runID = Some g /\ mg_workers m' !! g = Some w /\ wk_runID w = runID /\ wk_canceled w = true.
Proof.
  intros Hi Hr. unfold request_cancellation in Hr. destruct (mg_active m !! runID) as [g|] eqn:Hg.
  - destruct (manager_cancel_hit _ _ _ Hi Hg) as (w & Hc & Hw & Hid & _ & Hafter). rewrite Hc in Hr, Hafter. injection Hr as <-.
    exists g, (cancel_worker w). by split_and!.
  - assert (Hc : manager_cancel m runID = (m, false)) by (unfold manager_cancel; by rewrite Hg). rewrite Hc in Hr.
    pose proof (start_inv m ctx runID Hi) as Hi1.
    destruct (manager_start m ctx runID) as [m1 failed] eqn:Hs. cbn [fst] in Hi1. unfold manager_start in Hs.
    assert (Hcase : failed = None /\ m1 = spawn_recover m runID \/ exists err, failed = Some err /\ is_run_active err = false).
    { destruct ctx; [injection Hs as _ <-; eauto|..]; (destruct (mg_closed m); [injection Hs as _ <-; eauto|]);
        rewrite Hg in Hs; injection Hs as <- <-; by left. }
    destruct Hcase as [[-> ->]|(err & -> & Herr)]; [|by rewrite Herr in Hr].
    injection Hr as <-. assert (Hg1 : mg_active (spawn_recover m runID) !! runID = Some (mg_next m)) by apply lookup_insert_eq.
    destruct (manager_cancel_hit _ _ _ Hi1 Hg1) as (w & Hc1 & Hw & Hid & _ & Hafter). rewrite Hc1 in Hafter |- *.
    exists (mg_next m), (cancel_worker w). by split_and!.
Qed.

(** A cancellation that the API has accepted reaches the run: the caller may
    operate runs of its project, the stored run was not finished, and the goroutine
    that has the run, which is started for this if there is none, is told to stop. *)
Theorem cancellation_reaches_run sv rq method runID sv' :
  integrity (st_memory (sv_files sv)) -> manager_inv (sv_manager sv) ->
  handleRunCancellation sv rq method runID = (sv', Ok runID) ->
  exists snapshot ownership g w,
    fs_runs (st_memory (sv_files sv)) !! runID = Some snapshot /\ terminalWorkflowStatus (snap_Status snapshot) = false /\
    fs_ownerships (st_memory (sv_files sv)) !! snap_WorkflowID snapshot = Some ownership /\
    permitted (sv_files sv) rq (own_ProjectID ownership) PermissionRunOperate /\
    mg_active (sv_manager sv') !! runID = Some g /\ mg_workers (sv_manager sv') !! g = Some w /\
    wk_runID w = runID /\ wk_canceled w = true.
Proof.
  intros Hi Hm Hh. unfold handleRunCancellation in Hh.
  destruct (cancel_run_request _ _ _ _) as [snapshot|] eqn:Hreq; [|done]. unfold cancel_run_request in Hreq. run_ok. simplify_eq.
  match goal with Hl : loadRun _ _ _ _ = _ |- _ => apply loadRun_ok in Hl as (Hr & o & Ho & Hp) end.
  destruct (in_run _ Hi _ _ Hr) as [Hid _]. rewrite Hid in Hh.
  destruct (request_cancellation _ _ _) as [m [err|]] eqn:Hc; [done|]. injection Hh as <-.
  destruct (request_cancellation_ok _ _ _ _ Hm Hc) as (g & w & Ha & Hw & Hrun & Hcan).
  exists snapshot, o, g, w. by split_and!.
Qed.

(** An accepted cancellation can be lost. When the engine has given up on a run
    with an error and its goroutine has recorded it but not yet let go of the run,
    the API answers 202 to the cancellation of the unfinished run; but no engine
    executes the run and none is started, so nothing cancels it. *)
Theorem cancellation_lost sv rq runID snapshot g w :
  rtc manager_step newRunManager (sv_manager sv) ->
  cancel_run_request sv rq "POST" runID = Ok snapshot -> snap_ID snapshot = runID ->
  mg_workers (sv_manager sv) !! g = Some w -> wk_runID w = runID -> wk_phase w = PhaseRecorded ->
  exists sv', handleRunCancellation sv rq "POST" runID = (sv', Ok runID) /\
    forall g' w', mg_workers (sv_manager sv') !! g' = Some w' -> wk_runID w' = runID -> wk_phase w' <> PhaseRunning.
Proof.
  intros Hm%manager_reachable Hreq Hid Hw Hrun Hp. unfold handleRunCancellation. rewrite Hreq, Hid.
  assert (Hg : mg_active (sv_manager sv) !! runID = Some g) by (apply (mi_active _ Hm); exists w; by rewrite Hp).
  destruct (manager_cancel_hit _ _ _ Hm Hg) as (w0 & Hc & _). unfold request_cancellation. rewrite Hc.
  eexists. split; [done|]. cbn. intros g' w' Hw' Hrun' Hrunning.
  destruct (canceled_from_worker _ _ _ _ (cancel_func_from _ _ g (canceled_from_refl _)) Hw') as (w1 & Hw1 & Hid1 & Hph1 & _).
  assert (Hg' : mg_active (sv_manager sv) !! runID = Some g') by (apply (mi_active _ Hm); exists w1; split_and!; congruence).
  congruence.
Qed.
End Guarantees.
