(* ===== verification/Config.v ===== *)
(** * Process configuration

    Models the configuration half of [src/internal/app/app.go] with the parts of
    [src/internal/broker/nats.go] and [src/internal/observability/tracing.go] that
    it validates, the wiring of a process up to its listener, and the redaction of
    errors. The environment is a function from names to values; an unset variable
    reads as the empty string. *)
From S2P Require Import Prelude Workflow Graph Errors Run Ids RunStep Broker Security FileStore FileStoreOps RateLimit Engine EngineStore Projects Duration Handlers Options Events Manager Dto Http Server.

(** ** Standard library *)

(** [unicode.ToLower] beyond ASCII. *)
Class UnicodeLower := to_lower_wide : Z -> Z.

Definition to_lower `{UnicodeLower} (r : Z) : Z :=
  if r <? 128 then (if in_range 65 90 r then r + 32 else r) else to_lower_wide r.

Definition ToLower `{UnicodeLower} (s : string) : string :=
  foldr (fun '(r, _) out => encode_rune (to_lower r) +:+ out) EmptyString (runes s).

(** [strings.ContainsAny] for ASCII characters. *)
Fixpoint ContainsAny (s : string) (chars : list Z) : bool :=
  match s with
  | EmptyString => false
  | String c rest => existsb (fun x => x =? byte_val c) chars || ContainsAny rest chars
  end.

(** [strings.Split] at a single ASCII character. *)
Fixpoint Split (c : Z) (s : string) : list string :=
  match s with
  | EmptyString => [""]
  | String x rest =>
      if byte_val x =? c then "" :: Split c rest
      else match Split c rest with
           | word :: words => String x word :: words
           | [] => [String x ""]
           end
  end.

(** [strings.ReplaceAll] of a non-empty string; [skip] bytes of a match remain. *)
Fixpoint replace_from (old new : string) (skip : nat) (s : string) : string :=
  match s with
  | EmptyString => EmptyString
  | String c rest =>
      match skip with
      | S k => replace_from old new k rest
      | O => if String.prefix old s then new +:+ replace_from old new (String.length old - 1) rest
             else String c (replace_from old new 0 rest)
      end
  end.
Definition ReplaceAll (s old new : string) : string := replace_from old new 0 s.

Section Config.
Context `{Unicode} `{UnicodeCase} `{UnicodeLower}.

(** The error of [strconv.Atoi]. *)
Definition atoi_error (s reason : string) : go_error :=
  ErrWrap ("strconv.Atoi: parsing " +:+ quote s +:+ ": " +:+ reason) (ErrText reason).

(** The loop of [ParseUint]; [inl] is a syntax error, [inr None] an overflow. *)
Fixpoint atoi_digits (x : Z) (s : string) : unit + option Z :=
  match s with
  | EmptyString => inr (Some x)
  | String c rest =>
      if negb (is_digit c) then inl tt
      else
        let x := x * 10 + digit_val c in
        if 18446744073709551616 <=? x then inr None else atoi_digits x rest
  end.

Definition Atoi (s : string) : res go_error Z :=
  let '(neg, digits) :=
    match s with
    | String c rest =>
        if byte_val c =? 45 then (true, rest) else if byte_val c =? 43 then (false, rest) else (false, s)
    | EmptyString => (false, EmptyString)
    end in
  if string_is_empty digits then Err (atoi_error s "invalid syntax")
  else
    match atoi_digits 0 digits with
    | inl _ => Err (atoi_error s "invalid syntax")
    | inr None => Err (atoi_error s "value out of range")
    | inr (Some x) =>
        if (if neg then 9223372036854775808 <? x else 9223372036854775808 <=? x)
        then Err (atoi_error s "value out of range")
        else Ok (if neg then - x else x)
    end.

(** The text from the first [+] or [-] on, and the text before it. *)
Fixpoint split_sign (s : string) : string * option string :=
  match s with
  | EmptyString => (EmptyString, None)
  | String c rest =>
      if (byte_val c =? 43) || (byte_val c =? 45) then (EmptyString, Some s)
      else let '(name, offset) := split_sign rest in (String c name, offset)
  end.

(** [slog.Level.UnmarshalText]; the levels are [-4], [0], [4] and [8]. *)
Definition parse_level (s : string) : res go_error Z :=
  let wrap := wrapf ("slog: level string " +:+ quote s) in
  let '(name, offset) := split_sign s in
  try offset <- rmap_err wrap (match offset with None => Ok 0 | Some text => Atoi text end) ;;
  let name := ToUpper name in
  let level base := Ok (wrap_int64 (base + offset)) in
  if String.eqb name "DEBUG" then level (-4)
  else if String.eqb name "INFO" then level 0
  else if String.eqb name "WARN" then level 4
  else if String.eqb name "ERROR" then level 8
  else Err (wrap (ErrText "unknown name")).

(** ** NATS and tracing *)

Record NATSConfig := mkNATS {
  nc_URL : string;
  nc_StreamName : string;
  nc_SubjectPrefix : string;
  nc_AckWait : Z;
  nc_DuplicateWindow : Z;
  nc_MaxAge : Z;
  nc_MaxDeliver : Z;
  nc_ConnectTimeout : Z
}.

Definition defaultNATSStream : string := "FORGEFLOW_TASKS".
Definition defaultNATSSubjectPrefix : string := "forgeflow.tasks".

(** [url] is the default URL of the NATS client. *)
Definition DefaultNATSConfig (url : string) : NATSConfig :=
  mkNATS url defaultNATSStream defaultNATSSubjectPrefix Minute (2 * Minute) (7 * 24 * Hour) (-1) (5 * Second).

Definition nats_error (field reason : string) : go_error := BrokerValidationError field "" reason.

Definition blank_or_control (s : string) : bool := existsb (fun '(r, _) => is_space r || is_control r) (runes s).

Definition validate_token (token : string) : res go_error unit :=
  fail_if string_is_empty token || ContainsAny token [42; 62]
    with nats_error "subject_prefix" "must contain only non-wildcard subject tokens" ;;
  fail_if blank_or_control token with nats_error "subject_prefix" "must not contain whitespace or control characters" ;;
  Ok tt.

Definition validateSubjectPrefix (prefix : string) : res go_error unit :=
  fail_if string_is_empty (trim_space prefix) with nats_error "subject_prefix" "must not be empty" ;;
  foldM (fun _ token => validate_token token) tt (Split 46 prefix).

Definition NATSConfig_Validate (c : NATSConfig) : res go_error unit :=
  fail_if string_is_empty (trim_space (nc_URL c)) with nats_error "url" "must not be empty" ;;
  fail_if string_is_empty (trim_space (nc_StreamName c)) with nats_error "stream_name" "must not be empty" ;;
  fail_if ContainsAny (nc_StreamName c) [46; 42; 62; 92; 47] || blank_or_control (nc_StreamName c)
    with nats_error "stream_name" "contains a character JetStream does not allow" ;;
  try _ <- validateSubjectPrefix (nc_SubjectPrefix c) ;;
  fail_if nc_AckWait c <=? 0 with nats_error "ack_wait" "must be greater than zero" ;;
  fail_if nc_DuplicateWindow c <=? 0 with nats_error "duplicate_window" "must be greater than zero" ;;
  fail_if nc_MaxAge c <=? 0 with nats_error "max_age" "must be greater than zero" ;;
  fail_if negb (nc_MaxDeliver c =? -1) && (nc_MaxDeliver c <=? 0)
    with nats_error "max_deliver" "must be -1 or greater than zero" ;;
  fail_if nc_ConnectTimeout c <=? 0 with nats_error "connect_timeout" "must be greater than zero" ;;
  Ok tt.

Definition TraceExporterNone : string := "none".
Definition TraceExporterStdout : string := "stdout".
Definition TraceExporterOTLPHTTP : string := "otlp-http".

Definition TraceConfig_Validate (exporter serviceName : string) : res go_error unit :=
  fail_if negb (existsb (String.eqb (ToLower (trim_space exporter)))
                  [TraceExporterNone; TraceExporterStdout; TraceExporterOTLPHTTP])
    with ErrText ("unsupported trace exporter " +:+ quote exporter +:+ ": use none, stdout, or otlp-http") ;;
  fail_if string_is_empty (trim_space serviceName) with ErrText "OpenTelemetry service name must not be empty" ;;
  Ok tt.

(** ** Configuration *)

Record ProcessConfig := mkConfig {
  cf_Address : string;
  cf_StoreBackend : string;
  cf_DataPath : string;
  cf_PostgresDSN : string;
  cf_BrokerBackend : string;
  cf_NATSURL : string;
  cf_NATSStreamName : string;
  cf_NATSSubjectPrefix : string;
  cf_WorkerCount : Z;
  cf_ShutdownTimeout : Z;
  cf_JWTPublicKeyPEM : string;
  cf_JWTIssuer : string;
  cf_JWTAudience : string;
  cf_JWTLeeway : Z;
  cf_RateLimit : Z;
  cf_RateLimitWindow : Z;
  cf_LogLevel : string;
  cf_TraceExporter : string;
  cf_ServiceName : string
}.

Definition DefaultConfig (natsURL : string) : ProcessConfig :=
  let nats := DefaultNATSConfig natsURL in
  mkConfig "127.0.0.1:8080" "file" "data/forgeflow.ffdb" "" "memory" (nc_URL nats) (nc_StreamName nats) (nc_SubjectPrefix nats)
    4 (10 * Second) "" "forgeflow" "forgeflow-api" (30 * Second) 120 Minute "info" TraceExporterNone "forgeflow".

Definition nats_config (natsURL : string) (c : ProcessConfig) : NATSConfig :=
  let nats := DefaultNATSConfig natsURL in
  mkNATS (cf_NATSURL c) (cf_NATSStreamName c) (cf_NATSSubjectPrefix c) (nc_AckWait nats) (nc_DuplicateWindow nats)
    (nc_MaxAge nats) (nc_MaxDeliver nats) (nc_ConnectTimeout nats).

Definition validate_backends (natsURL : string) (c : ProcessConfig) : res go_error unit :=
  try _ <-
    (if String.eqb (cf_StoreBackend c) "file" then
       fail_if string_is_empty (trim_space (cf_DataPath c))
         with ErrText "ForgeFlow data path must not be empty for the file store" ;; Ok tt
     else if String.eqb (cf_StoreBackend c) "postgres" then
       fail_if string_is_empty (trim_space (cf_PostgresDSN c))
         with ErrText "ForgeFlow PostgreSQL data source name must not be empty for the postgres store" ;; Ok tt
     else Err (ErrText ("ForgeFlow store " +:+ quote (cf_StoreBackend c) +:+ " is unsupported: use file or postgres"))) ;;
  if String.eqb (cf_BrokerBackend c) "memory" then Ok tt
  else if String.eqb (cf_BrokerBackend c) "nats" then
    rmap_err (wrapf "ForgeFlow NATS configuration") (NATSConfig_Validate (nats_config natsURL c))
  else Err (ErrText ("ForgeFlow broker " +:+ quote (cf_BrokerBackend c) +:+ " is unsupported: use memory or nats")).

Definition Config_Validate (natsURL : string) (c : ProcessConfig) : res go_error unit :=
  fail_if string_is_empty (trim_space (cf_Address c)) with ErrText "ForgeFlow address must not be empty" ;;
  try _ <- validate_backends natsURL c ;;
  fail_if cf_WorkerCount c <? 1 with ErrText "ForgeFlow worker count must be at least one" ;;
  fail_if cf_ShutdownTimeout c <=? 0 with ErrText "ForgeFlow shutdown timeout must be positive" ;;
  fail_if string_is_empty (trim_space (cf_JWTPublicKeyPEM c)) || string_is_empty (trim_space (cf_JWTIssuer c))
          || string_is_empty (trim_space (cf_JWTAudience c))
    with ErrText "ForgeFlow JWT public key, issuer, and audience must not be empty" ;;
  fail_if cf_JWTLeeway c <? 0 with ErrText "ForgeFlow JWT leeway must not be negative" ;;
  fail_if (cf_RateLimit c <? 1) || (cf_RateLimitWindow c <=? 0)
    with ErrText "ForgeFlow rate limit and window must be positive" ;;
  try _ <- rmap_err (wrapf ("ForgeFlow log level " +:+ quote (cf_LogLevel c) +:+ " is invalid")) (parse_level (cf_LogLevel c)) ;;
  rmap_err (wrapf "ForgeFlow tracing configuration") (TraceConfig_Validate (cf_TraceExporter c) (cf_ServiceName c)).

(** A variable that replaces a default when it is not blank. *)
Definition env_text (env : string -> string) (name default_value : string) : string :=
  let value := trim_space (env name) in if string_is_empty value then default_value else value.
Definition env_lower (env : string -> string) (name default_value : string) : string :=
  let value := trim_space (env name) in if string_is_empty value then default_value else ToLower value.
Definition env_parsed (env : string -> string) (name : string) (parse : string -> res go_error Z) (default_value : Z)
  : res go_error Z :=
  let value := trim_space (env name) in
  if string_is_empty value then Ok default_value else rmap_err (wrapf ("parse " +:+ name)) (parse value).

Definition ConfigFromEnv (natsURL : string) (env : string -> string) : res go_error ProcessConfig :=
  let d := DefaultConfig natsURL in
  try workerCount <- env_parsed env "FORGEFLOW_WORKERS" Atoi (cf_WorkerCount d) ;;
  try shutdownTimeout <- env_parsed env "FORGEFLOW_SHUTDOWN_TIMEOUT" ParseDuration (cf_ShutdownTimeout d) ;;
  try leeway <- env_parsed env "FORGEFLOW_JWT_LEEWAY" ParseDuration (cf_JWTLeeway d) ;;
  try limit <- env_parsed env "FORGEFLOW_RATE_LIMIT" Atoi (cf_RateLimit d) ;;
  try window <- env_parsed env "FORGEFLOW_RATE_LIMIT_WINDOW" ParseDuration (cf_RateLimitWindow d) ;;
  let config :=
    mkConfig (env_text env "FORGEFLOW_ADDR" (cf_Address d)) (env_lower env "FORGEFLOW_STORE" (cf_StoreBackend d))
      (env_text env "FORGEFLOW_DATA_PATH" (cf_DataPath d)) (trim_space (env "FORGEFLOW_POSTGRES_DSN"))
      (env_lower env "FORGEFLOW_BROKER" (cf_BrokerBackend d)) (env_text env "FORGEFLOW_NATS_URL" (cf_NATSURL d))
      (env_text env "FORGEFLOW_NATS_STREAM" (cf_NATSStreamName d))
      (env_text env "FORGEFLOW_NATS_SUBJECT_PREFIX" (cf_NATSSubjectPrefix d)) workerCount shutdownTimeout
      (trim_space (env "FORGEFLOW_JWT_PUBLIC_KEY")) (env_text env "FORGEFLOW_JWT_ISSUER" (cf_JWTIssuer d))
      (env_text env "FORGEFLOW_JWT_AUDIENCE" (cf_JWTAudience d)) leeway limit window
      (env_lower env "FORGEFLOW_LOG_LEVEL" (cf_LogLevel d)) (env_lower env "FORGEFLOW_TRACE_EXPORTER" (cf_TraceExporter d))
      (env_text env "FORGEFLOW_SERVICE_NAME" (cf_ServiceName d)) in
  try _ <- Config_Validate natsURL config ;;
  Ok config.

(** ** Wiring *)

(** [NewInstrumentedServer]; a nil argument is [None]. The engine that the manager
    executes runs with is returned beside the server. *)
Definition NewInstrumentedServer (random : res go_error (list Z)) (clock : nat -> Z) (store : option file_state)
    (registry : option HandlerRegistry) (workerCount : Z) (auth : option JWTAuthenticator) (limiter : option FixedWindowRateLimiter)
    (instrumentation : option unit) (engineOptions : list (option EngineOption))
  : res go_error (Server * engine (observedStore file_state)) :=
  match store, registry, auth, limiter, instrumentation with
  | None, _, _, _, _ => Err (ErrText "create API server: store must not be nil")
  | _, None, _, _, _ => Err (ErrText "create API server: handler registry must not be nil")
  | _, _, None, _, _ => Err (ErrText "create API server: authenticator must not be nil")
  | _, _, _, None, _ => Err (ErrText "create API server: rate limiter must not be nil")
  | _, _, _, _, None => Err (ErrText "create API server: instrumentation must not be nil")
  | Some store, Some registry, Some _, Some limiter, Some _ =>
      let observed := mkObserved store newEventBroker [] in
      try e <- rmap_err (wrapf "create API execution engine")
        (NewEngine random clock workerCount (Some registry) (Some observed)
           (engineOptions ++ [Some (WithInstrumentation instrumentation)])) ;;
      Ok (mkServer observed limiter registry newRunManager true, e)
  end.

(** The part of [Run] that turns an opened store and broker into a server. *)
Definition assemble (c : ProcessConfig) (store : file_state) (taskBroker : InMemoryBroker) (parse_key : res go_error (option string))
    (random : res go_error (list Z)) (clock : nat -> Z) : res go_error (Server * engine (observedStore file_state)) :=
  try registry <- rmap_err (wrapf "run ForgeFlow: create handler registry") NewDemoHandlerRegistry ;;
  try auth <- rmap_err (wrapf "run ForgeFlow: configure JWT authentication")
    (NewJWTAuthenticator (mkJWTConfig (cf_JWTPublicKeyPEM c) (cf_JWTIssuer c) (cf_JWTAudience c) (cf_JWTLeeway c) None) parse_key) ;;
  try limiter <- rmap_err (wrapf "run ForgeFlow: configure API rate limit")
    (NewFixedWindowRateLimiter (cf_RateLimit c) (cf_RateLimitWindow c)) ;;
  rmap_err (wrapf "run ForgeFlow: create API server")
    (NewInstrumentedServer random clock (Some store) (Some registry) (cf_WorkerCount c) (Some auth) (Some limiter) (Some tt)
       [Some (WithBroker (Some taskBroker))]).

(** ** Redaction *)

Definition redact_value (message value : string) : string :=
  let value := trim_space value in
  if string_is_empty value then message else ReplaceAll message value "[REDACTED]".

Definition redactSensitiveError (err : option go_error) (sensitiveValues : list string) : option go_error :=
  match err with
  | None => None
  | Some err => Some (ErrText (foldl redact_value (error_string err) sensitiveValues))
  end.
End Config.

(** ** Guarantees: an accepted configuration can be wired, and secrets are redacted *)

Section Wiring.
Context `{Unicode} `{UnicodeCase} `{UnicodeLower}.

Lemma hex_digit_good n t : 0 <= n < 16 -> forallb good_rune (runes t) = true ->
  forallb good_rune (runes (String (Duration.hex_digit n) t)) = true.
Proof.
  intros Hn Ht. assert (Hb : byte_val (Duration.hex_digit n) = if n <? 10 then n + 48 else n + 87).
  { unfold byte_val, Duration.hex_digit. rewrite Ascii.N_ascii_embedding; destruct (n <? 10); lia. }
  rewrite runes_String_ascii by (rewrite Hb; destruct (n <? 10); lia). cbn [forallb]. rewrite Ht, andb_true_r.
  unfold good_rune, is_space, is_control, in_range. cbn [fst]. rewrite Hb. destruct (Z.ltb_spec n 10); lia.
Qed.

Lemma hex_string_good bytes : Forall (fun b => 0 <= b < 256) bytes -> forallb good_rune (runes (hex_string bytes)) = true.
Proof.
  induction 1 as [|b bytes Hb _ IH]; [done|]. cbn [hex_string foldr].
  apply hex_digit_good; [split; [apply Z.div_pos; lia|apply Z.div_lt_upper_bound; lia]|].
  apply hex_digit_good; [apply Z.mod_pos_bound; lia|done].
Qed.

(** The namespace an engine gets by default is an identifier. *)
Lemma namespace_valid bytes : Forall (fun b => 0 <= b < 256) bytes -> validIdentifier ("local-" +:+ hex_string bytes) = true.
Proof.
  intros Hb. apply validIdentifier_runes. split; [done|]. change ("local-" +:+ hex_string bytes) with
    ("local" +:+ String (Ascii.ascii_of_nat 45) (hex_string bytes)).
  rewrite runes_ascii by done. rewrite forallb_app. cbn [forallb]. by rewrite hex_string_good.
Qed.

(** What validation accepts can be started. With an Ed25519 key, eight random
    bytes, an opened store and a broker, a validated configuration always gives a
    ready server: it serves that store, admits the configured number of calls in the
    configured window, and its engine has the configured workers, that broker, and
    leases longer than the heartbeat interval. *)
Theorem valid_config_assembles natsURL c store taskBroker key bytes clock :
  Config_Validate natsURL c = Ok tt -> Forall (fun b => 0 <= b < 256) bytes ->
  exists sv e,
    assemble c store taskBroker (Ok (Some key)) (Ok bytes) clock = Ok (sv, e) /\
    sv_files sv = store /\ sv_ready sv = true /\ sv_manager sv = newRunManager /\
    rl_limit (sv_limiter sv) = cf_RateLimit c /\ rl_window (sv_limiter sv) = cf_RateLimitWindow c /\
    en_workerCount e = cf_WorkerCount c /\ en_store e = sv_store sv /\ en_registry e = sv_registry sv /\
    ec_taskBroker (en_config e) = Some taskBroker /\
    ec_heartbeatInterval (en_config e) < ec_leaseDuration (en_config e).
Proof.
  unfold Config_Validate. rewrite guard_err_ok. intros [_ Hc] Hb. apply rbind_ok in Hc as ([] & _ & Hc).
  rewrite !guard_err_ok in Hc. destruct Hc as (Hworkers & _ & Hjwt & Hleeway & Hrate & _).
  apply orb_false_iff in Hjwt as [[Hkey Hissuer]%orb_false_iff Haudience]. apply orb_false_iff in Hrate as [Hlimit Hwindow].
  unfold assemble. rewrite demo_registry. cbn [rmap_err rbind].
  unfold NewJWTAuthenticator. cbn [jc_PublicKeyPEM jc_Issuer jc_Audience jc_Leeway]. rewrite Hkey, Hissuer, Haudience, Hleeway. cbn [orb guard_err rmap_err rbind negb].
  unfold NewFixedWindowRateLimiter. rewrite Hlimit, Hwindow. cbn [guard_err rmap_err rbind].
  unfold NewInstrumentedServer, NewEngine. rewrite Hworkers. cbn -[validate hex_string].
  unfold validate. cbn -[hex_string validIdentifier]. rewrite namespace_valid by done.
  do 2 eexists. split; [reflexivity|]. by cbn.
Qed.
End Wiring.

(** ** Redaction *)

(** Whether the text [p] occurs in [s]. *)
Fixpoint occurs (p s : string) : bool :=
  String.prefix p s || match s with EmptyString => false | String _ rest => occurs p rest end.

Definition left_bracket : Ascii.ascii := Ascii.ascii_of_nat 91.
Definition right_bracket : Ascii.ascii := Ascii.ascii_of_nat 93.
Definition no_bracket (c : Ascii.ascii) : bool := negb (Ascii.eqb c left_bracket) && negb (Ascii.eqb c right_bracket).

(** A secret that can be told from the replacement text. *)
Definition redactable (p : string) : Prop :=
  p <> "" /\ all_chars no_bracket p = true /\ occurs p "REDACTED" = false.

Lemma prefix_cons c p d s : String.prefix (String c p) (String d s) = true <-> c = d /\ String.prefix p s = true.
Proof. cbn. destruct (Ascii.ascii_dec c d) as [->|Hne]; naive_solver. Qed.

(** A text without brackets that begins a replaced text begins the original one. *)
Lemma prefix_replaced p old s :
  all_chars no_bracket p = true -> String.prefix p (replace_from old "[REDACTED]" 0 s) = true -> String.prefix p s = true.
Proof.
  revert p. induction s as [|c s IH]; intros p Hp; [done|]. destruct p as [|d p]; [by destruct s|].
  cbn [replace_from]. cbn [all_chars] in Hp. apply andb_true_iff in Hp as [Hd Hp].
  destruct (String.prefix old (String c s)).
  - change ("[REDACTED]" +:+ ?t) with (String left_bracket ("REDACTED]" +:+ t)).
    intros [-> _]%prefix_cons. done.
  - intros [-> Hps]%prefix_cons. apply prefix_cons. split; [done|]. by apply IH.
Qed.

(** A text without brackets does not reach beyond the bracket after [t]. *)
Lemma prefix_bracket p t u :
  all_chars no_bracket p = true -> String.prefix p (t +:+ String right_bracket u) = true -> String.prefix p t = true.
Proof.
  revert p. induction t as [|c t IH]; intros p Hp; destruct p as [|d p]; try done; cbn [all_chars] in Hp;
    apply andb_true_iff in Hp as [Hd Hp].
  - rewrite app_Empty. intros [-> _]%prefix_cons. done.
  - rewrite app_String. intros [-> Hps]%prefix_cons. apply prefix_cons. eauto.
Qed.

Lemma occurs_bracket p t u :
  all_chars no_bracket p = true -> p <> "" ->
  occurs p (t +:+ String right_bracket u) = true -> occurs p t = true \/ occurs p u = true.
Proof.
  intros Hp Hne. induction t as [|c t IH]; [rewrite app_Empty|rewrite app_String]; cbn [occurs];
    intros [Hpre|Hoc]%orb_true_iff.
  - by apply (prefix_bracket p "" u) in Hpre as ->; [left|].
  - by right.
  - left. rewrite <- app_String in Hpre. by apply prefix_bracket in Hpre as ->.
  - destruct (IH Hoc) as [->|?]; [left; by rewrite orb_true_r|by right].
Qed.

(** The replacement text brings no redactable text with it. *)
Lemma replacement_clean p t : redactable p -> occurs p t = false -> occurs p ("[REDACTED]" +:+ t) = false.
Proof.
  intros (Hne & Hp & Hred) Ht. apply not_true_iff_false.
  change ("[REDACTED]" +:+ t) with (String left_bracket ("REDACTED" +:+ String right_bracket t)).
  cbn [occurs]. intros [Hb|Hb]%orb_true_iff.
  - destruct p as [|d p]; [done|]. apply prefix_cons in Hb as [-> _]. by cbn in Hp.
  - apply occurs_bracket in Hb as [Hb|Hb]; congruence.
Qed.

(** A redactable text does not begin in front of a replaced text unless it did. *)
Lemma kept_clean p old c s :
  redactable p -> String.prefix p (String c s) = false -> occurs p (replace_from old "[REDACTED]" 0 s) = false ->
  occurs p (String c (replace_from old "[REDACTED]" 0 s)) = false.
Proof.
  intros (Hne & Hp & _) Hpre Hs. cbn [occurs]. rewrite Hs, orb_false_r. apply not_true_iff_false. intros Hb.
  destruct p as [|d p]; [done|]. apply prefix_cons in Hb as [-> Hb]. cbn [all_chars] in Hp. apply andb_true_iff in Hp as [_ Hp].
  apply prefix_replaced in Hb; [|done]. apply not_true_iff_false in Hpre. apply Hpre, prefix_cons. done.
Qed.

Lemma replaced_keeps_absent p old skip s :
  redactable p -> occurs p s = false -> occurs p (replace_from old "[REDACTED]" skip s) = false.
Proof.
  intros Hp. revert skip. induction s as [|c s IH]; intros skip Hs; [done|].
  cbn [occurs] in Hs. apply orb_false_iff in Hs as [Hpre Hs]. cbn [replace_from].
  destruct skip as [|skip]; [|by apply IH]. destruct (String.prefix old (String c s)).
  - apply replacement_clean; [done|]. by apply IH.
  - apply kept_clean; [done..|]. by apply IH.
Qed.

Lemma replaced_absent p skip s : redactable p -> occurs p (replace_from p "[REDACTED]" skip s) = false.
Proof.
  intros Hp. revert skip. induction s as [|c s IH]; intros skip.
  { destruct Hp as [Hne _]. by destruct p. }
  cbn [replace_from]. destruct skip as [|skip]; [|apply IH]. destruct (String.prefix p (String c s)) eqn:Hpre.
  - apply replacement_clean; [done|]. apply IH.
  - apply kept_clean; [done..|]. apply IH.
Qed.

(** A sensitive value does not survive the redaction of the values. *)
Lemma redacted_clean values value message :
  value ∈ values -> redactable (trim_space value) -> occurs (trim_space value) (foldl redact_value message values) = false.
Proof.
  intros Hv Hr. apply split_elem in Hv as (before & after & ->).
  rewrite foldl_app. cbn [foldl]. set (m := foldl redact_value message before).
  assert (Hm : occurs (trim_space value) (redact_value m value) = false).
  { unfold redact_value. destruct (string_is_empty (trim_space value)) eqn:E; [|by apply replaced_absent].
    destruct Hr as [Hne _]. by destruct (trim_space value). }
  revert Hm. generalize (redact_value m value). induction after as [|v after IH]; intros t Ht; [done|].
  cbn [foldl]. apply IH. unfold redact_value. destruct (string_is_empty (trim_space v)); [done|].
  by apply replaced_keeps_absent.
Qed.

(** The error a process ends with carries none of its secrets: whatever the
    error is and however often and closely they occur in its text, a sensitive value
    that can be told from the replacement text does not occur in the redacted one. *)
Theorem secrets_redacted `{Unicode} err values value e :
  value ∈ values -> redactable (trim_space value) -> redactSensitiveError err values = Some e ->
  occurs (trim_space value) (error_string e) = false.
Proof.
  intros Hv Hr He. destruct err as [err|]; [|done]. cbn in He. injection He as <-. cbn [error_string].
  by apply redacted_clean.
Qed.
