(* ===== verification/PostgresMigrations.v ===== *)
(** * Schema migrations

    Models [src/internal/persistence/postgres_migrations.go]. The embedded files, the
    digest and the effect of a migration's SQL on the schema are arguments. A call of
    [Migrate] is a state machine that sends one statement after the other; a database
    with transactions and advisory locks serves the statements of several processes in
    any order. *)
From S2P Require Import Prelude Workflow Errors Graph Run RunStep Security Sql Tx FileStore FileStoreOps RateLimit Broker Engine EngineStore Projects Duration Handlers Options Events Manager Dto Http Server Config.

Record postgresMigration := mkMigration {
  mig_version : Z;
  mig_name : string;
  mig_checksum : string;
  mig_sql : string
}.

(** ** Loading the embedded migrations *)

(** [filepath.Base] of a path of the embedded file system: what follows the last
    slash. *)
Fixpoint path_base (s : string) : string :=
  match s with
  | EmptyString => EmptyString
  | String c rest =>
      let base := path_base rest in
      if existsb (fun b => b =? 47) (bytes_of rest) then base
      else if byte_val c =? 47 then rest else String c rest
  end.

(** [strings.SplitN(s, "_", 2)]: [None] when there is no underscore. *)
Fixpoint cut_underscore (s : string) : option (string * string) :=
  match s with
  | EmptyString => None
  | String c rest =>
      if byte_val c =? 95 then Some (EmptyString, rest)
      else match cut_underscore rest with
           | Some (before, after) => Some (String c before, after)
           | None => None
           end
  end.

Definition version_le (x y : postgresMigration) : Prop := mig_version x <= mig_version y.
#[export] Instance version_le_dec : RelDecision version_le.
Proof. intros x y. unfold version_le. apply _. Defined.

Section Load.
Context `{Unicode} (sha256_hex : string -> string).

(** The loop over the paths: the versions seen so far with their names, and the
    migrations. *)
Definition add_migration (acc : gmap Z string * list postgresMigration) (file : string * res go_error string)
  : res go_error (gmap Z string * list postgresMigration) :=
  let '(seen, migrations) := acc in
  let '(path, contents) := file in
  let name := path_base path in
  match cut_underscore name with
  | None => Err (ErrText ("invalid PostgreSQL migration filename " +:+ quote name))
  | Some (number, _) =>
      match Atoi number with
      | Err _ => Err (ErrText ("invalid PostgreSQL migration version in " +:+ quote name))
      | Ok version =>
          fail_if version <? 1 with ErrText ("invalid PostgreSQL migration version in " +:+ quote name) ;;
          match seen !! version with
          | Some previous =>
              Err (ErrText ("PostgreSQL migrations " +:+ quote previous +:+ " and " +:+ quote name +:+ " share version "
                            +:+ fmt_d version))
          | None =>
              try text <- rmap_err (wrapf ("read embedded PostgreSQL migration " +:+ quote name)) contents ;;
              Ok (<[version := name]> seen, migrations ++ [mkMigration version name (sha256_hex text) text])
          end
      end
  end.

(** [glob] is the answer of [fs.Glob], with what [ReadFile] answers for each path. *)
Definition loadPostgresMigrations (glob : res go_error (list (string * res go_error string)))
  : res go_error (list postgresMigration) :=
  try paths <- rmap_err (wrapf "list embedded PostgreSQL migrations") glob ;;
  try loaded <- foldM add_migration (∅, []) paths ;;
  Ok (merge_sort version_le (snd loaded)).
End Load.

(** ** Applying them *)

(** The ledger and the schema of the database. *)
Record migrated (Schema : Type) := mkMigrated {
  md_ledger : gmap Z (string * string);
  md_schema : Schema
}.
Arguments mkMigrated {Schema} _ _.
Arguments md_ledger {Schema} _.
Arguments md_schema {Schema} _.

(** What [Migrate] sends to the database, and what it is answered: a failure, an
    empty success, or the answer to the query for a checksum. *)
Inductive statement :=
| CreateLedger
| BeginTx
| AdvisoryLock (id : Z)
| ReadChecksum (version : Z)
| ExecScript (script : string)
| InsertLedger (version : Z) (name checksum : string)
| CommitTx.

Inductive reply := Failed (err : go_error) | Done | Row (checksum : string) | NoRow.

Definition postgresMigrationLockID : Z := 0x466F726765466C6F.

(** The statements of [applyMigration], in the order of the code. *)
Inductive migration_point := AtBegin | AtLock | AtRead | AtApply | AtRecord | AtCommitVerified | AtCommit.

Definition migration_statement (migration : postgresMigration) (p : migration_point) : statement :=
  match p with
  | AtBegin => BeginTx
  | AtLock => AdvisoryLock postgresMigrationLockID
  | AtRead => ReadChecksum (mig_version migration)
  | AtApply => ExecScript (mig_sql migration)
  | AtRecord => InsertLedger (mig_version migration) (mig_name migration) (mig_checksum migration)
  | AtCommitVerified | AtCommit => CommitTx
  end.

(** How [applyMigration] goes on when the statement of the point [p] is answered: with
    its next statement, or it returns. *)
Definition applyMigration `{Unicode} (migration : postgresMigration) (p : migration_point) (r : reply)
  : migration_point + res go_error unit :=
  let number := fmt_d (mig_version migration) in
  let next (text : string) (k : migration_point + res go_error unit) :=
    match r with Failed err => inr (Err (wrapf text err)) | _ => k end in
  match p with
  | AtBegin => next ("begin PostgreSQL migration " +:+ number) (inl AtLock)
  | AtLock => next "lock PostgreSQL migrations" (inl AtRead)
  | AtRead =>
      match r with
      | Row appliedChecksum =>
          if negb (String.eqb appliedChecksum (mig_checksum migration)) then
            inr (Err (ErrText ("PostgreSQL migration " +:+ number +:+ " checksum changed: database has "
                               +:+ appliedChecksum +:+ ", binary has " +:+ mig_checksum migration)))
          else inl AtCommitVerified
      | _ => next ("read PostgreSQL migration " +:+ number) (inl AtApply)
      end
  | AtApply =>
      next ("apply PostgreSQL migration " +:+ number +:+ " (" +:+ mig_name migration +:+ ")") (inl AtRecord)
  | AtRecord => next ("record PostgreSQL migration " +:+ number) (inl AtCommit)
  | AtCommitVerified => next ("commit verified PostgreSQL migration " +:+ number) (inr (Ok tt))
  | AtCommit => next ("commit PostgreSQL migration " +:+ number) (inr (Ok tt))
  end.

(** Where a call of [Migrate] is: before the ledger's table is created, in a migration
    with others to follow, or back. *)
Inductive startup :=
| Creating
| Applying (migration : postgresMigration) (rest : list postgresMigration) (p : migration_point)
| Returned (result : res go_error unit).

Definition startup_statement (s : startup) : option statement :=
  match s with
  | Creating => Some CreateLedger
  | Applying migration _ p => Some (migration_statement migration p)
  | Returned _ => None
  end.

Definition next_migration (migrations : list postgresMigration) : startup :=
  match migrations with
  | [] => Returned (Ok tt)
  | migration :: rest => Applying migration rest AtBegin
  end.

Definition Migrate_begin `{Unicode} (ctx : context) : startup :=
  match check_context ctx with Err err => Returned (Err err) | Ok _ => Creating end.

Definition Migrate `{Unicode} (sha256_hex : string -> string) (glob : res go_error (list (string * res go_error string)))
    (s : startup) (r : reply) : startup :=
  match s with
  | Creating =>
      match r with
      | Failed err => Returned (Err (wrapf "create ForgeFlow migration ledger" err))
      | _ =>
          match loadPostgresMigrations sha256_hex glob with
          | Err err => Returned (Err err)
          | Ok migrations => next_migration migrations
          end
      end
  | Applying migration rest p =>
      match applyMigration migration p r with
      | inl p => Applying migration rest p
      | inr (Ok _) => next_migration rest
      | inr (Err err) => Returned (Err err)
      end
  | Returned result => Returned result
  end.

(** ** The database that serves them *)

(** What a transaction has written and not committed. *)
Inductive write := WScript (script : string) | WLedger (version : Z) (name checksum : string).

(** The committed state, the sessions that hold advisory locks, and the open
    transactions. *)
Record server (Schema : Type) := mkServer {
  se_db : migrated Schema;
  se_locks : gmap Z nat;
  se_open : gmap nat (list write)
}.
Arguments mkServer {Schema} _ _ _.
Arguments se_db {Schema} _.
Arguments se_locks {Schema} _.
Arguments se_open {Schema} _.

Section Serve.
Context {Schema : Type} (apply_sql : string -> Schema -> res go_error Schema) (duplicate_key : go_error).

Definition apply_write (d : migrated Schema) (w : write) : res go_error (migrated Schema) :=
  match w with
  | WScript script => try schema <- apply_sql script (md_schema d) ;; Ok (mkMigrated (md_ledger d) schema)
  | WLedger version name checksum =>
      match md_ledger d !! version with
      | Some _ => Err duplicate_key
      | None => Ok (mkMigrated (<[version := (name, checksum)]> (md_ledger d)) (md_schema d))
      end
  end.

(** What a transaction sees at the level read committed, and what its commit leaves:
    its own writes on top of what is committed by then. *)
Definition view (d : migrated Schema) (ws : list write) : res go_error (migrated Schema) := foldM apply_write d ws.

(** The end of the transaction of session [i]: its locks are released. *)
Definition end_tx (db : migrated Schema) (se : server Schema) (i : nat) : server Schema :=
  mkServer db (filter (fun lock => lock.2 <> i) (se_locks se)) (delete i (se_open se)).

(** One more write of session [i], which fails at once when it cannot be made. *)
Definition write_tx (se : server Schema) (i : nat) (w : write) : res go_error (server Schema * reply) :=
  let ws := default [] (se_open se !! i) ++ [w] in
  try _ <- view (se_db se) ws ;;
  Ok (mkServer (se_db se) (se_locks se) (<[i := ws]> (se_open se)), Done).

(** The answer to a statement of session [i]; [None] while the lock is taken. *)
Definition serve (se : server Schema) (i : nat) (st : statement) : option (res go_error (server Schema * reply)) :=
  let ws := default [] (se_open se !! i) in
  match st with
  | CreateLedger => Some (Ok (se, Done))
  | BeginTx => Some (Ok (mkServer (se_db se) (se_locks se) (<[i := []]> (se_open se)), Done))
  | AdvisoryLock id =>
      match se_locks se !! id with
      | Some j => if decide (j = i) then Some (Ok (se, Done)) else None
      | None => Some (Ok (mkServer (se_db se) (<[id := i]> (se_locks se)) (se_open se), Done))
      end
  | ReadChecksum version =>
      Some (try d <- view (se_db se) ws ;;
            Ok (se, match md_ledger d !! version with Some (_, checksum) => Row checksum | None => NoRow end))
  | ExecScript script => Some (write_tx se i (WScript script))
  | InsertLedger version name checksum => Some (write_tx se i (WLedger version name checksum))
  | CommitTx => Some (try d <- view (se_db se) ws ;; Ok (end_tx d se i, Done))
  end.
End Serve.

(** ** The embedded migrations in order *)

Section LoadFacts.
Context `{Unicode} (sha256_hex : string -> string).

(** What the loop has collected: migrations of the files, by distinct versions. *)
Record collected (paths : list (string * res go_error string)) (acc : gmap Z string * list postgresMigration) : Prop := {
  co_seen : forall v, is_Some (fst acc !! v) <-> v ∈ mig_version <$> snd acc;
  co_unique : NoDup (mig_version <$> snd acc);
  co_files : Forall2 (fun file m => snd file = Ok (mig_sql m) /\ mig_name m = path_base (fst file) /\
    mig_checksum m = sha256_hex (mig_sql m) /\ 1 <= mig_version m /\
    exists number rest, cut_underscore (mig_name m) = Some (number, rest) /\ Atoi number = Ok (mig_version m)) paths (snd acc)
}.

Lemma add_migration_collected paths acc file acc' :
  collected paths acc -> add_migration sha256_hex acc file = Ok acc' -> collected (paths ++ [file]) acc'.
Proof.
  destruct acc as [seen ms], file as [path contents]. unfold add_migration. intros [Hs Hu Hf].
  destruct (cut_underscore (path_base path)) as [[number rest]|] eqn:Ec; [|done]. destruct (Atoi number) as [v|] eqn:Ea; [|done].
  intros [Hv%Z.ltb_ge Hm]%guard_err_ok. destruct (seen !! v) eqn:Es; [done|].
  apply rbind_ok in Hm as (text & Ht%rmap_err_ok & [= <-]). cbn [fst snd] in *.
  assert (Hn : v ∉ mig_version <$> ms) by (rewrite <- Hs, Es; by intros [? ?]). split; cbn [fst snd].
  - intros k. rewrite fmap_app, elem_of_app, <- Hs, lookup_insert. cbn. rewrite list_elem_of_singleton. case_decide; naive_solver.
  - rewrite fmap_app. apply NoDup_app. split_and!; [done| |by apply NoDup_singleton].
    intros k Hk. cbn. rewrite list_elem_of_singleton. congruence.
  - apply Forall2_app; [done|]. constructor; [|constructor]. cbn. split_and!; eauto.
Qed.

Lemma load_collected glob ms :
  loadPostgresMigrations sha256_hex glob = Ok ms ->
  exists paths acc, glob = Ok paths /\ collected paths acc /\ ms = merge_sort version_le (snd acc).
Proof.
  unfold loadPostgresMigrations. intros (paths & Hg%rmap_err_ok & (acc & Hf & [= <-])%rbind_ok)%rbind_ok.
  exists paths, acc. split_and!; [done| |done]. revert Hf.
  assert (Hgen : forall done_ acc0, collected done_ acc0 -> foldM (add_migration sha256_hex) acc0 paths = Ok acc ->
            collected (done_ ++ paths) acc).
  { clear Hg. induction paths as [|file paths IH]; intros done_ acc0 Hc; cbn; [intros [= ->]; by rewrite app_nil_r|].
    intros (acc1 & Ha & Hf)%rbind_ok. rewrite cons_middle, (assoc_L app). eapply IH; [|exact Hf].
    by eapply add_migration_collected. }
  intros Hf. apply (Hgen [] (∅, [])); [|done]. split; cbn; [|constructor|constructor].
  intros v. rewrite lookup_empty. split; [by intros [? ?]|]. intros Hv. by apply elem_of_nil in Hv.
Qed.

#[local] Instance version_le_total : Total version_le.
Proof. intros x y. unfold version_le. lia. Qed.
#[local] Instance version_le_trans : Transitive version_le.
Proof. intros x y z. unfold version_le. lia. Qed.

Lemma load_unique glob ms : loadPostgresMigrations sha256_hex glob = Ok ms -> NoDup (mig_version <$> ms).
Proof. intros (paths & acc & _ & [_ Hu _] & ->)%load_collected. by rewrite merge_sort_Permutation. Qed.

Lemma load_sorted glob ms :
  loadPostgresMigrations sha256_hex glob = Ok ms -> StronglySorted (fun x y => mig_version x < mig_version y) ms.
Proof.
  intros Hl. pose proof (load_unique _ _ Hl) as Hu. apply load_collected in Hl as (paths & acc & _ & _ & ->).
  assert (Hsort : StronglySorted version_le (merge_sort version_le (snd acc))) by (apply StronglySorted_merge_sort; apply _).
  induction Hsort as [|x l Hl IH Hx] in Hu |- *; constructor.
  - apply IH. cbn in Hu. by apply NoDup_cons in Hu as [_ ?].
  - cbn in Hu. apply NoDup_cons in Hu as [Hn _]. rewrite Forall_forall in *. intros y Hy. specialize (Hx y Hy).
    unfold version_le in Hx. assert (mig_version x <> mig_version y); [|lia].
    intros Heq. apply Hn. rewrite Heq. by apply list_elem_of_fmap_2.
Qed.

(** The embedded migrations are loaded whole and in order: one migration per
    file, under the positive number its name starts with, each with the digest of its
    own text, by strictly increasing versions whatever order the files are listed
    in; two files with one number are refused. *)
Theorem migrations_loaded_in_order (paths : list (string * res go_error string)) (ms : list postgresMigration) :
  loadPostgresMigrations sha256_hex (Ok paths) = Ok ms ->
  StronglySorted (fun x y => mig_version x < mig_version y) ms /\
  exists listed, ms ≡ₚ listed /\
    Forall2 (fun file m => snd file = Ok (mig_sql m) /\ mig_name m = path_base (fst file) /\
      mig_checksum m = sha256_hex (mig_sql m) /\ 1 <= mig_version m /\
      exists number rest, cut_underscore (mig_name m) = Some (number, rest) /\ Atoi number = Ok (mig_version m)) paths listed.
Proof.
  intros Hl. split; [by eapply load_sorted|]. apply load_collected in Hl as (paths' & acc & [= <-] & [_ _ Hf] & ->).
  exists (snd acc). split; [apply merge_sort_Permutation|done].
Qed.
End LoadFacts.

(** ** Concurrent startups *)

(** Processes of one binary, which have the same files embedded, and the database. *)
Record startups (Schema : Type) := mkStartups {
  sup_server : server Schema;
  sup_procs : gmap nat startup
}.
Arguments mkStartups {Schema} _ _.
Arguments sup_server {Schema} _.
Arguments sup_procs {Schema} _.

Section Startups.
Context {Schema : Type} `{Unicode} (apply_sql : string -> Schema -> res go_error Schema) (duplicate_key : go_error).
Context (sha256_hex : string -> string) (glob : res go_error (list (string * res go_error string))).

Notation serve := (serve apply_sql duplicate_key).
Notation Migrate := (Migrate sha256_hex glob).

(** A process starts; a statement is answered or refused; the connection is lost, in
    which case the statement may have taken effect all the same; a process dies; and
    the transaction of a process that has given up is rolled back, by its deferred
    call or by the server. *)
Inductive startup_step : startups Schema -> startups Schema -> Prop :=
| startup_begins se procs i ctx :
    procs !! i = None -> startup_step (mkStartups se procs) (mkStartups se (<[i := Migrate_begin ctx]> procs))
| startup_answered se procs i s st se' r :
    procs !! i = Some s -> startup_statement s = Some st -> serve se i st = Some (Ok (se', r)) ->
    startup_step (mkStartups se procs) (mkStartups se' (<[i := Migrate s r]> procs))
| startup_refused se procs i s st err :
    procs !! i = Some s -> startup_statement s = Some st -> serve se i st = Some (Err err) ->
    startup_step (mkStartups se procs) (mkStartups se (<[i := Migrate s (Failed err)]> procs))
| startup_disconnected se procs i s st se' err :
    procs !! i = Some s -> startup_statement s = Some st ->
    se' = se \/ (exists r, serve se i st = Some (Ok (se', r))) ->
    startup_step (mkStartups se procs) (mkStartups se' (<[i := Migrate s (Failed err)]> procs))
| startup_dies se procs i s err :
    procs !! i = Some s -> startup_step (mkStartups se procs) (mkStartups se (<[i := Returned (Err err)]> procs))
| startup_rolled_back se procs i result :
    procs !! i = Some (Returned result) ->
    startup_step (mkStartups se procs) (mkStartups (end_tx (se_db se) se i) procs).

(** The error with which the database itself refuses the next statement of a process. *)
Definition refused (sup : startups Schema) (i : nat) (err : go_error) : Prop :=
  exists s st, sup_procs sup !! i = Some s /\ startup_statement s = Some st /\
    serve (sup_server sup) i st = Some (Err err).

Definition ledger_entry (m : postgresMigration) : Z * (string * string) := (mig_version m, (mig_name m, mig_checksum m)).
Definition ledger_of (ms : list postgresMigration) : gmap Z (string * string) := list_to_map (ledger_entry <$> ms).

Lemma ledger_keys ms : (ledger_entry <$> ms).*1 = mig_version <$> ms.
Proof. rewrite <- list_fmap_compose. by apply list_fmap_ext. Qed.

Section Prefix.
Context (all : list postgresMigration) (Hload : loadPostgresMigrations sha256_hex glob = Ok all) (s0 : Schema).

(** The first [n] migrations have been applied to the schema [s0], in order. *)
Definition applied_prefix (d : migrated Schema) (n : nat) : Prop :=
  md_ledger d = ledger_of (take n all) /\
  foldM (fun s m => apply_sql (mig_sql m) s) s0 (take n all) = Ok (md_schema d).

Lemma ledger_lookup n k m :
  all !! k = Some m ->
  ledger_of (take n all) !! mig_version m = if decide (k < n)%nat then Some (mig_name m, mig_checksum m) else None.
Proof.
  pose proof (load_unique _ _ _ Hload) as Hnd.
  intros Hk. assert (Hnd' : NoDup (mig_version <$> take n all)).
  { rewrite fmap_take. eapply sublist_NoDup; [exact Hnd|apply sublist_take]. }
  case_decide as Hlt.
  - apply elem_of_list_to_map; [by rewrite ledger_keys|]. apply list_elem_of_fmap. exists m. split; [done|].
    eapply list_elem_of_lookup_2. by rewrite lookup_take_lt.
  - apply not_elem_of_list_to_map. rewrite ledger_keys, list_elem_of_fmap. intros (m' & Heq & Hin).
    apply list_elem_of_lookup_1 in Hin as [j Hj]. apply lookup_take_Some in Hj as [Hj Hjn].
    assert (j = k); [|lia]. eapply (NoDup_lookup (mig_version <$> all)); [done|by rewrite list_lookup_fmap, Hj|].
    rewrite list_lookup_fmap, Hk. cbn. congruence.
Qed.

(** The two writes of the next migration. *)
Definition writes_of (m : postgresMigration) : list write :=
  [WScript (mig_sql m); WLedger (mig_version m) (mig_name m) (mig_checksum m)].

Lemma view_next d n m schema :
  applied_prefix d n -> all !! n = Some m -> apply_sql (mig_sql m) (md_schema d) = Ok schema ->
  exists d', view apply_sql duplicate_key d (writes_of m) = Ok d' /\ applied_prefix d' (S n).
Proof.
  intros [Hl Hs] Hm Ha. pose proof (ledger_lookup n n m Hm) as Hn. rewrite decide_False in Hn by lia.
  unfold view, writes_of. cbn [foldM apply_write]. rewrite Ha. cbn [rbind md_ledger]. rewrite Hl, Hn. cbn [rbind].
  eexists. split; [done|]. unfold applied_prefix. rewrite (take_S_r _ _ _ Hm). cbn [md_ledger md_schema]. split.
  - unfold ledger_of. rewrite fmap_app. change (ledger_entry <$> [m]) with [(mig_version m, (mig_name m, mig_checksum m))].
    rewrite list_to_map_snoc; [done|]. rewrite ledger_keys. unfold ledger_of in Hn.
    apply not_elem_of_list_to_map in Hn. by rewrite ledger_keys in Hn.
  - rewrite foldM_app, Hs. cbn. by rewrite Ha.
Qed.

(** What holds of a process at each point: who holds the lock, what the transaction
    has written, and whether the migration has been applied. *)
Definition holds_lock (se : server Schema) (i : nat) (ws : list write) : Prop :=
  se_locks se !! postgresMigrationLockID = Some i /\ se_open se !! i = Some ws.

Definition point_ok (n : nat) (se : server Schema) (i : nat) (m : postgresMigration) (k : nat) (p : migration_point) : Prop :=
  match p with
  | AtBegin => True
  | AtLock => se_open se !! i = Some []
  | AtRead => holds_lock se i []
  | AtApply => holds_lock se i [] /\ k = n
  | AtRecord => holds_lock se i [WScript (mig_sql m)] /\ k = n /\
      exists schema, apply_sql (mig_sql m) (md_schema (se_db se)) = Ok schema
  | AtCommitVerified => holds_lock se i [] /\ (k < n)%nat
  | AtCommit => holds_lock se i (writes_of m) /\ k = n /\
      exists schema, apply_sql (mig_sql m) (md_schema (se_db se)) = Ok schema
  end.

Definition proc_ok (n : nat) (se : server Schema) (i : nat) (s : startup) : Prop :=
  match s with
  | Creating | Returned (Err _) => True
  | Returned (Ok _) => (length all <= n)%nat
  | Applying m rest p =>
      exists k, all !! k = Some m /\ rest = drop (S k) all /\ (k <= n)%nat /\ point_ok n se i m k p
  end.

Definition startups_ok (sup : startups Schema) : Prop :=
  exists n, applied_prefix (se_db (sup_server sup)) n /\ (n <= length all)%nat /\
  forall i s, sup_procs sup !! i = Some s -> proc_ok n (sup_server sup) i s.

(** A process that does not hold the lock is indifferent to what the others commit. *)
Lemma proc_ok_frame n n' se se' i s :
  proc_ok n se i s -> se_open se' !! i = se_open se !! i ->
  (se_locks se !! postgresMigrationLockID = Some i -> se_locks se' !! postgresMigrationLockID = Some i) ->
  (se_db se' = se_db se /\ n' = n) \/ (se_locks se !! postgresMigrationLockID <> Some i /\ n <= n')%nat ->
  proc_ok n' se' i s.
Proof.
  intros Hok Ho Hl Hcase. destruct s as [|m rest p|[]]; [done| |cbn in *; lia|done].
  destruct Hok as (k & Hk & Hr & Hle & Hp). exists k. split_and!; [done|done|lia|].
  destruct p; cbn in *; unfold holds_lock in *; rewrite ?Ho; destruct Hcase as [[Hdb ->]|[Hn _]]; rewrite ?Hdb; naive_solver.
Qed.

Lemma next_migration_ok n se i k : (k <= n)%nat -> proc_ok n se i (next_migration (drop k all)).
Proof.
  intros Hk. destruct (drop k all) as [|m rest] eqn:E; cbn.
  - apply (f_equal length) in E. rewrite length_drop in E. cbn in E. lia.
  - assert (Hm : all !! k = Some m) by (by rewrite <- (Nat.add_0_r k), <- lookup_drop, E).
    exists k. split_and!; [done| |done|done]. rewrite (drop_S _ _ _ Hm) in E. by injection E.
Qed.

Lemma end_tx_other d (se : server Schema) i j :
  i <> j -> se_open (end_tx d se i) !! j = se_open se !! j /\
  (se_locks se !! postgresMigrationLockID = Some j -> se_locks (end_tx d se i) !! postgresMigrationLockID = Some j).
Proof.
  intros Hne. cbn. split; [by apply lookup_delete_ne|]. intros Hl. apply map_lookup_filter_Some. by split; [|cbn; congruence].
Qed.

Lemma write_tx_open (se : server Schema) i ws w :
  se_open se !! i = Some ws ->
  write_tx apply_sql duplicate_key se i w =
    (try _ <- view apply_sql duplicate_key (se_db se) (ws ++ [w]) ;;
     Ok (mkServer (se_db se) (se_locks se) (<[i := ws ++ [w]]> (se_open se)), Done)).
Proof. intros Ho. unfold write_tx. by rewrite Ho. Qed.

(** One answer of the database: how far the migrations are then, that the process may
    go on, and what the others see. *)
Definition served_ok (n : nat) (se se' : server Schema) (i : nat) (s' : startup) : Prop :=
  exists n', applied_prefix (se_db se') n' /\ (n' <= length all)%nat /\ proc_ok n' se' i s' /\
  forall j s, j <> i -> proc_ok n se j s -> proc_ok n' se' j s.

Lemma served_same n se se' i s' :
  applied_prefix (se_db se) n -> (n <= length all)%nat -> se_db se' = se_db se -> proc_ok n se' i s' ->
  (forall j, j <> i -> se_open se' !! j = se_open se !! j /\
     (se_locks se !! postgresMigrationLockID = Some j -> se_locks se' !! postgresMigrationLockID = Some j)) ->
  served_ok n se se' i s'.
Proof.
  intros Hn Hlen Hdb Hp Hf. exists n. split_and!; [by rewrite Hdb|done|done|]. intros j s Hj Hs.
  destruct (Hf j Hj). eapply proc_ok_frame; [done..|]. by left.
Qed.

Lemma serve_ok n se i s st se' r :
  applied_prefix (se_db se) n -> (n <= length all)%nat -> proc_ok n se i s -> startup_statement s = Some st ->
  serve se i st = Some (Ok (se', r)) ->
  served_ok n se se' i (Migrate s r).
Proof.
  intros Hn Hlen Hok Hst Hs. destruct s as [|m rest p|]; [| |done].
  { cbn in Hst. simplify_eq. cbn in Hs. simplify_eq. apply served_same; [done..| |done].
    cbn. rewrite Hload. apply (next_migration_ok n _ i 0). lia. }
  destruct Hok as (k & Hk & -> & Hle & Hp). cbn in Hst. injection Hst as <-.
  pose proof (lookup_lt_Some _ _ _ Hk) as Hklt.
  destruct p; cbn in Hp, Hs.
  - simplify_eq. apply served_same; [done..| |].
    + exists k. split_and!; [done..|]. cbn. by rewrite lookup_insert_eq.
    + intros j Hj. cbn. by rewrite lookup_insert_ne.
  - destruct (se_locks se !! postgresMigrationLockID) as [j|] eqn:El; [case_decide; [subst|done]|]; simplify_eq.
    + apply served_same; [done..| |done]. exists k. by split_and!.
    + apply served_same; [done..| |].
      * exists k. split_and!; [done..|]. split; cbn; [by rewrite lookup_insert_eq|done].
      * intros j Hj. cbn. rewrite El. done.
  - destruct Hp as [Hl Ho]. rewrite Ho in Hs. cbn in Hs. simplify_eq. apply served_same; [done..| |done].
    destruct Hn as [Hled _]. rewrite Hled, (ledger_lookup n k m Hk). case_decide as Hlt; cbn.
    + rewrite String.eqb_refl. cbn. exists k. by split_and!.
    + exists k. split_and!; [done..|lia].
  - destruct Hp as [[Hl Ho] ->]. rewrite (write_tx_open _ _ _ _ Ho) in Hs. cbn in Hs.
    destruct (apply_sql _ _) as [schema|] eqn:Ea; [|done]. cbn in Hs. simplify_eq. apply served_same; [done..| |].
    + exists n. unfold point_ok, holds_lock. cbn. rewrite lookup_insert_eq. by eauto 10.
    + intros j Hj. cbn. by rewrite lookup_insert_ne.
  - destruct Hp as ([Hl Ho] & -> & schema & Ha). rewrite (write_tx_open _ _ _ _ Ho) in Hs.
    destruct (view_next _ _ _ _ Hn Hk Ha) as (d' & Hv & _). cbn [app] in Hs. change [_; _] with (writes_of m) in Hs.
    rewrite Hv in Hs. cbn in Hs. simplify_eq. apply served_same; [done..| |].
    + exists n. unfold point_ok, holds_lock. cbn. rewrite lookup_insert_eq. by eauto 10.
    + intros j Hj. cbn. by rewrite lookup_insert_ne.
  - destruct Hp as [[Hl Ho] Hlt]. rewrite Ho in Hs. cbn in Hs. simplify_eq. apply served_same; [done..| |].
    + cbn. apply next_migration_ok. lia.
    + intros j Hj. by apply end_tx_other.
  - destruct Hp as ([Hl Ho] & -> & schema & Ha). rewrite Ho in Hs. cbn [default from_option id] in Hs.
    destruct (view_next _ _ _ _ Hn Hk Ha) as (d' & Hv & Hn'). rewrite Hv in Hs. cbn [rbind] in Hs. simplify_eq.
    exists (S n). split_and!; [done|lia|cbn; apply next_migration_ok; lia|].
    intros j s Hj Hs. destruct (end_tx_other d' se i j) as [Ho' Hl']; [done|].
    eapply proc_ok_frame; [done..|]. right. split; [congruence|lia].
Qed.

(** What the database refuses: only a script that cannot be applied. *)
Lemma refused_script n se i m rest p err :
  applied_prefix (se_db se) n -> proc_ok n se i (Applying m rest p) ->
  serve se i (migration_statement m p) = Some (Err err) ->
  p = AtApply /\ apply_sql (mig_sql m) (md_schema (se_db se)) = Err err.
Proof.
  intros Hn (k & Hk & _ & Hle & Hp) Hs. destruct p; cbn in Hp, Hs; try done.
  - by repeat case_match.
  - destruct Hp as [_ Ho]. rewrite Ho in Hs. done.
  - destruct Hp as [[_ Ho] ->]. rewrite (write_tx_open _ _ _ _ Ho) in Hs. cbn in Hs.
    destruct (apply_sql _ _) eqn:Ea; cbn in Hs; simplify_eq. done.
  - destruct Hp as ([_ Ho] & -> & schema & Ha). rewrite (write_tx_open _ _ _ _ Ho) in Hs.
    destruct (view_next _ _ _ _ Hn Hk Ha) as (d' & Hv & _). cbn [app] in Hs. change [_; _] with (writes_of m) in Hs.
    by rewrite Hv in Hs.
  - destruct Hp as [[_ Ho] _]. rewrite Ho in Hs. done.
  - destruct Hp as ([_ Ho] & -> & schema & Ha). rewrite Ho in Hs. cbn [default from_option id] in Hs.
    destruct (view_next _ _ _ _ Hn Hk Ha) as (d' & Hv & _). by rewrite Hv in Hs.
Qed.

(** A call that is answered with a failure returns it. *)
Lemma Migrate_failed s err st : startup_statement s = Some st -> exists e, Migrate s (Failed err) = Returned (Err e).
Proof. destruct s as [|m rest []|]; cbn; eauto; done. Qed.

Lemma startup_step_ok sup sup' : startup_step sup sup' -> startups_ok sup -> startups_ok sup'.
Proof.
  assert (Hins : forall n se se' (procs : gmap nat startup) i s',
    (forall j s, procs !! j = Some s -> proc_ok n se j s) -> served_ok n se se' i s' ->
    startups_ok (mkStartups se' (<[i := s']> procs))).
  { intros n se se' procs i s' Hp (n' & Hn' & Hlen' & Hi & Hf). exists n'. split_and!; [done|done|].
    intros j s Hj. cbn in *. apply lookup_insert_Some in Hj as [[<- <-]|[Hne Hj]]; [done|]. by apply Hf; [|apply Hp]. }
  intros Hstep (n & Hn & Hlen & Hp). destruct Hstep as [se procs i ctx Hi|se procs i s st se' r Hi Hst Hs
    |se procs i s st err Hi Hst Hs|se procs i s st se' err Hi Hst Hs|se procs i s err Hi|se procs i result Hi];
    cbn [sup_server sup_procs] in *.
  - apply (Hins n se); [done|]. apply served_same; [done..| |done]. unfold Migrate_begin. by destruct (check_context ctx).
  - apply (Hins n se); [done|]. eapply serve_ok; eauto.
  - apply (Hins n se); [done|]. destruct (Migrate_failed s err st Hst) as [e ->]. by apply served_same.
  - apply (Hins n se); [done|]. destruct (Migrate_failed s err st Hst) as [e ->]. destruct Hs as [->|[r Hs]]; [by apply served_same|].
    destruct (serve_ok n se i s st se' r Hn Hlen (Hp _ _ Hi) Hst Hs) as (n' & Hn' & Hlen' & _ & Hf). by exists n'.
  - apply (Hins n se); [done|]. by apply served_same.
  - exists n. split_and!; [done|done|]. cbn. intros j s Hj. destruct (decide (i = j)) as [<-|Hne].
    + assert (s = Returned result) as -> by congruence. exact (Hp _ _ Hi).
    + destruct (end_tx_other (se_db se) se i j Hne). eapply proc_ok_frame; [by apply Hp|done|done|]. by left.
Qed.
End Prefix.

(** C23: migrations run once and in order. However many processes of one binary, which
    embed the same files, start up at once or again, whatever order the database
    answers their statements in, and whatever connection or process fails on the way:
    the migrations are sorted by strictly increasing versions, the committed schema is
    the first one with a prefix of them applied in that order, each exactly once, and
    the ledger lists that prefix; when [Migrate] has returned nil in some process, the
    prefix is all of them. Startups do not make each other fail: inside the transaction
    of a migration, the database refuses a statement only when the script itself cannot
    be applied to the schema. *)
Theorem migrations_exactly_once (all : list postgresMigration) (s0 : Schema) (sup : startups Schema) :
  loadPostgresMigrations sha256_hex glob = Ok all ->
  rtc startup_step (mkStartups (mkServer (mkMigrated ∅ s0) ∅ ∅) ∅) sup ->
  StronglySorted (fun x y => mig_version x < mig_version y) all /\
  (exists n, applied_prefix all s0 (se_db (sup_server sup)) n /\
     forall i, sup_procs sup !! i = Some (Returned (Ok tt)) -> take n all = all) /\
  forall i m rest p err, sup_procs sup !! i = Some (Applying m rest p) -> refused sup i err ->
    p = AtApply /\ apply_sql (mig_sql m) (md_schema (se_db (sup_server sup))) = Err err.
Proof.
  intros Hload Hr. split; [by eapply load_sorted|]. assert (Hok : startups_ok all s0 sup).
  { revert sup Hr. apply rtc_ind_r.
    - exists O. split_and!; [done|lia|]. intros i s Hi. cbn in Hi. by rewrite lookup_empty in Hi.
    - intros sup1 sup2 _ Hstep Hok. by eapply startup_step_ok. }
  destruct Hok as (n & Hn & Hlen & Hp). split.
  - exists n. split; [done|]. intros i Hi. apply take_ge, (Hp _ _ Hi).
  - intros i m rest p err Hi (s & st & Hs & Hst & Href). rewrite Hi in Hs. injection Hs as <-. injection Hst as <-.
    eapply refused_script; eauto.
Qed.
End Startups.

(** ** The migrations of the repository *)

#[local] Definition no_letters : Unicode := fun _ => false.
#[local] Existing Instance no_letters.

(** The two files, with short texts in the place of their contents. *)
Definition embedded : list (string * res go_error string) :=
  [("migrations/postgres/000001_initial.up.sql", Ok "initial");
   ("migrations/postgres/000002_security.up.sql", Ok "security")].

Definition embedded_migrations : list postgresMigration :=
  [mkMigration 1 "000001_initial.up.sql" "sha:initial" "initial";
   mkMigration 2 "000002_security.up.sql" "sha:security" "security"].

Definition sha_demo (text : string) : string := "sha:" +:+ text.

Lemma migrations_loaded_in_order_witness :
  StronglySorted (fun x y => mig_version x < mig_version y) embedded_migrations.
Proof. apply (migrations_loaded_in_order sha_demo (rev embedded) embedded_migrations). vm_compute. reflexivity. Defined.

(** A schema as the list of the scripts that have run. *)
Definition run_script (script : string) (schema : list string) : res go_error (list string) := Ok (schema ++ [script]).

(** *** Two processes *)

(** What a startup does next: it begins, it is answered, or it loses the connection
    after its statement has taken effect. *)
Inductive startup_action := Begins | Answered | Loses.

Definition act (sup : startups (list string)) (i : nat) (a : startup_action) : option (startups (list string)) :=
  let '(mkStartups se procs) := sup in
  match a with
  | Begins => if decide (procs !! i = None) then Some (mkStartups se (<[i := Migrate_begin CtxLive]> procs)) else None
  | _ =>
      s ← procs !! i; st ← startup_statement s;
      match serve run_script (ErrText "duplicate key") se i st with
      | Some (Ok (se', r)) =>
          let r := match a with Loses => Failed (ErrText "connection reset") | _ => r end in
          Some (mkStartups se' (<[i := Migrate sha_demo (Ok (rev embedded)) s r]> procs))
      | _ => None
      end
  end.

Fixpoint act_all (sup : startups (list string)) (actions : list (nat * startup_action)) : option (startups (list string)) :=
  match actions with
  | [] => Some sup
  | (i, a) :: rest => sup' ← act sup i a; act_all sup' rest
  end.

Lemma act_all_steps sup actions sup' :
  act_all sup actions = Some sup' ->
  rtc (startup_step run_script (ErrText "duplicate key") sha_demo (Ok (rev embedded))) sup sup'.
Proof.
  revert sup. induction actions as [|[i a] rest IH]; intros sup; cbn; [by intros [= ->]|].
  intros (sup1 & Ha & Hrest)%bind_Some. eapply rtc_l; [|by apply IH]. destruct sup as [se procs]. unfold act in Ha.
  destruct a; [case_decide; simplify_eq; by constructor|..];
    apply bind_Some in Ha as (s & Hs & (st & Hst & Ha)%bind_Some); repeat case_match; simplify_eq.
  - by eapply startup_answered.
  - eapply startup_disconnected; [done..|]. right. by eexists.
Qed.

Definition fresh_database : startups (list string) := mkStartups (mkServer (mkMigrated ∅ []) ∅ ∅) ∅.

(** Both processes begin; the first holds the lock while the second waits, and loses its
    connection in the commit of the first migration, which has taken effect; the second
    finds it applied and goes on. *)
Definition two_startups : list (nat * startup_action) :=
  [(0, Begins); (1, Begins); (0, Answered); (1, Answered); (0, Answered); (0, Answered); (1, Answered);
   (0, Answered); (0, Answered); (0, Answered); (0, Loses);
   (1, Answered); (1, Answered); (1, Answered);
   (1, Answered); (1, Answered); (1, Answered); (1, Answered); (1, Answered); (1, Answered)]%nat.

Definition restarted : startups (list string) := default fresh_database (act_all fresh_database two_startups).

Lemma migrations_exactly_once_witness :
  md_schema (se_db (sup_server restarted)) = ["initial"; "security"] /\
  exists n, applied_prefix run_script embedded_migrations [] (se_db (sup_server restarted)) n /\
    take n embedded_migrations = embedded_migrations.
Proof.
  split; [vm_compute; reflexivity|].
  destruct (migrations_exactly_once run_script (ErrText "duplicate key") sha_demo (Ok (rev embedded))
    embedded_migrations [] restarted) as (_ & (n & Hn & Hall) & _).
  - vm_compute. reflexivity.
  - apply (act_all_steps fresh_database two_startups). vm_compute. reflexivity.
  - exists n. split; [exact Hn|]. apply (Hall 1%nat). vm_compute. reflexivity.
Defined.
