(* ===== verification/Mux.v ===== *)
(** * Routing

    The routes of [src/internal/api/server.go] and the dispatch of a path to them by
    [http.ServeMux], with the route helpers of [src/internal/api/observability.go].
    Every pattern is without method and host, and only ["/"] ends in a slash. *)
From S2P Require Import Prelude Workflow Graph Errors Run Ids RunStep Broker Security FileStore FileStoreOps RateLimit Engine EngineStore Projects Duration Handlers Options Events Manager Dto Http Server Config.

(** ** Paths *)

Definition slash : Z := 47.

(** The segments of a rooted path: what follows each slash. *)
Definition segments (path : string) : list string := Split slash path.

(** [strings.Join] with a slash. *)
Fixpoint join_slash (parts : list string) : string :=
  match parts with
  | [] => ""
  | [part] => part
  | part :: rest => part +:+ "/" +:+ join_slash rest
  end.

Definition hex_value (c : Ascii.ascii) : option Z :=
  let b := byte_val c in
  if in_range 48 57 b then Some (b - 48)
  else if in_range 97 102 b then Some (b - 87)
  else if in_range 65 70 b then Some (b - 55)
  else None.

(** [url.PathUnescape]; the parser of the request line decodes a path in the same
    way. *)
Fixpoint PathUnescape (s : string) : option string :=
  match s with
  | EmptyString => Some EmptyString
  | String c rest =>
      if byte_val c =? 37 then
        match rest with
        | String h (String l rest) =>
            match hex_value h, hex_value l with
            | Some h, Some l => (fun out => byte_string (16 * h + l) +:+ out) <$> PathUnescape rest
            | _, _ => None
            end
        | _ => None
        end
      else String c <$> PathUnescape rest
  end.

(** [pathUnescape] of the mux goes on with the text when it is malformed. *)
Definition path_unescape (s : string) : string := default s (PathUnescape s).

(** [path.Clean] on the segments of a rooted path, [out] in reverse. *)
Fixpoint clean_segments (out parts : list string) : list string :=
  match parts with
  | [] => rev out
  | part :: rest =>
      if string_is_empty part || String.eqb part "." then clean_segments out rest
      else if String.eqb part ".." then clean_segments (tl out) rest
      else clean_segments (part :: out) rest
  end.

(** [cleanPath]: the path without its leading slash, with a trailing one kept. *)
Definition clean_path (path : string) : string :=
  let cleaned := clean_segments [] (segments path) in
  join_slash cleaned +:+
    (if String.eqb (default "" (last (segments path))) "" && negb (bool_decide (cleaned = [])) then "/" else "").

(** ** Patterns *)

Inductive pattern_segment :=
| Literal (s : string)
| Wildcard (name : string).

(** [{name}] is a wildcard. *)
Definition pattern_segment_of (s : string) : pattern_segment :=
  match s with
  | String c rest =>
      if (byte_val c =? 123) && String.eqb (String.substring (String.length rest - 1) 1 rest) "}"
      then Wildcard (String.substring 0 (String.length rest - 1) rest)
      else Literal s
  | EmptyString => Literal s
  end.

Definition pattern_segments (pattern : string) : list pattern_segment :=
  map pattern_segment_of (segments (String.substring 1 (String.length pattern - 1) pattern)).

(** The patterns that [routes] registers before ["/"]. *)
Definition route_patterns : list string :=
  ["/healthz"; "/readyz"; "/metrics";
   "/api/v1/projects"; "/api/v1/projects/{projectID}"; "/api/v1/projects/{projectID}/members";
   "/api/v1/projects/{projectID}/members/{userID}"; "/api/v1/projects/{projectID}/audit-events";
   "/api/v1/workflows"; "/api/v1/workflows/{id}"; "/api/v1/workflows/{id}/runs";
   "/api/v1/runs/{runID}"; "/api/v1/runs/{runID}/tasks"; "/api/v1/runs/{runID}/cancel";
   "/api/v1/runs/{runID}/retry"; "/api/v1/runs/{runID}/events"].

(** The values of the wildcards, when the path has the form of the pattern. The mux
    decodes a segment before it compares it; it reads an empty last segment as the
    segment ["/"], which a wildcard does not match. *)
Fixpoint match_segments (pattern : list pattern_segment) (parts : list string) : option (list (string * string)) :=
  match pattern, parts with
  | [], [] => Some []
  | Literal s :: pattern, part :: parts =>
      if String.eqb (path_unescape part) s then match_segments pattern parts else None
  | Wildcard name :: pattern, part :: parts =>
      if String.eqb (path_unescape part) "/" || (string_is_empty part && bool_decide (parts = [])) then None
      else cons (name, path_unescape part) <$> match_segments pattern parts
  | _, _ => None
  end.

Fixpoint first_match (patterns : list string) (parts : list string) : string * list (string * string) :=
  match patterns with
  | [] => ("/", [])
  | pattern :: patterns =>
      match match_segments (pattern_segments pattern) parts with
      | Some values => (pattern, values)
      | None => first_match patterns parts
      end
  end.

(** [ServeMux.Handler] for a path without its leading slash: the handler of the
    pattern with the values of its wildcards, or the redirection to the clean path;
    only [CONNECT] requests are not redirected. *)
Inductive mux_answer :=
| MuxServe (values : list (string * string))
| MuxRedirect (path : string).

Definition mux_handler (method path : string) : mux_answer * string :=
  let clean := if String.eqb method "CONNECT" then path else clean_path path in
  let '(pattern, values) := first_match route_patterns (segments clean) in
  if String.eqb clean path then (MuxServe values, pattern) else (MuxRedirect ("/" +:+ clean), pattern).

(** [Request.PathValue]. *)
Definition PathValue (values : list (string * string)) (name : string) : string :=
  default "" (snd <$> List.find (fun v => String.eqb (fst v) name) values).

(** ** Labels of a request *)

Definition normalizedRoute (route : string) : string := if string_is_empty route then "unmatched" else route.

(** [strings.Trim] with a slash. *)
Fixpoint trim_left_slash (s : string) : string :=
  match s with
  | String c rest => if byte_val c =? slash then trim_left_slash rest else s
  | EmptyString => s
  end.
Fixpoint trim_right_slash (s : string) : string :=
  match s with
  | String c rest =>
      let rest := trim_right_slash rest in
      if string_is_empty rest && (byte_val c =? slash) then "" else String c rest
  | EmptyString => s
  end.
Definition trim_slash (s : string) : string := trim_right_slash (trim_left_slash s).

(** The loop of [routeValue]. *)
Fixpoint wanted_part (wanted : string) (patternParts pathParts : list string) : string :=
  match patternParts, pathParts with
  | part :: patternParts, value :: pathParts =>
      if String.eqb part wanted then value else wanted_part wanted patternParts pathParts
  | _, _ => ""
  end.

Definition routeValue (pattern path name : string) : string :=
  let patternParts := Split slash (trim_slash pattern) in
  let pathParts := Split slash (trim_slash path) in
  if negb (Nat.eqb (length patternParts) (length pathParts)) then ""
  else wanted_part ("{" +:+ name +:+ "}") patternParts pathParts.

(** ** Facts on routing: at most one route matches, and the labels name the resource that is served *)

(** ** Splitting and decoding *)

Lemma Split_nonempty (c : Z) (s : string) : exists word words, Split c s = word :: words.
Proof. induction s as [|x s (w & ws & IH)]; cbn; [eauto|]. rewrite IH. case_match; eauto. Qed.

Lemma Split_other (c : Z) (x : Ascii.ascii) (s word : string) (words : list string) :
  byte_val x <> c -> Split c s = word :: words -> Split c (String x s) = String x word :: words.
Proof. intros Hx Hs. cbn. rewrite Hs. by destruct (Z.eqb_spec (byte_val x) c). Qed.

Lemma join_slash_String (x : Ascii.ascii) (part : string) (parts : list string) :
  join_slash (String x part :: parts) = String x (join_slash (part :: parts)).
Proof. by destruct parts. Qed.

Lemma join_slash_app (b part : string) (parts : list string) :
  join_slash ((b +:+ part) :: parts) = b +:+ join_slash (part :: parts).
Proof. destruct parts; cbn [join_slash]; [done|]. by rewrite app_assoc_string. Qed.

Lemma hex_value_not_slash (c : Ascii.ascii) (n : Z) : hex_value c = Some n -> byte_val c <> slash.
Proof.
  unfold hex_value, in_range, slash. intros Hh Hc. rewrite Hc in Hh. by cbn in Hh.
Qed.

(** Decoding a path decodes its segments. *)
Lemma unescape_segments (path d : string) :
  PathUnescape path = Some d ->
  exists parts, Forall2 (fun part out => PathUnescape part = Some out) (segments path) parts /\ d = join_slash parts.
Proof.
  unfold segments. revert d.
  induction path as [path IH] using (induction_ltof1 _ String.length). unfold ltof in IH.
  destruct path as [|c rest]; intros d.
  { intros [= <-]. exists [""]. by repeat constructor. }
  cbn [PathUnescape]. destruct (Z.eqb_spec (byte_val c) 37) as [Hc|Hc].
  - destruct rest as [|h [|l rest]]; [done..|].
    destruct (hex_value h) as [hv|] eqn:Hh; [|done]. destruct (hex_value l) as [lv|] eqn:Hl; [|done].
    intros (out & Hout & ->)%fmap_Some. apply IH in Hout as (parts & Hp & ->); [|cbn; lia].
    destruct (Split_nonempty slash rest) as (w & ws & Hs). rewrite Hs in Hp.
    apply Forall2_cons_inv_l in Hp as (o & os & Ho & Hos & ->).
    exists ((byte_string (16 * hv + lv) +:+ o) :: os). split; [|by rewrite join_slash_app].
    rewrite (Split_other _ c _ (String h (String l w)) ws).
    + constructor; [|done]. cbn [PathUnescape]. rewrite Hc. cbn. by rewrite Hh, Hl, Ho.
    + rewrite Hc. done.
    + apply Split_other; [by eapply hex_value_not_slash|]. apply Split_other; [by eapply hex_value_not_slash|done].
  - intros (out & Hout & ->)%fmap_Some. apply IH in Hout as (parts & Hp & ->); [|cbn; lia].
    destruct (Split_nonempty slash rest) as (w & ws & Hs). destruct (Z.eqb_spec (byte_val c) slash) as [Hsl|Hsl].
    + exists ("" :: parts). cbn [Split]. rewrite Hsl. cbn. rewrite Hs in Hp.
      apply Forall2_cons_inv_l in Hp as (o & os & Ho & Hos & ->). rewrite Hs.
      split; [by repeat constructor|]. f_equal.
      rewrite <- (Ascii.ascii_N_embedding c). unfold byte_val, slash in Hsl. by replace (Ascii.N_of_ascii c) with 47%N by lia.
    + rewrite Hs in Hp. apply Forall2_cons_inv_l in Hp as (o & os & Ho & Hos & ->).
      exists (String c o :: os). rewrite (Split_other _ _ _ w ws) by done. split; [|by rewrite join_slash_String].
      constructor; [|done]. cbn [PathUnescape]. destruct (Z.eqb_spec (byte_val c) 37); [done|]. by rewrite Ho.
Qed.

(** ** Routes do not overlap *)

Fixpoint overlap (p q : list pattern_segment) : bool :=
  match p, q with
  | [], [] => true
  | Literal s :: p, Literal t :: q => String.eqb s t && overlap p q
  | _ :: p, _ :: q => overlap p q
  | _, _ => false
  end.

Lemma match_overlap (p q : list pattern_segment) (parts : list string) v w :
  match_segments p parts = Some v -> match_segments q parts = Some w -> overlap p q = true.
Proof.
  revert q parts v w. induction p as [|[s|n] p IH]; intros [|[t|m] q] [|part parts] v w; cbn; try done.
  - destruct (String.eqb_spec (path_unescape part) s) as [<-|]; [|done].
    destruct (String.eqb_spec (path_unescape part) t) as [<-|]; [|done].
    cbn. eauto.
  - destruct (String.eqb _ s); [|done]. intros Hv. case_match; [done|]. intros (w' & Hw & _)%fmap_Some. eauto.
  - case_match; [done|]. intros (v' & Hv & _)%fmap_Some. destruct (String.eqb _ t); [|done]. eauto.
  - case_match; [done|]. intros (v' & Hv & _)%fmap_Some (w' & Hw & _)%fmap_Some. eauto.
Qed.

Lemma routes_apart :
  forallb (fun p => forallb (fun q => String.eqb p q || negb (overlap (pattern_segments p) (pattern_segments q)))
                      route_patterns) route_patterns = true.
Proof. vm_compute. reflexivity. Qed.

(** The order in which the mux tries its patterns does not matter. *)
Lemma route_unique (p q : string) (parts : list string) v w :
  p ∈ route_patterns -> q ∈ route_patterns ->
  match_segments (pattern_segments p) parts = Some v -> match_segments (pattern_segments q) parts = Some w -> p = q.
Proof.
  intros Hp Hq Hv Hw. pose proof routes_apart as Ha. rewrite forallb_forall in Ha.
  specialize (Ha p (proj1 (list_elem_of_In _ _) Hp)). rewrite forallb_forall in Ha.
  specialize (Ha q (proj1 (list_elem_of_In _ _) Hq)). rewrite (match_overlap _ _ _ _ _ Hv Hw), orb_false_r in Ha.
  by apply String.eqb_eq.
Qed.

Lemma first_match_cases (patterns parts : list string) :
  match first_match patterns parts with
  | (pattern, values) =>
      (pattern = "/" /\ values = [] /\ forall p, p ∈ patterns -> match_segments (pattern_segments p) parts = None)
      \/ (pattern ∈ patterns /\ match_segments (pattern_segments pattern) parts = Some values)
  end.
Proof.
  induction patterns as [|p patterns IH]; cbn [first_match]; [left; set_solver|].
  destruct (match_segments (pattern_segments p) parts) as [v|] eqn:Hm; [right; set_solver|].
  destruct (first_match patterns parts) as [pattern values]. destruct IH as [(-> & -> & Hn)|(Hin & Hv)]; [left|right].
  - split_and!; [done|done|]. intros q [->|Hq]%elem_of_cons; auto.
  - split; [by right|done].
Qed.

(** ** API paths *)

Definition api_pattern (pattern : string) : bool := String.prefix "/api/v1/" pattern.

Definition api_shape (p : list pattern_segment) : bool :=
  match p with Literal a :: Literal v :: _ :: _ => String.eqb a "api" && String.eqb v "v1" | _ => false end.

Lemma api_patterns_shape :
  forallb (fun p => negb (api_pattern p) || api_shape (pattern_segments p)) route_patterns = true.
Proof. vm_compute. reflexivity. Qed.

Lemma path_unescape_some (part out : string) : PathUnescape part = Some out -> path_unescape part = out.
Proof. unfold path_unescape. by intros ->. Qed.

Lemma prefix_app (s t : string) : String.prefix s (s +:+ t) = true.
Proof. induction s as [|c s IH]; [by destruct t|]. rewrite app_String. cbn [String.prefix]. by destruct (Ascii.ascii_dec c c). Qed.

(** A path with the form of an API route is authenticated: the check is made on the
    decoded path, the match on the decoded segments. *)
Lemma api_route_path (pattern path decoded : string) (values : list (string * string)) :
  pattern ∈ route_patterns -> api_pattern pattern = true -> PathUnescape path = Some decoded ->
  match_segments (pattern_segments pattern) (segments path) = Some values -> api_path ("/" +:+ decoded) = true.
Proof.
  intros Hin Hapi Hd Hm. pose proof api_patterns_shape as Hs. rewrite forallb_forall in Hs.
  specialize (Hs pattern (proj1 (list_elem_of_In _ _) Hin)). rewrite Hapi in Hs. cbn in Hs.
  destruct (unescape_segments path decoded Hd) as (parts & Hp & ->).
  destruct (pattern_segments pattern) as [|[a|] [|[v|] [|third rest]]]; try done.
  apply andb_true_iff in Hs as [->%String.eqb_eq ->%String.eqb_eq].
  destruct (segments path) as [|p1 [|p2 [|p3 ps]]]; cbn in Hm; try done; try by repeat case_match.
  apply Forall2_cons_inv_l in Hp as (o1 & os1 & <-%path_unescape_some & Hp & ->).
  apply Forall2_cons_inv_l in Hp as (o2 & os2 & <-%path_unescape_some & Hp & ->).
  apply Forall2_cons_inv_l in Hp as (o3 & os3 & <-%path_unescape_some & Hp & ->).
  destruct (String.eqb_spec (path_unescape p1) "api") as [->|]; [|done].
  destruct (String.eqb_spec (path_unescape p2) "v1") as [->|]; [|done].
  unfold api_path, has_prefix. apply orb_true_iff. left.
  change (String.prefix "/api/v1/" ("/api/v1/" +:+ join_slash (path_unescape p3 :: os3)) = true). apply prefix_app.
Qed.

(** ** Labels *)

Definition plain_segment (s : string) : bool :=
  negb (string_is_empty s) && forallb (fun b => negb (b =? slash)) (bytes_of s).

Lemma Split_plain (s : string) : forallb (fun b => negb (b =? slash)) (bytes_of s) = true -> Split slash s = [s].
Proof.
  induction s as [|c s IH]; cbn [bytes_of forallb Split]; [done|]. intros [Hc Hs]%andb_true_iff. rewrite (IH Hs). by apply negb_true_iff in Hc as ->.
Qed.

Lemma Split_app (c : Ascii.ascii) (s t : string) :
  forallb (fun b => negb (b =? byte_val c)) (bytes_of s) = true ->
  Split (byte_val c) (s +:+ String c t) = s :: Split (byte_val c) t.
Proof.
  induction s as [|x s IH]; cbn [bytes_of forallb].
  - intros _. change (Split (byte_val c) (String c t) = "" :: Split (byte_val c) t). cbn [Split].
    by destruct (Z.eqb_spec (byte_val c) (byte_val c)).
  - intros [Hc Hs]%andb_true_iff. apply negb_true_iff in Hc. rewrite app_String. cbn [Split]. by rewrite Hc, (IH Hs).
Qed.

Lemma Split_join (parts : list string) : parts <> [] -> forallb plain_segment parts = true -> Split slash (join_slash parts) = parts.
Proof.
  induction parts as [|p parts IH]; [done|]. intros _. cbn [forallb]. intros [Hp Hps]%andb_true_iff.
  unfold plain_segment in Hp. apply andb_true_iff in Hp as [_ Hp].
  destruct parts as [|q parts]; cbn [join_slash]; [by apply Split_plain|].
  change (Split slash (p +:+ String (Ascii.ascii_of_nat 47) (join_slash (q :: parts))) = p :: q :: parts).
  change slash with (byte_val (Ascii.ascii_of_nat 47)) in *. rewrite Split_app by done. f_equal. by apply IH.
Qed.

Lemma trim_right_plain (s : string) :
  forallb (fun b => negb (b =? slash)) (bytes_of s) = true -> trim_right_slash s = s.
Proof.
  induction s as [|c s IH]; cbn [bytes_of forallb trim_right_slash]; [done|]. intros [Hc Hs]%andb_true_iff.
  apply negb_true_iff in Hc. by rewrite (IH Hs), Hc, andb_false_r.
Qed.

Lemma trim_right_app (s t : string) : t <> "" -> trim_right_slash t = t -> trim_right_slash (s +:+ t) = s +:+ t.
Proof.
  intros Ht Heq. induction s as [|c s IH]; [done|]. rewrite app_String. cbn [trim_right_slash]. rewrite IH.
  by destruct s; [destruct t|].
Qed.

Lemma plain_segment_spec (s : string) :
  plain_segment s = true <-> s <> "" /\ forallb (fun b => negb (b =? slash)) (bytes_of s) = true.
Proof. unfold plain_segment. rewrite andb_true_iff. destruct s; cbn [string_is_empty negb]; naive_solver. Qed.

Lemma trim_right_join (parts : list string) :
  parts <> [] -> forallb plain_segment parts = true ->
  join_slash parts <> "" /\ trim_right_slash (join_slash parts) = join_slash parts.
Proof.
  induction parts as [|p parts IH]; [done|]. intros _. cbn [forallb]. intros [[Hp0 Hp]%plain_segment_spec Hps]%andb_true_iff.
  destruct parts as [|q parts]; cbn [join_slash]; [by split; [|apply trim_right_plain]|].
  destruct IH as [Hne Htr]; [done|done|]. split; [by destruct p|].
  rewrite <- app_assoc_string. by apply trim_right_app.
Qed.

Lemma split_path (parts : list string) :
  parts <> [] -> forallb plain_segment parts = true -> Split slash (trim_slash ("/" +:+ join_slash parts)) = parts.
Proof.
  intros Hne Hp. unfold trim_slash.
  change (trim_left_slash ("/" +:+ join_slash parts)) with (trim_left_slash (join_slash parts)).
  assert (trim_left_slash (join_slash parts) = join_slash parts) as ->.
  { destruct parts as [|[|c s] parts]; [done|done|]. cbn [forallb] in Hp.
    apply andb_true_iff in Hp as [[_ Hc]%plain_segment_spec _]. cbn [bytes_of forallb] in Hc.
    apply andb_true_iff in Hc as [Hc%negb_true_iff _]. rewrite join_slash_String. cbn [trim_left_slash]. by rewrite Hc. }
  destruct (trim_right_join parts Hne Hp) as [_ ->]. by apply Split_join.
Qed.

(** The parts of a pattern are what [routeValue] takes them for. *)
Definition part_ok (part : string) : bool :=
  match pattern_segment_of part with
  | Wildcard name => String.eqb part ("{" +:+ name +:+ "}")
  | Literal _ => negb (String.prefix "{" part)
  end.

Definition pattern_ok (pattern : string) : bool :=
  bool_decide (Split slash (trim_slash pattern) = segments (String.substring 1 (String.length pattern - 1) pattern))
  && forallb part_ok (Split slash (trim_slash pattern)).

Lemma patterns_ok : forallb pattern_ok route_patterns = true.
Proof. vm_compute. reflexivity. Qed.

Lemma wildcard_inj (n m : string) : "{" +:+ n +:+ "}" = "{" +:+ m +:+ "}" -> n = m.
Proof.
  intros [=Heq]. revert m Heq. induction n as [|c n IH]; intros [|x m]; cbn; try done.
  - intros [= _ Hm]. by destruct m.
  - intros [= _ Hm]. by destruct n.
  - intros [= -> Hm]. f_equal. by apply IH.
Qed.

Lemma wanted_part_value (name : string) (patternParts parts : list string) (values : list (string * string)) :
  forallb part_ok patternParts = true -> match_segments (map pattern_segment_of patternParts) parts = Some values ->
  wanted_part ("{" +:+ name +:+ "}") patternParts (map path_unescape parts) = PathValue values name
  /\ length patternParts = length parts.
Proof.
  revert parts values. induction patternParts as [|p ps IH]; intros [|part parts] values; cbn [map forallb match_segments].
  - by intros _ [= <-].
  - done.
  - by destruct (pattern_segment_of p).
  - intros [Hp Hps]%andb_true_iff. unfold part_ok in Hp. cbn [wanted_part length].
    destruct (pattern_segment_of p) as [s|n].
    + destruct (String.eqb _ s); [|done]. intros Hm. destruct (IH _ _ Hps Hm) as [-> ->].
      destruct (String.eqb_spec p ("{" +:+ name +:+ "}")) as [->|]; [|done]. by rewrite prefix_app in Hp.
    + case_match; [done|]. intros (v & Hm & ->)%fmap_Some. destruct (IH _ _ Hps Hm) as [Hv ->]. split; [|done].
      apply String.eqb_eq in Hp as ->. unfold PathValue in *. cbn [List.find fst].
      destruct (String.eqb_spec n name) as [->|Hne]; [by rewrite String.eqb_refl|].
      destruct (String.eqb_spec ("{" +:+ n +:+ "}") ("{" +:+ name +:+ "}")) as [He%wildcard_inj|]; [done|exact Hv].
Qed.

(** The identifier that is logged for a request is the one its handler reads. *)
Lemma routeValue_PathValue (pattern path decoded name : string) (values : list (string * string)) :
  pattern ∈ route_patterns -> PathUnescape path = Some decoded ->
  match_segments (pattern_segments pattern) (segments path) = Some values ->
  forallb plain_segment (map path_unescape (segments path)) = true ->
  routeValue pattern ("/" +:+ decoded) name = PathValue values name.
Proof.
  intros Hin Hd Hm Hplain. pose proof patterns_ok as Hok. rewrite forallb_forall in Hok.
  specialize (Hok pattern (proj1 (list_elem_of_In _ _) Hin)). unfold pattern_ok in Hok.
  apply andb_true_iff in Hok as [Hsegs%bool_decide_eq_true Hparts]. unfold pattern_segments in Hm. rewrite <- Hsegs in Hm.
  destruct (unescape_segments path decoded Hd) as (parts & Hp & ->).
  assert (map path_unescape (segments path) = parts) as Hparts'.
  { clear -Hp. induction Hp as [|part out l k Hpart _ IH]; cbn; [done|]. by rewrite (path_unescape_some _ _ Hpart), IH. }
  rewrite Hparts' in Hplain. destruct (wanted_part_value name _ _ _ Hparts Hm) as [Hv Hlen].
  unfold routeValue. rewrite split_path; [|intros ->; by destruct (Split_nonempty slash path) as (? & ? & Hs);
    unfold segments in Hparts'; rewrite Hs in Hparts'|done].
  rewrite Hlen, <- Hparts', length_map, Nat.eqb_refl. exact Hv.
Qed.
