(* ===== verification/Frontend.v ===== *)
(** * One HTTP request

    Models [ServeHTTP], [serveHTTP] with the dispatch of [routes], [writeJSON],
    [handleMetrics] and [handleNotFound] of [src/internal/api/server.go], the
    response observer of [src/internal/api/observability.go], and the correlation of
    log records of [src/internal/observability/context.go]. The handlers are those of
    [Server] and [Projects]. *)
From S2P Require Import Prelude Workflow Errors Graph Run Ids RunStep Security FileStore FileStoreOps RateLimit Broker Engine EngineStore Projects Duration Handlers Options Events Metrics Manager Dto Http Server Config Mux.

(** ** The response observer *)

(** What reaches the connection, in order. *)
Inductive wire_op :=
| WireHeader (status : Z)
| WireBody (body : string)
| WireFlush.

(** The calls that a handler makes on its [ResponseWriter]. *)
Inductive writer_call :=
| CallWriteHeader (status : Z)
| CallWrite (body : string)
| CallFlush.

Record responseObserver := mkObserver {
  ro_status : Z;
  ro_wire : list wire_op
}.

Definition observer_WriteHeader (o : responseObserver) (status : Z) : responseObserver :=
  if negb (ro_status o =? 0) then o else mkObserver status (ro_wire o ++ [WireHeader status]).

Definition observer_Write (o : responseObserver) (body : string) : responseObserver :=
  let o := if ro_status o =? 0 then observer_WriteHeader o StatusOK else o in
  mkObserver (ro_status o) (ro_wire o ++ [WireBody body]).

(** [Flush] of the flushing observer. *)
Definition observer_Flush (o : responseObserver) : responseObserver :=
  let o := if ro_status o =? 0 then observer_WriteHeader o StatusOK else o in
  mkObserver (ro_status o) (ro_wire o ++ [WireFlush]).

Definition statusCode (o : responseObserver) : Z := if ro_status o =? 0 then StatusOK else ro_status o.

Definition observer_call (o : responseObserver) (call : writer_call) : responseObserver :=
  match call with
  | CallWriteHeader status => observer_WriteHeader o status
  | CallWrite body => observer_Write o body
  | CallFlush => observer_Flush o
  end.

Definition observeResponse (calls : list writer_call) : responseObserver := foldl observer_call (mkObserver 0 []) calls.

(** ** Responses *)

Inductive payload :=
| PError (e : api_error)
| PStatus (status : string)
| PProject (project : Project)
| PMembership (membership : Membership)
| PMemberships (memberships : list Membership)
| PAuditEvents (events : list AuditEvent)
| PWorkflow (workflow : WorkflowResponse)
| PRun (run : RunResponse)
| PTasks (runID : string) (tasks : list TaskRunResponse)
| PCancellation (runID status : string).

Record response := mkResponse {
  rs_headers : list (string * string);
  rs_calls : list writer_call
}.

Definition with_headers (headers : list (string * string)) (r : response) : response :=
  mkResponse (headers ++ rs_headers r) (rs_calls r).

(** The streams that a response can start: [handleRunEvents] goes on with the events
    of a run after a sequence number. *)
Definition stream_start : Type := option (string * Z).

(** ** Correlation *)

(** [hex.EncodeToString] of the random bytes. *)
Definition NewRequestID (random : res go_error (list Z)) : res go_error string := rbind random (fun bytes => Ok (hex_string bytes)).

(** [requestID] is the value in the context, empty without one; [span] is the trace
    and span identifiers of a valid span context. *)
Definition CorrelationAttributes (requestID : string) (span : option (string * string)) : list (string * string) :=
  (if string_is_empty requestID then [] else [("request_id", requestID)])
  ++ match span with Some (trace_id, span_id) => [("trace_id", trace_id); ("span_id", span_id)] | None => [] end.

Record log_record := mkLog {
  lg_message : string;
  lg_attributes : list (string * string)
}.

(** [Instrumentation.Log]. *)
Definition Log (requestID : string) (span : option (string * string)) (message : string) (attributes : list (string * string))
  : log_record := mkLog message (CorrelationAttributes requestID span ++ attributes).

(** *** The records of the observed store *)

(** What [recordRunEvents] logs for an event, without the correlation: the level,
    the message and the attributes. *)
Definition event_attributes (snapshot : WorkflowRunSnapshot) (event : RunEvent) : list (string * string) :=
  [("workflow_id", snap_WorkflowID snapshot); ("workflow_run_id", snap_ID snapshot)]
  ++ (if string_is_empty (re_TaskID event) then []
      else
        let task := default zeroTaskRun (tasks_by_id (snap_Tasks snapshot) !! re_TaskID event) in
        [("task_id", tr_TaskID task); ("task_run_id", tr_TaskRunID task); ("attempt_id", tr_CurrentAttemptID task)]
        ++ (if string_is_empty (re_workerID event) then [] else [("worker_id", re_workerID event)])).

Inductive log_level := LevelInfo | LevelWarn.

Definition event_log (snapshot : WorkflowRunSnapshot) (event : RunEvent) : option (log_level * string * list (string * string)) :=
  let attributes := event_attributes snapshot event in
  let type := re_Type event in
  if String.eqb type eventWorkflowStarted then Some (LevelInfo, "workflow started", attributes)
  else if String.eqb type eventTaskReady then Some (LevelInfo, "task ready", attributes)
  else if String.eqb type eventTaskStarted then Some (LevelInfo, "task started", attributes)
  else if String.eqb type eventTaskSucceeded then Some (LevelInfo, "task succeeded", attributes)
  else if String.eqb type eventTaskFailed then Some (LevelWarn, "task failed", attributes)
  else if String.eqb type eventRetryScheduled then Some (LevelWarn, "task retry scheduled", attributes)
  else if String.eqb type eventTaskCanceled then Some (LevelInfo, "task canceled", attributes)
  else if String.eqb type eventWorkflowCompleted then
    Some (LevelInfo, "workflow completed", attributes ++ [("status", workflow_status_string (snap_Status snapshot))])
  else None.

(** ** The request *)

(** [hq_path] is the escaped path without its leading slash; [hq_call] the store
    contexts, clock and audit identity of the handler, with any principal. *)
Record http_request := mkHttp {
  hq_method : string;
  hq_path : string;
  hq_authorization : string;
  hq_lastEventID : string;
  hq_ctx : context;
  hq_limiter_now : Z;
  hq_call : api_request;
  hq_random : res go_error (list Z);
  hq_request_id : res go_error (list Z);
  hq_span : option (string * string);
  hq_flusher : bool;
  hq_dependencies : option (option go_error);
  hq_duration : Z;
  hq_workflow_body : body WorkflowRequest;
  hq_project_body : body createProjectRequest;
  hq_rename_body : body string;
  hq_member_body : body putMembershipRequest;
  hq_run_body : body string
}.

(** [URL.Path]. *)
Definition url_path (hq : http_request) : string := "/" +:+ path_unescape (hq_path hq).

Definition with_principal (rq : api_request) (principal : Principal) : api_request :=
  mkRequest (rq_ctx rq) principal (rq_now rq) (rq_audit_id rq).

Section Frontend.
Context `{Unicode} `{UnicodeCase} `{UnicodeLower} `{JournalCodec}
  (marshal : payload -> option string) (parse : string -> res go_error parsed_token)
  (redirect : string -> string -> response).

(** ** Writing *)

Definition encoding_failed : string :=
  "{" +:+ dquote +:+ "error" +:+ dquote +:+ ":{" +:+ dquote +:+ "code" +:+ dquote +:+ ":" +:+ dquote +:+ "internal_error"
  +:+ dquote +:+ "," +:+ dquote +:+ "message" +:+ dquote +:+ ":" +:+ dquote +:+ "response encoding failed" +:+ dquote +:+ "}}".

Definition writeJSON (status : Z) (p : payload) : response :=
  let '(status, encoded) :=
    match marshal p with
    | Some encoded => (status, encoded)
    | None => (StatusInternalServerError, encoding_failed)
    end in
  mkResponse [("Content-Type", "application/json; charset=utf-8"); ("X-Content-Type-Options", "nosniff")]
    [CallWriteHeader status; CallWrite (encoded +:+ byte_string 10)].

Definition writeAPIError (e : api_error) : response := writeJSON (ae_status e) (PError e).

(** The answer of a handler that ends in [writeJSON]; [Allow] goes with a method
    that the route does not have. *)
Definition answer {A : Type} (allow : string) (result : res api_error A)
    (success : A -> list (string * string) * Z * payload) : response :=
  match result with
  | Ok a => let '(headers, status, p) := success a in with_headers headers (writeJSON status p)
  | Err e =>
      with_headers (if ae_status e =? StatusMethodNotAllowed then [("Allow", allow)] else []) (writeAPIError e)
  end.

Definition ok_json {A : Type} (p : A -> payload) (a : A) : list (string * string) * Z * payload := ([], StatusOK, p a).
Definition located {A : Type} (status : Z) (location : A -> string) (p : A -> payload) (a : A)
  : list (string * string) * Z * payload := ([("Location", location a)], status, p a).

(** ** Handlers without a principal *)

Definition handleMetrics (m : Metrics) (method : string) : response :=
  match requireMethod method "GET" with
  | Err e => answer "GET" (Err e) (ok_json PStatus)
  | Ok _ =>
      mkResponse [("Content-Type", "text/plain; version=0.0.4; charset=utf-8")]
        [CallWriteHeader StatusOK; CallWrite (WritePrometheus m)]
  end.

Definition handleNotFound : response :=
  writeAPIError (mkApiError StatusNotFound "route_not_found" "API route was not found" "").

(** ** Handlers of projects, with their HTTP part *)

Definition serve_projects (sv : Server) (rq : api_request) (hq : http_request) : Server * response :=
  let '(files, result) := handleProjects (sv_files sv) rq
    (try _ <- requireMethod (hq_method hq) "POST" ;; required_body (hq_project_body hq) (mkCreateProject "" "")) in
  (set_files sv files,
   answer "POST" result (located StatusCreated (fun p => "/api/v1/projects/" +:+ proj_ID p) PProject)).

Definition serve_project (sv : Server) (rq : api_request) (hq : http_request) (projectID : string) : Server * response :=
  if String.eqb (hq_method hq) "GET" then
    (sv, answer "" (handleProject_get (sv_files sv) rq projectID) (ok_json PProject))
  else if String.eqb (hq_method hq) "PATCH" then
    let '(files, result) := updateProject (sv_files sv) rq projectID (required_body (hq_rename_body hq) "") in
    (set_files sv files, answer "" result (ok_json PProject))
  else
    (sv, answer "GET, PATCH"
           (try _ <- requestProjectID projectID ;;
            Err (mkApiError StatusMethodNotAllowed "method_not_allowed" "HTTP method is not allowed for this route" ""))
           (ok_json PProject)).

Definition serve_members (sv : Server) (rq : api_request) (hq : http_request) (projectID : string) : Server * response :=
  (sv, answer "GET" (try _ <- requireMethod (hq_method hq) "GET" ;; handleProjectMembers (sv_files sv) rq projectID)
         (ok_json PMemberships)).

(** The status tells whether there was a membership. *)
Definition serve_member (sv : Server) (rq : api_request) (hq : http_request) (projectID userID : string) : Server * response :=
  match requireMethod (hq_method hq) "PUT" with
  | Err e => (sv, answer "PUT" (Err e) (ok_json PMembership))
  | Ok _ =>
      let existed := match LoadMembership (sv_files sv) (rq_ctx rq 2) projectID userID with Ok (Some _) => true | _ => false end in
      let '(files, result) := handleProjectMember (sv_files sv) rq projectID userID
        (required_body (hq_member_body hq) (mkPutMembership "" (RoleOther ""))) in
      (set_files sv files,
       answer "PUT" result (fun m => ([], if existed then StatusOK else StatusCreated, PMembership m)))
  end.

Definition serve_audit (sv : Server) (rq : api_request) (hq : http_request) (projectID : string) : Server * response :=
  (sv, answer "GET" (try _ <- requireMethod (hq_method hq) "GET" ;; handleProjectAuditEvents (sv_files sv) rq projectID)
         (ok_json PAuditEvents)).

(** ** Dispatch *)

(** The head of an event stream; the events follow as [sse_round] reads them. *)
Definition stream_head : response :=
  mkResponse [("Content-Type", "text/event-stream"); ("Cache-Control", "no-cache"); ("Connection", "keep-alive");
              ("X-Content-Type-Options", "nosniff")]
    [CallWriteHeader StatusOK; CallFlush].

Definition run_location (run : RunResponse) : string := "/api/v1/runs/" +:+ rn_ID run.

(** The handlers of the API routes. *)
Definition serve_api (sv : Server) (rq : api_request) (hq : http_request) (pattern : string) (value : string -> string)
  : Server * response * stream_start :=
  let method := hq_method hq in
  let plain (done : Server * response) : Server * response * stream_start := (fst done, snd done, None) in
  if String.eqb pattern "/api/v1/projects" then plain (serve_projects sv rq hq)
  else if String.eqb pattern "/api/v1/projects/{projectID}" then plain (serve_project sv rq hq (value "projectID"))
  else if String.eqb pattern "/api/v1/projects/{projectID}/members" then plain (serve_members sv rq hq (value "projectID"))
  else if String.eqb pattern "/api/v1/projects/{projectID}/members/{userID}"
  then plain (serve_member sv rq hq (value "projectID") (value "userID"))
  else if String.eqb pattern "/api/v1/projects/{projectID}/audit-events" then plain (serve_audit sv rq hq (value "projectID"))
  else if String.eqb pattern "/api/v1/workflows" then
    let '(sv, result) := handleWorkflows sv rq method (hq_workflow_body hq) in
    plain (sv, answer "POST" result (located StatusCreated (fun w => "/api/v1/workflows/" +:+ wf_ID w) PWorkflow))
  else if String.eqb pattern "/api/v1/workflows/{id}" then
    plain (sv, answer "GET" (handleWorkflow sv rq method (value "id")) (ok_json PWorkflow))
  else if String.eqb pattern "/api/v1/workflows/{id}/runs" then
    let '(sv, result) := handleWorkflowRuns sv rq method (value "id") (hq_run_body hq) (hq_random hq) in
    plain (sv, answer "POST" result (located StatusAccepted run_location PRun))
  else if String.eqb pattern "/api/v1/runs/{runID}" then
    plain (sv, answer "GET" (handleRun sv rq method (value "runID")) (ok_json PRun))
  else if String.eqb pattern "/api/v1/runs/{runID}/tasks" then
    plain (sv, answer "GET" (handleRunTasks sv rq method (value "runID")) (ok_json (fun '(runID, tasks) => PTasks runID tasks)))
  else if String.eqb pattern "/api/v1/runs/{runID}/cancel" then
    let '(sv, result) := handleRunCancellation sv rq method (value "runID") in
    plain (sv, answer "POST" result (fun runID => ([], StatusAccepted, PCancellation runID "cancellation_requested")))
  else if String.eqb pattern "/api/v1/runs/{runID}/retry" then
    let '(sv, result) := handleRunRetry sv rq method (value "runID") (hq_run_body hq) (hq_random hq) in
    plain (sv, answer "POST" result (located StatusAccepted run_location PRun))
  else if String.eqb pattern "/api/v1/runs/{runID}/events" then
    match handleRunEvents sv rq method (value "runID") (hq_lastEventID hq) (hq_flusher hq) with
    | (sv, Err e) => plain (sv, answer "GET" (Err e) (ok_json PStatus))
    | (sv, Ok start) => (sv, stream_head, Some start)
    end
  else plain (sv, handleNotFound).

(** [mux.ServeHTTP]. [None] is a panic of [mustPrincipal] in a handler of an API
    route. *)
Definition serve_route (sv : Server) (m : Metrics) (principal : option Principal) (hq : http_request)
  : option (Server * response * stream_start) :=
  match mux_handler (hq_method hq) (hq_path hq) with
  | (MuxRedirect path, _) => Some (sv, redirect (hq_method hq) path, None)
  | (MuxServe values, pattern) =>
      if String.eqb pattern "/healthz" then Some (sv, answer "GET" (handleHealth (hq_method hq)) (ok_json PStatus), None)
      else if String.eqb pattern "/readyz"
      then Some (sv, answer "GET" (handleReady sv (hq_method hq) (hq_dependencies hq)) (ok_json PStatus), None)
      else if String.eqb pattern "/metrics" then Some (sv, handleMetrics m (hq_method hq), None)
      else if String.eqb pattern "/" then Some (sv, handleNotFound, None)
      else
        match principal with
        | None => None
        | Some principal => Some (serve_api sv (with_principal (hq_call hq) principal) hq pattern (PathValue values))
        end
  end.

Definition front_of (hq : http_request) : front_request :=
  mkFront (url_path hq) (hq_authorization hq) (hq_ctx hq) (hq_limiter_now hq).

Definition serve_http (sv : Server) (m : Metrics) (hq : http_request) : option (Server * response * stream_start) :=
  match serveHTTP parse sv (front_of hq) with
  | (sv, Refused e headers) => Some (sv, with_headers headers (writeAPIError e), None)
  | (sv, AdmitPublic) => serve_route sv m None hq
  | (sv, AdmitPrincipal principal headers) =>
      (fun '(sv, r, stream) => (sv, with_headers headers r, stream)) <$> serve_route sv m (Some principal) hq
  end.

(** ** [ServeHTTP] *)

(** What one request leaves behind. The observed store has recorded its own metrics
    while the handler ran. *)
Record served := mkServed {
  sd_server : Server;
  sd_metrics : Metrics;
  sd_response : response;
  sd_stream : stream_start;
  sd_log : option log_record
}.

Definition optional_attribute (key value : string) : list (string * string) :=
  if string_is_empty value then [] else [(key, value)].

Definition request_attributes (hq : http_request) (route : string) (status : Z) : list (string * string) :=
  [("method", hq_method hq); ("route", normalizedRoute route); ("status", fmt_d status);
   ("duration_ms", fmt_d (Z.quot (hq_duration hq) Millisecond))]
  ++ optional_attribute "workflow_id" (routeValue route (url_path hq) "id")
  ++ optional_attribute "workflow_run_id" (routeValue route (url_path hq) "runID").

Definition ServeHTTP (sv : Server) (m : Metrics) (hq : http_request) : option served :=
  match NewRequestID (hq_request_id hq) with
  | Err _ =>
      Some (mkServed sv m
              (writeAPIError (mkApiError StatusInternalServerError "internal_error" "could not generate a request ID" ""))
              None None)
  | Ok requestID =>
      let route := snd (mux_handler (hq_method hq) (hq_path hq)) in
      match serve_http sv m hq with
      | None => None
      | Some (sv', r, stream) =>
          let status := statusCode (observeResponse (rs_calls r)) in
          let recorded := drop (length (os_metrics (sv_store sv))) (os_metrics (sv_store sv')) in
          Some (mkServed sv'
                  (HTTPRequest (record_metrics m recorded) (hq_method hq) (normalizedRoute route) status (hq_duration hq))
                  (with_headers [("X-Request-ID", requestID)] r) stream
                  (Some (Log requestID (hq_span hq) "HTTP request completed" (request_attributes hq route status))))
      end
  end.
End Frontend.
