(* ===== verification/FrontendProps.v ===== *)
(** * Guarantees of the HTTP layer

    No request without a valid token reaches an API handler, every request is counted
    once with the status its client received, and its log record names the resource
    it asked for. *)
From S2P Require Import Prelude Workflow Graph Errors Run Ids RunStep Broker Security FileStore FileStoreOps RateLimit Engine EngineStore Projects Duration Handlers Options Events Metrics Manager Dto Http Server Config Mux Frontend.

(** ** The response observer *)

Definition is_header (op : wire_op) : bool := match op with WireHeader _ => true | _ => false end.

(** What [net/http] makes of the calls it gets: the first header counts, and without
    one the status is 200. *)
Definition client_status (wire : list wire_op) : Z :=
  match List.find is_header wire with Some (WireHeader status) => status | _ => StatusOK end.

Definition call_ok (call : writer_call) : Prop := match call with CallWriteHeader status => status <> 0 | _ => True end.

(** Nothing is sent before the header, and the header is sent once. *)
Definition header_first (o : responseObserver) : Prop :=
  (ro_status o = 0 /\ ro_wire o = [])
  \/ (ro_status o <> 0 /\ exists rest, ro_wire o = WireHeader (ro_status o) :: rest /\ forallb (negb ∘ is_header) rest = true).

Lemma observer_call_first (o : responseObserver) (call : writer_call) :
  call_ok call -> header_first o -> header_first (observer_call o call).
Proof.
  destruct o as [status wire]. intros Hok [[Hs Hw]|(Hs & rest & Hw & Hr)]; cbn in *; subst; right.
  - destruct call as [st|b|]; unfold observer_call, observer_WriteHeader, observer_Write, observer_Flush; cbn;
      (split; [done|]); eexists; (split; [reflexivity|done]).
  - apply Z.eqb_neq in Hs as Hs'. destruct call as [st|b|]; unfold observer_call, observer_WriteHeader, observer_Write,
      observer_Flush; cbn [ro_status ro_wire]; rewrite Hs'; cbn [negb ro_status ro_wire]; (split; [done|]);
      eexists; (split; [reflexivity|]); rewrite ?forallb_app, ?Hr; done.
Qed.

Lemma observer_exact (calls : list writer_call) :
  Forall call_ok calls ->
  header_first (observeResponse calls) /\ statusCode (observeResponse calls) = client_status (ro_wire (observeResponse calls)).
Proof.
  intros Hok. assert (header_first (observeResponse calls)) as Hf.
  { unfold observeResponse. assert (header_first (mkObserver 0 [])) as Hinit by by left.
    revert Hinit. generalize (mkObserver 0 []). induction Hok as [|call calls Hc _ IH]; intros o Ho; cbn [foldl]; [done|].
    apply IH. by apply observer_call_first. }
  split; [done|]. unfold statusCode, client_status. destruct Hf as [[-> ->]|(Hs & rest & -> & _)]; [done|].
  apply Z.eqb_neq in Hs. by rewrite Hs.
Qed.

(** ** Routing *)

Section Frontend.
Context `{Unicode} `{UnicodeCase} `{UnicodeLower} `{JournalCodec}
  (marshal : payload -> option string) (parse : string -> res go_error parsed_token)
  (redirect : string -> string -> response).

Lemma mux_handler_route (method path : string) :
  snd (mux_handler method path) = "/" \/ snd (mux_handler method path) ∈ route_patterns.
Proof.
  unfold mux_handler. pose proof (first_match_cases route_patterns
    (segments (if String.eqb method "CONNECT" then path else clean_path path))) as Hc.
  destruct (first_match _ _) as [pattern values]. destruct (String.eqb _ path); destruct Hc as [(-> & _)|(Hin & _)]; auto.
Qed.

(** A path that is served is matched as it is. *)
Lemma mux_handler_serves (method path pattern : string) (values : list (string * string)) :
  mux_handler method path = (MuxServe values, pattern) ->
  pattern = "/" \/ (pattern ∈ route_patterns /\ match_segments (pattern_segments pattern) (segments path) = Some values).
Proof.
  unfold mux_handler. set (clean := if String.eqb method "CONNECT" then path else clean_path path).
  pose proof (first_match_cases route_patterns (segments clean)) as Hc.
  destruct (first_match route_patterns (segments clean)) as [p v].
  destruct (String.eqb_spec clean path) as [Hcl|]; [|done]. intros [= <- <-]. rewrite Hcl in Hc.
  destruct Hc as [(-> & _)|Hc]; auto.
Qed.

(** The routes that are not the API's. *)
Definition public_pattern (pattern : string) : bool :=
  existsb (String.eqb pattern) ["/healthz"; "/readyz"; "/metrics"; "/"].

Lemma patterns_public_or_api : forallb (fun p => public_pattern p || api_pattern p) route_patterns = true.
Proof. vm_compute. reflexivity. Qed.

Lemma serve_route_public (sv : Server) (m : Metrics) (hq : http_request) :
  match mux_handler (hq_method hq) (hq_path hq) with
  | (MuxServe _, pattern) => public_pattern pattern = true
  | (MuxRedirect _, _) => True
  end -> exists r, forall principal, serve_route marshal redirect sv m principal hq = Some (sv, r, None).
Proof.
  unfold serve_route. destruct (mux_handler _ _) as [[values|path] pattern]; [|eauto].
  unfold public_pattern. cbn [existsb].
  do 4 (destruct (String.eqb pattern _); [eauto|]). done.
Qed.

(** An API route is reached through an API path. *)
Lemma served_api_path (hq : http_request) (decoded pattern : string) (values : list (string * string)) :
  PathUnescape (hq_path hq) = Some decoded -> mux_handler (hq_method hq) (hq_path hq) = (MuxServe values, pattern) ->
  public_pattern pattern = false -> api_path (url_path hq) = true.
Proof.
  intros Hd Hmux Hp. apply mux_handler_serves in Hmux as [->|[Hin Hm]]; [done|].
  pose proof patterns_public_or_api as Ha. rewrite forallb_forall in Ha.
  specialize (Ha pattern (proj1 (list_elem_of_In _ _) Hin)). rewrite Hp in Ha.
  unfold url_path. rewrite (path_unescape_some _ _ Hd). by eapply api_route_path.
Qed.

(** Authentication in front of the mux. *)
Lemma serveHTTP_public (sv : Server) (fr : front_request) :
  api_path (fr_path fr) = false -> serveHTTP parse sv fr = (sv, AdmitPublic).
Proof. unfold serveHTTP. by intros ->. Qed.

Lemma serveHTTP_api (sv : Server) (fr : front_request) :
  api_path (fr_path fr) = true ->
  (exists sv' e headers, serveHTTP parse sv fr = (sv', Refused e headers))
  \/ (exists sv' principal headers, serveHTTP parse sv fr = (sv', AdmitPrincipal principal headers)).
Proof.
  unfold serveHTTP. intros ->. destruct (Authenticate _ _ _) as [principal|e]; [|left; eauto].
  destruct (Allow _ _ _) as [limiter decision]. destruct (rd_Allowed decision); cbn [negb]; [right|left]; eauto.
Qed.

Lemma serve_http_total (sv : Server) (m : Metrics) (hq : http_request) (decoded : string) :
  PathUnescape (hq_path hq) = Some decoded -> exists done, serve_http marshal parse redirect sv m hq = Some done.
Proof.
  intros Hd. unfold serve_http. destruct (api_path (fr_path (front_of hq))) eqn:Hapi.
  - destruct (serveHTTP_api sv (front_of hq) Hapi) as [(sv' & e & headers & ->)|(sv' & principal & headers & ->)]; [eauto|].
    unfold serve_route. destruct (mux_handler _ _) as [[values|path] pattern]; cbn; [|eauto].
    repeat (destruct (String.eqb pattern _); [cbn; eauto|]). destruct (serve_api _ _ _ _ _ _) as [[sv2 r] st]. cbn. eauto.
  - rewrite serveHTTP_public by done. destruct (serve_route_public sv m hq) as [r Hr]; [|rewrite Hr; eauto].
    destruct (mux_handler _ _) as [[values|path] pattern] eqn:Hmux; [|done].
    destruct (public_pattern pattern) eqn:Hp; [done|].
    change (api_path (url_path hq) = false) in Hapi. by rewrite (served_api_path _ _ _ _ Hd Hmux Hp) in Hapi.
Qed.

(** A response with a [401] and nothing done. *)
Definition unauthenticated : response :=
  with_headers [("WWW-Authenticate", "Bearer realm=" +:+ dquote +:+ "forgeflow" +:+ dquote)]
    (writeAPIError marshal (mkApiError StatusUnauthorized "unauthenticated" "a valid bearer token is required" "")).

(** C16: No request reaches an API handler without a principal. Every request with a
    well-formed path is answered: the panic of [mustPrincipal] is never reached. A
    request whose token does not authenticate changes nothing in the server, not even
    the rate limiter, and starts no event stream; and when the mux would serve its
    path by a route of the API, whatever the escapes in the path, it is answered with
    [401]. *)
Theorem api_routes_authenticated (sv : Server) (m : Metrics) (hq : http_request) (decoded : string) (e : go_error) :
  PathUnescape (hq_path hq) = Some decoded ->
  (exists done, ServeHTTP marshal parse redirect sv m hq = Some done)
  /\ (Authenticate parse (hq_ctx hq) (bearerToken (hq_authorization hq)) = Err e ->
      forall done, ServeHTTP marshal parse redirect sv m hq = Some done ->
        sd_server done = sv /\ sd_stream done = None
        /\ forall values pattern requestID,
             mux_handler (hq_method hq) (hq_path hq) = (MuxServe values, pattern) -> public_pattern pattern = false ->
             NewRequestID (hq_request_id hq) = Ok requestID ->
             sd_response done = with_headers [("X-Request-ID", requestID)] unauthenticated).
Proof.
  intros Hd. unfold ServeHTTP. split.
  { destruct (NewRequestID _); [|eauto]. destruct (serve_http_total sv m hq decoded Hd) as [[[sv' r] st] ->]. eauto. }
  intros Hauth served. destruct (NewRequestID (hq_request_id hq)) as [requestID|]; [|by intros [= <-]; split_and!].
  unfold serve_http. destruct (api_path (url_path hq)) eqn:Hapi.
  - assert (serveHTTP parse sv (front_of hq) = (sv, Refused (mkApiError StatusUnauthorized "unauthenticated"
      "a valid bearer token is required" "") [("WWW-Authenticate", "Bearer realm=" +:+ dquote +:+ "forgeflow" +:+ dquote)])) as ->.
    { unfold serveHTTP, front_of. cbn [fr_path fr_ctx fr_authorization]. by rewrite Hapi, Hauth. }
    intros [= <-]. split_and!; [done..|]. by intros values pattern id _ _ [= <-].
  - rewrite serveHTTP_public by done. intros Hs.
    assert (forall values pattern, mux_handler (hq_method hq) (hq_path hq) = (MuxServe values, pattern) ->
      public_pattern pattern = true) as Hpub.
    { intros values pattern Hmux. destruct (public_pattern pattern) eqn:Hp; [done|].
      by rewrite (served_api_path _ _ _ _ Hd Hmux Hp) in Hapi. }
    destruct (serve_route_public sv m hq) as [r Hr].
    { destruct (mux_handler _ _) as [[values|path] pattern]; [by eapply Hpub|done]. }
    rewrite Hr in Hs. injection Hs as <-. split_and!; [done..|].
    intros values pattern id Hmux Hp. by rewrite (Hpub _ _ Hmux) in Hp.
Qed.

(** ** Accounting *)

Lemma record_metrics_http (m : Metrics) (xs : list metric) : m_httpRequests (record_metrics m xs) = m_httpRequests m.
Proof.
  unfold record_metrics. revert m. induction xs as [|x xs IH]; intros m; cbn [foldl]; [done|]. rewrite IH.
  by destruct x.
Qed.

Lemma normalized_route (method path : string) :
  normalizedRoute (snd (mux_handler method path)) = snd (mux_handler method path)
  /\ (snd (mux_handler method path) = "/" \/ snd (mux_handler method path) ∈ route_patterns).
Proof.
  destruct (mux_handler_route method path) as [->|Hin]; [by auto|]. split; [|by right].
  assert (forallb (fun p => String.eqb (normalizedRoute p) p) route_patterns = true) as Hn by (vm_compute; reflexivity).
  rewrite forallb_forall in Hn. by apply String.eqb_eq, Hn, list_elem_of_In.
Qed.

(** C30: A request that has an identity is counted exactly once, under its method, the
    pattern of its route - one of the registered ones, so that paths cannot make up
    labels - and the status that the observer has seen; no other request count changes.
    That status is the one the client received if the handler passes no zero to
    [WriteHeader]. The log record has the identity that the client gets in
    [X-Request-ID]. If the decoded segments of the path are not empty and hold no slash,
    the workflow or run that it names is the one the handler was given. *)
Theorem request_accounted (sv : Server) (m : Metrics) (hq : http_request) (decoded requestID : string) (d : served) :
  PathUnescape (hq_path hq) = Some decoded -> NewRequestID (hq_request_id hq) = Ok requestID ->
  ServeHTTP marshal parse redirect sv m hq = Some d ->
  let route := snd (mux_handler (hq_method hq) (hq_path hq)) in
  let status := statusCode (observeResponse (rs_calls (sd_response d))) in
  (route = "/" \/ route ∈ route_patterns)
  /\ m_httpRequests (sd_metrics d) = count_key (mkHttpKey (hq_method hq) route status) (m_httpRequests m)
  /\ (Forall call_ok (rs_calls (sd_response d)) ->
      status = client_status (ro_wire (observeResponse (rs_calls (sd_response d)))))
  /\ ("X-Request-ID", requestID) ∈ rs_headers (sd_response d)
  /\ sd_log d = Some (Log requestID (hq_span hq) "HTTP request completed" (request_attributes hq route status))
  /\ (forall values name, mux_handler (hq_method hq) (hq_path hq) = (MuxServe values, route) -> route <> "/" ->
        forallb plain_segment (map path_unescape (segments (hq_path hq))) = true ->
        routeValue route (url_path hq) name = PathValue values name).
Proof.
  intros Hd Hid Hs route status. unfold ServeHTTP in Hs. rewrite Hid in Hs.
  destruct (serve_http marshal parse redirect sv m hq) as [[[sv' r] st]|]; [|done]. injection Hs as <-.
  unfold status. cbn [sd_response sd_metrics sd_log with_headers rs_calls rs_headers]. clear status.
  destruct (normalized_route (hq_method hq) (hq_path hq)) as [Hn Hr].
  split_and!; [done|..].
  - unfold HTTPRequest. cbn [m_httpRequests]. rewrite record_metrics_http, Hn. fold route.
    destruct (string_is_empty route) eqn:He; [|done]. fold route in Hn. unfold normalizedRoute in Hn.
    rewrite He in Hn. by rewrite <- Hn in He.
  - apply observer_exact.
  - by left.
  - done.
  - intros values name Hmux Hne Hplain. apply mux_handler_serves in Hmux as [?|[Hin Hm]]; [done|].
    unfold url_path. rewrite (path_unescape_some _ _ Hd). by eapply routeValue_PathValue.
Qed.
End Frontend.

(** ** Log records *)

(** A snapshot without what its tasks produced. *)
Definition without_results (snapshot : WorkflowRunSnapshot) : WorkflowRunSnapshot :=
  let forget task := mkTaskRun (tr_TaskID task) (tr_TaskRunID task) (tr_Status task) "" "" (tr_AttemptCount task)
    (tr_CurrentAttemptID task) (tr_NextAttemptAt task) (tr_Lease task) (tr_UpdatedAt task) (tr_StartedAt task)
    (tr_FinishedAt task) in
  mkSnapshot (snap_ID snapshot) (snap_WorkflowID snapshot) (snap_Version snapshot) (snap_Status snapshot)
    (snap_CreatedAt snapshot) (snap_UpdatedAt snapshot) (map forget (snap_Tasks snapshot)) (snap_Workers snapshot).

Lemma tasks_by_id_map (f : TaskRun -> TaskRun) (tasks : list TaskRun) :
  (forall task, tr_TaskID (f task) = tr_TaskID task) -> tasks_by_id (map f tasks) = f <$> tasks_by_id tasks.
Proof.
  intros Hf. unfold tasks_by_id.
  assert (forall m : gmap string TaskRun, foldl (fun m task => <[tr_TaskID task := task]> m) (f <$> m) (map f tasks)
    = f <$> foldl (fun m task => <[tr_TaskID task := task]> m) m tasks) as Hm; [|by rewrite <- Hm, fmap_empty].
  induction tasks as [|task tasks IH]; intros m; cbn [map foldl]; [done|]. by rewrite <- IH, Hf, fmap_insert.
Qed.

(** The log tells nothing of what tasks produce: the records of an event are the same
    whatever the outputs and errors of the tasks are. *)
Theorem log_independent_of_results (snapshot : WorkflowRunSnapshot) (event : RunEvent) :
  event_log (without_results snapshot) event = event_log snapshot event.
Proof.
  assert (event_attributes (without_results snapshot) event = event_attributes snapshot event) as Ha.
  { unfold event_attributes, without_results. cbn [snap_WorkflowID snap_ID snap_Tasks].
    rewrite tasks_by_id_map by done. rewrite lookup_fmap. by destruct (tasks_by_id (snap_Tasks snapshot) !! re_TaskID event). }
  unfold event_log. by rewrite Ha.
Qed.
