(* ===== verification/Tracing.v ===== *)
(** * Tracing

    Models the bundle of [src/internal/observability/instrumentation.go], the request
    identity of [src/internal/observability/context.go], and the spans with the values
    that contexts carry between them: of a request in [src/internal/api/server.go], of
    the calls of the observed store in [src/internal/api/events.go], and of a run, its
    publications and its workers in [src/internal/execution/engine.go] and
    [src/internal/execution/engine_broker.go].

    OpenTelemetry is third-party code: a tracer provider and a propagator are
    arguments, with what their documentation promises as the classes [Continues] and
    [Carries]. *)
From S2P Require Import Prelude Workflow Errors Graph Run Ids RunStep Security FileStore FileStoreOps RateLimit Broker BrokerProps Engine EngineStore Projects Duration Handlers Options Events Metrics Manager Dto Http Server Config Mux Frontend.

(** ** Contexts and spans *)

(** The trace and span identifiers of a valid span context. *)
Definition spanContext : Type := string * string.

(** What [context.Value] finds in a context. [WithCancel], [WithoutCancel] and
    [WithTimeout] keep it. *)
Record values := mkValues {
  vl_requestID : string;
  vl_span : option spanContext;
  vl_baggage : list (string * string)
}.

Definition Background : values := mkValues "" None [].

Definition WithRequestID (v : values) (requestID : string) : values := mkValues requestID (vl_span v) (vl_baggage v).
Definition RequestID (v : values) : string := vl_requestID v.
Definition ContextWithSpan (v : values) (sc : option spanContext) : values := mkValues (vl_requestID v) sc (vl_baggage v).

Inductive span_kind := SpanKindInternal | SpanKindServer | SpanKindClient | SpanKindProducer | SpanKindConsumer.

Record span := mkSpan {
  sp_name : string;
  sp_kind : span_kind;
  sp_parent : option spanContext;
  sp_context : option spanContext;
  sp_attributes : list (string * string);
  sp_status : option string
}.

Definition SetName (s : span) (name : string) : span :=
  mkSpan name (sp_kind s) (sp_parent s) (sp_context s) (sp_attributes s) (sp_status s).
Definition SetStatus (s : span) (description : string) : span :=
  mkSpan (sp_name s) (sp_kind s) (sp_parent s) (sp_context s) (sp_attributes s) (Some description).
Definition SetAttributes (s : span) (attributes : list (string * string)) : span :=
  mkSpan (sp_name s) (sp_kind s) (sp_parent s) (sp_context s) (sp_attributes s ++ attributes) (sp_status s).

(** ** The bundle *)

(** The context of the next span, from the spans started so far and the parent. *)
Definition provider : Type := list span -> option spanContext -> option spanContext.

Record propagator := mkPropagator {
  Inject : values -> gmap string string -> gmap string string;
  Extract : values -> gmap string string -> values
}.

(** A logger is what it writes of a record. *)
Definition logger : Type := log_record -> list log_record.
Definition discard : logger := fun _ => [].

Record Instrumentation := mkInstrumentation {
  in_logger : logger;
  in_metrics : Metrics;
  in_provider : provider;
  in_propagator : propagator
}.

(** [noop] is the provider of OpenTelemetry that records nothing, and [w3c] its
    composite of [TraceContext] and [Baggage]. *)
Definition NewInstrumentation (noop : provider) (w3c : propagator) (log : option logger) (metrics : option Metrics)
    (p : option provider) (pr : option propagator) : Instrumentation :=
  mkInstrumentation (default discard log) (default NewMetrics metrics) (default noop p) (default w3c pr).

Definition NewNoopInstrumentation (noop : provider) (w3c : propagator) : Instrumentation :=
  NewInstrumentation noop w3c None None None None.

Section Spans.
Context `{Unicode} `{DispatchCodec} (i : Instrumentation).

(** [Tracer(name).Start]: the context with the new span, and the span. *)
Definition Start (started : list span) (v : values) (name : string) (kind : span_kind) (attributes : list (string * string))
  : values * span :=
  let sc := in_provider i started (vl_span v) in
  (ContextWithSpan v sc, mkSpan name kind (vl_span v) sc attributes None).

(** [Instrumentation.Log] in a context. *)
Definition Instrumentation_Log (v : values) (message : string) (attributes : list (string * string)) : list log_record :=
  in_logger i (Log (RequestID v) (vl_span v) message attributes).

(** ** A request *)

(** The head of [ServeHTTP]; [headers] are those of the request. *)
Definition request_span (started : list span) (base : values) (headers : gmap string string) (requestID method path : string)
  : values * span :=
  let v := Extract (in_propagator i) base headers in
  Start started (WithRequestID v requestID) "forgeflow.http.request" SpanKindServer
    [("http.request.method", method); ("url.path", path); ("forgeflow.request.id", requestID)].

(** What the deferred function sets before it ends the span. *)
Definition request_span_end (s : span) (method route : string) (status : Z) : span :=
  let s := SetName s (method +:+ " " +:+ normalizedRoute route) in
  let s := SetAttributes s [("http.route", normalizedRoute route); ("http.response.status_code", fmt_d status)] in
  if StatusInternalServerError <=? status then SetStatus s "HTTP server error" else s.

(** ** The observed store *)

Definition startPersistenceSpan (started : list span) (v : values) (operation : string)
    (attributes : list (string * string)) : values * span :=
  Start started v ("forgeflow.persistence." +:+ operation) SpanKindClient attributes.

Definition markPersistenceError {A : Type} (s : span) (r : res go_error A) : span :=
  match r with Ok _ => s | Err _ => SetStatus s "persistence operation failed" end.

Definition workflow_attribute (workflowID : string) : string * string := ("forgeflow.workflow.id", workflowID).
Definition run_attribute (runID : string) : string * string := ("forgeflow.workflow_run.id", runID).

Section Store.
Context {St : Type} `{Store St}.

(** Each call of the store with the span it ends and the records it logs. *)
Definition traced_SaveWorkflow (started : list span) (v : values) (s : observedStore St) (ctx : context)
    (definition : WorkflowDefinition) : observedStore St * res go_error unit * span :=
  let '(v, sp) := startPersistenceSpan started v "save_workflow" [workflow_attribute (wd_ID definition)] in
  let '(s, r) := observed_SaveWorkflow s ctx definition in
  (s, r, markPersistenceError sp r).

Definition traced_LoadWorkflow (started : list span) (v : values) (s : observedStore St) (ctx : context)
    (workflowID : string) : res go_error (option WorkflowDefinition) * span :=
  let '(v, sp) := startPersistenceSpan started v "load_workflow" [workflow_attribute workflowID] in
  let r := store_LoadWorkflow (os_delegate s) ctx workflowID in
  (r, markPersistenceError sp r).

Definition traced_CreateRun (started : list span) (v : values) (s : observedStore St) (ctx : context)
    (snapshot : WorkflowRunSnapshot)
  : observedStore St * res go_error WorkflowRunSnapshot * span * list log_record :=
  let '(v, sp) := startPersistenceSpan started v "create_run"
    [workflow_attribute (snap_WorkflowID snapshot); run_attribute (snap_ID snapshot)] in
  let '(s', r) := observed_CreateRun s ctx snapshot in
  (s', r, markPersistenceError sp r,
   match r with
   | Ok stored => Instrumentation_Log v "workflow submitted"
                    [("workflow_id", snap_WorkflowID stored); ("workflow_run_id", snap_ID stored)]
   | Err _ => []
   end).

(** The records of [recordRunEvents]. *)
Definition log_run_events (v : values) (snapshot : WorkflowRunSnapshot) (events : list RunEvent) : list log_record :=
  mjoin ((fun event => match event_log snapshot event with
                       | Some (_, message, attributes) => Instrumentation_Log v message attributes
                       | None => []
                       end) <$> events).

Definition traced_SaveRun (started : list span) (v : values) (s : observedStore St) (ctx : context)
    (snapshot : WorkflowRunSnapshot)
  : observedStore St * res go_error WorkflowRunSnapshot * span * list log_record :=
  let '(v, sp) := startPersistenceSpan started v "save_run"
    [workflow_attribute (snap_WorkflowID snapshot); run_attribute (snap_ID snapshot)] in
  let '(s', r) := observed_SaveRun s ctx snapshot in
  (s', r, markPersistenceError sp r,
   match r with
   | Ok stored => log_run_events v stored (snd (observe (os_broker s) stored))
   | Err _ => []
   end).

Definition traced_LoadRun (started : list span) (v : values) (s : observedStore St) (ctx : context) (runID : string)
  : res go_error (option WorkflowRunSnapshot) * span :=
  let '(v, sp) := startPersistenceSpan started v "load_run" [run_attribute runID] in
  let r := store_LoadRun (os_delegate s) ctx runID in
  let sp := markPersistenceError sp r in
  (r, match r with Ok (Some snapshot) => SetAttributes sp [workflow_attribute (snap_WorkflowID snapshot)] | _ => sp end).
End Store.

(** ** A run *)

Definition execute_span (started : list span) (v : values) (workflowID runID : string) : values * span :=
  Start started v "forgeflow.scheduler.execute" SpanKindInternal [workflow_attribute workflowID; run_attribute runID].

(** The context is that of [runManager.start], which keeps the values of the request. *)
Definition recover_span (started : list span) (v : values) (runID : string) : values * span :=
  Start started v "forgeflow.scheduler.recover" SpanKindInternal [run_attribute runID].

Definition scheduler_span_end (s : span) (description : string) (resultErr : option go_error) : span :=
  match resultErr with Some _ => SetStatus s description | None => s end.

Definition task_attributes (taskID taskRunID : string) : list (string * string) :=
  [("forgeflow.task.id", taskID); ("forgeflow.task_run.id", taskRunID)].

Definition publish_span (started : list span) (v : values) (workflowID : string) (dispatch : taskDispatch) : values * span :=
  Start started v "forgeflow.broker.publish" SpanKindProducer
    ([("messaging.system", "forgeflow"); ("messaging.destination.name", taskTopic (dis_RunID dispatch));
      ("messaging.message.id", dis_AttemptID dispatch); workflow_attribute workflowID; run_attribute (dis_RunID dispatch)]
     ++ task_attributes (dis_TaskID dispatch) (dis_TaskRunID dispatch)).

(** The headers of the message, from the context of its publication. *)
Definition message_headers (started : list span) (v : values) (workflowID : string) (dispatch : taskDispatch)
  : gmap string string :=
  Inject (in_propagator i) (fst (publish_span started v workflowID dispatch)) ∅.

(** ** A worker *)

Definition receive_span (started : list span) (v : values) (topic workflowID runID workerID : string) : values * span :=
  Start started v "forgeflow.broker.receive" SpanKindConsumer
    [("messaging.system", "forgeflow"); ("messaging.destination.name", topic); workflow_attribute workflowID;
     run_attribute runID; ("forgeflow.worker.id", workerID)].

Definition receive_span_end (s : span) (result : res go_error memoryDelivery) (stopped : bool) : span :=
  match result with
  | Err err =>
      if stopped || chain_contains (fun e => match e with ErrContextCanceled => true | _ => false end) err
      then s else SetStatus s "task receipt failed"
  | Ok d => SetAttributes s [("messaging.message.id", msg_ID (md_message d));
                             ("messaging.message.delivery_count", fmt_d (md_count d))]
  end.

(** The context of the job that the scheduler hands to a worker. *)
Definition job_values (v : values) (message : TaskMessage) : values := Extract (in_propagator i) v (msg_Headers message).

Definition worker_span (started : list span) (v : values) (workflowID runID taskID taskRunID attemptID workerID : string)
  : values * span :=
  Start started v "forgeflow.worker.execute" SpanKindConsumer
    ([workflow_attribute workflowID; run_attribute runID] ++ task_attributes taskID taskRunID
     ++ [("forgeflow.attempt.id", attemptID); ("forgeflow.worker.id", workerID)]).

Definition worker_span_end (s : span) (err : option go_error) : span :=
  match err with Some _ => SetStatus s "task execution failed" | None => s end.

(** The context in which the scheduler saves a result. *)
Definition completion_values (durability : values) (result : option values) : values := default durability result.

(** ** The way of a context *)

(** [runManager.start] detaches the cancellation of the request and keeps its values. *)
Definition start_values (parent : values) : values := parent.

(** One task of [publishReadyTasks] in the context [v], with the span of its
    publication. *)
Definition traced_publish {St : Type} (started : list span) (v : values) (workflowID : string) (ctx : context)
    (taskID : string) (st : scheduler St) : outcome St (option go_error) * option span :=
  match run_tasks (sc_run st) !! taskID with
  | None => (publish_task (fun _ => ∅) ctx taskID st, None)
  | Some task =>
      let attemptID := AttemptIDFor (tr_TaskRunID task) (wrap_int64 (tr_AttemptCount task + 1)) in
      let dispatch := mkTaskDispatch (run_id (sc_run st)) taskID (tr_TaskRunID task) attemptID in
      (publish_task (fun _ => message_headers started v workflowID dispatch) ctx taskID st,
       Some (snd (publish_span started v workflowID dispatch)))
  end.

(** From a request to the publication of a task: [ServeHTTP] serves the request in the
    context of its span, the handler starts the run in it, [Recover] goes on in the
    context of its own span, and [publishReadyTasks] publishes in that. [started n] are
    the spans that were started before the [n]-th of these. *)
Definition submit_and_publish {St : Type} (started : nat -> list span) (base : values) (headers : gmap string string)
    (requestID method path runID workflowID : string) (ctx : context) (taskID : string) (st : scheduler St)
  : span * span * option span * outcome St (option go_error) :=
  let '(v, request) := request_span (started 0%nat) base headers requestID method path in
  let '(v, recovery) := recover_span (started 1%nat) (start_values v) runID in
  let '(result, publication) := traced_publish (started 2%nat) v workflowID ctx taskID st in
  (request, recovery, publication, result).

(** From a delivery to the save of its result, in a scheduler whose context is [v]: the
    job has the context that the message carries, the worker executes it in a span, and
    the scheduler saves the result in the context of that. *)
Definition execute_and_save {St : Type} `{Store St} (started : nat -> list span) (v : values) (d : memoryDelivery)
    (workflowID runID taskID taskRunID attemptID workerID : string) (s : observedStore St) (ctx : context)
    (snapshot : WorkflowRunSnapshot)
  : span * (observedStore St * res go_error WorkflowRunSnapshot * span * list log_record) :=
  let '(taskv, execution) :=
    worker_span (started 0%nat) (job_values v (md_message d)) workflowID runID taskID taskRunID attemptID workerID in
  (execution, traced_SaveRun (started 1%nat) (completion_values v (Some taskv)) s ctx snapshot).
End Spans.

(** ** What OpenTelemetry promises *)

(** A span that is started below another one belongs to its trace. *)
Class Continues (p : provider) : Prop :=
  continues : forall started t s, exists s', p started (Some (t, s)) = Some (t, s').

(** An injected span context is the one that is extracted again, and extraction
    changes no other value of a context. *)
Class Carries (pr : propagator) : Prop := {
  carries_span v v' sc : vl_span v = Some sc -> vl_span (Extract pr v' (Inject pr v ∅)) = Some sc;
  carries_request v headers : vl_requestID (Extract pr v headers) = vl_requestID v
}.

Definition in_trace (t : string) (s : span) : Prop := exists id, sp_context s = Some (t, id).

(** [s] is a child of [parent], in the same trace. *)
Definition child_of (t : string) (parent s : span) : Prop := sp_parent s = sp_context parent /\ in_trace t parent /\ in_trace t s.

Section Guarantees.
Context `{Unicode} `{DispatchCodec} (i : Instrumentation) `{!Continues (in_provider i)} `{!Carries (in_propagator i)}.

Lemma Start_child started v name kind attributes t id v' s :
  vl_span v = Some (t, id) -> Start i started v name kind attributes = (v', s) ->
  sp_parent s = vl_span v /\ vl_span v' = sp_context s /\ vl_requestID v' = vl_requestID v /\
  exists id', vl_span v' = Some (t, id').
Proof. intros Hv [= <- <-]. cbn. split_and!; [done..|]. rewrite Hv. apply continues. Qed.

Lemma Start_below started v name kind attributes t parent v' s :
  vl_span v = sp_context parent -> in_trace t parent -> Start i started v name kind attributes = (v', s) ->
  child_of t parent s /\ vl_span v' = sp_context s /\ vl_requestID v' = vl_requestID v.
Proof.
  intros Hv [id Hp] Hs. rewrite Hp in Hv. destruct (Start_child _ _ _ _ _ _ _ _ _ Hv Hs) as (H1 & H2 & H3 & id' & H4).
  split; [|done]. split; [congruence|]. split; [by exists id|]. exists id'. congruence.
Qed.

(** ** Messages keep their first headers *)

Lemma published_kept (b b' : InMemoryBroker) id m :
  rtc broker_step b b' -> mb_messages b !! id = Some m -> mb_messages b' !! id = Some m.
Proof.
  induction 1 as [|b1 b2 b3 Hs _ IH]; [done|]. intros Hm. apply IH. clear IH.
  destruct Hs as [ctx m' ? HP|ctx sub ? r _ HR|ctx d ? _ HA|ctx d ? _ HN|].
  - unfold Publish in HP. destruct (contextError ctx); [done|]. rewrite rbind_ok in HP. destruct HP as (_ & _ & HP).
    rewrite guard_err_ok in HP. destruct HP as [_ HP]. destruct (mb_messages b1 !! msg_ID m') eqn:E.
    { destruct (_ && _); by simplify_eq. }
    simplify_eq. cbn. rewrite lookup_insert_ne; [done|congruence].
  - apply Receive_ok in HR. cbn zeta in HR. unfold subscriptionLocked in HR.
    destruct (mb_subscriptions b1 !! _); destruct (ms_queued _); by destruct HR as [-> _].
  - unfold Ack in HA. rewrite rbind_ok in HA. by destruct HA as (? & _ & [= <-]).
  - unfold Nack in HN. rewrite rbind_ok in HN. by destruct HN as (? & _ & [= <-]).
  - unfold Close. by destruct (mb_closed b1).
Qed.

Lemma published_first (b b1 b2 b3 : InMemoryBroker) ctx ctx' m sub d :
  broker_inv b -> mb_messages b !! msg_ID m = None -> Publish b ctx m = Ok b1 -> rtc broker_step b1 b2 ->
  Receive b2 ctx' sub = Ok (b3, Delivered d) -> msg_ID (md_message d) = msg_ID m -> md_message d = m.
Proof.
  intros Hi Hm HP Hs HR Hd. assert (Hi1 : broker_inv b1) by by eapply broker_inv_publish.
  destruct (Receive_delivered b2 b3 ctx' sub d) as (_ & _ & id & _ & _ & _ & _ & Hid & Hd' & _); [|done|].
  { by eapply broker_inv_steps. }
  assert (Hm1 : mb_messages b1 !! msg_ID m = Some m).
  { unfold Publish in HP. destruct (contextError ctx); [done|]. rewrite rbind_ok in HP. destruct HP as (_ & _ & HP).
    rewrite guard_err_ok, Hm in HP. destruct HP as [_ [= <-]]. cbn. apply lookup_insert_eq. }
  apply (published_kept _ _ _ _ Hs) in Hm1. congruence.
Qed.

(** ** A task *)

(** Every record that the save of a result logs has the request and the trace of its
    context. *)
Lemma log_run_events_correlated v snapshot events t id r :
  vl_span v = Some (t, id) -> vl_requestID v <> "" -> (forall x, in_logger i x = [x]) ->
  r ∈ log_run_events i v snapshot events ->
  ("request_id", vl_requestID v) ∈ lg_attributes r /\ ("trace_id", t) ∈ lg_attributes r /\ ("span_id", id) ∈ lg_attributes r.
Proof.
  intros Hv Hr Hl. unfold log_run_events. rewrite list_elem_of_join. intros (l & Hin & Hl').
  apply list_elem_of_fmap in Hl' as (event & -> & _). destruct (event_log snapshot event) as [[[level m] attributes]|]; [|set_solver].
  unfold Instrumentation_Log in Hin. rewrite Hl in Hin. apply list_elem_of_singleton in Hin as ->.
  unfold Log, CorrelationAttributes, RequestID. cbn [lg_attributes]. rewrite Hv.
  destruct (vl_requestID v) eqn:E; [done|]. cbn [string_is_empty]. set_solver.
Qed.

Context {St : Type} `{Store St}.

(** The save of a result in the context of its execution. *)
Lemma save_correlated started taskv task_span s ctx_save snapshot s' stored save_span records t :
  vl_span taskv = sp_context task_span -> in_trace t task_span -> (forall x, in_logger i x = [x]) ->
  vl_requestID taskv <> "" ->
  traced_SaveRun i started taskv s ctx_save snapshot = (s', Ok stored, save_span, records) ->
  child_of t task_span save_span /\
  forall r, r ∈ records ->
    ("request_id", vl_requestID taskv) ∈ lg_attributes r /\ ("trace_id", t) ∈ lg_attributes r /\
    exists span_id, sp_context save_span = Some (t, span_id) /\ ("span_id", span_id) ∈ lg_attributes r.
Proof.
  intros V3 Ht Hlog Hrid Hsave. unfold traced_SaveRun in Hsave. destruct (startPersistenceSpan _ _ _ _ _) as [vp sp] eqn:Hsp.
  destruct (Start_below _ _ _ _ _ t task_span _ _ V3 Ht Hsp) as (C4 & V4 & R4).
  destruct (observed_SaveRun s ctx_save snapshot) as [s1 r1]. injection Hsave as <- -> <- <-. cbn [markPersistenceError].
  split; [done|]. intros r Hr. destruct (proj2 (proj2 C4)) as [sid Hsid].
  destruct (log_run_events_correlated vp stored _ t sid r ltac:(congruence) ltac:(congruence) Hlog Hr) as (L1 & L2 & L3).
  rewrite R4 in L1. split_and!; [done..|]. by exists sid.
Qed.

(** C34: The documented chain of spans, with the in-memory broker. A request whose span
    is in the trace [t] starts the scheduler span below it, and the publication of a
    task below that; the headers of the message carry the publication. Whatever the
    broker does after that - deliveries, redeliveries after a negative acknowledgement,
    publications of the same attempt by another scheduler in another trace - a worker
    that receives the message, from a scheduler in any context, executes the task in a
    span whose parent is that first publication. The save of the result is below the
    execution, in the same trace, and the records it logs have the trace [t], its span,
    and the request identity of the scheduler that leased the task. *)
Theorem worker_continues_trace started started' base headers requestID0 method path requestID t id request sched_span
    publication (vs : values) runID workflowID (st st' : scheduler (observedStore St))
    ctx ctx' ctx_save taskID task sub b2 b3 d (s s' : observedStore St) snapshot stored task_span save_span records worker :
  let attemptID := AttemptIDFor (tr_TaskRunID task) (wrap_int64 (tr_AttemptCount task + 1)) in
  (forall x, in_logger i x = [x]) -> broker_inv (sc_broker st) -> vl_requestID vs = requestID -> requestID <> "" ->
  submit_and_publish i started base headers requestID0 method path runID workflowID ctx taskID st
    = (request, sched_span, publication, Next st' None) ->
  sp_context request = Some (t, id) ->
  run_tasks (sc_run st) !! taskID = Some task -> attemptID ∉ sc_published st ->
  mb_messages (sc_broker st) !! attemptID = None ->
  rtc broker_step (sc_broker st') b2 ->
  Receive b2 ctx' sub = Ok (b3, Delivered d) -> msg_ID (md_message d) = attemptID ->
  execute_and_save i started' vs d workflowID runID taskID (tr_TaskRunID task) attemptID worker s ctx_save snapshot
    = (task_span, (s', Ok stored, save_span, records)) ->
  exists pub_span, publication = Some pub_span /\
  child_of t request sched_span /\ child_of t sched_span pub_span /\ child_of t pub_span task_span /\
  child_of t task_span save_span /\
  forall r, r ∈ records ->
    ("request_id", requestID) ∈ lg_attributes r /\ ("trace_id", t) ∈ lg_attributes r /\
    exists span_id, sp_context save_span = Some (t, span_id) /\ ("span_id", span_id) ∈ lg_attributes r.
Proof.
  intros attemptID Hlog Hi Hvs Hrid Hsubmit Hreq Ht Hnew Hfresh Hsteps HR Hd Hexec.
  unfold submit_and_publish in Hsubmit. destruct (request_span _ _ _ _ _ _ _) as [v0 request'] eqn:Hv0.
  destruct (recover_span _ _ _ _) as [v1 sched'] eqn:Hrec. unfold start_values in Hrec.
  unfold traced_publish in Hsubmit. rewrite Ht in Hsubmit. fold attemptID in Hsubmit.
  set (dispatch := mkTaskDispatch _ _ _ _) in Hsubmit. destruct (publish_span i (started 2%nat) v1 workflowID dispatch) as [v2 pub_span] eqn:Hpub.
  injection Hsubmit as -> -> <- Hp. exists pub_span. split; [done|].
  assert (V0 : vl_span v0 = sp_context request) by by injection Hv0 as <- <-.
  destruct (Start_below _ _ _ _ _ t request _ _ V0 (ex_intro _ id Hreq) Hrec) as (C1 & V1 & _).
  destruct (Start_below _ _ _ _ _ t sched_span _ _ V1 (proj2 (proj2 C1)) Hpub) as (C2 & V2 & _).
  assert (Hmsg : vl_span (job_values i vs (md_message d)) = sp_context pub_span).
  { unfold publish_task in Hp. rewrite Ht, bool_decide_eq_false_2 in Hp by done. fold attemptID dispatch in Hp.
    destruct (marshal_dispatch dispatch) as [body|]; [|done]. destruct (Publish _ _ _) as [b1|] eqn:HP; [|done].
    injection Hp as <-. erewrite (published_first _ _ _ _ _ _ _ _ _ Hi _ HP Hsteps HR Hd). Unshelve. 2: exact Hfresh.
    unfold job_values, message_headers. cbn [msg_Headers]. rewrite Hpub. cbn [fst].
    destruct (proj2 (proj2 C2)) as [pid Hpid]. rewrite Hpid. apply carries_span. by rewrite V2. }
  unfold execute_and_save in Hexec. destruct (worker_span _ _ _ _ _ _ _ _ _) as [taskv task'] eqn:Hw.
  injection Hexec as -> Hsave.
  destruct (Start_below _ _ _ _ _ t pub_span _ _ Hmsg (proj2 (proj2 C2)) Hw) as (C3 & V3 & R3).
  unfold job_values in R3. rewrite carries_request, Hvs in R3.
  destruct (save_correlated _ taskv task_span _ _ _ _ _ _ _ t V3 (proj2 (proj2 C3)) Hlog ltac:(congruence) Hsave) as [C4 Hr].
  split_and!; [done..|]. rewrite R3 in Hr. exact Hr.
Qed.
End Guarantees.
