(* ===== verification/Sse.v ===== *)
(** * The event stream on the wire

    Models [writeServerSentEvent] and the loop of [handleRunEvents] of
    [src/internal/api/server.go] with what it writes: events and the comments that keep
    a stream alive. A client that reconnects with the identifier of the last event it
    has received is sent the rest of the log, without gap or repetition. *)
From S2P Require Import Prelude Workflow Graph Errors Run Ids Snapshot RunStep Broker Security FileStore FileStoreOps RateLimit Engine EngineStore Projects ProjectsProps Duration Handlers Options Events EventsProps Manager Dto Http Server Config Mux.

(** ** Frames *)

Definition newline : Ascii.ascii := Ascii.ascii_of_nat 10.
Definition lf : string := String newline "".

(** [encode] is [json.Marshal] of the event. *)
Definition writeServerSentEvent `{Unicode} (encode : RunEvent -> res go_error string) (event : RunEvent) : res go_error string :=
  try payload <- rmap_err (wrapf "encode workflow event") (encode event) ;;
  Ok ("id: " +:+ fmt_d (re_Sequence event) +:+ lf +:+ "event: " +:+ re_Type event +:+ lf
      +:+ "data: " +:+ payload +:+ lf +:+ lf).

(** The identifier that a frame carries: the rest of its first line after the field
    name. *)
Definition frame_id (frame : string) : string :=
  match Split 10 frame with
  | line :: _ => String.substring 4 (String.length line) line
  | [] => ""
  end.

Definition one_line (s : string) : Prop := forallb (fun b => negb (b =? 10)) (bytes_of s) = true.

Lemma one_line_decimal (n : Z) : one_line (fmt_d n).
Proof.
  unfold one_line. pose proof (fmt_d_decimal n) as Hd. induction (fmt_d n) as [|c s IH]; [done|].
  cbn [all_chars] in Hd. apply andb_true_iff in Hd as [Hc Hs]. cbn [bytes_of forallb]. rewrite (IH Hs), andb_true_r.
  unfold decimal_char, in_range in Hc. lia.
Qed.

Lemma frame_id_sequence `{Unicode} encode event frame :
  writeServerSentEvent encode event = Ok frame -> frame_id frame = fmt_d (re_Sequence event).
Proof.
  unfold writeServerSentEvent. intros (payload & _ & [= <-])%rbind_ok.
  set (rest := "event: " +:+ _). unfold frame_id, lf.
  replace ("id: " +:+ fmt_d (re_Sequence event) +:+ String newline "" +:+ rest)
    with (("id: " +:+ fmt_d (re_Sequence event)) +:+ String newline rest) by (by rewrite app_assoc_string).
  change 10 with (byte_val newline). rewrite Split_app.
  - apply substring_all. rewrite length_app_string. lia.
  - pose proof (one_line_decimal (re_Sequence event)) as Hd. unfold one_line in Hd. rewrite bytes_of_app, forallb_app.
    change (byte_val newline) with 10. by rewrite Hd.
Qed.

(** ** Numbers *)

Lemma parse_digits_go (n : N) (s : string) :
  parse_digits 0 (pretty_N_go n s) = parse_digits (Z.of_N n) s.
Proof.
  revert s. induction (N.lt_wf_0 n) as [n _ IH]; intros s.
  destruct (decide (0 < n)%N) as [Hn|Hn]; [|by replace n with 0%N by lia; rewrite pretty_N_go_0].
  rewrite pretty_N_go_step by done. rewrite IH by (apply N.div_lt; lia). cbn [parse_digits].
  assert (exists d, (n `mod` 10)%N = d /\ (d < 10)%N) as (d & Hd & Hlt) by (eexists; split; [done|apply N.mod_lt; lia]).
  rewrite Hd. assert (is_digit (pretty_N_char d) = true /\ digit_val (pretty_N_char d) = Z.of_N d) as [-> ->].
  { assert (d ∈ (N.of_nat <$> seq 0 10)) as Hin.
    { apply list_elem_of_fmap. exists (N.to_nat d). split; [lia|]. apply elem_of_seq. lia. }
    revert Hin. clear. revert d. by apply Forall_forall, (bool_decide_eq_true_1 (Forall _ _)). }
  f_equal. pose proof (N.div_mod n 10). lia.
Qed.

Lemma lastEventSequence_decimal (n : Z) : 0 <= n < 18446744073709551616 -> lastEventSequence (fmt_d n) = Some n.
Proof.
  intros Hn. unfold lastEventSequence.
  assert (fmt_d n <> "" /\ parse_digits 0 (fmt_d n) = Some n) as [Hne Hp].
  { unfold fmt_d. destruct n as [|p|p]; [done| |lia]. change (pretty (Z.pos p)) with (pretty_N_go (N.pos p) "").
    rewrite parse_digits_go. split; [|done]. intros He. assert (parse_digits 0 (pretty_N_go (N.pos p) "") = Some 0) as Hz by by rewrite He.
    rewrite parse_digits_go in Hz. by injection Hz. }
  rewrite trim_identifier by (apply validIdentifier_runes; split; [done|apply good_decimal, fmt_d_decimal]).
  unfold ParseUint. destruct (fmt_d n) as [|c t] eqn:E; [done|]. cbn [string_is_empty]. rewrite Hp.
  by destruct (Z.ltb_spec n 18446744073709551616); [|lia].
Qed.

(** The number of the last event that was received. *)
Lemma last_sequence (events : list RunEvent) (k m : nat) (lastID : string) :
  numbered events -> Z.of_nat (length events) < 18446744073709551616 -> (m <= length (drop k events))%nat ->
  lastEventSequence lastID = Some (Z.of_nat k) ->
  lastEventSequence (default lastID (fmt_d ∘ re_Sequence <$> last (take m (drop k events)))) = Some (Z.of_nat (k + m)).
Proof.
  intros Hn Hlen Hm Hlast. destruct m as [|m]; [cbn; by rewrite Nat.add_0_r|]. rewrite length_drop in Hm.
  assert (exists e, events !! (k + m)%nat = Some e) as [e He] by (apply lookup_lt_is_Some; lia).
  rewrite (take_S_r _ m e) by (by rewrite lookup_drop). rewrite last_snoc. cbn.
  rewrite (Hn _ _ He), lastEventSequence_decimal.
  - unfold wrap_uint64. rewrite Z.mod_small by lia. f_equal. lia.
  - unfold wrap_uint64. apply Z.mod_pos_bound. lia.
Qed.

(** ** Connections *)

(** What a stream writes: the frame of an event or a keep-alive comment. *)
Inductive chunk := ChunkEvent (event : RunEvent) | ChunkKeepAlive.

Definition chunk_events (chunks : list chunk) : list RunEvent :=
  omap (fun c => match c with ChunkEvent event => Some event | ChunkKeepAlive => None end) chunks.

(** The loop of [handleRunEvents] with what it has written: its first round; other
    goroutines use the broker; a round after the channel was closed; a round after a
    keep-alive comment; and the end of the request, or a keep-alive that fails. *)
Inductive streamed (runID : string) (b0 : eventBroker) (seq0 : Z) : eventBroker -> list chunk -> sse_state -> Prop :=
| streamed_first writes b sent st :
    sse_round b0 runID seq0 writes = (b, (sent, st)) -> streamed runID b0 seq0 b (ChunkEvent <$> sent) st
| streamed_other b b' chunks st :
    streamed runID b0 seq0 b chunks st -> broker_step b b' -> streamed runID b0 seq0 b' chunks st
| streamed_notified b b' chunks sequence notify writes more st :
    streamed runID b0 seq0 b chunks (SseWaiting sequence notify) -> notify ∈ eb_closedChans b ->
    sse_round b runID sequence writes = (b', (more, st)) -> streamed runID b0 seq0 b' (chunks ++ (ChunkEvent <$> more)) st
| streamed_keep_alive b b' chunks sequence notify writes more st :
    streamed runID b0 seq0 b chunks (SseWaiting sequence notify) ->
    sse_round b runID sequence writes = (b', (more, st)) ->
    streamed runID b0 seq0 b' (chunks ++ ChunkKeepAlive :: (ChunkEvent <$> more)) st
| streamed_gone b chunks sequence notify :
    streamed runID b0 seq0 b chunks (SseWaiting sequence notify) -> streamed runID b0 seq0 b chunks (SseReturned sequence).

Lemma chunk_events_fmap (events : list RunEvent) : chunk_events (ChunkEvent <$> events) = events.
Proof. induction events as [|e l IH]; [done|]. cbn. f_equal. exact IH. Qed.

Lemma streamed_streaming runID b0 seq0 b chunks st :
  streamed runID b0 seq0 b chunks st -> streaming runID b0 seq0 b (chunk_events chunks) st.
Proof.
  induction 1 as [writes b sent st Hr| |b b' chunks sequence notify writes more st _ IH _ Hr
    |b b' chunks sequence notify writes more st _ IH Hr|].
  - rewrite chunk_events_fmap. by eapply stream_first.
  - by eapply stream_other.
  - unfold chunk_events. rewrite omap_app. change (omap _ (ChunkEvent <$> more)) with (chunk_events (ChunkEvent <$> more)).
    rewrite chunk_events_fmap. by eapply stream_round.
  - unfold chunk_events. rewrite omap_app. cbn [omap list_omap].
    change (omap _ (ChunkEvent <$> more)) with (chunk_events (ChunkEvent <$> more)). rewrite chunk_events_fmap. by eapply stream_round.
  - by eapply stream_gone.
Qed.

Section Connections.
Context `{Unicode} (encode : RunEvent -> res go_error string) (runID : string).

(** The [Last-Event-ID] of the next request: the identifier of the last frame that has
    arrived whole, if there is one. *)
Definition next_header (header : string) (arrived : list chunk) : string :=
  match last (chunk_events arrived) with
  | Some event => match writeServerSentEvent encode event with Ok frame => frame_id frame | Err _ => header end
  | None => header
  end.

(** The connections of one client to one process: the state of the broker, the header
    of the next request and the events that have arrived. A connection seeds the broker
    with the snapshot it has loaded and streams; it breaks anywhere, so that the first
    [arrived] chunks come through whole. An event that cannot be encoded is not sent. A
    broker that was closed before it knew the run sends nothing. *)
Inductive resumed : eventBroker -> string -> list RunEvent -> Prop :=
| resumed_start b : rtc broker_step newEventBroker b -> resumed b "" []
| resumed_other b b' header got : resumed b header got -> broker_step b b' -> resumed b' header got
| resumed_connection b header got snapshot sequence b' chunks st arrived :
    resumed b header got -> lastEventSequence header = Some sequence ->
    snap_ID snapshot = runID -> is_Some (eb_streams (seed b snapshot) !! runID) ->
    streamed runID (seed b snapshot) sequence b' chunks st ->
    Forall (fun event => is_ok (encode event) = true) (chunk_events chunks) ->
    resumed b' (next_header header (take arrived chunks)) (got ++ chunk_events (take arrived chunks)).

Definition stream_log (b : eventBroker) : list RunEvent :=
  match eb_streams b !! runID with Some s => es_events s | None => [] end.

(** The client is at a place of the log, and its header says so. *)
Definition at_place (log : list RunEvent) (header : string) (got : list RunEvent) : Prop :=
  got `prefix_of` log /\ lastEventSequence header = Some (Z.of_nat (length got)).

Lemma step_stream_log b b' : broker_inv b -> broker_step b b' -> stream_log b `prefix_of` stream_log b'.
Proof.
  intros Hi Hstep. unfold stream_log at 1. destruct (eb_streams b !! runID) as [s|] eqn:Hs; [|apply prefix_nil].
  destruct (step_log _ _ _ _ Hi Hstep Hs) as (s' & Hs' & Hp & _). unfold stream_log. by rewrite Hs'.
Qed.

Lemma at_place_later log log' header got :
  log `prefix_of` log' -> at_place log header got -> at_place log' header got.
Proof. intros Hp [Hg Hh]. split; [by etrans|done]. Qed.

Lemma chunk_events_take (chunks : list chunk) (j : nat) :
  exists m, chunk_events (take j chunks) = take m (chunk_events chunks).
Proof.
  revert j. induction chunks as [|c chunks IH]; intros j; [exists O; by destruct j|].
  destruct j as [|j]; [by exists O|]. destruct (IH j) as [m Hm]. destruct c as [e|]; [exists (S m)|exists m]; cbn;
    change (omap _ ?l) with (chunk_events l); by rewrite Hm.
Qed.

(** What arrives of a stream that started at the place of the client. *)
Lemma at_place_arrived log header got sent m :
  numbered log -> Z.of_nat (length log) < 18446744073709551616 -> at_place log header got ->
  sent `prefix_of` drop (length got) log -> Forall (fun event => is_ok (encode event) = true) sent ->
  forall chunks, chunk_events chunks = take m sent -> at_place log (next_header header chunks) (got ++ take m sent).
Proof.
  intros Hnum Hlen [[rest ->] Hh] [more Hmore] Henc chunks Hc. rewrite drop_app_length in Hmore. subst rest. split.
  { exists (drop m sent ++ more). by rewrite <- (app_assoc got), (app_assoc (take m sent)), take_drop. }
  assert (Htake : take m sent = take (length (take m sent)) (drop (length got) (got ++ sent ++ more))).
  { rewrite drop_app_length. rewrite <- (take_drop m sent) at 3. by rewrite <- app_assoc, take_app_length. }
  pose proof (last_sequence (got ++ sent ++ more) (length got) (length (take m sent)) header Hnum Hlen) as Hl.
  rewrite <- Htake in Hl. rewrite length_app. unfold next_header. rewrite Hc.
  rewrite <- Hl; [|rewrite drop_app_length, length_app; pose proof (length_take sent m); lia|done].
  destruct (last (take m sent)) as [e|] eqn:Hlast; [|done]. cbn. f_equal.
  assert (He : is_ok (encode e) = true).
  { rewrite Forall_forall in Henc. apply Henc. apply last_Some in Hlast as [l Hl']. eapply (subseteq_take m).
    rewrite Hl'. apply elem_of_app. right. by left. }
  destruct (writeServerSentEvent encode e) as [frame|] eqn:Hw; [by eapply frame_id_sequence|].
  unfold writeServerSentEvent in Hw. by destruct (encode e).
Qed.

Lemma resumed_place b header got :
  resumed b header got -> broker_inv b /\ (Z.of_nat (length (stream_log b)) < 18446744073709551616 -> at_place (stream_log b) header got).
Proof.
  induction 1 as [b Hb|b b' header got _ [Hi IH] Hstep
    |b header got snapshot sequence b' chunks st j _ [Hi IH] Hseq Hid [s0 Hs0] Hst Henc].
  - split; [by eapply steps_inv, newEventBroker_inv|]. intros _. split; [apply prefix_nil|done].
  - split; [by eapply step_inv|]. intros Hlen. pose proof (step_stream_log _ _ Hi Hstep) as Hp.
    eapply at_place_later; [done|]. apply IH. apply prefix_length in Hp. lia.
  - pose proof (bs_seed b snapshot) as Hstep. pose proof (step_inv _ _ Hstep Hi) as Hi0.
    pose proof (step_stream_log _ _ Hi Hstep) as Hp0. assert (Hlog0 : stream_log (seed b snapshot) = es_events s0) by (unfold stream_log; by rewrite Hs0).
    apply streamed_streaming in Hst.
    destruct (streaming_prefix runID _ s0 _ _ _ _ Hi0 Hs0 Hst) as (Hi' & s' & Hs' & Hp').
    split; [done|]. unfold stream_log. rewrite Hs'. intros Hlen.
    assert (Hat : at_place (es_events s0) header got).
    { rewrite <- Hlog0. eapply at_place_later; [done|]. apply IH. apply prefix_length in Hp0, Hp'. rewrite Hlog0 in Hp0. lia. }
    pose proof Hat as [Hg Hh]. rewrite Hseq in Hh. injection Hh as ->.
    destruct (streaming_inv _ _ _ _ _ _ _ Hi0 Hs0 (prefix_length _ _ Hg) Hst) as (_ & s & Hs & Hinv).
    assert (s = s') as -> by congruence. specialize (Hinv Hlen). destruct (chunk_events_take chunks j) as [m Hm]. rewrite Hm.
    apply at_place_arrived; [by eapply bi_numbered|done|by eapply at_place_later|apply Hinv|done|done].
Qed.

(** C15: However often and wherever the connections of a client to one process break, it
    sees the log of a run without gap or repetition. A request carries the identifier
    printed in the last frame that the client has received whole, or none; the server
    seeds its broker, and the loop of [handleRunEvents] writes events and keep-alive
    comments while other goroutines use the broker. Then the events received over all
    connections are the first events of the log, each once and in order; the server
    reads the next header as their number; and the first round of the next connection,
    when its writes succeed, sends exactly the events that are missing. The numbers are
    those of one process: a restart begins a new log. *)
Theorem stream_resumes (b : eventBroker) (header : string) (got : list RunEvent) (snapshot : WorkflowRunSnapshot)
    (s : runEventStream) (writes : nat) :
  resumed b header got -> snap_ID snapshot = runID -> eb_streams (seed b snapshot) !! runID = Some s ->
  Z.of_nat (length (es_events s)) < 18446744073709551616 -> (length (es_events s) <= writes)%nat ->
  got `prefix_of` es_events s /\
  exists sequence, lastEventSequence header = Some sequence /\ sequence = Z.of_nat (length got) /\
    fst (snd (sse_round (seed b snapshot) runID sequence writes)) = drop (length got) (es_events s).
Proof.
  intros Hr Hid Hs Hlen Hw. apply resumed_place in Hr as [Hi Hat]. pose proof (bs_seed b snapshot) as Hstep.
  pose proof (step_stream_log _ _ Hi Hstep) as Hp. unfold stream_log at 2 in Hp. rewrite Hs in Hp.
  assert (Hpl : at_place (es_events s) header got).
  { eapply at_place_later; [done|]. apply Hat. apply prefix_length in Hp. lia. }
  destruct Hpl as [Hg Hh]. split; [done|]. exists (Z.of_nat (length got)). split_and!; [done|done|].
  destruct (sse_round_spec (seed b snapshot) runID (length got) writes s) as (sent & st & -> & _ & _ & Hst);
    [done|by eapply bi_numbered, Hs; eapply step_inv|done|by apply prefix_length|].
  cbn. destruct st; [by destruct Hst as [-> _]|]. destruct Hst as [Hlt|]; [|done]. rewrite length_drop in Hlt. lia.
Qed.
End Connections.
