(* ===== verification/Process.v ===== *)
(** * The life of a process

    Models [Run], [openStore], [openBroker] and [dependencyReadiness] of
    [src/internal/app/app.go], [OpenTracerProvider] of
    [src/internal/observability/tracing.go], and [main] of
    [src/cmd/forgeflow/main.go]. The answers of the operating system, of the HTTP
    server and of the libraries are parts of the environment; what is acquired and
    released is recorded in order. *)
From S2P Require Import Prelude Workflow Graph Errors Run Ids RunStep Broker Security FileStore FileStoreOps RateLimit Engine EngineStore Projects Duration Handlers Options Events Manager Dto Http Server Config.

(** ** Resources *)

Inductive resource := RTracing | RStore | RBroker | RListener.

(** [Serving] is the start of [Serve]; [ShutdownReturned] is the return of [Shutdown] of
    the API service, which waits for its runs until its context is done. *)
Inductive process_event :=
| Opened (r : resource)
| Closed (r : resource)
| Serving
| ShutdownReturned.

#[export] Instance resource_eq_dec : EqDecision resource.
Proof. solve_decision. Defined.

(** A run of the process: what happened, and its error. *)
Definition outcome : Type := list process_event * option go_error.

(** Without a resource: an error on the way to it. *)
Definition failed (err : go_error) : outcome := ([], Some err).

(** [x, err := open(); if err != nil { return ... }; defer close()]. *)
Definition holding {A : Type} (r : resource) (opened : res go_error A) (describe : go_error -> go_error)
    (body : A -> outcome) : outcome :=
  match opened with
  | Err err => failed (describe err)
  | Ok a => let '(events, err) := body a in (Opened r :: events ++ [Closed r], err)
  end.

Section Process.
Context `{Unicode} `{UnicodeCase} `{UnicodeLower}.

(** ** Tracing *)

(** [resource_new], [stdout_new] and [otlp_new] are the constructors of the
    OpenTelemetry libraries; the provider records spans unless the exporter is
    [none]. *)
Definition OpenTracerProvider (ctx : context) (output : bool) (exporter serviceName : string)
    (resource_new stdout_new otlp_new : res go_error unit) : res go_error bool :=
  fail_if match ctx with CtxNil => true | _ => false end with ErrText "open tracer provider: context must not be nil" ;;
  fail_if negb output with ErrText "open tracer provider: output must not be nil" ;;
  try _ <- TraceConfig_Validate exporter serviceName ;;
  let exporterName := ToLower (trim_space exporter) in
  if String.eqb exporterName TraceExporterNone then Ok false
  else
    try _ <- rmap_err (wrapf "create OpenTelemetry resource") resource_new ;;
    try _ <-
      (if String.eqb exporterName TraceExporterStdout then rmap_err (wrapf "create stdout trace exporter") stdout_new
       else if String.eqb exporterName TraceExporterOTLPHTTP then rmap_err (wrapf "create OTLP/HTTP trace exporter") otlp_new
       else Ok tt) ;;
    Ok true.

(** ** Backends *)

(** The answers of the two stores: [OpenFileStore] for the data path, and
    [OpenPostgresStore] followed by [Migrate], which closes the store again when it
    fails. *)
Definition openStore {St : Type} (c : ProcessConfig) (open_file : string -> res go_error St)
    (open_postgres : string -> res go_error St) (migrate : St -> res go_error unit) : list St * res go_error St :=
  if String.eqb (cf_StoreBackend c) "file" then ([], open_file (cf_DataPath c))
  else if String.eqb (cf_StoreBackend c) "postgres" then
    match open_postgres (cf_PostgresDSN c) with
    | Err err => ([], Err err)
    | Ok store =>
        match migrate store with
        | Err err => ([store], Err err)
        | Ok _ => ([], Ok store)
        end
    end
  else ([], Err (ErrText ("unsupported persistence store " +:+ quote (cf_StoreBackend c)))).

Definition openBroker {Br : Type} (natsURL : string) (c : ProcessConfig) (memory : Br) (open_nats : NATSConfig -> res go_error Br)
  : res go_error Br :=
  if String.eqb (cf_BrokerBackend c) "memory" then Ok memory
  else if String.eqb (cf_BrokerBackend c) "nats" then open_nats (nats_config natsURL c)
  else Err (ErrText ("unsupported task broker " +:+ quote (cf_BrokerBackend c))).

(** A dependency that can be pinged has [Some] ping. *)
Definition dependencyReadiness (store taskBroker : option (context -> res go_error unit)) (ctx : context) : option go_error :=
  match
    try _ <- (match store with
              | Some ping => rmap_err (wrapf "persistence dependency is unavailable") (ping ctx)
              | None => Ok tt
              end) ;;
    match taskBroker with
    | Some ping => rmap_err (wrapf "task broker dependency is unavailable") (ping ctx)
    | None => Ok tt
    end
  with
  | Ok _ => None
  | Err err => Some err
  end.

(** ** Serving *)

(** How serving ends: the HTTP server stops by itself, or the context is done. Then
    [Shutdown] of the HTTP server, which closes the listener, runs in a goroutine
    beside that of the service: [listenerFirst] tells which of the two comes first. *)
Inductive ending :=
| ServeStopped (serveErr : option go_error)
| ContextDone (listenerFirst : bool) (httpErr serveErr : option go_error).

(** What the environment answers. [pe_create] makes the API server; [pe_service] is
    the error of its [Shutdown]. *)
Record process_env (St Br Srv : Type) := mkEnv {
  pe_tracing : res go_error unit;
  pe_tracing_shutdown : option go_error;
  pe_store : res go_error St;
  pe_broker : res go_error Br;
  pe_create : St -> Br -> res go_error Srv;
  pe_listen : res go_error unit;
  pe_report : option go_error;
  pe_listener_close : option go_error;
  pe_ending : ending;
  pe_service : option go_error
}.
Arguments pe_tracing {St Br Srv} _.
Arguments pe_tracing_shutdown {St Br Srv} _.
Arguments pe_store {St Br Srv} _.
Arguments pe_broker {St Br Srv} _.
Arguments pe_create {St Br Srv} _ _ _.
Arguments pe_listen {St Br Srv} _.
Arguments pe_report {St Br Srv} _.
Arguments pe_listener_close {St Br Srv} _.
Arguments pe_ending {St Br Srv} _.
Arguments pe_service {St Br Srv} _.

(** [is_closed] is [errors.Is] with [http.ErrServerClosed]. *)
Definition serve_error (is_closed : go_error -> bool) (err : option go_error) : option go_error :=
  match err with Some e => if is_closed e then None else Some e | None => None end.

Context {St Br Srv : Type} (is_closed : go_error -> bool).

(** From the listener on; the HTTP server closes the listener when it stops. *)
Definition serve_phase (env : process_env St Br Srv) : outcome :=
  match pe_ending env with
  | ServeStopped serveErr =>
      ([Serving; Closed RListener; ShutdownReturned],
       errors_join [serve_error is_closed serveErr; pe_service env])
  | ContextDone listenerFirst httpErr serveErr =>
      (Serving :: (if listenerFirst then [Closed RListener; ShutdownReturned] else [ShutdownReturned; Closed RListener]),
       errors_join [pe_service env; httpErr; serve_error is_closed serveErr])
  end.

Definition listen_phase (c : ProcessConfig) (env : process_env St Br Srv) : outcome :=
  match pe_listen env with
  | Err err => failed (wrapf ("run ForgeFlow: listen on " +:+ quote (cf_Address c)) err)
  | Ok _ =>
      let '(events, err) :=
        match pe_report env with
        | Some err =>
            let reported := wrapf "run ForgeFlow: report listener" err in
            ([Closed RListener],
             match pe_listener_close env with
             | Some closeErr => errors_join [Some reported; Some closeErr]
             | None => Some reported
             end)
        | None => serve_phase env
        end in
      (Opened RListener :: events, err)
  end.

(** The part of [Run] under the tracer. *)
Definition run_stores (c : ProcessConfig) (env : process_env St Br Srv) : outcome :=
  holding RStore (pe_store env) (wrapf "run ForgeFlow: open persistence") (fun store =>
    holding RBroker (pe_broker env) (wrapf "run ForgeFlow: open task broker") (fun taskBroker =>
      match pe_create env store taskBroker with
      | Err err => failed err
      | Ok _ => listen_phase c env
      end)).

(** [Run] after the validation of its configuration, without the deferred
    redaction. *)
Definition run_body (c : ProcessConfig) (env : process_env St Br Srv) : outcome :=
  match parse_level (cf_LogLevel c) with
  | Err err => failed (wrapf "run ForgeFlow: parse log level" err)
  | Ok _ =>
      holding RTracing (pe_tracing env) (wrapf "run ForgeFlow: configure tracing") (fun _ =>
        let '(events, err) := run_stores c env in
        (events, errors_join [err; pe_tracing_shutdown env]))
  end.

(** [otlp_headers] is the variable OTEL_EXPORTER_OTLP_HEADERS. *)
Definition process_Run (natsURL otlp_headers : string) (ctx : context) (output : bool) (c : ProcessConfig)
    (env : process_env St Br Srv) : outcome :=
  match ctx with
  | CtxNil => failed (ErrText "run ForgeFlow: context must not be nil")
  | _ =>
      if negb output then failed (ErrText "run ForgeFlow: output must not be nil")
      else
        match Config_Validate natsURL c with
        | Err err => failed (wrapf "run ForgeFlow" err)
        | Ok _ =>
            let '(events, err) := run_body c env in
            (events, redactSensitiveError err [cf_PostgresDSN c; cf_NATSURL c; otlp_headers])
        end
  end.

(** [main]: the exit status. *)
Definition main_status (config : res go_error ProcessConfig) (run : ProcessConfig -> outcome) : Z :=
  match config with
  | Err _ => 1
  | Ok c => match snd (run c) with Some _ => 1 | None => 0 end
  end.

(** ** What a process guarantees *)

(** The resources that are held, the latest first, and whether the service runs: from
    [Serve] until its [Shutdown] returns. *)
Definition held : Type := list resource * bool.

(** An event is in order: resources are released in the reverse order of their
    acquisition, the service is started when all of them are held, and of these only
    the listener is released before its [Shutdown] has returned. *)
Definition process_step (h : held) (e : process_event) : option held :=
  match e, h with
  | Opened r, (rs, false) => if bool_decide (r ∈ rs) then None else Some (r :: rs, false)
  | Closed r, (r' :: rs, serving) =>
      if bool_decide (r = r') && (negb serving || bool_decide (r = RListener)) then Some (rs, serving) else None
  | Serving, (rs, false) => if bool_decide (rs = [RListener; RBroker; RStore; RTracing]) then Some (rs, true) else None
  | ShutdownReturned, (rs, true) => Some (rs, false)
  | _, _ => None
  end.

Fixpoint process_steps (h : held) (events : list process_event) : option held :=
  match events with
  | [] => Some h
  | e :: events => match process_step h e with Some h => process_steps h events | None => None end
  end.

Lemma process_steps_app (h : held) (l k : list process_event) :
  process_steps h (l ++ k) = match process_steps h l with Some h => process_steps h k | None => None end.
Proof. revert h. induction l as [|e l IH]; intros h; cbn; [done|]. by destruct (process_step h e). Qed.

(** A body that gives back what it found. *)
Definition neutral (rs : list resource) (o : outcome) : Prop := process_steps (rs, false) (fst o) = Some (rs, false).

Lemma failed_neutral (rs : list resource) (err : go_error) : neutral rs (failed err).
Proof. done. Qed.

Lemma holding_neutral {A : Type} (r : resource) (rs : list resource) (opened : res go_error A) describe (body : A -> outcome) :
  r ∉ rs -> (forall a, neutral (r :: rs) (body a)) -> neutral rs (holding r opened describe body).
Proof.
  intros Hr Hb. unfold holding. destruct opened as [a|err]; [|apply failed_neutral].
  specialize (Hb a). destruct (body a) as [events err]. unfold neutral in *. cbn [fst] in *.
  cbn [process_steps process_step app]. rewrite bool_decide_eq_false_2 by done.
  rewrite process_steps_app, Hb. cbn. by rewrite bool_decide_eq_true_2.
Qed.

Lemma listen_neutral (c : ProcessConfig) (env : process_env St Br Srv) :
  neutral [RBroker; RStore; RTracing] (listen_phase c env).
Proof.
  unfold listen_phase. destruct (pe_listen env); [|apply failed_neutral].
  destruct (pe_report env); [reflexivity|]. unfold serve_phase. by destruct (pe_ending env) as [|[]].
Qed.

Lemma run_body_neutral (c : ProcessConfig) (env : process_env St Br Srv) : neutral [] (run_body c env).
Proof.
  unfold run_body. destruct (parse_level _); [|apply failed_neutral].
  apply holding_neutral; [set_solver|]. intros _.
  assert (neutral [RTracing] (run_stores c env)) as Hn; [|by destruct (run_stores c env)].
  apply holding_neutral; [set_solver|]. intros store. apply holding_neutral; [set_solver|]. intros taskBroker.
  destruct (pe_create env store taskBroker); [apply listen_neutral|apply failed_neutral].
Qed.

Lemma errors_join_none (errs : list (option go_error)) : errors_join errs = None <-> Forall (fun e => e = None) errs.
Proof.
  unfold errors_join. induction errs as [|[e|] errs IH]; cbn; [by split; [constructor|]| |].
  - split; [done|]. by intros [? _]%Forall_cons.
  - rewrite Forall_cons. rewrite <- IH. destruct (omap id errs); naive_solver.
Qed.

(** Everything that is needed comes up, and everything goes down without an error. *)
Definition clean_ending (e : ending) : Prop :=
  match e with
  | ServeStopped serveErr => serve_error is_closed serveErr = None
  | ContextDone _ httpErr serveErr => httpErr = None /\ serve_error is_closed serveErr = None
  end.

Definition clean_run (env : process_env St Br Srv) : Prop :=
  is_ok (pe_tracing env) = true /\ pe_tracing_shutdown env = None
  /\ (exists store taskBroker, pe_store env = Ok store /\ pe_broker env = Ok taskBroker
        /\ is_ok (pe_create env store taskBroker) = true)
  /\ is_ok (pe_listen env) = true /\ pe_report env = None /\ clean_ending (pe_ending env) /\ pe_service env = None.

Lemma serve_phase_none (env : process_env St Br Srv) :
  snd (serve_phase env) = None <-> clean_ending (pe_ending env) /\ pe_service env = None.
Proof.
  unfold serve_phase, clean_ending. destruct (pe_ending env); cbn [snd]; rewrite errors_join_none, !Forall_cons;
    split; [intros (? & ? & _)|intros (? & ?)|intros (? & ? & ? & _)|intros ((? & ?) & ?)]; split_and!; done || constructor.
Qed.

Lemma listen_phase_none (c : ProcessConfig) (env : process_env St Br Srv) :
  snd (listen_phase c env) = None
  <-> is_ok (pe_listen env) = true /\ pe_report env = None /\ clean_ending (pe_ending env) /\ pe_service env = None.
Proof.
  rewrite <- serve_phase_none. unfold listen_phase. destruct (pe_listen env) as [u|]; cbn; [|naive_solver].
  destruct (pe_report env); cbn; [destruct (pe_listener_close env); naive_solver|].
  destruct (serve_phase env); naive_solver.
Qed.

Lemma holding_none {A : Type} (r : resource) (opened : res go_error A) describe (body : A -> outcome) :
  snd (holding r opened describe body) = None <-> exists a, opened = Ok a /\ snd (body a) = None.
Proof.
  unfold holding. destruct opened as [a|err]; [|naive_solver]. destruct (body a) as [events e] eqn:E. cbn.
  split; [intros ->; exists a; by rewrite E|]. intros (a' & [= <-] & Ha). by rewrite E in Ha.
Qed.

Lemma Config_Validate_level (natsURL : string) (c : ProcessConfig) :
  Config_Validate natsURL c = Ok tt -> is_ok (parse_level (cf_LogLevel c)) = true.
Proof.
  unfold Config_Validate. rewrite guard_err_ok. intros [_ (u & _ & Hc)%rbind_ok]. rewrite !guard_err_ok in Hc.
  destruct Hc as (_ & _ & _ & _ & _ & (v & Hl & _)%rbind_ok). by apply rmap_err_ok in Hl as ->.
Qed.

Lemma run_stores_none (c : ProcessConfig) (env : process_env St Br Srv) :
  snd (run_stores c env) = None
  <-> (exists store taskBroker, pe_store env = Ok store /\ pe_broker env = Ok taskBroker
         /\ is_ok (pe_create env store taskBroker) = true)
      /\ is_ok (pe_listen env) = true /\ pe_report env = None /\ clean_ending (pe_ending env) /\ pe_service env = None.
Proof.
  unfold run_stores. rewrite holding_none. split.
  - intros (store & Hs & (taskBroker & Hb & Hc)%holding_none).
    destruct (pe_create env store taskBroker) eqn:Ec; [|done]. apply listen_phase_none in Hc.
    split; [|done]. exists store, taskBroker. by rewrite Ec.
  - intros ((store & taskBroker & Hs & Hb & Hc) & Hrest). exists store. split; [done|]. apply holding_none.
    exists taskBroker. split; [done|]. destruct (pe_create env store taskBroker); [|done]. by apply listen_phase_none.
Qed.

Lemma run_body_none (c : ProcessConfig) (env : process_env St Br Srv) :
  is_ok (parse_level (cf_LogLevel c)) = true -> snd (run_body c env) = None <-> clean_run env.
Proof.
  intros Hl. unfold run_body. destruct (parse_level _); [|done]. rewrite holding_none. unfold clean_run.
  pose proof (run_stores_none c env) as Hs. destruct (run_stores c env) as [events err]. cbn [snd] in *.
  rewrite <- Hs. destruct (pe_tracing env) as [u|]; cbn [is_ok]; [|naive_solver]. split.
  - intros (_ & _ & Hj). apply errors_join_none in Hj. rewrite !Forall_cons in Hj. naive_solver.
  - intros (_ & -> & ->). by exists u.
Qed.

(** C20: The life of a process. Whatever fails or succeeds on the way, and whichever of
    the two shutdowns at its end comes first: every resource that [Run] acquires is
    released exactly once, in the reverse order; the service is started when the
    tracer, the store, the broker and the listener are held, and until its [Shutdown]
    has returned only the listener is released. [Run] returns nil exactly when its
    arguments are valid, everything comes up and everything goes down cleanly, where
    [ErrServerClosed] counts as clean. Any error after the validation, also one of the
    deferred releases, carries none of the secrets that can be told from the replacement
    text: those without square brackets that do not occur in the word REDACTED. *)
Theorem process_lifecycle (natsURL otlp_headers : string) (ctx : context) (output : bool) (c : ProcessConfig)
    (env : process_env St Br Srv) :
  let '(events, err) := process_Run natsURL otlp_headers ctx output c env in
  process_steps ([], false) events = Some ([], false)
  /\ (err = None <-> ctx <> CtxNil /\ output = true /\ Config_Validate natsURL c = Ok tt /\ clean_run env)
  /\ (forall e secret, err = Some e -> ctx <> CtxNil -> output = true -> Config_Validate natsURL c = Ok tt ->
        secret ∈ [cf_PostgresDSN c; cf_NATSURL c; otlp_headers] -> redactable (trim_space secret) ->
        occurs (trim_space secret) (error_string e) = false).
Proof.
  unfold process_Run. assert (ctx = CtxNil \/ ctx <> CtxNil) as [->|Hctx] by (destruct ctx; auto).
  { split_and!; [done| |done]. split; [done|]. by intros [? _]. }
  destruct output; [|destruct ctx; (split_and!; [done| |done]); split; (done || by intros (_ & ? & _))].
  destruct (Config_Validate natsURL c) as [[]|] eqn:Hv;
    [|destruct ctx; (split_and!; [done| |done]); split; (done || by intros (_ & _ & ? & _))].
  pose proof (run_body_neutral c env) as Hn.
  pose proof (run_body_none c env (Config_Validate_level _ _ Hv)) as Hnone.
  destruct (run_body c env) as [events err]. cbn [snd] in Hnone. unfold neutral in Hn. cbn [fst] in Hn.
  destruct ctx; [done|..]; cbn [negb]; (split_and!; [done| |]);
    try (rewrite <- Hnone; destruct err; cbn; naive_solver);
    intros e secret He _ _ _ Hin Hr; (destruct err as [err|]; [|done]); cbn in He; injection He as <-; cbn [error_string];
    exact (redacted_clean _ secret (error_string err) Hin Hr).
Qed.

(** ** Readiness *)

(** The probe answers [ready] exactly when the process is not shutting down and every
    dependency that can be asked answers; the reason of a failure is not told. *)
Lemma ready_iff (sv : Server) (method : string) (store taskBroker : option (context -> res go_error unit)) (ctx : context) :
  let answers ping := match ping with Some ping => is_ok (ping ctx) = true | None => True end in
  handleReady sv method (Some (dependencyReadiness store taskBroker ctx)) = Ok "ready"
  <-> method = "GET" /\ sv_ready sv = true /\ answers store /\ answers taskBroker.
Proof.
  cbn zeta. unfold handleReady, requireMethod, dependencyReadiness.
  destruct (String.eqb_spec method "GET"); cbn; [|naive_solver]. destruct (sv_ready sv); cbn; [|naive_solver].
  destruct store as [ping|], taskBroker as [ping'|]; cbn;
    repeat match goal with |- context [rmap_err _ (?p ctx)] => destruct (p ctx) end; cbn; naive_solver.
Qed.
End Process.
