(* ===== verification/Nats.v ===== *)
(** * The NATS broker

    Models the broker of [src/internal/broker/nats.go]; its configuration is in
    [Config.v]. The NATS client and the JetStream server are third-party code: they
    are the class [JetStream], a state with the calls that the adapter makes. *)
From S2P Require Import Prelude Workflow Errors Graph Run Ids RunStep Security FileStore FileStoreOps RateLimit Broker Engine EngineStore Projects Duration Handlers Options Events Manager Dto Http Server Config.

(** ** The client *)

(** What [PublishMsg] is given, and what [Next] returns. A header has the value that
    [Header.Get] returns. *)
Record publication := mkPublication {
  pb_subject : string;
  pb_data : string;
  pb_headers : gmap string string;
  pb_msg_id : string;
  pb_expect_stream : string
}.

Record js_message (Handle : Type) := mkJsMessage {
  jm_headers : gmap string string;
  jm_data : string;
  jm_delivered : res go_error Z;
  jm_handle : Handle
}.
Arguments mkJsMessage {Handle} _ _ _ _.
Arguments jm_headers {Handle} _.
Arguments jm_data {Handle} _.
Arguments jm_delivered {Handle} _.
Arguments jm_handle {Handle} _.

Record stream_config := mkStreamConfig {
  stc_name : string;
  stc_subject : string;
  stc_max_age : Z;
  stc_duplicates : Z
}.

Record consumer_config := mkConsumerConfig {
  csc_durable : string;
  csc_ack_wait : Z;
  csc_max_deliver : Z;
  csc_filter_subject : string
}.

(** [Js] is the connection with what the server holds. [is_timeout] and
    [is_already_acked] are [errors.Is] with [nats.ErrTimeout] and
    [jetstream.ErrMsgAlreadyAckd]. *)
Class JetStream (Js Consumer Handle : Type) := {
  js_stream : Js -> stream_config -> Js * option go_error;
  js_publish : Js -> publication -> Js * option go_error;
  js_consumer : Js -> string -> consumer_config -> Js * res go_error Consumer;
  js_next : Js -> Consumer -> Js * res go_error (js_message Handle);
  js_double_ack : Js -> Handle -> Js * option go_error;
  js_nak : Js -> Handle -> Js * option go_error;
  js_in_progress : Js -> Handle -> Js * option go_error;
  js_connected : Js -> bool;
  js_flush : Js -> option go_error;
  js_drain : Js -> Js * option go_error;
  js_close : Js -> Js;
  is_timeout : go_error -> bool;
  is_already_acked : go_error -> bool
}.

(** The header in which JetStream keeps the identity of a message. *)
Definition MsgIDHeader : string := "Nats-Msg-Id".

Record NATSBroker (Js Consumer : Type) := mkNATSBroker {
  nb_conn : Js;
  nb_config : NATSConfig;
  nb_consumers : gmap string Consumer;
  nb_closed : bool
}.
Arguments mkNATSBroker {Js Consumer} _ _ _ _.
Arguments nb_conn {Js Consumer} _.
Arguments nb_config {Js Consumer} _.
Arguments nb_consumers {Js Consumer} _.
Arguments nb_closed {Js Consumer} _.

Record natsDelivery (Handle : Type) := mkNatsDelivery {
  nd_message : TaskMessage;
  nd_deliveryCount : Z;
  nd_messageHandle : Handle;
  nd_settled : bool
}.
Arguments mkNatsDelivery {Handle} _ _ _ _.
Arguments nd_message {Handle} _.
Arguments nd_deliveryCount {Handle} _.
Arguments nd_messageHandle {Handle} _.
Arguments nd_settled {Handle} _.

Definition context_is_nil : go_error := BrokerValidationError "context" "" "must not be nil".

(** [ctx.Err()]. *)
Definition ctx_err (ctx : context) : option go_error := match ctx with CtxDone err => Some err | _ => None end.

Section Broker.
Context `{Unicode} `{UnicodeCase} `{UnicodeLower} {Js Consumer Handle : Type} `{JetStream Js Consumer Handle}
  (sha256_hex : string -> string).

(** ** Opening *)

(** The timeout of the connection; [remaining] is the time until the deadline of the
    context. *)
Definition connect_timeout (config : NATSConfig) (remaining : option Z) : res go_error Z :=
  match remaining with
  | None => Ok (nc_ConnectTimeout config)
  | Some remaining =>
      fail_if remaining <=? 0 with ErrContextDeadlineExceeded ;;
      Ok (if remaining <? nc_ConnectTimeout config then remaining else nc_ConnectTimeout config)
  end.

Definition task_stream (config : NATSConfig) : stream_config :=
  mkStreamConfig (nc_StreamName config) (nc_SubjectPrefix config +:+ ".>") (nc_MaxAge config) (nc_DuplicateWindow config).

(** [ctx_connected] is the context as it is read again after the connection;
    [connect] and [new] are [nats.Connect] and [jetstream.New]. The first component
    is the connections that are closed again. *)
Definition OpenNATSBroker (connect : string -> Z -> res go_error Js) (new : Js -> res go_error unit)
    (ctx ctx_connected : context) (remaining : option Z) (config : NATSConfig)
  : list Js * res go_error (NATSBroker Js Consumer) :=
  let prepared :=
    fail_if match ctx with CtxNil => true | _ => false end with context_is_nil ;;
    try _ <- NATSConfig_Validate config ;;
    match ctx_err ctx with
    | Some err => Err err
    | None =>
        try timeout <- connect_timeout config remaining ;;
        rmap_err (wrapf "connect to NATS") (connect (nc_URL config) timeout)
    end in
  match prepared with
  | Err err => ([], Err err)
  | Ok conn =>
      match ctx_err ctx_connected with
      | Some err => ([conn], Err err)
      | None =>
          match new conn with
          | Err err => ([conn], Err (wrapf "initialize JetStream client" err))
          | Ok _ =>
              match js_stream conn (task_stream config) with
              | (conn, Some err) =>
                  ([conn], Err (wrapf ("create or update JetStream stream " +:+ quote (nc_StreamName config)) err))
              | (conn, None) => ([], Ok (mkNATSBroker conn config ∅ false))
              end
          end
      end
  end.

(** ** Publishing *)

Definition hashedName (prefix value : string) : string := prefix +:+ "_" +:+ sha256_hex value.

Definition broker_subject (b : NATSBroker Js Consumer) (topic : string) : string :=
  nc_SubjectPrefix (nb_config b) +:+ "." +:+ hashedName "t" topic.

Definition ensureOpen (b : NATSBroker Js Consumer) : res go_error unit :=
  fail_if nb_closed b with ErrBrokerClosed ;; Ok tt.

Definition with_conn (b : NATSBroker Js Consumer) (conn : Js) : NATSBroker Js Consumer :=
  mkNATSBroker conn (nb_config b) (nb_consumers b) (nb_closed b).

Definition publication_of (b : NATSBroker Js Consumer) (message : TaskMessage) : publication :=
  mkPublication (broker_subject b (msg_Topic message)) (msg_Body message) (msg_Headers message) (msg_ID message)
    (nc_StreamName (nb_config b)).

Definition NATSBroker_Publish (b : NATSBroker Js Consumer) (ctx : context) (message : TaskMessage)
  : NATSBroker Js Consumer * res go_error unit :=
  let checked :=
    fail_if match ctx with CtxNil => true | _ => false end with context_is_nil ;;
    try _ <- validateMessage message ;;
    ensureOpen b in
  match checked with
  | Err err => (b, Err err)
  | Ok _ =>
      match js_publish (nb_conn b) (publication_of b message) with
      | (conn, Some err) => (with_conn b conn, Err (wrapf ("publish task message " +:+ quote (msg_ID message)) err))
      | (conn, None) => (with_conn b conn, Ok tt)
      end
  end.

(** ** Receiving *)

(** The byte 0 between the two parts. *)
Definition consumer_key (subscription : Subscription) : string :=
  sub_ConsumerID subscription +:+ String Ascii.zero (sub_Topic subscription).

Definition durable_config (b : NATSBroker Js Consumer) (subscription : Subscription) : consumer_config :=
  mkConsumerConfig (hashedName "FF" (consumer_key subscription)) (nc_AckWait (nb_config b))
    (nc_MaxDeliver (nb_config b)) (broker_subject b (sub_Topic subscription)).

Definition broker_consumer (b : NATSBroker Js Consumer) (subscription : Subscription)
  : NATSBroker Js Consumer * res go_error Consumer :=
  let key := consumer_key subscription in
  if nb_closed b then (b, Err ErrBrokerClosed)
  else
    match nb_consumers b !! key with
    | Some consumer => (b, Ok consumer)
    | None =>
        let config := durable_config b subscription in
        match js_consumer (nb_conn b) (nc_StreamName (nb_config b)) config with
        | (conn, Err err) =>
            (with_conn b conn,
             Err (wrapf ("create or update JetStream consumer " +:+ quote (csc_durable config)) err))
        | (conn, Ok consumer) =>
            (mkNATSBroker conn (nb_config b) (<[key := consumer]> (nb_consumers b)) (nb_closed b), Ok consumer)
        end
    end.

Definition isNATSControlHeader (name : string) : bool := String.prefix "nats-" (ToLower name).

(** The loop over the headers: of two names that differ in case only Go may keep
    either. *)
Definition task_headers (headers : gmap string string) : gmap string string :=
  foldl (fun (out : gmap string string) '(name, value) =>
           if isNATSControlHeader name then out else <[ToLower name := value]> out) ∅ (map_to_list headers).

Definition task_message (topic : string) (m : js_message Handle) : TaskMessage :=
  mkTaskMessage (default "" (jm_headers m !! MsgIDHeader)) topic (jm_data m) (task_headers (jm_headers m)).

(** [ctx_after] is the context as it is read after [Next], and [has_deadline] says
    whether it has a deadline. *)
Definition NATSBroker_Receive (b : NATSBroker Js Consumer) (ctx ctx_after : context) (has_deadline : bool)
    (subscription : Subscription) : NATSBroker Js Consumer * res go_error (natsDelivery Handle) :=
  let checked :=
    fail_if match ctx with CtxNil => true | _ => false end with context_is_nil ;;
    validateSubscription subscription in
  match checked with
  | Err err => (b, Err err)
  | Ok _ =>
      match broker_consumer b subscription with
      | (b, Err err) => (b, Err err)
      | (b, Ok consumer) =>
          let '(conn, next) := js_next (nb_conn b) consumer in
          (with_conn b conn,
           match next with
           | Err err =>
               match ctx_err ctx_after with
               | Some contextErr => Err contextErr
               | None =>
                   if is_timeout err && has_deadline then Err ErrContextDeadlineExceeded
                   else Err (wrapf "receive task message" err)
               end
           | Ok m =>
               try delivered <- rmap_err (wrapf "read task message metadata") (jm_delivered m) ;;
               Ok (mkNatsDelivery (task_message (sub_Topic subscription) m) delivered (jm_handle m) false)
           end)
      end
  end.

(** ** Readiness and shutdown *)

Definition NATSBroker_Ping (b : NATSBroker Js Consumer) (ctx : context) : res go_error unit :=
  fail_if match ctx with CtxNil => true | _ => false end with context_is_nil ;;
  match ctx_err ctx with
  | Some err => Err err
  | None =>
      try _ <- ensureOpen b ;;
      fail_if negb (js_connected (nb_conn b)) with ErrText "NATS connection is not connected" ;;
      match js_flush (nb_conn b) with
      | Some err => Err (wrapf "flush NATS readiness check" err)
      | None => Ok tt
      end
  end.

Definition NATSBroker_Close (b : NATSBroker Js Consumer) : NATSBroker Js Consumer * res go_error unit :=
  if nb_closed b then (b, Ok tt)
  else
    let closed conn := mkNATSBroker conn (nb_config b) (nb_consumers b) true in
    match js_drain (nb_conn b) with
    | (conn, Some err) => (closed (js_close conn), Err (wrapf "drain NATS connection" err))
    | (conn, None) => (closed conn, Ok tt)
    end.

(** ** Deliveries *)

(** The three methods of a delivery: [check_ctx] is the second context check of
    [Nack] and [Progress], [call] the call of the client, and [settles] whether a
    success settles the delivery. *)
Definition delivery_call (check_ctx settles : bool) (call : Js -> Handle -> Js * option go_error) (what : string)
    (ctx : context) (conn : Js) (d : natsDelivery Handle) : Js * natsDelivery Handle * res go_error unit :=
  let checked :=
    fail_if match ctx with CtxNil => true | _ => false end with context_is_nil ;;
    match ctx_err ctx with
    | Some err => if check_ctx then Err err else Ok tt
    | None => Ok tt
    end in
  match checked with
  | Err err => (conn, d, Err err)
  | Ok _ =>
      if nd_settled d then (conn, d, Err ErrDeliverySettled)
      else
        match call conn (nd_messageHandle d) with
        | (conn, Some err) =>
            (conn, d, if is_already_acked err then Err ErrDeliverySettled
                      else Err (wrapf (what +:+ " " +:+ quote (msg_ID (nd_message d))) err))
        | (conn, None) =>
            (conn, mkNatsDelivery (nd_message d) (nd_deliveryCount d) (nd_messageHandle d) settles, Ok tt)
        end
  end.

Definition natsDelivery_Ack (ctx : context) (conn : Js) (d : natsDelivery Handle) :=
  delivery_call false true js_double_ack "acknowledge task message" ctx conn d.
Definition natsDelivery_Nack (ctx : context) (conn : Js) (d : natsDelivery Handle) :=
  delivery_call true true js_nak "negatively acknowledge task message" ctx conn d.
Definition natsDelivery_Progress (ctx : context) (conn : Js) (d : natsDelivery Handle) :=
  delivery_call true false js_in_progress "extend task message acknowledgement deadline" ctx conn d.
End Broker.
