(* ===== verification/NatsProps.v ===== *)
(** * Properties of the NATS broker

    A message that is published is the message that is received, deliveries settle at
    most once, subscriptions do not share a consumer, and a closed broker stays
    closed. *)
From S2P Require Import Prelude Workflow Errors Graph Run Ids RunStep Security FileStore FileStoreOps RateLimit Broker Engine EngineStore Projects Duration Handlers Options Events Manager Dto Http Server Config Nats.

(** ** Text *)

Section Text.
Context `{Unicode} `{UnicodeCase} `{UnicodeLower}.

Lemma byte_string_val (c : Ascii.ascii) : byte_string (byte_val c) = String c "".
Proof. unfold byte_string, byte_val. by rewrite N2Z.id, Ascii.ascii_N_embedding. Qed.

Lemma header_byte_small (b : Z) : header_byte b = true -> b < 128 /\ in_range 65 90 b = false.
Proof.
  unfold header_byte, header_punctuation, in_range. cbn [existsb].
  rewrite ?orb_true_iff, ?andb_true_iff, ?Z.eqb_eq, andb_false_iff. lia.
Qed.

(** A valid header name is its own lower-case form. *)
Lemma ToLower_header (name : string) : validHeaderName name = true -> ToLower name = name.
Proof.
  unfold validHeaderName. destruct (_ || _); [done|].
  induction name as [|c name IH]; cbn [bytes_of forallb]; [done|].
  intros [Hc Hn]%andb_true_iff. apply header_byte_small in Hc as [Hc Hu].
  unfold ToLower in *. rewrite runes_String_ascii by done. cbn [foldr]. rewrite (IH Hn).
  unfold Config.to_lower. rewrite Hu. destruct (Z.ltb_spec (byte_val c) 128); [|lia].
  unfold encode_rune. destruct (Z.ltb_spec (byte_val c) 128); [|lia]. by rewrite byte_string_val.
Qed.

(** An identifier holds no byte 0. *)
Lemma identifier_no_nul (s t : string) : validIdentifier (s +:+ String Ascii.zero t) = false.
Proof.
  apply not_true_iff_false. rewrite validIdentifier_runes, runes_ascii, forallb_app by done.
  cbn [forallb]. intros [_ Hg]. by rewrite !andb_true_iff in Hg; destruct Hg as (_ & Hz & _).
Qed.

Lemma nul_split (s1 s2 t1 t2 : string) :
  validIdentifier s1 = true -> validIdentifier s2 = true ->
  s1 +:+ String Ascii.zero t1 = s2 +:+ String Ascii.zero t2 -> s1 = s2 /\ t1 = t2.
Proof.
  intros V1 V2.
  assert (forall p a b, validIdentifier (p +:+ a) = true -> validIdentifier (p +:+ b) = true ->
    a +:+ String Ascii.zero t1 = b +:+ String Ascii.zero t2 -> a = b /\ t1 = t2) as Hgen; [|by apply (Hgen "")].
  clear V1 V2. intros p a. revert p. induction a as [|x a IH]; intros p [|y b] Va Vb [=]; subst.
  - done.
  - by rewrite identifier_no_nul in Vb.
  - by rewrite identifier_no_nul in Va.
  - destruct (IH (p +:+ String y "") b) as [-> ->]; [..|done|done];
      by rewrite app_assoc_string.
Qed.
End Text.

(** ** Headers *)

Section Headers.
Context `{UnicodeLower}.

Lemma task_headers_list (l : list (string * string)) :
  NoDup l.*1 ->
  (forall name value, (name, value) ∈ l -> isNATSControlHeader name = false -> ToLower name = name) ->
  foldl (fun (out : gmap string string) '(name, value) =>
           if isNATSControlHeader name then out else <[ToLower name := value]> out) ∅ l
  = filter (fun '(name, _) => isNATSControlHeader name = false) (list_to_map l).
Proof.
  induction l as [|[n v] l IH] using rev_ind; [done|]. rewrite fmap_app, foldl_snoc. intros Hnd Hl.
  apply NoDup_app in Hnd as (Hnd & Hdisj & _). rewrite IH; [|done|set_solver].
  assert (n ∉ l.*1) as Hn by (intros Hin; apply (Hdisj n Hin); set_solver).
  rewrite list_to_map_app. cbn [list_to_map foldr uncurry].
  rewrite <- (map_union_comm (<[n := v]> ∅)) by (apply map_disjoint_insert_l; split;
    [by apply not_elem_of_list_to_map|apply map_disjoint_empty_l]).
  rewrite insert_empty, <- insert_union_singleton_l.
  destruct (isNATSControlHeader n) eqn:Hc.
  - rewrite map_filter_insert_False by (by rewrite Hc). rewrite delete_id; [done|by apply not_elem_of_list_to_map].
  - rewrite map_filter_insert_True by done. by rewrite (Hl n v ltac:(set_solver) Hc).
Qed.

Lemma task_headers_filter (headers : gmap string string) :
  (forall name value, headers !! name = Some value -> isNATSControlHeader name = false -> ToLower name = name) ->
  task_headers headers = filter (fun '(name, _) => isNATSControlHeader name = false) headers.
Proof.
  intros Hh. unfold task_headers. rewrite task_headers_list, list_to_map_to_list; [done|apply NoDup_fst_map_to_list|].
  intros name value Hin%elem_of_map_to_list. eauto.
Qed.
End Headers.

(** ** Publishing and receiving *)

Section Broker.
Context `{Unicode} `{UnicodeCase} `{UnicodeLower} {Js Consumer Handle : Type} `{JetStream Js Consumer Handle}
  (sha256_hex : string -> string).

(** A value with no blank at either end: the header block of a NATS message is written
    like that of an HTTP message, where blanks around a value do not belong to it. *)
Definition unpadded (value : string) : bool :=
  match bytes_of value with
  | [] => true
  | first :: rest => forallb (fun b => negb ((b =? 32) || (b =? 9))) [first; List.last rest first]
  end.

(** What JetStream documents of a delivered message: it has the data and the headers
    of a publication, and the identity in its own header; further headers are control
    headers. A value with blanks around it may come back changed. *)
Definition carries (p : publication) (m : js_message Handle) : Prop :=
  jm_data m = pb_data p /\ jm_headers m !! MsgIDHeader = Some (pb_msg_id p)
  /\ forall name, isNATSControlHeader name = false ->
       match pb_headers p !! name with
       | Some value => if unpadded value then jm_headers m !! name = Some value else is_Some (jm_headers m !! name)
       | None => jm_headers m !! name = None
       end.

(** What is left of the headers of a message: those whose names do not begin with
    [nats-], with the values that have no blanks around them. *)
Definition kept_headers (sent received : gmap string string) : Prop :=
  forall name,
    match sent !! name with
    | Some value =>
        if isNATSControlHeader name then received !! name = None
        else if unpadded value then received !! name = Some value else is_Some (received !! name)
    | None => received !! name = None
    end.

Lemma kept_headers_same (sent received : gmap string string) :
  kept_headers sent received ->
  (forall name value, sent !! name = Some value -> isNATSControlHeader name = false /\ unpadded value = true) ->
  received = sent.
Proof.
  intros Hk Hs. apply map_eq. intros name. specialize (Hk name). destruct (sent !! name) as [value|] eqn:E; [|done].
  destruct (Hs _ _ E) as [Hc Hu]. by rewrite Hc, Hu in Hk.
Qed.

Lemma validateMessage_headers (message : TaskMessage) (name value : string) :
  validateMessage message = Ok tt -> msg_Headers message !! name = Some value -> validHeaderName name = true.
Proof.
  unfold validateMessage, guard_err. do 3 (case_match; [done|]).
  destruct (omap _ _) as [|e l] eqn:Ho; [|done]. intros _ Hm.
  destruct (validHeaderName name) eqn:Hv; [done|exfalso].
  assert (BrokerValidationError "header name" name "" ∈ ([] : list go_error)) as Hin; [|by apply not_elem_of_nil in Hin].
  rewrite <- Ho. apply list_elem_of_omap. exists (name, value). split; [by apply elem_of_map_to_list|].
  unfold header_error. by rewrite Hv.
Qed.

Lemma publish_sends (b b' : NATSBroker Js Consumer) (ctx : context) (message : TaskMessage) :
  NATSBroker_Publish sha256_hex b ctx message = (b', Ok tt) ->
  validateMessage message = Ok tt /\ nb_closed b = false
  /\ exists conn, js_publish (nb_conn b) (publication_of sha256_hex b message) = (conn, None) /\ b' = with_conn b conn.
Proof.
  unfold NATSBroker_Publish, ensureOpen, guard_err. cbn [rbind].
  destruct ctx; cbn [rbind]; [done|..]; (destruct (validateMessage message) as [[]|]; cbn [rbind]; [|done]);
    (destruct (nb_closed b); [done|]); destruct (js_publish _ _) as [conn [e|]] eqn:Hp; intros [= <-]; eauto.
Qed.

Lemma task_message_carried (b : NATSBroker Js Consumer) (message : TaskMessage) (m : js_message Handle) :
  validateMessage message = Ok tt -> carries (publication_of sha256_hex b message) m ->
  let received := task_message (msg_Topic message) m in
  msg_ID received = msg_ID message /\ msg_Topic received = msg_Topic message /\ msg_Body received = msg_Body message
  /\ kept_headers (msg_Headers message) (msg_Headers received).
Proof.
  intros Hv (Hd & Hid & Hh). unfold task_message. rewrite Hd, Hid. cbn [default pb_msg_id pb_data publication_of].
  cbn [publication_of pb_headers] in Hh. split_and!; [done..|]. cbn [msg_Headers]. rewrite task_headers_filter.
  - intros name. rewrite map_lookup_filter.
    assert (isNATSControlHeader name = true \/ isNATSControlHeader name = false) as [Hc|Hc]
      by (destruct (isNATSControlHeader name); auto).
    + destruct (jm_headers m !! name); simpl; [case_guard; [congruence|]|];
        destruct (msg_Headers message !! name); rewrite ?Hc; done.
    + specialize (Hh name Hc). destruct (msg_Headers message !! name) as [value|].
      * destruct (unpadded value); [rewrite Hh|destruct Hh as [v ->]]; simpl; (case_guard; [simpl|done]); rewrite Hc; (done || by eexists).
      * by rewrite Hh.
  - intros name value Hm Hc. specialize (Hh name Hc). destruct (msg_Headers message !! name) eqn:E; [|congruence].
    eapply ToLower_header, validateMessage_headers; eauto.
Qed.

Lemma receive_delivers (b b2 : NATSBroker Js Consumer) (ctx ctx_after : context) (has_deadline : bool)
    (subscription : Subscription) (d : natsDelivery Handle) :
  NATSBroker_Receive sha256_hex b ctx ctx_after has_deadline subscription = (b2, Ok d) ->
  exists b1 consumer m, broker_consumer sha256_hex b subscription = (b1, Ok consumer)
  /\ js_next (nb_conn b1) consumer = (nb_conn b2, Ok m)
  /\ jm_delivered m = Ok (nd_deliveryCount d)
  /\ d = mkNatsDelivery (task_message (sub_Topic subscription) m) (nd_deliveryCount d) (jm_handle m) false.
Proof.
  unfold NATSBroker_Receive, guard_err. destruct ctx; cbn [rbind]; [done|..];
    (destruct (validateSubscription _) as [[]|]; cbn [rbind]; [|done]);
    (destruct (broker_consumer _ _ _) as [b3 [consumer|]] eqn:Hc; [|done]);
    destruct (js_next _ _) as [conn [m|nextErr]] eqn:Hn;
    try (destruct (jm_delivered m) as [n|] eqn:Hd; cbn; [|done]; intros [= <- <-]; cbn; naive_solver);
    repeat case_match; done.
Qed.

(** C27: A message that [Publish] accepts was handed to JetStream in full, and when the
    message that JetStream delivers carries that publication, [Receive] returns the
    published message: identity, topic and body, and every header whose name does not
    begin with [nats-], with its value if that has no blank at either end. With only
    such headers, the received message is the published one. *)
Theorem nats_message_roundtrip (b b' b1 b2 : NATSBroker Js Consumer)
    (ctx ctx1 ctx_after : context) (has_deadline : bool) (message : TaskMessage) (subscription : Subscription)
    (d : natsDelivery Handle) :
  NATSBroker_Publish sha256_hex b ctx message = (b', Ok tt) ->
  NATSBroker_Receive sha256_hex b1 ctx1 ctx_after has_deadline subscription = (b2, Ok d) ->
  sub_Topic subscription = msg_Topic message ->
  (forall b3 consumer m, broker_consumer sha256_hex b1 subscription = (b3, Ok consumer) ->
     js_next (nb_conn b3) consumer = (nb_conn b2, Ok m) -> carries (publication_of sha256_hex b message) m) ->
  (exists conn, js_publish (nb_conn b) (publication_of sha256_hex b message) = (conn, None))
  /\ msg_ID (nd_message d) = msg_ID message /\ msg_Topic (nd_message d) = msg_Topic message
  /\ msg_Body (nd_message d) = msg_Body message /\ kept_headers (msg_Headers message) (msg_Headers (nd_message d))
  /\ nd_settled d = false
  /\ ((forall name value, msg_Headers message !! name = Some value ->
         isNATSControlHeader name = false /\ unpadded value = true) -> nd_message d = message).
Proof.
  intros (Hv & _ & conn & Hp & _)%publish_sends Hr Ht Hc.
  apply receive_delivers in Hr as (b3 & consumer & m & Hb & Hn & _ & ->). cbn [nd_message nd_settled]. rewrite Ht.
  destruct (task_message_carried b message m Hv (Hc _ _ _ Hb Hn)) as (Hid & Htopic & Hbody & Hk).
  split_and!; [by exists conn|done..|]. intros Hall. pose proof (kept_headers_same _ _ Hk Hall) as Hheaders.
  destruct (task_message _ m), message. cbn in *. congruence.
Qed.

(** ** Subscriptions *)

Inductive nats_step (b : NATSBroker Js Consumer) : NATSBroker Js Consumer -> Prop :=
| StepPublish ctx message b' r : NATSBroker_Publish sha256_hex b ctx message = (b', r) -> nats_step b b'
| StepReceive ctx ctx_after has_deadline subscription b' (r : res go_error (natsDelivery Handle)) :
    NATSBroker_Receive sha256_hex b ctx ctx_after has_deadline subscription = (b', r) -> nats_step b b'
| StepConnection conn : nats_step b (with_conn b conn)
| StepClose b' r : NATSBroker_Close b = (b', r) -> nats_step b b'.

(** The consumer that the server made for a subscription. *)
Definition made_for (b : NATSBroker Js Consumer) (subscription : Subscription) (consumer : Consumer) : Prop :=
  validateSubscription subscription = Ok tt
  /\ exists conn conn', js_consumer conn (nc_StreamName (nb_config b)) (durable_config sha256_hex b subscription)
       = (conn', Ok consumer).

Definition consumers_made (b : NATSBroker Js Consumer) : Prop :=
  forall key consumer, nb_consumers b !! key = Some consumer ->
    exists subscription, key = consumer_key subscription /\ made_for b subscription consumer.

Lemma consumer_key_inj (s1 s2 : Subscription) :
  validateSubscription s1 = Ok tt -> validateSubscription s2 = Ok tt -> consumer_key s1 = consumer_key s2 -> s1 = s2.
Proof.
  unfold validateSubscription, guard_err, consumer_key. destruct s1 as [c1 t1], s2 as [c2 t2]. cbn.
  destruct (validIdentifier c1) eqn:V1, (validIdentifier c2) eqn:V2; cbn; try done.
  intros _ _ Hk. by destruct (nul_split c1 c2 t1 t2 V1 V2 Hk) as [-> ->].
Qed.

(** [broker_consumer] keeps the configuration and returns a consumer of its
    subscription. *)
Lemma broker_consumer_made (b b' : NATSBroker Js Consumer) (subscription : Subscription) (r : res go_error Consumer) :
  consumers_made b -> validateSubscription subscription = Ok tt ->
  broker_consumer sha256_hex b subscription = (b', r) ->
  consumers_made b' /\ nb_config b' = nb_config b
  /\ forall consumer, r = Ok consumer -> made_for b subscription consumer.
Proof.
  intros Hb Hv. unfold broker_consumer. destruct (nb_closed b) eqn:Hcl; [by intros [= <- <-]|].
  destruct (nb_consumers b !! consumer_key subscription) as [c|] eqn:Hk.
  - intros [= <- <-]. split_and!; [done..|]. intros ? [= <-].
    destruct (Hb _ _ Hk) as (s & Hks & Hm). assert (s = subscription) as -> by (apply consumer_key_inj; [apply Hm|done..]). done.
  - destruct (js_consumer _ _ _) as [conn [c|err]] eqn:Hj; intros [= <- <-]; split_and!; try done.
    + intros key c'. cbn. rewrite lookup_insert_Some. intros [[<- <-]|[_ Hc]]; [|by apply Hb].
      exists subscription. split; [done|]. split; [done|]. by exists (nb_conn b), conn.
    + intros ? [= <-]. split; [done|]. by exists (nb_conn b), conn.
Qed.

Lemma receive_made (b b' : NATSBroker Js Consumer) (ctx ctx_after : context) (has_deadline : bool)
    (subscription : Subscription) (r : res go_error (natsDelivery Handle)) :
  consumers_made b -> NATSBroker_Receive sha256_hex b ctx ctx_after has_deadline subscription = (b', r) ->
  consumers_made b' /\ nb_config b' = nb_config b.
Proof.
  intros Hb. unfold NATSBroker_Receive, guard_err. destruct ctx; cbn [rbind]; [by intros [= <- _]|..];
    (destruct (validateSubscription subscription) as [[]|] eqn:Hv; cbn [rbind]; [|by intros [= <- _]]);
    destruct (broker_consumer _ _ _) as [b1 [c|err1]] eqn:Hc;
    destruct (broker_consumer_made _ _ _ _ Hb Hv Hc) as (Hm & Hcf & _);
    try (by intros [= <- _]);
    destruct (js_next _ _) as [conn next]; by intros [= <- _].
Qed.

Lemma nats_step_made (b b' : NATSBroker Js Consumer) :
  nats_step b b' -> consumers_made b ->
  consumers_made b' /\ nb_config b' = nb_config b.
Proof.
  intros [ctx message b1 r Hp|ctx ctx_after hd subscription b1 r Hr|conn|b1 r Hc] Hb.
  - revert Hp. unfold NATSBroker_Publish. case_match; [|by intros [= <- _]].
    destruct (js_publish _ _) as [conn [e|]]; by intros [= <- _].
  - destruct (receive_made _ _ _ _ _ _ _ Hb Hr) as (Hm & Hcf). done.
  - done.
  - revert Hc. unfold NATSBroker_Close. destruct (nb_closed b) eqn:Hcl; [by intros [= <- _]|].
    destruct (js_drain _) as [conn [e|]]; by intros [= <- _].
Qed.

Lemma nats_steps_made (b b' : NATSBroker Js Consumer) :
  rtc nats_step b b' -> consumers_made b ->
  consumers_made b' /\ nb_config b' = nb_config b.
Proof.
  induction 1 as [b|b b1 b2 Hst _ IH]; [done|]. intros Hb.
  destruct (nats_step_made _ _ Hst Hb) as (Hb1 & Hc1). destruct (IH Hb1) as (Hb2 & Hc2).
  split; [done|congruence].
Qed.

(** [OpenNATSBroker] returns an open broker and closes nothing, or closes the
    connection that it made, if it made one. *)
Lemma open_result (connect : string -> Z -> res go_error Js) (new : Js -> res go_error unit)
    (ctx ctx_connected : context) (remaining : option Z) (config : NATSConfig) closed
    (r : res go_error (NATSBroker Js Consumer)) :
  OpenNATSBroker connect new ctx ctx_connected remaining config = (closed, r) ->
  match r with
  | Ok b => closed = [] /\ nb_consumers b = ∅ /\ nb_closed b = false /\ nb_config b = config
            /\ NATSConfig_Validate config = Ok tt
  | Err _ => (length closed <= 1)%nat
  end.
Proof.
  unfold OpenNATSBroker, guard_err. destruct ctx; cbn [rbind]; [by intros [= <- <-]; cbn; lia|..];
    (destruct (NATSConfig_Validate config) as [[]|]; cbn [rbind ctx_err]; [|by intros [= <- <-]; cbn; lia]);
    repeat case_match; intros [= <- <-]; cbn; (lia || done).
Qed.

(** On a broker that was opened and then published to, received from by any
    number of subscriptions, closed or changed by the server in any order, a delivery
    is taken from a consumer that the server made under the durable name and for the
    subject of that very subscription; and if the digests of two subscriptions and of
    their topics do not collide, subscriptions with the same durable name are equal
    and topics with the same subject are equal. *)
Theorem nats_subscriptions_apart (connect : string -> Z -> res go_error Js) (new : Js -> res go_error unit)
    (octx octx_connected ctx ctx_after : context) (remaining : option Z) (config : NATSConfig)
    (b0 b b' : NATSBroker Js Consumer) (has_deadline : bool) (s : Subscription) (d : natsDelivery Handle) :
  OpenNATSBroker connect new octx octx_connected remaining config = ([], Ok b0) -> rtc nats_step b0 b ->
  NATSBroker_Receive sha256_hex b ctx ctx_after has_deadline s = (b', Ok d) ->
  (exists conn consumer m, made_for b s consumer /\ js_next conn consumer = (nb_conn b', Ok m)
     /\ nd_messageHandle d = jm_handle m)
  /\ forall s', validateSubscription s' = Ok tt ->
       (sha256_hex (consumer_key s) = sha256_hex (consumer_key s') -> consumer_key s = consumer_key s') ->
       (sha256_hex (sub_Topic s) = sha256_hex (sub_Topic s') -> sub_Topic s = sub_Topic s') ->
       (csc_durable (durable_config sha256_hex b s) = csc_durable (durable_config sha256_hex b s') -> s = s')
       /\ (broker_subject sha256_hex b (sub_Topic s) = broker_subject sha256_hex b (sub_Topic s')
           -> sub_Topic s = sub_Topic s').
Proof.
  intros (_ & He & _)%open_result Hsteps Hr. destruct (nats_steps_made _ _ Hsteps) as (Hb & _); [intros key c; by rewrite He|].
  assert (validateSubscription s = Ok tt) as Hv.
  { revert Hr. unfold NATSBroker_Receive. destruct ctx; [done|..]; cbn;
      destruct (validateSubscription s) as [[]|]; done. }
  apply receive_delivers in Hr as (b1 & consumer & m & Hc & Hn & _ & ->).
  destruct (broker_consumer_made _ _ _ _ Hb Hv Hc) as (_ & _ & Hm). split.
  - exists (nb_conn b1), consumer, m. split_and!; [by apply Hm|done|done].
  - intros s' Hv' Hk Ht. unfold durable_config, broker_subject, hashedName. cbn [csc_durable]. split.
    + intros Heq. repeat apply (inj (String.append _)) in Heq. apply consumer_key_inj; auto.
    + intros Heq. repeat apply (inj (String.append _)) in Heq. auto.
Qed.

Lemma nats_step_closed (b b' : NATSBroker Js Consumer) :
  nats_step b b' -> nb_closed b = true -> nb_closed b' = true.
Proof.
  intros [ctx message b1 r Hp|ctx ctx_after hd subscription b1 r Hr|conn|b1 r Hc] Hcl; [..|done|].
  - revert Hp. unfold NATSBroker_Publish. repeat case_match; by intros [= <- _].
  - revert Hr. unfold NATSBroker_Receive, broker_consumer. rewrite Hcl. repeat case_match; by intros [= <- _].
  - revert Hc. unfold NATSBroker_Close. rewrite Hcl. by intros [= <- _].
Qed.

(** [Close] succeeds or reports that draining failed, the broker is closed either
    way, and from then on, whatever else is called, [Publish] of a valid message,
    [Receive] and [Ping] with a live context report [ErrClosed] without a call to the
    server, and a further [Close] succeeds and does nothing. *)
Theorem nats_close_final (b b1 b2 : NATSBroker Js Consumer) (r : res go_error unit) :
  NATSBroker_Close b = (b1, r) -> rtc nats_step b1 b2 ->
  nb_closed b2 = true /\ NATSBroker_Close b2 = (b2, Ok tt)
  /\ NATSBroker_Ping b2 CtxLive = Err ErrBrokerClosed
  /\ (forall message, validateMessage message = Ok tt ->
        NATSBroker_Publish sha256_hex b2 CtxLive message = (b2, Err ErrBrokerClosed))
  /\ (forall subscription ctx_after has_deadline, validateSubscription subscription = Ok tt ->
        NATSBroker_Receive sha256_hex b2 CtxLive ctx_after has_deadline subscription = (b2, Err ErrBrokerClosed)).
Proof.
  intros Hc Hsteps. assert (nb_closed b1 = true) as Hcl1.
  { revert Hc. unfold NATSBroker_Close. destruct (nb_closed b) eqn:E; [by intros [= <- _]|].
    destruct (js_drain _) as [conn [e|]]; by intros [= <- _]. }
  assert (nb_closed b2 = true) as Hcl by (clear Hc; induction Hsteps; eauto using nats_step_closed).
  unfold NATSBroker_Close, NATSBroker_Ping, NATSBroker_Publish, NATSBroker_Receive, broker_consumer, ensureOpen.
  rewrite Hcl. split_and!; try done; [intros message Hv|intros subscription ??  Hv]; by rewrite Hv.
Qed.

(** ** Deliveries *)

Inductive delivery_op := OpAck | OpNack | OpProgress.

Definition delivery_apply (op : delivery_op) : context -> Js -> natsDelivery Handle ->
    Js * natsDelivery Handle * res go_error unit :=
  match op with
  | OpAck => natsDelivery_Ack
  | OpNack => natsDelivery_Nack
  | OpProgress => natsDelivery_Progress
  end.

(** The calls on one delivery in the order of its mutex, each with the connection as
    the call finds it. *)
Fixpoint delivery_session (calls : list (delivery_op * context * Js)) (d : natsDelivery Handle)
  : natsDelivery Handle * list (delivery_op * res go_error unit) :=
  match calls with
  | [] => (d, [])
  | (op, ctx, conn) :: calls =>
      let '(_, d, r) := delivery_apply op ctx conn d in
      let '(d, log) := delivery_session calls d in
      (d, (op, r) :: log)
  end.

Definition settlement (call : delivery_op * res go_error unit) : bool :=
  match call with (OpAck, Ok _) | (OpNack, Ok _) => true | _ => false end.

Definition settlements (log : list (delivery_op * res go_error unit)) : nat := length (List.filter settlement log).

Definition same_delivery (d d' : natsDelivery Handle) : Prop :=
  d' = mkNatsDelivery (nd_message d) (nd_deliveryCount d) (nd_messageHandle d) (nd_settled d').

Lemma delivery_apply_cases (op : delivery_op) (ctx : context) (conn conn' : Js) (d d' : natsDelivery Handle)
    (r : res go_error unit) :
  delivery_apply op ctx conn d = (conn', d', r) ->
  same_delivery d d'
  /\ (nd_settled d = true -> d' = d /\ conn' = conn /\ settlement (op, r) = false
        /\ (ctx = CtxLive -> r = Err ErrDeliverySettled))
  /\ (nd_settled d = false -> nd_settled d' = settlement (op, r)).
Proof.
  destruct op; cbn [delivery_apply]; unfold natsDelivery_Ack, natsDelivery_Nack, natsDelivery_Progress, delivery_call,
    guard_err; destruct ctx; cbn [rbind ctx_err]; destruct (nd_settled d) eqn:Hs;
    repeat case_match; intros [= <- <- <-]; (split_and!; [by destruct d|..]); cbn; rewrite ?Hs; done.
Qed.

Lemma delivery_session_settled (calls : list (delivery_op * context * Js)) (d : natsDelivery Handle) :
  let '(d', log) := delivery_session calls d in
  same_delivery d d' /\ settlements log = (if nd_settled d then 0 else if nd_settled d' then 1 else 0)%nat
  /\ (nd_settled d = true -> nd_settled d' = true).
Proof.
  revert d. induction calls as [|[[op ctx] conn] calls IH]; intros d; cbn [delivery_session].
  { split_and!; [by destruct d|by destruct (nd_settled d)|done]. }
  destruct (delivery_apply op ctx conn d) as [[conn' d1] r] eqn:Ha.
  apply delivery_apply_cases in Ha as (Hm & Hst & Hun).
  specialize (IH d1). destruct (delivery_session calls d1) as [d2 log].
  destruct IH as (Hm2 & Hcount & Hmono). unfold settlements in *. cbn [List.filter].
  split_and!; [unfold same_delivery in *; by rewrite Hm2, Hm|..].
  - destruct (nd_settled d) eqn:Hs.
    + destruct (Hst eq_refl) as (-> & _ & -> & _). by rewrite Hcount, Hs.
    + rewrite (Hun eq_refl) in Hcount, Hmono. destruct (settlement (op, r)); cbn [length]; rewrite Hcount; [|done].
      by rewrite (Hmono eq_refl).
  - intros Hs. destruct (Hst Hs) as (-> & _). auto.
Qed.

(** C28: Whatever [Ack], [Nack] and [Progress] calls are made on a delivery that
    [Receive] returned, with whatever contexts and whatever the server answers, at
    most one [Ack] or [Nack] succeeds; the delivery is settled exactly when one did,
    and then every further call fails without a call to the server, with
    [ErrDeliverySettled] when its context is live; until then a failed call leaves
    the delivery as it was, to be tried again. *)
Theorem nats_settles_once (b b' : NATSBroker Js Consumer) (ctx ctx_after : context) (has_deadline : bool)
    (subscription : Subscription) (d d' : natsDelivery Handle) (calls : list (delivery_op * context * Js)) log :
  NATSBroker_Receive sha256_hex b ctx ctx_after has_deadline subscription = (b', Ok d) ->
  delivery_session calls d = (d', log) ->
  (settlements log <= 1)%nat /\ (nd_settled d' = true <-> settlements log = 1%nat)
  /\ (nd_settled d' = true -> forall op conn, delivery_apply op CtxLive conn d' = (conn, d', Err ErrDeliverySettled))
  /\ (nd_settled d' = false -> d' = d).
Proof.
  intros Hr Hs. apply receive_delivers in Hr as (_ & _ & m & _ & _ & _ & Hd).
  pose proof (delivery_session_settled calls d) as Hc. rewrite Hs in Hc. destruct Hc as (Hm & Hc & _).
  replace (nd_settled d) with false in Hc by (by rewrite Hd).
  split_and!; [destruct (nd_settled d'); lia|destruct (nd_settled d'); split; (done || lia)|..].
  - intros Hs' op conn. destruct (delivery_apply op CtxLive conn d') as [[conn1 d1] r] eqn:Ha.
    apply delivery_apply_cases in Ha as (_ & Hst & _). by destruct (Hst Hs') as (-> & -> & _ & ->).
  - intros Hs'. by rewrite Hm, Hs', Hd.
Qed.
End Broker.
