(* ===== verification/ServerExamples.v ===== *)
(** * Concrete API requests

    A server with a project of two members and one of somebody else: the instances
    at which the guarantees of [ServerProps] are applied. *)
From S2P Require Import Prelude Workflow Heap Graph GraphBuild GraphOrder Errors Run Ids Snapshot SnapshotValid RunStep RunInv RunProps RunDurable RunTermination RunExamples Broker Security FileStore FileStoreOps FileStoreInv FileStoreJournal FileStoreProps FileStoreExamples RateLimit Engine EngineInv EngineProps EngineRuns EngineWorkers EngineStore EngineExamples Projects ProjectsProps Duration Handlers Options Events EventsProps EventsLog Manager Dto Http Server ServerProps Config.

#[local] Existing Instances ascii_unicode blank_codec comma_codec.

(** ** The server *)

Definition eve : User := mkUser "eve" "Eve" false 900.
Definition eve_project : Project := mkProject "solo" "Solo" "eve" 900 900.
Definition eve_admin : Membership := mkMembership "solo" "eve" RoleAdmin 900 900.

Definition tenant_ops : list store_op :=
  project_ops ++
  [OpCreateProject CtxLive eve eve_project eve_admin
     (mkAuditEvent "e9" "solo" "eve" "project.created" "project" "solo" 900 None)].
Definition tenants : file_state := run_ops no_files tenant_ops.

Lemma tenants_store : memory_inv (st_memory tenants) /\ integrity (st_memory tenants).
Proof. apply (reachable_store [] []). apply run_ops_any. Defined.

Definition demo_registry_h : HandlerRegistry := {["h" := NoopHandler]}.
Definition one_per_minute : FixedWindowRateLimiter := mkLimiter 1 (60 * Second) ∅ 0.

Definition server_over (files : file_state) (manager : runManager) : Server :=
  mkServer (mkObserved files newEventBroker []) one_per_minute demo_registry_h manager true.
Definition server : Server := server_over tenants newRunManager.



Definition json_body {A : Type} (payload : A) : body A := mkBody false 10 (Ok "application/json") (Decoded payload) DecodeEOF.

(** ** Starting a run *)

Definition bob_starts : api_request := request "bob" 1000 "".
Definition started : Server * res api_error RunResponse :=
  handleWorkflowRuns server bob_starts "POST" "demo" (json_body "r9") (Ok []).


(** ** Other tenants *)

Definition eve_asks : api_request := request "eve" 1000 "".

Lemma outsider_at s rq workflowID o :
  fs_ownerships (st_memory s) !! workflowID = Some o ->
  lookup_membership (st_memory s) (own_ProjectID o) (pr_UserID (rq_principal rq)) = None -> outsider s rq workflowID.
Proof. intros Ho Hm o' Ho'. rewrite Ho in Ho'. by apply (inj Some) in Ho' as <-. Defined.

Definition demo_owner : WorkflowOwnership := mkWorkflowOwnership "demo" "team" "bob" 955.

Lemma eve_outside : outsider tenants eve_asks "demo".
Proof. apply (outsider_at _ _ _ demo_owner); vm_compute; reflexivity. Defined.

(** The run [r9] that Bob started is closed to Eve. *)
Definition served : Server := server_over (sv_files (fst started)) (sv_manager (fst started)).

Definition r9_snapshot : WorkflowRunSnapshot := default (Snapshot demo_new) (fs_runs (st_memory (sv_files served)) !! "r9").

Lemma eve_outside_served : outsider (sv_files served) eve_asks "demo".
Proof. apply (outsider_at _ _ _ demo_owner); vm_compute; reflexivity. Defined.

Lemma r9_stored : fs_runs (st_memory (sv_files served)) !! "r9" = Some r9_snapshot /\ snap_WorkflowID r9_snapshot = "demo".
Proof. split; vm_compute; reflexivity. Defined.

Lemma eve_outside_r9 snapshot :
  fs_runs (st_memory (sv_files served)) !! "r9" = Some snapshot -> outsider (sv_files served) eve_asks (snap_WorkflowID snapshot).
Proof.
  rewrite (proj1 r9_stored). intros Hs. apply (inj Some) in Hs as <-. rewrite (proj2 r9_stored). exact eve_outside_served.
Defined.

Lemma foreign_resources_closed_witness :
  is_ok (handleRun served eve_asks "GET" "r9") = false /\ is_ok (handleRun served bob_starts "GET" "r9") = true /\
  exists e, handleRunCancellation served eve_asks "POST" "r9" = (served, Err e).
Proof.
  destruct (foreign_resources_closed served eve_asks "demo" "r9" "POST" "" true (json_body "x") (Ok []))
    as (_ & _ & _ & _ & Hcancel & _).
  - exact eve_outside_served.
  - exact eve_outside_r9.
  - destruct (foreign_resources_closed served eve_asks "demo" "r9" "GET" "" true (json_body "x") (Ok []))
      as (_ & Hget & _); [exact eve_outside_served|exact eve_outside_r9|].
    split; [exact Hget|]. split; [vm_compute; reflexivity|exact Hcancel].
Defined.

(** The workflow exists and the run does not: Eve can tell. *)
Lemma existence_revealed_witness :
  exists e e',
    handleWorkflow server eve_asks "GET" "demo" = Err e /\ handleRun server eve_asks "GET" "r9" = Err e' /\
    ae_code e = "project_not_found" /\ ae_code e' <> "project_not_found".
Proof.
  destruct (existence_revealed server eve_asks "demo" "r9") as (e & e' & Hw & Hr & Hwc & Hrc).
  - split; [done|]. exists eve. split; vm_compute; reflexivity.
  - apply tenants_store.
  - exact eve_outside.
  - intros snapshot. vm_compute. discriminate.
  - vm_compute. reflexivity.
  - vm_compute. reflexivity.
  - exists e, e'. split; [exact Hw|]. split; [exact Hr|]. split.
    + apply Hwc. eexists. vm_compute. reflexivity.
    + intros (snapshot & Hs & _)%Hrc. revert Hs. vm_compute. discriminate.
Defined.

(** ** A workflow that Bob creates *)

Definition etl : WorkflowRequest :=
  mkWorkflowRequest "etl" "team"
    [mkTaskPayload "load" "Load" [] "h" "" (mkRetryRequest 2 "1.5s" "");
     mkTaskPayload "report" "Report" ["load"] "h" "" (mkRetryRequest 0 "" "")].
Definition bob_creates : Server * res api_error WorkflowResponse :=
  handleWorkflows server bob_starts "POST" (json_body etl).

Lemma workflow_created_witness :
  exists d o,
    snd bob_creates = Ok (workflowDTO d o) /\ acyclic d /\ own_OwnerUserID o = "bob" /\
    st_memory (sv_files (fst bob_creates)) = with_owned_workflow (st_memory tenants) d o.
Proof.
  assert (E : exists resp, bob_creates = (fst bob_creates, Ok resp)) by (eexists; vm_compute; reflexivity).
  destruct E as [resp E].
  destruct (workflow_created server bob_starts "POST" (json_body etl) etl (fst bob_creates) resp)
    as (d & o & files & _ & _ & Hown & _ & Hacyclic & _ & _ & _ & Hsv & Hmem & Hresp).
  - apply tenants_store.
  - reflexivity.
  - repeat constructor; vm_compute; discriminate.
  - exact E.
  - exists d, o. split; [rewrite E, <- Hresp; reflexivity|]. split; [exact Hacyclic|]. split; [rewrite Hown; reflexivity|].
    rewrite Hsv. exact Hmem.
Defined.

(** ** Shutdown, cancellation and the rate limit *)

Definition shutting_down : Server := server_over tenants (fst (shutdown_begin newRunManager CtxLive)).
Definition r9_run : WorkflowRun :=
  match newWorkflowRun "r9" (cloneDefinition demo) 1000 with Ok r => r | Err _ => demo_new end.

Lemma refused_run_persists_witness :
  exists sv' e sv'' e',
    handleWorkflowRuns shutting_down bob_starts "POST" "demo" (json_body "r9") (Ok []) = (sv', Err e) /\
    ae_status e = StatusServiceUnavailable /\
    handleWorkflowRuns sv' bob_starts "POST" "demo" (json_body "r9") (Ok []) = (sv'', Err e') /\ ae_code e' = "run_exists".
Proof.
  destruct (refused_run_persists shutting_down bob_starts "POST" "demo" (json_body "r9") (Ok []) "r9" (cloneDefinition demo)
    r9_run (fst (observed_CreateRun (sv_store shutting_down) CtxLive (Snapshot r9_run)))
    (snapshot_with_version (Snapshot r9_run) 1)) as (sv' & e & sv'' & e' & H1 & H2 & _ & _ & _ & H3 & H4).
  - vm_compute. reflexivity.
  - vm_compute. reflexivity.
  - vm_compute. reflexivity.
  - reflexivity.
  - reflexivity.
  - exists sv', e, sv'', e'. split; [exact H1|]. split; [exact H2|]. split; [exact H3|exact H4].
Defined.

(** The run [r1] is stored and nobody executes it: Alice's cancellation starts a
    goroutine for it. *)
Definition with_r1 : file_state := run_ops no_files (tenant_ops ++ [OpCreateRun CtxLive CtxLive (Snapshot demo_new)]).
Definition idle : Server := server_over with_r1 newRunManager.
Definition alice_cancels : api_request := request "alice" 1100 "".
Definition canceled : Server * res api_error string := handleRunCancellation idle alice_cancels "POST" "r1".

Lemma cancellation_reaches_run_witness :
  exists g w, mg_active (sv_manager (fst canceled)) !! "r1" = Some g /\
    mg_workers (sv_manager (fst canceled)) !! g = Some w /\ wk_runID w = "r1" /\ wk_canceled w = true.
Proof.
  destruct (cancellation_reaches_run idle alice_cancels "POST" "r1" (fst canceled))
    as (_ & _ & g & w & _ & _ & _ & _ & Hactive & Hworker & Hrun & Hcanceled).
  - apply (reachable_store [] []). unfold idle, with_r1. apply run_ops_any.
  - apply manager_reachable, rtc_refl.
  - vm_compute. reflexivity.
  - exists g, w. split; [exact Hactive|]. split; [exact Hworker|]. split; [exact Hrun|exact Hcanceled].
Defined.

(** The engine has given up on [r1]; its goroutine is about to let go of the run. *)
Definition gave_up : runManager :=
  recover_record (fst (manager_start newRunManager CtxLive "r1")) 0 (Some (ErrText "broker unavailable")).
Definition r1_snapshot : WorkflowRunSnapshot := snapshot_with_version (Snapshot demo_new) 1.

Lemma gave_up_steps : rtc manager_step newRunManager gave_up.
Proof.
  eapply rtc_l; [exact (ms_start newRunManager CtxLive "r1")|]. apply rtc_once. unfold gave_up. eapply ms_record.
  - vm_compute. reflexivity.
  - reflexivity.
Defined.

Lemma cancellation_lost_witness :
  exists sv', handleRunCancellation (server_over with_r1 gave_up) alice_cancels "POST" "r1" = (sv', Ok "r1") /\
    forall g w, mg_workers (sv_manager sv') !! g = Some w -> wk_runID w = "r1" -> wk_phase w <> PhaseRunning.
Proof.
  apply (cancellation_lost (server_over with_r1 gave_up) alice_cancels "r1" r1_snapshot 0 (mkWorker "r1" false PhaseRecorded)).
  - exact gave_up_steps.
  - vm_compute. reflexivity.
  - vm_compute. reflexivity.
  - vm_compute. reflexivity.
  - reflexivity.
  - reflexivity.
Defined.

(** One call a minute: the second one, half a second later, is told to wait for 60
    seconds, and is admitted then. *)
Definition token_of (subject : string) : res go_error parsed_token := Ok (mkParsedToken true subject "").
Definition call_at (time : Z) : front_request := mkFront "/api/v1/projects" "Bearer bob" CtxLive time.
Definition first_call : Z := 63000000000 * Second.
Definition after_first : Server := fst (serveHTTP token_of server (call_at first_call)).
Definition second_call : Server * admission := serveHTTP token_of after_first (call_at (first_call + 500 * Millisecond)).
Definition refusal : api_error * list (string * string) :=
  match snd second_call with Refused e headers => (e, headers) | _ => (run_not_found, []) end.

Lemma retry_after_kept_witness :
  exists seconds,
    ("Retry-After", fmt_d seconds) ∈ snd refusal /\ 1 <= seconds /\ ae_status (fst refusal) = StatusTooManyRequests /\
    (first_call + 500 * Millisecond + seconds * Second <= first_call + 61 * Second ->
     exists sv'' headers', serveHTTP token_of (fst second_call) (call_at (first_call + 61 * Second)) =
       (sv'', AdmitPrincipal (mkPrincipal "bob" "bob") headers')).
Proof.
  apply (retry_after_kept token_of after_first (fst second_call) (call_at (first_call + 500 * Millisecond))
    (call_at (first_call + 61 * Second)) (mkPrincipal "bob" "bob") (fst refusal) (snd refusal)).
  - vm_compute. discriminate.
  - vm_compute. reflexivity.
  - vm_compute. reflexivity.
  - vm_compute. reflexivity.
  - vm_compute. reflexivity.
  - vm_compute. reflexivity.
  - vm_compute. discriminate.
Defined.

(** ** A process *)

(** ASCII settings only. *)
Definition ascii_upper : UnicodeCase := fun r => r.
Definition ascii_lower : UnicodeLower := fun r => r.
#[local] Existing Instances ascii_upper ascii_lower.

Definition demo_env (name : string) : string :=
  if String.eqb name "FORGEFLOW_JWT_PUBLIC_KEY" then " KEY "
  else if String.eqb name "FORGEFLOW_STORE" then "File"
  else if String.eqb name "FORGEFLOW_RATE_LIMIT_WINDOW" then "1m30s"
  else "".
Definition demo_url : string := "nats://127.0.0.1:4222".
Definition demo_config : ProcessConfig :=
  match ConfigFromEnv demo_url demo_env with Ok c => c | Err _ => DefaultConfig demo_url end.

Lemma valid_config_assembles_witness :
  exists sv e,
    assemble demo_config tenants NewInMemoryBroker (Ok (Some "key")) (Ok [1; 2; 3; 4; 5; 6; 7; 8]) demo_clock = Ok (sv, e) /\
    rl_window (sv_limiter sv) = cf_RateLimitWindow demo_config /\ cf_RateLimitWindow demo_config = 90 * Second /\
    en_workerCount e = cf_WorkerCount demo_config.
Proof.
  destruct (valid_config_assembles demo_url demo_config tenants NewInMemoryBroker "key" [1; 2; 3; 4; 5; 6; 7; 8] demo_clock)
    as (sv & e & Hrun & _ & _ & _ & _ & Hwindow & Hworkers & _).
  - vm_compute. reflexivity.
  - repeat constructor; vm_compute; (discriminate || reflexivity).
  - exists sv, e. split; [exact Hrun|]. split; [exact Hwindow|]. split; [vm_compute; reflexivity|exact Hworkers].
Defined.

Lemma secrets_redacted_witness :
  occurs "postgres://u:pw@db" "dial [REDACTED]: cannot reach [REDACTED]" = false.
Proof.
  apply (secrets_redacted (Some (ErrText "dial postgres://u:pw@db: cannot reach postgres://u:pw@db"))
    [""; " postgres://u:pw@db "] " postgres://u:pw@db " (ErrText "dial [REDACTED]: cannot reach [REDACTED]")).
  - right. left.
  - split; [vm_compute; discriminate|]. split; vm_compute; reflexivity.
  - vm_compute. reflexivity.
Defined.
