(* ===== verification/FrontendExamples.v ===== *)
(** * Concrete requests, streams and processes

    A request for a run with an escape in its path, with and without a token, and a
    client whose connection breaks, and a task that is delivered twice in one trace: the
    instances at which the guarantees of [FrontendProps], [Tracing], [Sse] and
    [Process] are applied. *)
From S2P Require Import Prelude Workflow Graph Errors Run Ids Snapshot RunStep RunExamples Broker BrokerProps BrokerExamples Security FileStore FileStoreOps FileStoreExamples RateLimit Engine EngineStore EngineExamples Projects ProjectsProps Duration Handlers Options Events EventsProps Metrics Manager EventsExamples Dto Http Server Config Mux Frontend FrontendProps Tracing Sse Process ServerExamples.

#[local] Existing Instances ascii_unicode ascii_upper ascii_lower blank_codec comma_codec.

Definition plain_text (p : payload) : option string := Some "{}".
Definition see_other (method path : string) : response := mkResponse [("Location", path)] [CallWriteHeader 301].

(** [%31] is the digit of the run [r1]. *)
Definition run_request (authorization : string) : http_request :=
  mkHttp "GET" "api/v1/runs/r%31" authorization "" CtxLive first_call bob_starts (Ok []) (Ok [10; 255]) None true None
    (3 * Millisecond) (json_body (mkWorkflowRequest "" "" [])) (json_body (mkCreateProject "" "")) (json_body "")
    (json_body (mkPutMembership "" RoleMember)) (json_body "").

Definition serve (authorization : string) : Frontend.served :=
  default (mkServed server NewMetrics (mkResponse [] []) None None)
    (ServeHTTP plain_text token_of see_other server NewMetrics (run_request authorization)).

Lemma serve_some (authorization : string) :
  match ServeHTTP plain_text token_of see_other server NewMetrics (run_request authorization) with Some _ => true | None => false end
  = true -> ServeHTTP plain_text token_of see_other server NewMetrics (run_request authorization) = Some (serve authorization).
Proof. unfold serve. by destruct (ServeHTTP _ _ _ _ _ _). Qed.

Lemma api_routes_authenticated_witness :
  sd_server (serve "Basic x") = server
  /\ sd_response (serve "Basic x") = with_headers [("X-Request-ID", "0aff")] (unauthenticated plain_text).
Proof.
  destruct (api_routes_authenticated plain_text token_of see_other server NewMetrics (run_request "Basic x") "api/v1/runs/r1"
    ErrUnauthenticated) as [_ Hrefused]; [vm_compute; reflexivity|].
  destruct (Hrefused ltac:(vm_compute; reflexivity) (serve "Basic x")) as (Hsame & _ & Hresponse).
  - apply serve_some. vm_compute. reflexivity.
  - split; [exact Hsame|]. apply (Hresponse [("runID", "r1")] "/api/v1/runs/{runID}"); vm_compute; reflexivity.
Defined.

(** The run is not there: the client reads [404], and so does the account. *)
Lemma request_accounted_witness :
  m_httpRequests (sd_metrics (serve "Bearer bob")) !! mkHttpKey "GET" "/api/v1/runs/{runID}" 404 = Some 1
  /\ routeValue "/api/v1/runs/{runID}" (url_path (run_request "Bearer bob")) "runID" = "r1".
Proof.
  destruct (request_accounted plain_text token_of see_other server NewMetrics (run_request "Bearer bob") "api/v1/runs/r1"
    "0aff" (serve "Bearer bob")) as (_ & Hcount & _ & _ & _ & Hvalue).
  - vm_compute. reflexivity.
  - vm_compute. reflexivity.
  - apply serve_some. vm_compute. reflexivity.
  - split.
    { rewrite Hcount.
      change (mkHttpKey "GET" "/api/v1/runs/{runID}" 404) with (mkHttpKey (hq_method (run_request "Bearer bob"))
        (snd (mux_handler (hq_method (run_request "Bearer bob")) (hq_path (run_request "Bearer bob")))) 404).
      replace (statusCode (observeResponse (rs_calls (sd_response (serve "Bearer bob"))))) with 404 by (vm_compute; reflexivity).
      unfold count_key. rewrite lookup_insert_eq. reflexivity. }
    apply (Hvalue [("runID", "r1")] "runID"); [vm_compute; reflexivity|vm_compute; discriminate|vm_compute; reflexivity].
Defined.

(** ** A broken connection *)

Definition encode_word (e : RunEvent) : res go_error string := Ok "{}".

(** The first connection sends two events, a keep-alive comment when task [a] has
    succeeded meanwhile, and the event of that; it breaks after the first frame. *)
Definition written_chunks : list chunk :=
  (ChunkEvent <$> take 2 (es_events (stream_of b_finished))) ++
  ChunkKeepAlive :: (ChunkEvent <$> drop 2 (es_events (stream_of b_finished))).

Lemma broken_connection :
  resumed encode_word "r1" b_finished (next_header encode_word "" (take 1 written_chunks))
    ([] ++ chunk_events (take 1 written_chunks)).
Proof.
  apply (resumed_connection encode_word "r1" b_leased "" [] (Snapshot run_leased) 0 b_finished written_chunks
    (SseWaiting 3 (es_notify (stream_of b_finished))) 1).
  - apply resumed_start. exact b_leased_steps.
  - vm_compute. reflexivity.
  - vm_compute. reflexivity.
  - eexists. vm_compute. reflexivity.
  - apply (streamed_keep_alive "r1" b_leased 0 b_finished b_finished (ChunkEvent <$> take 2 (es_events (stream_of b_finished)))
      2 waits_on 10); [|vm_compute; reflexivity].
    apply (streamed_other _ _ _ b_leased); [|exact (bs_observe b_leased (Snapshot run_finished))].
    apply (streamed_first "r1" b_leased 0 10). vm_compute. reflexivity.
  - vm_compute. repeat constructor.
Qed.

(** The client reconnects with the number of the first event and is sent the other two. *)
Lemma stream_resumes_witness :
  next_header encode_word "" (take 1 written_chunks) = "1" /\
  exists sequence, lastEventSequence "1" = Some sequence /\
    fst (snd (sse_round b_finished "r1" sequence 10)) = drop 1 (es_events (stream_of b_finished)) /\
    length (drop 1 (es_events (stream_of b_finished))) = 2%nat.
Proof.
  split; [vm_compute; reflexivity|].
  destruct (stream_resumes encode_word "r1" b_finished (next_header encode_word "" (take 1 written_chunks))
    ([] ++ chunk_events (take 1 written_chunks)) (Snapshot run_finished) (stream_of b_finished) 10)
    as (_ & sequence & Hseq & _ & Hround).
  - exact broken_connection.
  - vm_compute. reflexivity.
  - vm_compute. reflexivity.
  - vm_compute. reflexivity.
  - vm_compute. repeat constructor.
  - exists sequence. split_and!; [exact Hseq|exact Hround|vm_compute; reflexivity].
Defined.

(** ** A process *)

(** Everything comes up; the context is done, and the tracer fails with an address
    in its error when it goes down. *)
Definition demo_process (tracing_shutdown : option go_error) : process_env unit unit unit :=
  mkEnv _ _ _ (Ok tt) tracing_shutdown (Ok tt) (Ok tt) (fun _ _ => Ok tt) (Ok tt) None None
    (ContextDone false None (Some (ErrText "http: Server closed"))) None.

Definition server_closed (err : go_error) : bool := String.eqb (error_string err) "http: Server closed".

Definition demo_run (tracing_shutdown : option go_error) : outcome :=
  process_Run server_closed demo_url "" CtxLive true demo_config (demo_process tracing_shutdown).

Lemma process_lifecycle_witness :
  snd (demo_run None) = None
  /\ fst (demo_run None) = [Opened RTracing; Opened RStore; Opened RBroker; Opened RListener; Serving; ShutdownReturned;
       Closed RListener; Closed RBroker; Closed RStore; Closed RTracing]
  /\ forall e, snd (demo_run (Some (ErrText "flush to nats://127.0.0.1:4222"))) = Some e ->
       occurs "nats://127.0.0.1:4222" (error_string e) = false.
Proof.
  split_and!.
  - pose proof (process_lifecycle server_closed demo_url "" CtxLive true demo_config (demo_process None)) as Hrun.
    unfold demo_run. destruct (process_Run _ _ _ _ _ _ _) as [events err]. destruct Hrun as (_ & Hnone & _).
    apply Hnone. split_and!; [discriminate|reflexivity|vm_compute; reflexivity|].
    unfold clean_run. split_and!; try reflexivity; [by exists tt, tt|by split; vm_compute].
  - vm_compute. reflexivity.
  - intros e He.
    pose proof (process_lifecycle server_closed demo_url "" CtxLive true demo_config
      (demo_process (Some (ErrText "flush to nats://127.0.0.1:4222")))) as Hrun.
    unfold demo_run in He. destruct (process_Run _ _ _ _ _ _ _) as [events err]. destruct Hrun as (_ & _ & Hsecret).
    apply (Hsecret e "nats://127.0.0.1:4222"); [exact He|discriminate|reflexivity|vm_compute; reflexivity| |].
    + right. left.
    + split; [vm_compute; discriminate|]. split; vm_compute; reflexivity.
Defined.

(** ** A trace *)

(** Each span has the next number, in the trace of its parent or in the first one. *)
Definition numbered : provider := fun started parent =>
  Some (match parent with Some (t, _) => t | None => "trace" end, "span" +:+ fmt_d (Z.of_nat (length started))).

Definition two_headers : propagator := mkPropagator
  (fun v headers => match vl_span v with
                    | Some (t, s) => <["trace" := t]> (<["span" := s]> headers)
                    | None => headers
                    end)
  (fun v headers => match headers !! "trace", headers !! "span" with
                    | Some t, Some s => ContextWithSpan v (Some (t, s))
                    | _, _ => v
                    end).

#[local] Instance numbered_continues : Continues numbered.
Proof. intros started t s. by eexists. Qed.

#[local] Instance two_headers_carries : Carries two_headers.
Proof.
  split.
  - intros v v' [t s] Hv. cbn. by rewrite Hv.
  - intros v headers. cbn. by destruct (headers !! "trace"), (headers !! "span").
Qed.

Definition traced : Instrumentation := NewInstrumentation numbered two_headers (Some (fun r => [r])) None None None.

(** The request [q1] starts the run; the message of its first task is delivered,
    returned, published again without headers, and delivered to a scheduler that a
    second request [q2] started. *)
Definition spans_of (before : list (list span)) (n : nat) : list span := default [] (before !! n).

Definition unpublished : scheduler (observedStore file_state) := initial_scheduler with_run_r1 NewInMemoryBroker demo_new 0.
Definition client_headers : gmap string string := {["trace" := "client"; "span" := "c1"]}.
Definition submit (before : list (list span)) :=
  submit_and_publish traced (spans_of before) Background client_headers "q1" "POST" "/api/v1/runs" "r1" "w" CtxLive "a" unpublished.

(** The spans of the request, of the scheduler and of the publication. *)
Definition http : span := (submit []).1.1.1.
Definition recovering : span := (submit [[]; [http]]).1.1.2.
Definition submission := submit [[]; [http]; [http; recovering]].
Definition publishing : span := default http submission.1.2.
Definition dispatched : scheduler (observedStore file_state) :=
  match submission.2 with Next st _ | Exit st _ => st end.

Definition next_of (b : InMemoryBroker) : InMemoryBroker := or_new fst (Receive b CtxLive (taskSubscription "r1")).
Definition delivered_once : InMemoryBroker := next_of (sc_broker dispatched).
Definition first_message : TaskMessage :=
  default (mkTaskMessage "" "" "" ∅) (mb_messages (sc_broker dispatched) !! attempt_of "a").
Definition of_first (n : Z) : memoryDelivery :=
  mkDelivery (sub_ConsumerID (taskSubscription "r1"), sub_Topic (taskSubscription "r1")) first_message n.
Definition returned : InMemoryBroker := or_new id (Nack delivered_once CtxLive (of_first 1)).
Definition again : TaskMessage := mkTaskMessage (msg_ID first_message) (msg_Topic first_message) (msg_Body first_message) ∅.
Definition republished : InMemoryBroker := or_new id (Publish returned CtxLive again).

Definition second_request : values := (request_span traced [] Background ∅ "q2" "POST" "/api/v1/runs").1.
Definition started_run : WorkflowRunSnapshot :=
  match transitionWorkflow (setPersistedVersion demo_new 1) 5 WorkflowRunRunning with
  | Ok r => Snapshot r
  | Err _ => Snapshot demo_new
  end.
Definition execute_message (before : list (list span)) :=
  execute_and_save traced (spans_of before) second_request (of_first 2) "w" "r1" "a" (TaskRunIDFor "r1" "a") (attempt_of "a")
    the_worker with_run_r1 CtxLive started_run.
Definition before : list span := [http; recovering; publishing].
Definition executing : span := (execute_message [before]).1.
Definition saving := execute_message [before; before ++ [executing]].

Lemma worker_continues_trace_witness :
  child_of "client" publishing executing /\ child_of "client" executing saving.2.1.2 /\
  exists r, saving.2.2 = [r] /\ ("request_id", "q2") ∈ lg_attributes r /\ ("trace_id", "client") ∈ lg_attributes r.
Proof.
  destruct (worker_continues_trace traced (spans_of [[]; [http]; [http; recovering]])
    (spans_of [before; before ++ [executing]]) Background client_headers "q1" "POST" "/api/v1/runs" "q2" "client" "span0"
    http recovering (Some publishing) second_request "r1" "w" unpublished dispatched
    CtxLive CtxLive CtxLive "a" (default zeroTaskRun (run_tasks demo_new !! "a")) (taskSubscription "r1")
    republished (next_of republished) (of_first 2) with_run_r1 saving.2.1.1.1 started_run (snapshot_with_version started_run 2)
    executing saving.2.1.2 saving.2.2 the_worker) as (pub & Hpub & _ & _ & Htask & Hsave & Hlog).
  - vm_compute. reflexivity.
  - apply broker_inv_new.
  - vm_compute. reflexivity.
  - discriminate.
  - vm_compute. reflexivity.
  - vm_compute. reflexivity.
  - vm_compute. reflexivity.
  - apply not_elem_of_empty.
  - vm_compute. reflexivity.
  - eapply rtc_l; [eapply (bs_receive _ CtxLive (taskSubscription "r1") delivered_once (Delivered (of_first 1)))|].
    + apply counters_below_max_sound. vm_compute. reflexivity.
    + vm_compute. reflexivity.
    + eapply rtc_l; [apply (bs_nack _ CtxLive (of_first 1) returned); vm_compute; (discriminate || reflexivity)|].
      eapply rtc_l; [|apply rtc_refl]. apply (bs_publish _ CtxLive again republished). vm_compute. reflexivity.
  - vm_compute. reflexivity.
  - vm_compute. reflexivity.
  - vm_compute. reflexivity.
  - apply (inj Some) in Hpub as <-. split; [exact Htask|]. split; [exact Hsave|].
    destruct saving.2.2 as [|r [|r' l]] eqn:Hr; [vm_compute in Hr; discriminate| |vm_compute in Hr; discriminate].
    exists r. split; [reflexivity|].
    destruct (Hlog r) as (Hq & Ht & _); [left|]. split; [exact Hq|exact Ht].
Defined.
