(* ===== verification/NatsExamples.v ===== *)
(** * A concrete JetStream

    A stream that deduplicates by identity and hands every message to the consumers
    of its subject until it is acknowledged: the instance at which the guarantees of
    [NatsProps] are applied. *)
From S2P Require Import Prelude Workflow Errors Graph Run Ids RunStep RunExamples Security FileStore FileStoreOps RateLimit Broker Engine EngineStore Projects Duration Handlers Options Events Manager Dto Http Server Config ServerExamples Nats NatsProps.

#[local] Existing Instances ascii_unicode ascii_upper ascii_lower.

Record queue := mkQueue { q_messages : list publication; q_acked : list string }.

Definition find_message (subject : string) (q : queue) : option publication :=
  List.find (fun p => String.eqb (pb_subject p) subject && negb (existsb (String.eqb (pb_msg_id p)) (q_acked q)))
    (q_messages q).

Definition settle (q : queue) (id : string) : queue * option go_error :=
  if existsb (String.eqb id) (q_acked q) then (q, Some (ErrText "nats: message was already acknowledged"))
  else (mkQueue (q_messages q) (id :: q_acked q), None).

Definition queue_stream : JetStream queue string string := {|
  js_stream q _ := (q, None);
  js_publish q p :=
    (if existsb (fun p' => String.eqb (pb_msg_id p') (pb_msg_id p)) (q_messages q) then q
     else mkQueue (q_messages q ++ [p]) (q_acked q), None);
  js_consumer q _ config := (q, Ok (csc_filter_subject config));
  js_next q subject :=
    (q, match find_message subject q with
        | Some p => Ok (mkJsMessage (<[MsgIDHeader := pb_msg_id p]> (pb_headers p)) (pb_data p) (Ok 1) (pb_msg_id p))
        | None => Err (ErrText "nats: timeout")
        end);
  js_double_ack := settle;
  js_nak q _ := (q, None);
  js_in_progress q id :=
    (q, if existsb (String.eqb id) (q_acked q) then Some (ErrText "nats: message was already acknowledged") else None);
  js_connected _ := true;
  js_flush _ := None;
  js_drain q := (q, None);
  js_close q := q;
  is_timeout err := String.eqb (error_string err) "nats: timeout";
  is_already_acked err := String.eqb (error_string err) "nats: message was already acknowledged"
|}.
#[local] Existing Instance queue_stream.

(** The identity stands in for the digest: no two names collide. *)
Definition plain (value : string) : string := value.

Definition demo_nats : NATSConfig := DefaultNATSConfig demo_url.
Definition opened : NATSBroker queue string := mkNATSBroker (mkQueue [] []) demo_nats ∅ false.
Definition nats_message : TaskMessage := mkTaskMessage "m1" "tasks" "{}" {["traceparent" := "00-ab"; "nats-x" := "y"]}.
Definition plain_message : TaskMessage := mkTaskMessage "m2" "tasks" "{}" {["traceparent" := "00-ab"]}.
Definition workers : Subscription := mkSubscription "workers" "tasks".

Definition published (message : TaskMessage) : NATSBroker queue string :=
  fst (NATSBroker_Publish plain opened CtxLive message).
Definition received (message : TaskMessage) :
    NATSBroker queue string * res go_error (natsDelivery string) :=
  NATSBroker_Receive plain (published message) CtxLive CtxLive false workers.
Definition delivered (message : TaskMessage) : natsDelivery string :=
  mkNatsDelivery (mkTaskMessage (msg_ID message) (msg_Topic message) (msg_Body message)
    (filter (fun '(name, _) => isNATSControlHeader name = false) (msg_Headers message))) 1 (msg_ID message) false.

Lemma next_carries (q q' : queue) (subject : string) (p : publication) (m : js_message string) :
  js_next q subject = (q', Ok m) -> find_message subject q = Some p -> carries p m.
Proof.
  cbn. intros [= _ Hm] Hf. rewrite Hf in Hm. injection Hm as <-. split; [done|]. split; [apply lookup_insert_eq|].
  intros name Hn. cbn. rewrite lookup_insert_ne by (by intros <-). destruct (pb_headers p !! name) as [value|]; [|done].
  destruct (unpadded value); [done|by eexists].
Qed.

Definition asked (message : TaskMessage) : NATSBroker queue string * res go_error string :=
  broker_consumer plain (published message) workers.

Lemma received_carries (message : TaskMessage) (b3 b2 : NATSBroker queue string) (consumer : string) (m : js_message string) :
  snd (asked message) = Ok (broker_subject plain opened "tasks") ->
  find_message (broker_subject plain opened "tasks") (nb_conn (fst (asked message))) = Some (publication_of plain opened message) ->
  broker_consumer plain (published message) workers = (b3, Ok consumer) ->
  js_next (nb_conn b3) consumer = (nb_conn b2, Ok m) -> carries (publication_of plain opened message) m.
Proof.
  unfold asked. intros Hs Hf Hb Hn. rewrite Hb in Hs, Hf. cbn [fst snd] in Hs, Hf. injection Hs as ->.
  by eapply next_carries.
Qed.

(** The control header is dropped on the way, the other one arrives. *)
Lemma nats_message_roundtrip_witness :
  kept_headers (msg_Headers nats_message) (msg_Headers (nd_message (delivered nats_message)))
  /\ msg_Headers (nd_message (delivered nats_message)) = {["traceparent" := "00-ab"]}
  /\ nd_message (delivered plain_message) = plain_message.
Proof.
  split_and!.
  - destruct (nats_message_roundtrip plain opened (published nats_message) (published nats_message)
      (fst (received nats_message)) CtxLive CtxLive CtxLive false nats_message workers (delivered nats_message))
      as (_ & _ & _ & _ & Hk & _).
    + vm_compute. reflexivity.
    + vm_compute. reflexivity.
    + reflexivity.
    + intros b3 consumer m. apply received_carries; vm_compute; reflexivity.
    + exact Hk.
  - vm_compute. reflexivity.
  - destruct (nats_message_roundtrip plain opened (published plain_message) (published plain_message)
      (fst (received plain_message)) CtxLive CtxLive CtxLive false plain_message workers (delivered plain_message))
      as (_ & _ & _ & _ & _ & _ & Hsame).
    + vm_compute. reflexivity.
    + vm_compute. reflexivity.
    + reflexivity.
    + intros b3 consumer m. apply received_carries; vm_compute; reflexivity.
    + apply Hsame. intros name value Hn. cbn [plain_message msg_Headers] in Hn.
      apply lookup_singleton_Some in Hn as [<- <-]. split; vm_compute; reflexivity.
Defined.

Definition first_calls : list (delivery_op * context * queue) :=
  let q := nb_conn (fst (received nats_message)) in
  [(OpProgress, CtxLive, q); (OpNack, CtxDone ErrContextCanceled, q); (OpAck, CtxLive, mkQueue [] ["m1"]);
   (OpAck, CtxLive, q); (OpNack, CtxLive, q)].

(** A progress, a cancelled [Nack], an [Ack] that comes too late for the server, the
    [Ack] that settles, and a [Nack] after it. *)
Lemma nats_settles_once_witness :
  settlements (snd (delivery_session first_calls (delivered nats_message))) = 1%nat
  /\ forall op conn, delivery_apply op CtxLive conn (fst (delivery_session first_calls (delivered nats_message)))
       = (conn, fst (delivery_session first_calls (delivered nats_message)), Err ErrDeliverySettled).
Proof.
  destruct (nats_settles_once plain (published nats_message) (fst (received nats_message)) CtxLive CtxLive false workers
    (delivered nats_message) (fst (delivery_session first_calls (delivered nats_message))) first_calls
    (snd (delivery_session first_calls (delivered nats_message)))) as (_ & Hiff & Hlater & _).
  - vm_compute. reflexivity.
  - vm_compute. reflexivity.
  - split; [apply Hiff|apply Hlater]; vm_compute; reflexivity.
Defined.

Lemma nats_subscriptions_apart_witness :
  (exists consumer, made_for plain (published nats_message) workers consumer)
  /\ csc_durable (durable_config plain opened workers)
     <> csc_durable (durable_config plain opened (mkSubscription "work" "erstasks")).
Proof.
  destruct (nats_subscriptions_apart plain (fun _ _ => Ok (mkQueue [] [])) (fun _ => Ok tt) CtxLive CtxLive CtxLive CtxLive
    None demo_nats opened (published nats_message) (fst (received nats_message)) false workers (delivered nats_message))
    as ((_ & consumer & _ & Hmade & _) & Hapart).
  - vm_compute. reflexivity.
  - apply rtc_once. eapply (StepPublish _ _ CtxLive nats_message). vm_compute. reflexivity.
  - vm_compute. reflexivity.
  - split; [by exists consumer|]. intros Heq.
    destruct (Hapart (mkSubscription "work" "erstasks")) as [Hsub _]; [vm_compute; reflexivity|done|done|].
    discriminate (Hsub Heq).
Defined.

Lemma nats_close_final_witness :
  NATSBroker_Publish plain (fst (NATSBroker_Close (published nats_message))) CtxLive plain_message
  = (fst (NATSBroker_Close (published nats_message)), Err ErrBrokerClosed).
Proof.
  destruct (nats_close_final plain (published nats_message) (fst (NATSBroker_Close (published nats_message)))
    (fst (NATSBroker_Close (published nats_message))) (Ok tt)) as (_ & _ & _ & Hpublish & _).
  - vm_compute. reflexivity.
  - apply rtc_refl.
  - apply Hpublish. vm_compute. reflexivity.
Defined.
